(** * Monthly seasonality analyser: the analytical core of [app.py]

    A shallow embedding of the data-processing functions of [app.py]
    (normalisation of provider tables, monthly resampling, monthly returns,
    per-month statistics, the opposite-direction correlation search and the
    sector aggregation), together with the properties stated about them.

    Numbers.  The program computes with binary floating point; the embedding
    computes with rationals ([Q]), and a missing value (pandas' NaN) is
    [None].  Equalities between computed values are therefore stated up to
    [Qeq] or on reduced fractions. *)

From Stdlib Require Import String List ZArith QArith Qround Lia Lqa.
From Stdlib Require Import Bool Permutation Sorted.
Import ListNotations.

Local Open Scope string_scope.
Local Open Scope list_scope.
Local Open Scope Z_scope.

(* ------------------------------------------------------------------ *)
(** ** Dates, numbers and rounding *)

(** A timestamp of an index; only [.year] and [.month] are read by the
    analytical code, the day matters for the daily provider series. *)
Record date := mkdate { year : Z; month : Z; day : Z }.

Definition date_eqb (a b : date) : bool :=
  (year a =? year b) && (month a =? month b) && (day a =? day b).

(** [v > 0] and [v < 0] on values. *)
Definition ispos (v : Q) : bool :=
  match (0 ?= v)%Q with Lt => true | _ => false end.

Definition isneg (v : Q) : bool :=
  match (v ?= 0)%Q with Lt => true | _ => false end.

(** Round to the nearest integer, halves to the even neighbour. *)
Definition rint (x : Q) : Z :=
  let f := Qfloor x in
  match (x - inject_Z f ?= 1 # 2)%Q with
  | Lt => f
  | Gt => f + 1
  | Eq => if Z.even f then f else f + 1
  end.

(** [round(x, n)] on a numpy float: scale by [10^n], round, scale back. *)
Definition round_nd (x : Q) (n : nat) : Q :=
  Qred (inject_Z (rint (x * inject_Z (10 ^ Z.of_nat n))) / inject_Z (10 ^ Z.of_nat n)).

(** [round] applied to a value that may be NaN. *)
Definition round_opt (x : option Q) (n : nat) : option Q :=
  option_map (fun q => round_nd q n) x.

Definition count_if {A : Type} (f : A -> bool) (l : list A) : nat :=
  length (filter f l).

Definition Qsum (l : list Q) : Q := fold_right Qplus 0%Q l.

(** [Series.mean()] of a series without NaN; NaN on the empty series. *)
Definition mean (l : list Q) : option Q :=
  match l with
  | [] => None
  | _ => Some (Qsum l / inject_Z (Z.of_nat (length l)))%Q
  end.

(* ------------------------------------------------------------------ *)
(** ** Tables of monthly values *)

(** A [pd.DataFrame] of floats: the column labels and the rows, each row
    the index timestamp and one cell per column; [None] is NaN. *)
Definition row : Type := date * list (option Q).

Record DataFrame := mkDataFrame {
  columns : list string;
  rows : list row
}.

Definition index (df : DataFrame) : list date := map fst (rows df).

(** A series with its index, as [df[ticker]] gives it. *)
Definition Series : Type := list (date * option Q).

Fixpoint index_of (t : string) (cols : list string) : option nat :=
  match cols with
  | [] => None
  | c :: rest =>
      if String.eqb t c then Some O
      else option_map S (index_of t rest)
  end.

(** [df[ticker]]: [None] stands for the [KeyError] of a missing label.
    The labels of a table are distinct ([download_data] builds it from a
    dictionary), so the label names one column. *)
Definition getitem (df : DataFrame) (ticker : string) : option Series :=
  match index_of ticker (columns df) with
  | Some j => Some (map (fun r : row => (fst r, nth j (snd r) None)) (rows df))
  | None => None
  end.

(** [.dropna()] on a series. *)
Fixpoint dropna (s : Series) : list (date * Q) :=
  match s with
  | [] => []
  | (d, Some v) :: rest => (d, v) :: dropna rest
  | (_, None) :: rest => dropna rest
  end.

(** The cell at a timestamp and a column; NaN when the row or the column
    is not in the table. *)
Definition cell (df : DataFrame) (d : date) (ticker : string) : option Q :=
  match index_of ticker (columns df),
        find (fun r : row => date_eqb d (fst r)) (rows df) with
  | Some j, Some r => nth j (snd r) None
  | _, _ => None
  end.

(* ------------------------------------------------------------------ *)
(** ** A table read by its rows

    What the properties say of a column, of a month and of a count is
    stated on the rows of the table themselves, with the functions of the
    standard library only; the definitions of this section are used by no
    function that models the program. *)

(** The column that a label names is at the first position that carries
    the label. *)
Definition spec_position (df : DataFrame) (t : string) (j : nat) : Prop :=
  nth_error (columns df) j = Some t /\
  forall i, (i < j)%nat -> nth_error (columns df) i <> Some t.

(** The present values of the column at position [j], each with the
    timestamp of its row, in the order of the rows. *)
Definition spec_column (df : DataFrame) (j : nat) : list (date * Q) :=
  flat_map (fun r : row =>
              match nth j (snd r) None with
              | Some v => [(fst r, v)]
              | None => []
              end)
    (rows df).

(** The present values of a column in a calendar month. *)
Definition spec_month_returns (df : DataFrame) (j : nat) (m : Z) : list Q :=
  map snd (filter (fun x : date * Q => month (fst x) =? m) (spec_column df j)).

(** Strictly above and strictly below zero. *)
Definition spec_up (v : Q) : bool := negb (Qle_bool v 0).

Definition spec_down (v : Q) : bool := negb (Qle_bool 0 v).

(** Sum over count. *)
Definition spec_mean (ws : list Q) : Q :=
  (fold_right Qplus 0 ws / inject_Z (Z.of_nat (length ws)))%Q.

(** The numbers among values that may be NaN. *)
Definition spec_present (l : list (option Q)) : list Q :=
  flat_map (fun o : option Q => match o with Some q => [q] | None => [] end) l.

(* ------------------------------------------------------------------ *)
(** ** compute_monthly_returns *)

(** One cell of [pct_change(fill_method=None)]: the value over the value of
    the row before, minus one; NaN when either is NaN (nothing is filled).
    Prices are positive; over a zero price the float is infinite or NaN,
    which the rationals do not render, so the properties below ask for a
    price that is not zero. *)
Definition pct_cell (prev cur : option Q) : option Q :=
  match prev, cur with
  | Some pp, Some p => Some (p / pp - 1)%Q
  | _, _ => None
  end.

Fixpoint map2 {A B C : Type} (f : A -> B -> C) (l1 : list A) (l2 : list B) : list C :=
  match l1, l2 with
  | a :: r1, b :: r2 => f a b :: map2 f r1 r2
  | _, _ => []
  end.

Fixpoint pct_rows (prev : list (option Q)) (rs : list row) : list row :=
  match rs with
  | [] => []
  | (d, cur) :: rest => (d, map2 pct_cell prev cur) :: pct_rows cur rest
  end.

(** [prices.pct_change(fill_method=None)]: the first row is all NaN. *)
Definition pct_change (df : DataFrame) : DataFrame :=
  mkDataFrame (columns df)
    match rows df with
    | [] => []
    | (d, c) :: rest => (d, map (fun _ => None) c) :: pct_rows c rest
    end.

(** [df * k], cell by cell. *)
Definition df_mul (df : DataFrame) (k : Q) : DataFrame :=
  mkDataFrame (columns df)
    (map (fun r : row => (fst r, map (option_map (fun v => v * k)%Q) (snd r))) (rows df)).

Definition is_some {A : Type} (o : option A) : bool :=
  match o with Some _ => true | None => false end.

(** [df.dropna(how="all")]: rows whose cells are all NaN go. *)
Definition dropna_all (df : DataFrame) : DataFrame :=
  mkDataFrame (columns df)
    (filter (fun r : row => existsb is_some (snd r)) (rows df)).

Definition compute_monthly_returns (prices : DataFrame) : DataFrame :=
  let returns := df_mul (pct_change prices) 100 in
  dropna_all returns.

(** The return table as the specification words it: each present price is
    compared with the most recent earlier present price of its column,
    whatever number of absent months lies between. *)
Fixpoint spec_returns_col (last : option Q) (col : Series) : Series :=
  match col with
  | [] => []
  | (d, None) :: rest => (d, None) :: spec_returns_col last rest
  | (d, Some p) :: rest =>
      (d, match last with
          | Some pp => Some (100 * (p - pp) / pp)%Q
          | None => None
          end) :: spec_returns_col (Some p) rest
  end.

Definition spec_return_cell (prices : DataFrame) (d : date) (ticker : string) : option Q :=
  match getitem prices ticker with
  | Some col =>
      match find (fun x : date * option Q => date_eqb d (fst x)) (spec_returns_col None col) with
      | Some x => snd x
      | None => None
      end
  | None => None
  end.

(** Two instruments over three months; the first has no price in February. *)
Definition gap_prices : DataFrame :=
  mkDataFrame ["AAA"; "BBB"]
    [ (mkdate 2020 1 31, [Some 10%Q; Some 1%Q]);
      (mkdate 2020 2 29, [None; Some 2%Q]);
      (mkdate 2020 3 31, [Some 12%Q; Some 3%Q]) ].

(* ------------------------------------------------------------------ *)
(** ** Exceptions *)

(** The faults the modelled code can raise: a missing dictionary key or
    column label, a position outside a table, and the mean of a column of
    text. *)
Inductive exn :=
| KeyError
| IndexError
| TypeError.

(** A computation that returns a value or raises. *)
Definition M (A : Type) : Type := (exn + A)%type.

Definition ret {A : Type} (a : A) : M A := inr a.

Definition raise {A : Type} (e : exn) : M A := inl e.

Definition bind {A B : Type} (c : M A) (k : A -> M B) : M B :=
  match c with
  | inl e => inl e
  | inr a => k a
  end.

Notation "x <- c ;; k" := (bind c (fun x => k))
  (at level 61, c at next level, right associativity).

(** A loop whose body appends rows to [rows] and may raise. *)
Fixpoint concatM {A : Type} (l : list (M (list A))) : M (list A) :=
  match l with
  | [] => ret []
  | c :: rest =>
      xs <- c ;;
      ys <- concatM rest ;;
      ret (xs ++ ys)
  end.

(** [d[k]] on a dictionary. *)
Fixpoint dict_get {V : Type} (d : list (Z * V)) (k : Z) : M V :=
  match d with
  | [] => raise KeyError
  | (k', v) :: rest => if k =? k' then ret v else dict_get rest k
  end.

Definition MONTHS_ES : list (Z * string) :=
  [ (1, "Enero"); (2, "Febrero"); (3, "Marzo"); (4, "Abril");
    (5, "Mayo"); (6, "Junio"); (7, "Julio"); (8, "Agosto");
    (9, "Septiembre"); (10, "Octubre"); (11, "Noviembre"); (12, "Diciembre") ].

(** [range(1, 13)]. *)
Definition range_1_13 : list Z := [1; 2; 3; 4; 5; 6; 7; 8; 9; 10; 11; 12].

(** [df[ticker]], raising on a missing label. *)
Definition getitemM (df : DataFrame) (ticker : string) : M Series :=
  match getitem df ticker with
  | Some s => ret s
  | None => raise KeyError
  end.

(* ------------------------------------------------------------------ *)
(** ** Provider tables and _extract_close_series *)

(** A cell of a provider table: a number, or anything [pd.to_numeric]
    cannot convert (text, None, NaN), which [errors="coerce"] turns to NaN.
    Text that reads as a number is the number it reads as. *)
Inductive raw :=
| Num (q : Q)
| NotNum (s : string).

(** Column labels: plain, or a two-level [pd.MultiIndex]. *)
Inductive labels :=
| Flat (l : list string)
| Multi (l : list (string * string)).

(** A provider table, column by column.  Nothing forces [raw_data] to have
    one column per label: a table that has fewer is malformed. *)
Record RawFrame := mkRawFrame {
  raw_index : list date;
  raw_columns : labels;
  raw_data : list (list raw)
}.

Definition n_labels (c : labels) : nat :=
  match c with
  | Flat l => length l
  | Multi l => length l
  end.

(** [df.empty]: an axis of length zero. *)
Definition raw_empty (df : RawFrame) : bool :=
  (length (raw_index df) =? 0)%nat || (n_labels (raw_columns df) =? 0)%nat.

Definition mem (s : string) (l : list string) : bool :=
  existsb (String.eqb s) l.

(** [df[key]] on a two-level header selects the columns whose first level
    is [key]; what is left is the second level with the position of each
    column in the table. *)
Definition SubFrame : Type := list (string * nat).

Definition with_pos {A : Type} (l : list A) : list (A * nat) :=
  combine l (seq 0 (length l)).

Definition sub_level0 (l : list (string * string)) (key : string) : SubFrame :=
  map (fun x : string * string * nat => (snd (fst x), snd x))
    (filter (fun x : string * string * nat => String.eqb (fst (fst x)) key) (with_pos l)).

(** [sub[key]], then the first column when several carry the label. *)
Definition sub_getitem (sub : SubFrame) (key : string) : M nat :=
  match find (fun x : string * nat => String.eqb (fst x) key) sub with
  | Some x => ret (snd x)
  | None => raise KeyError
  end.

(** [sub.iloc[:, 0]]. *)
Definition sub_iloc0 (sub : SubFrame) : M nat :=
  match sub with
  | x :: _ => ret (snd x)
  | [] => raise IndexError
  end.

Definition pair_eqb (a b : string * string) : bool :=
  String.eqb (fst a) (fst b) && String.eqb (snd a) (snd b).

(** Where the closing-price column stands: [ret None] is the source's
    [return None] (no convention matches). *)
Definition locate_close (cols : labels) (ticker : string) : M (option nat) :=
  match cols with
  | Multi l =>
      let lvl0 := map fst l in
      let lvl1 := map snd l in
      if mem "Close" lvl0 then
        let sub := sub_level0 l "Close" in
        if mem ticker (map fst sub) then
          p <- sub_getitem sub ticker ;; ret (Some p)
        else
          p <- sub_iloc0 sub ;; ret (Some p)
      else if mem ticker lvl0 then
        let sub := sub_level0 l ticker in
        if mem "Close" (map fst sub) then
          p <- sub_getitem sub "Close" ;; ret (Some p)
        else
          p <- sub_iloc0 sub ;; ret (Some p)
      else if mem "Close" lvl1 then
        let cols_with_close := filter (fun c : string * string => String.eqb (snd c) "Close") l in
        match cols_with_close with
        | c :: _ =>
            match find (fun x : string * string * nat => pair_eqb (fst x) c) (with_pos l) with
            | Some x => ret (Some (snd x))
            | None => raise KeyError
            end
        | [] => raise IndexError
        end
      else ret None
  | Flat l =>
      if mem "Close" l then
        match index_of "Close" l with
        | Some p => ret (Some p)
        | None => raise KeyError
        end
      else if mem ticker l then
        match index_of ticker l with
        | Some p => ret (Some p)
        | None => raise KeyError
        end
      else ret None
  end.

(** The column at a position, with the index. *)
Definition column_at (df : RawFrame) (p : nat) : M (list (date * raw)) :=
  match nth_error (raw_data df) p with
  | Some c => ret (combine (raw_index df) c)
  | None => raise IndexError
  end.

(** [pd.to_numeric(series, errors="coerce")]. *)
Definition to_numeric (s : list (date * raw)) : Series :=
  map (fun x : date * raw =>
         (fst x, match snd x with Num q => Some q | NotNum _ => None end)) s.

(** A series of numbers, no NaN left. *)
Definition NumSeries : Type := list (date * Q).

(** The body of the [try] block. *)
Definition extract_close_try (df : RawFrame) (ticker : string) : M (option NumSeries) :=
  loc <- locate_close (raw_columns df) ticker ;;
  match loc with
  | None => ret None
  | Some p =>
      series <- column_at df p ;;
      let series := dropna (to_numeric series) in
      ret (if (0 <? length series)%nat then Some series else None)
  end.

(** [_extract_close_series]: [df is None or df.empty] gives None, and so
    does any exception of the body ([except Exception: return None]). *)
Definition _extract_close_series (df : option RawFrame) (ticker : string) : option NumSeries :=
  match df with
  | None => None
  | Some df =>
      if raw_empty df then None
      else
        match extract_close_try df ticker with
        | inr r => r
        | inl _ => None
        end
  end.

(** The entries of a raw column that convert to a number, in order. *)
Fixpoint numeric_entries (s : list (date * raw)) : NumSeries :=
  match s with
  | [] => []
  | (d, Num q) :: rest => (d, q) :: numeric_entries rest
  | (_, NotNum _) :: rest => numeric_entries rest
  end.

(* ------------------------------------------------------------------ *)
(** ** download_data: the monthly series of one instrument *)

Definition is_leap (y : Z) : bool :=
  ((y mod 4 =? 0) && negb (y mod 100 =? 0)) || (y mod 400 =? 0).

Definition days_in_month (y m : Z) : Z :=
  if m =? 2 then (if is_leap y then 29 else 28)
  else if (m =? 4) || (m =? 6) || (m =? 9) || (m =? 11) then 30
  else 31.

(** The label of a monthly bin of [resample("ME")]. *)
Definition month_end (y m : Z) : date := mkdate y m (days_in_month y m).

Definition ym_ltb (y m y' m' : Z) : bool :=
  (y <? y') || ((y =? y') && (m <? m')).

(** Earlier timestamp. *)
Definition date_ltb (a b : date) : bool :=
  (year a <? year b)
  || ((year a =? year b)
      && ((month a <? month b) || ((month a =? month b) && (day a <? day b)))).

(** [resample] bins a series in the order of its index: an index out of
    order is sorted first, by a stable sort, so that observations with one
    timestamp keep their order.  Insertion before the first observation
    that is not earlier. *)
Fixpoint insert_obs (x : date * Q) (l : NumSeries) : NumSeries :=
  match l with
  | [] => [x]
  | y :: rest =>
      if date_ltb (fst y) (fst x) then y :: insert_obs x rest else x :: l
  end.

Fixpoint sort_index (close : NumSeries) : NumSeries :=
  match close with
  | [] => []
  | x :: rest => insert_obs x (sort_index rest)
  end.

(** Put an observation in its monthly bin; bins are kept in calendar order
    and a later observation of the same month replaces the earlier one. *)
Fixpoint upsert (y m : Z) (v : Q) (bins : list (Z * Z * Q)) : list (Z * Z * Q) :=
  match bins with
  | [] => [(y, m, v)]
  | (y', m', v') :: rest =>
      if (y =? y') && (m =? m') then (y, m, v) :: rest
      else if ym_ltb y m y' m' then (y, m, v) :: bins
      else (y', m', v') :: upsert y m v rest
  end.

(** [close.resample("ME").last().dropna()]: one value per calendar month
    that has an observation, the last one of the month in time order. *)
Definition resample_last (close : NumSeries) : NumSeries :=
  map (fun b : Z * Z * Q => (month_end (fst (fst b)) (snd (fst b)), snd b))
    (fold_left (fun bins (x : date * Q) => upsert (year (fst x)) (month (fst x)) (snd x) bins)
       (sort_index close) []).

(** What the loop of [download_data] keeps for one instrument from its
    normalised series: nothing when [close is None or len(close) < 50],
    and the monthly series only [if len(monthly) > 10]. *)
Definition resample (close : option NumSeries) : option NumSeries :=
  match close with
  | None => None
  | Some close =>
      if (length close <? 50)%nat then None
      else
        let monthly := resample_last close in
        if (10 <? length monthly)%nat then Some monthly else None
  end.

(** One turn of the loop, from the provider's answer for the ticker. *)
Definition download_one (df : option RawFrame) (ticker : string) : option NumSeries :=
  match df with
  | None => None
  | Some f =>
      if raw_empty f then None
      else resample (_extract_close_series df ticker)
  end.

(** The resampler as the specification words it: absent when the input is
    absent, or when there are fewer than 50 observations and fewer than 10
    months. *)
Definition spec_resample (close : option NumSeries) : option NumSeries :=
  match close with
  | None => None
  | Some close =>
      let monthly := resample_last close in
      if (length close <? 50)%nat && (length monthly <? 10)%nat then None
      else Some monthly
  end.

(** Daily observations: [n] days from day [d0] of a month, all at price 1. *)
Definition daily (y m : Z) (d0 : Z) (n : nat) : NumSeries :=
  map (fun i => (mkdate y m (d0 + Z.of_nat i), 1%Q)) (seq 0 n).

(* ------------------------------------------------------------------ *)
(** ** Statistics of a list of returns *)

(** [a / b] on floats: NaN for [0 / 0].  The program divides a count by
    the size of the set counted in, so a zero denominator comes with a zero
    numerator. *)
Definition fdiv (a b : Q) : option Q :=
  if Qeq_bool b 0 then None else Some (a / b)%Q.

Definition Qofnat (n : nat) : Q := inject_Z (Z.of_nat n).

Definition qmax (a b : Q) : Q := if Qle_bool a b then b else a.

Definition qmin (a b : Q) : Q := if Qle_bool a b then a else b.

(** [Series.max()] and [Series.min()]. *)
Definition series_max (l : list Q) : option Q :=
  match l with
  | [] => None
  | x :: rest => Some (fold_left qmax rest x)
  end.

Definition series_min (l : list Q) : option Q :=
  match l with
  | [] => None
  | x :: rest => Some (fold_left qmin rest x)
  end.

Fixpoint insert_sorted (x : Q) (l : list Q) : list Q :=
  match l with
  | [] => [x]
  | y :: rest => if Qle_bool x y then x :: l else y :: insert_sorted x rest
  end.

Definition sorted_values (l : list Q) : list Q := fold_right insert_sorted [] l.

(** [Series.median()]: the middle value, or the mean of the two middle
    values. *)
Definition median (l : list Q) : option Q :=
  let s := sorted_values l in
  let n := length s in
  match n with
  | O => None
  | _ =>
      if Nat.odd n then nth_error s (n / 2)%nat
      else Some ((nth (n / 2 - 1)%nat s 0 + nth (n / 2)%nat s 0) / 2)%Q
  end.

(** [col[col.index.month == m]]. *)
Definition in_month (m : Z) (s : NumSeries) : NumSeries :=
  filter (fun x : date * Q => month (fst x) =? m) s.

(** The per-month statistics of one instrument. *)
Module Stats.
Record Row := mk {
  ticker : string;
  month : Z;
  month_name : string;
  veces_subio : nat;
  veces_bajo : nat;
  total_años : nat;
  pct_sube : option Q;
  retorno_prom : option Q;
  retorno_med : option Q;
  retorno_max : option Q;
  retorno_min : option Q;
  std : option Q
}.
End Stats.

(** The win rate before rounding, from the counts of a record. *)
Definition exact_pct_sube (r : Stats.Row) : Q :=
  (Qofnat (Stats.veces_subio r) / Qofnat (Stats.total_años r) * 100)%Q.

Section Statistics.

(** The square root of the floating-point library. *)
Variable fsqrt : Q -> Q.

(** [Series.std()]: the sample standard deviation, NaN below two values. *)
Definition series_std (l : list Q) : option Q :=
  match mean l with
  | None => None
  | Some mu =>
      if (length l <=? 1)%nat then None
      else Some (fsqrt (Qsum (map (fun x => (x - mu) * (x - mu))%Q l)
                        / Qofnat (length l - 1)))
  end.

(** The body of [for month in range(1, 13)] for the column [col] (NaN
    dropped) of [ticker]. *)
Definition month_stats (ticker : string) (col : NumSeries) (m : Z) : M (list Stats.Row) :=
  let vals := map snd (in_month m col) in
  if (length vals =? 0)%nat then ret []
  else
    let veces_subio := count_if ispos vals in
    let veces_bajo := count_if isneg vals in
    let total := length vals in
    month_name <- dict_get MONTHS_ES m ;;
    ret [ Stats.mk ticker m month_name veces_subio veces_bajo total
            (round_opt (option_map (fun x => x * 100)%Q
                          (fdiv (Qofnat veces_subio) (Qofnat total))) 1)
            (round_opt (mean vals) 2)
            (round_opt (median vals) 2)
            (round_opt (series_max vals) 2)
            (round_opt (series_min vals) 2)
            (round_opt (series_std vals) 2) ].

Definition get_monthly_stats (returns : DataFrame) : M (list Stats.Row) :=
  concatM
    (map (fun ticker =>
            s <- getitemM returns ticker ;;
            let col := dropna s in
            concatM (map (month_stats ticker col) range_1_13))
       (columns returns)).

End Statistics.

(* ------------------------------------------------------------------ *)
(** ** find_correlations *)

Module Corr.
Record Row := mk {
  ticker : string;
  periodo : string;
  mes : string;
  n_años : nat;
  subio_cuando_ref_bajo : nat;
  pct_subio : option Q;
  retorno_prom : option Q
}.
End Corr.

(** What [sort_values] asks of the sorting routine it is given ([kind]):
    an ascending rearrangement.  [find_correlations] leaves [kind] at its
    default, quicksort, which numpy serves with an introsort or a vectorised
    sort as the machine allows and documents as not stable: nothing is
    promised about the order of equal keys. *)
Record SortKind := mkSortKind {
  sort_by : forall A : Type, (A -> Q) -> list A -> list A;
  sort_by_perm : forall (A : Type) (key : A -> Q) (l : list A),
    Permutation (sort_by A key l) l;
  sort_by_sorted : forall (A : Type) (key : A -> Q) (l : list A),
    StronglySorted (fun a b => key a <= key b)%Q (sort_by A key l)
}.

Definition key_or_zero {A : Type} (key : A -> option Q) (a : A) : Q :=
  match key a with
  | Some q => q
  | None => 0%Q
  end.

(** [df.sort_values(col, ascending=False)]: the rows with a number are
    reversed, sorted ascending by the routine and reversed again; the rows
    with NaN follow in their own order. *)
Definition sort_values_desc (K : SortKind) {A : Type} (key : A -> option Q) (l : list A) : list A :=
  let non_nans := filter (fun a => is_some (key a)) l in
  let nans := filter (fun a => negb (is_some (key a))) l in
  rev (sort_by K A (key_or_zero key) (rev non_nans)) ++ nans.

Definition years_of (s : NumSeries) : list Z :=
  map (fun x : date * Q => year (fst x)) s.

Definition memZ (y : Z) (l : list Z) : bool := existsb (Z.eqb y) l.

(** [ref_month_data[ref_month_data < 0].index.year.tolist()]. *)
Definition ref_down_years (ref_month_data : NumSeries) : list Z :=
  years_of (filter (fun x : date * Q => isneg (snd x)) ref_month_data).

(** [[y for y in years if y in data.index.year.tolist()]]. *)
Definition common_years (years : list Z) (data : NumSeries) : list Z :=
  filter (fun y => memZ y (years_of data)) years.

Definition next_month (ref_month : Z) : Z := ref_month mod 12 + 1.

Definition next_years (ref_month : Z) (down_years : list Z) : list Z :=
  if ref_month =? 12 then map (fun y => y + 1) down_years else down_years.

(** One of the two blocks of the loop body (the source writes the block
    twice, for the same month and for the month after): the record of
    [ticker] for the observations [data] of the target month and the
    reference years [years], if the overlap is large enough. *)
Definition period_rows (ticker periodo : string) (target_month : Z)
    (data : NumSeries) (years : list Z) (min_overlap : Z) : M (list Corr.Row) :=
  let common := common_years years data in
  if min_overlap <=? Z.of_nat (length common) then
    let vals := filter (fun x : date * Q => memZ (year (fst x)) common) data in
    let subio := count_if ispos (map snd vals) in
    mes <- dict_get MONTHS_ES target_month ;;
    ret [ Corr.mk ticker periodo mes (length common) subio
            (round_opt (option_map (fun x => x * 100)%Q
                          (fdiv (Qofnat subio) (Qofnat (length common)))) 1)
            (round_opt (mean (map snd vals)) 2) ]
  else ret [].

(** The loop body for one candidate column. *)
Definition candidate_rows (col : NumSeries) (ticker : string) (ref_month : Z)
    (down_years : list Z) (min_overlap : Z) : M (list Corr.Row) :=
  same <- period_rows ticker "Mismo mes" ref_month
            (in_month ref_month col) down_years min_overlap ;;
  next <- period_rows ticker "Mes siguiente" (next_month ref_month)
            (in_month (next_month ref_month) col)
            (next_years ref_month down_years) min_overlap ;;
  ret (same ++ next).

(** The records in the order the loop appends them, before the sort. *)
Definition correlation_rows (returns : DataFrame) (ref_ticker : string)
    (ref_month : Z) (down_years : list Z) (min_overlap : Z) : M (list Corr.Row) :=
  concatM
    (map (fun ticker =>
            if String.eqb ticker ref_ticker then ret []
            else
              s <- getitemM returns ticker ;;
              candidate_rows (dropna s) ticker ref_month down_years min_overlap)
       (columns returns)).

Definition is_empty {A : Type} (l : list A) : bool :=
  match l with [] => true | _ => false end.

Definition find_correlations (K : SortKind) (returns : DataFrame) (ref_ticker : string)
    (ref_month : Z) (min_overlap : Z) : M (list Corr.Row) :=
  s <- getitemM returns ref_ticker ;;
  let ref_col := dropna s in
  let ref_month_data := in_month ref_month ref_col in
  if (length ref_month_data =? 0)%nat then ret []
  else
    let down_years := ref_down_years ref_month_data in
    rows <- correlation_rows returns ref_ticker ref_month down_years min_overlap ;;
    if is_empty rows then ret rows
    else ret (sort_values_desc K Corr.pct_subio rows).

(** The search of the month after, read by the rows of the table; no
    function that models the program uses the definitions [spec_...]. *)

(** The years of the rows in which the column at [jref] is below zero in
    month [m]. *)
Definition spec_down_years (df : DataFrame) (jref : nat) (m : Z) : list Z :=
  map (fun x : date * Q => year (fst x))
    (filter (fun x : date * Q => (month (fst x) =? m) && spec_down (snd x))
       (spec_column df jref)).

(** The month after month [m], and the year in which it falls for a down
    year [y]: the next year after December, the same year otherwise. *)
Definition spec_next_month (m : Z) : Z := m mod 12 + 1.

Definition spec_next_year (m y : Z) : Z := if m =? 12 then y + 1 else y.

(** The down-years, each moved to the year of the month after, in which
    the column at [jc] has a value in the month after. *)
Definition spec_next_common (df : DataFrame) (jref jc : nat) (m : Z) : list Z :=
  filter (fun y =>
            existsb (fun x : date * Q =>
                       (month (fst x) =? spec_next_month m) && (year (fst x) =? y))
              (spec_column df jc))
    (map (spec_next_year m) (spec_down_years df jref m)).

(** The values of the column at [jc] in the month after, in those years. *)
Definition spec_next_returns (df : DataFrame) (jref jc : nat) (m : Z) : list Q :=
  map snd
    (filter (fun x : date * Q =>
               (month (fst x) =? spec_next_month m)
               && existsb (Z.eqb (year (fst x))) (spec_next_common df jref jc m))
       (spec_column df jc)).

(** One row per calendar month in the index of a monthly table. *)
Fixpoint distinct_months (idx : list date) : bool :=
  match idx with
  | [] => true
  | d :: rest =>
      negb (existsb (fun e => (year d =? year e) && (month d =? month e)) rest)
      && distinct_months rest
  end.

(** The order of a descending column: numbers from the largest down, NaN
    last. *)
Definition desc_le (a b : option Q) : Prop :=
  match a, b with
  | Some x, Some y => (y <= x)%Q
  | _, None => True
  | None, Some _ => False
  end.

(** The records whose percentage is the number [k]. *)
Definition with_key {A : Type} (key : A -> option Q) (k : Q) (a : A) : bool :=
  match key a with
  | Some q => Qeq_bool q k
  | None => false
  end.

(* ------------------------------------------------------------------ *)
(** ** Sectors *)

Definition SECTOR_MAP : list (string * string) :=
  [ ("AAL", "Aerolíneas"); ("DAL", "Aerolíneas"); ("UAL", "Aerolíneas");
    ("LUV", "Aerolíneas"); ("JBLU", "Aerolíneas"); ("ALK", "Aerolíneas");
    ("SAVE", "Aerolíneas"); ("HA", "Aerolíneas"); ("SKYW", "Aerolíneas");
    ("MESA", "Aerolíneas"); ("RYAAY", "Aerolíneas"); ("VLRS", "Aerolíneas");
    ("AAPL", "Tecnología"); ("MSFT", "Tecnología"); ("GOOG", "Tecnología");
    ("GOOGL", "Tecnología"); ("META", "Tecnología"); ("AMZN", "Tecnología");
    ("NFLX", "Tecnología"); ("CRM", "Tecnología"); ("ADBE", "Tecnología");
    ("ORCL", "Tecnología"); ("NOW", "Tecnología"); ("INTU", "Tecnología");
    ("SHOP", "Tecnología"); ("SQ", "Tecnología"); ("UBER", "Tecnología");
    ("ABNB", "Tecnología"); ("SNAP", "Tecnología"); ("PINS", "Tecnología");
    ("SPOT", "Tecnología"); ("PLTR", "Tecnología"); ("AI", "Tecnología");
    ("ACN", "Tecnología"); ("NVDA", "Semiconductores"); ("AMD", "Semiconductores");
    ("INTC", "Semiconductores"); ("AVGO", "Semiconductores"); ("QCOM", "Semiconductores");
    ("TXN", "Semiconductores"); ("AMAT", "Semiconductores"); ("LRCX", "Semiconductores");
    ("KLAC", "Semiconductores"); ("MU", "Semiconductores"); ("MRVL", "Semiconductores");
    ("ON", "Semiconductores"); ("ASML", "Semiconductores"); ("TSM", "Semiconductores");
    ("ARM", "Semiconductores"); ("ALAB", "Semiconductores"); ("JPM", "Bancos");
    ("BAC", "Bancos"); ("WFC", "Bancos"); ("GS", "Bancos");
    ("MS", "Bancos"); ("C", "Bancos"); ("USB", "Bancos");
    ("PNC", "Bancos"); ("SCHW", "Bancos"); ("BK", "Bancos");
    ("STT", "Bancos"); ("CFG", "Bancos"); ("FITB", "Bancos");
    ("KEY", "Bancos"); ("RF", "Bancos"); ("HBAN", "Bancos");
    ("V", "Bancos"); ("MA", "Bancos"); ("AXP", "Bancos");
    ("COF", "Bancos"); ("BRK-B", "Bancos"); ("BBAR", "Bancos");
    ("BMA", "Bancos"); ("GGAL", "Bancos"); ("SUPV", "Bancos");
    ("JNJ", "Salud"); ("PFE", "Salud"); ("UNH", "Salud");
    ("ABBV", "Salud"); ("MRK", "Salud"); ("LLY", "Salud");
    ("TMO", "Salud"); ("ABT", "Salud"); ("AMGN", "Salud");
    ("BMY", "Salud"); ("GILD", "Salud"); ("ISRG", "Salud");
    ("VRTX", "Salud"); ("REGN", "Salud"); ("ZTS", "Salud");
    ("SYK", "Salud"); ("MDT", "Salud"); ("DHR", "Salud");
    ("ELV", "Salud"); ("CI", "Salud"); ("HCA", "Salud");
    ("IQV", "Salud"); ("BIIB", "Salud"); ("AEM", "Mineras");
    ("NEM", "Mineras"); ("GOLD", "Mineras"); ("FNV", "Mineras");
    ("WPM", "Mineras"); ("AUY", "Mineras"); ("KGC", "Mineras");
    ("AG", "Mineras"); ("PAAS", "Mineras"); ("HL", "Mineras");
    ("CDE", "Mineras"); ("FSM", "Mineras"); ("BHP", "Mineras");
    ("RIO", "Mineras"); ("VALE", "Mineras"); ("FCX", "Mineras");
    ("SCCO", "Mineras"); ("TECK", "Mineras"); ("CLF", "Mineras");
    ("X", "Mineras"); ("NUE", "Mineras"); ("STLD", "Mineras");
    ("AA", "Mineras"); ("XOM", "Energía"); ("CVX", "Energía");
    ("COP", "Energía"); ("SLB", "Energía"); ("EOG", "Energía");
    ("MPC", "Energía"); ("PSX", "Energía"); ("VLO", "Energía");
    ("PXD", "Energía"); ("DVN", "Energía"); ("OXY", "Energía");
    ("HAL", "Energía"); ("BKR", "Energía"); ("FANG", "Energía");
    ("HES", "Energía"); ("YPF", "Energía"); ("VIST", "Energía");
    ("PAM", "Energía"); ("KO", "Consumo"); ("PEP", "Consumo");
    ("PG", "Consumo"); ("COST", "Consumo"); ("WMT", "Consumo");
    ("HD", "Consumo"); ("MCD", "Consumo"); ("NKE", "Consumo");
    ("SBUX", "Consumo"); ("TGT", "Consumo"); ("LOW", "Consumo");
    ("DG", "Consumo"); ("DLTR", "Consumo"); ("ROST", "Consumo");
    ("TJX", "Consumo"); ("ANF", "Consumo"); ("ABEV", "Consumo");
    ("SPY", "ETFs"); ("QQQ", "ETFs"); ("IWM", "ETFs");
    ("DIA", "ETFs"); ("ACWI", "ETFs"); ("ARKK", "ETFs");
    ("XLF", "ETFs"); ("XLE", "ETFs"); ("XLV", "ETFs");
    ("XLK", "ETFs"); ("XLI", "ETFs"); ("XLP", "ETFs");
    ("GDX", "ETFs"); ("GDXJ", "ETFs"); ("SLV", "ETFs");
    ("GLD", "ETFs"); ("EEM", "ETFs"); ("VWO", "ETFs");
    ("EWZ", "ETFs"); ("EFA", "ETFs"); ("T", "Telecom");
    ("VZ", "Telecom"); ("TMUS", "Telecom"); ("CMCSA", "Telecom");
    ("CHTR", "Telecom"); ("DIS", "Telecom"); ("WBD", "Telecom");
    ("CAT", "Industriales"); ("DE", "Industriales"); ("BA", "Industriales");
    ("HON", "Industriales"); ("UNP", "Industriales"); ("GE", "Industriales");
    ("RTX", "Industriales"); ("LMT", "Industriales"); ("NOC", "Industriales");
    ("GD", "Industriales"); ("MMM", "Industriales"); ("FDX", "Industriales");
    ("UPS", "Industriales"); ("AMT", "Real Estate"); ("PLD", "Real Estate");
    ("CCI", "Real Estate"); ("EQIX", "Real Estate"); ("SPG", "Real Estate");
    ("O", "Real Estate"); ("DLR", "Real Estate"); ("PSA", "Real Estate");
    ("WELL", "Real Estate"); ("AVB", "Real Estate"); ("EQR", "Real Estate");
    ("MELI", "LATAM"); ("NU", "LATAM"); ("AMX", "LATAM");
    ("ARCO", "LATAM"); ("GLOB", "LATAM"); ("DLO", "LATAM");
    ("STNE", "LATAM"); ("CAAP", "LATAM"); ("CRESY", "LATAM");
    ("CEPU", "LATAM"); ("EDN", "LATAM"); ("LOMA", "LATAM");
    ("TEO", "LATAM"); ("TGS", "LATAM"); ("TX", "LATAM");
    ("IRS", "LATAM") ].

(** [SECTOR_MAP.get(ticker, "Otros")]. *)
Definition get_ticker_sector (ticker : string) : string :=
  match find (fun kv : string * string => String.eqb ticker (fst kv)) SECTOR_MAP with
  | Some kv => snd kv
  | None => "Otros"
  end.

(** [sectors.setdefault(sector, []).append(t)] on an insertion-ordered
    dictionary. *)
Fixpoint setdefault_append (sectors : list (string * list string)) (sector t : string)
    : list (string * list string) :=
  match sectors with
  | [] => [(sector, [t])]
  | (k, ts) :: rest =>
      if String.eqb sector k then (k, ts ++ [t]) :: rest
      else (k, ts) :: setdefault_append rest sector t
  end.

Definition group_by_sector (tickers : list string) : list (string * list string) :=
  fold_left (fun sectors t => setdefault_append sectors (get_ticker_sector t) t) tickers [].

(** [sorted(items, key=lambda x: -len(x[1]))], a stable sort. *)
Fixpoint insert_by_len (x : string * list string) (l : list (string * list string))
    : list (string * list string) :=
  match l with
  | [] => [x]
  | y :: rest =>
      if (length (snd y) <=? length (snd x))%nat then x :: l
      else y :: insert_by_len x rest
  end.

Definition get_available_sectors (tickers : list string) : list (string * list string) :=
  fold_right insert_by_len [] (group_by_sector tickers).

(** [sectors_data.get(sector, [])]. *)
Definition sectors_get (sectors_data : list (string * list string)) (sector : string) : list string :=
  match find (fun kv : string * list string => String.eqb sector (fst kv)) sectors_data with
  | Some kv => snd kv
  | None => []
  end.

Fixpoint somes {A : Type} (l : list (option A)) : list A :=
  match l with
  | [] => []
  | Some a :: rest => a :: somes rest
  | None :: rest => somes rest
  end.

(** [.mean()] and [.max()] of a column of a table: NaN is skipped. *)
Definition mean_skipna (l : list (option Q)) : option Q := mean (somes l).

Definition max_skipna (l : list (option Q)) : option Q := series_max (somes l).

(** [.idxmax()]: the first row that holds the largest number. *)
Definition idxmax {A : Type} (key : A -> option Q) (l : list A) : option A :=
  fold_left
    (fun best a =>
       match key a, best with
       | None, _ => best
       | Some _, None => Some a
       | Some q, Some b => if Qle_bool q (key_or_zero key b) then best else Some a
       end)
    l None.

Module Sector.
Record Row := mk {
  sector : string;
  win_rate : option Q;
  retorno_prom : option Q;
  n_tickers : nat;
  mejor_ticker : string;
  mejor_wr : option Q
}.

(** A row of the month-by-month comparison. *)
Record MonthRow := mkMonth {
  m_sector : string;
  month : Z;
  month_name : string;
  valor : option Q;
  m_n_tickers : nat
}.
End Sector.

(** The rows of a table of statistics that [chart_sector_best_month]
    keeps for a sector and a month. *)
Definition sector_month_stats (stats_df : list Stats.Row) (sector_tickers : list string)
    (month : Z) : list Stats.Row :=
  filter (fun r => mem (Stats.ticker r) sector_tickers && (Stats.month r =? month)) stats_df.

(** The rows [chart_sector_best_month] builds before it draws them. *)
Definition chart_sector_best_month (stats_df : list Stats.Row)
    (available_tickers selected_sectors : list string) (month : Z) : M (list Sector.Row) :=
  let sectors_data := get_available_sectors available_tickers in
  concatM
    (map (fun sector =>
            let sector_tickers := sectors_get sectors_data sector in
            if is_empty sector_tickers then ret []
            else
              let sector_stats := sector_month_stats stats_df sector_tickers month in
              if is_empty sector_stats then ret []
              else
                mejor <- match idxmax Stats.pct_sube sector_stats with
                         | Some r => ret (Stats.ticker r)
                         | None => raise KeyError
                         end ;;
                ret [ Sector.mk sector
                        (mean_skipna (map Stats.pct_sube sector_stats))
                        (mean_skipna (map Stats.retorno_prom sector_stats))
                        (length sector_stats)
                        mejor
                        (max_skipna (map Stats.pct_sube sector_stats)) ])
       selected_sectors).

(** [month_data[metric]], to be averaged: the ten columns of numbers of the
    table of statistics, those of integers read as numbers.  The two columns
    of text have no mean; any other name is no column. *)
Definition stats_column (metric : string) : M (Stats.Row -> option Q) :=
  if String.eqb metric "month" then ret (fun r => Some (inject_Z (Stats.month r)))
  else if String.eqb metric "veces_subio" then ret (fun r => Some (Qofnat (Stats.veces_subio r)))
  else if String.eqb metric "veces_bajo" then ret (fun r => Some (Qofnat (Stats.veces_bajo r)))
  else if String.eqb metric "total_años" then ret (fun r => Some (Qofnat (Stats.total_años r)))
  else if String.eqb metric "pct_sube" then ret Stats.pct_sube
  else if String.eqb metric "retorno_prom" then ret Stats.retorno_prom
  else if String.eqb metric "retorno_med" then ret Stats.retorno_med
  else if String.eqb metric "retorno_max" then ret Stats.retorno_max
  else if String.eqb metric "retorno_min" then ret Stats.retorno_min
  else if String.eqb metric "std" then ret Stats.std
  else if String.eqb metric "ticker" then raise TypeError
  else if String.eqb metric "month_name" then raise TypeError
  else raise KeyError.

(** The rows [chart_sector_monthly_comparison] builds before it draws
    them. *)
Definition chart_sector_monthly_comparison (stats_df : list Stats.Row)
    (available_tickers selected_sectors : list string) (metric : string)
    : M (list Sector.MonthRow) :=
  let sectors_data := get_available_sectors available_tickers in
  concatM
    (map (fun sector =>
            let sector_tickers := sectors_get sectors_data sector in
            if is_empty sector_tickers then ret []
            else
              let sector_stats := filter (fun r => mem (Stats.ticker r) sector_tickers) stats_df in
              concatM
                (map (fun month =>
                        let month_data := filter (fun r => Stats.month r =? month) sector_stats in
                        if is_empty month_data then ret []
                        else
                          month_name <- dict_get MONTHS_ES month ;;
                          col <- stats_column metric ;;
                          ret [ Sector.mkMonth sector month month_name
                                  (mean_skipna (map col month_data))
                                  (length month_data) ])
                   range_1_13))
       selected_sectors).

(** The sector mean of the win rate, had it been taken over the win rates
    before rounding. *)
Definition unrounded_win_rate (sector_stats : list Stats.Row) : option Q :=
  mean (map exact_pct_sube sector_stats).

(** The records of a sector in a month, read off the table of statistics:
    the records of the month whose instrument is an available ticker that
    [SECTOR_MAP] gives to the sector.  No function that models the program
    uses this definition. *)
Definition spec_sector_records (stats_df : list Stats.Row) (available_tickers : list string)
    (sector : string) (month : Z) : list Stats.Row :=
  filter (fun r => existsb (String.eqb (Stats.ticker r)) available_tickers
                   && String.eqb (get_ticker_sector (Stats.ticker r)) sector
                   && (Stats.month r =? month))
    stats_df.

(* ------------------------------------------------------------------ *)
(** ** Two sorting routines and some small tables *)

(** Insertion before the first element that is not smaller: a stable
    ascending sort. *)
Fixpoint insert_by {A : Type} (key : A -> Q) (x : A) (l : list A) : list A :=
  match l with
  | [] => [x]
  | y :: rest => if Qle_bool (key x) (key y) then x :: l else y :: insert_by key x rest
  end.

Definition isort_by (A : Type) (key : A -> Q) (l : list A) : list A :=
  fold_right (insert_by key) [] l.

(** The routine that [kind="quicksort"] names: [aquicksort] of numpy's
    [npysort], the scalar routine, which [argsort] runs on the keys.  It
    sorts the row numbers [tosort] by the keys [v]: a stretch of more than
    17 rows is split around the median of its first, middle and last key, a
    shorter one is sorted by insertion, and a stretch that has used up its
    depth is sorted as a heap.  Positions are integers as the pointers are;
    each loop has the length of the array for fuel. *)
Module Npysort.

Definition SMALL_QUICKSORT : Z := 16.

(** [DOUBLE_LT] on numbers. *)
Definition LT (a b : Q) : bool := negb (Qle_bool b a).

Section Keys.

Variable v : list Q.

(** [v[*p]]: the key of the row whose number stands at position [p]. *)
Definition at_ (tosort : list nat) (p : Z) : nat := nth (Z.to_nat p) tosort O.

Definition val (tosort : list nat) (p : Z) : Q := nth (at_ tosort p) v 0%Q.

Fixpoint put_nat (tosort : list nat) (i : nat) (x : nat) : list nat :=
  match tosort, i with
  | [], _ => []
  | _ :: rest, O => x :: rest
  | y :: rest, S j => y :: put_nat rest j x
  end.

Definition put (tosort : list nat) (p : Z) (x : nat) : list nat :=
  put_nat tosort (Z.to_nat p) x.

Definition INTP_SWAP (tosort : list nat) (p q : Z) : list nat :=
  put (put tosort p (at_ tosort q)) q (at_ tosort p).

(** [do ++pi; while (LT(v[*pi], vp))] and [do --pj; while (LT(vp, v[*pj]))]. *)
Fixpoint scan_up (fuel : nat) (tosort : list nat) (vp : Q) (pi : Z) : Z :=
  match fuel with
  | O => pi
  | S f =>
      let pi := pi + 1 in
      if LT (val tosort pi) vp then scan_up f tosort vp pi else pi
  end.

Fixpoint scan_down (fuel : nat) (tosort : list nat) (vp : Q) (pj : Z) : Z :=
  match fuel with
  | O => pj
  | S f =>
      let pj := pj - 1 in
      if LT vp (val tosort pj) then scan_down f tosort vp pj else pj
  end.

Fixpoint partition (fuel : nat) (tosort : list nat) (vp : Q) (pi pj : Z) : list nat * Z :=
  match fuel with
  | O => (tosort, pi)
  | S f =>
      let pi := scan_up (length tosort) tosort vp pi in
      let pj := scan_down (length tosort) tosort vp pj in
      if pj <=? pi then (tosort, pi)
      else partition f (INTP_SWAP tosort pi pj) vp pi pj
  end.

(** One turn of [while ((pr - pl) > SMALL_QUICKSORT)]: the median of three
    goes to [pr - 1], the rest is split around it, and it is put between
    the two parts, at the position returned. *)
Definition partition_step (tosort : list nat) (pl pr : Z) : list nat * Z :=
  let pm := pl + Z.shiftr (pr - pl) 1 in
  let a := if LT (val tosort pm) (val tosort pl) then INTP_SWAP tosort pm pl else tosort in
  let a := if LT (val a pr) (val a pm) then INTP_SWAP a pr pm else a in
  let a := if LT (val a pm) (val a pl) then INTP_SWAP a pm pl else a in
  let vp := val a pm in
  let a := INTP_SWAP a pm (pr - 1) in
  let '(a, pi) := partition (length a) a vp pl (pr - 1) in
  (INTP_SWAP a pi (pr - 1), pi).

(** The insertion sort of a short stretch. *)
Fixpoint shift (fuel : nat) (tosort : list nat) (vp : Q) (pl pj : Z) : list nat * Z :=
  match fuel with
  | O => (tosort, pj)
  | S f =>
      if (pl <? pj) && LT vp (val tosort (pj - 1))
      then shift f (put tosort pj (at_ tosort (pj - 1))) vp pl (pj - 1)
      else (tosort, pj)
  end.

Fixpoint insertion (fuel : nat) (tosort : list nat) (pl pr pi : Z) : list nat :=
  match fuel with
  | O => tosort
  | S f =>
      if pi <=? pr then
        let vi := at_ tosort pi in
        let '(a, pj) := shift (length tosort) tosort (nth vi v 0%Q) pl pi in
        insertion f (put a pj vi) pl pr (pi + 1)
      else tosort
  end.

(** [aheapsort] on the stretch that starts at [pl]: [a = tosort - 1], so
    [a[k]] stands at position [base + k] with [base = pl - 1]. *)
Fixpoint sift (fuel : nat) (tosort : list nat) (base n : Z) (tmp : nat) (i j : Z) : list nat :=
  match fuel with
  | O => put tosort (base + i) tmp
  | S f =>
      if j <=? n then
        let j := if (j <? n) && LT (val tosort (base + j)) (val tosort (base + j + 1))
                 then j + 1 else j in
        if LT (nth tmp v 0%Q) (val tosort (base + j))
        then sift f (put tosort (base + i) (at_ tosort (base + j))) base n tmp j (j + j)
        else put tosort (base + i) tmp
      else put tosort (base + i) tmp
  end.

Fixpoint heapify (fuel : nat) (tosort : list nat) (base n l : Z) : list nat :=
  match fuel with
  | O => tosort
  | S f =>
      if 0 <? l
      then heapify f (sift (length tosort) tosort base n (at_ tosort (base + l)) l (Z.shiftl l 1))
             base n (l - 1)
      else tosort
  end.

Fixpoint heap_pop (fuel : nat) (tosort : list nat) (base n : Z) : list nat :=
  match fuel with
  | O => tosort
  | S f =>
      if 1 <? n then
        let tmp := at_ tosort (base + n) in
        let a := put tosort (base + n) (at_ tosort (base + 1)) in
        heap_pop f (sift (length a) a base (n - 1) tmp 1 2) base (n - 1)
      else tosort
  end.

Definition aheapsort (tosort : list nat) (pl n : Z) : list nat :=
  heap_pop (length tosort)
    (heapify (length tosort) tosort (pl - 1) n (Z.shiftr n 1)) (pl - 1) n.

(** The loop of [aquicksort]: [checked] says that the depth has been looked
    at for the stretch in hand, which is so inside the inner [while]; the
    stack holds the stretches put off, each with the depth left for it. *)
Fixpoint aquicksort_loop (fuel : nat) (tosort : list nat) (pl pr : Z)
    (stack : list (Z * Z * Z)) (cdepth : Z) (checked : bool) : list nat :=
  match fuel with
  | O => tosort
  | S f =>
      if negb checked && (cdepth <? 0) then
        let a := aheapsort tosort pl (pr - pl + 1) in
        match stack with
        | [] => a
        | (pl', pr', d) :: rest => aquicksort_loop f a pl' pr' rest d false
        end
      else if SMALL_QUICKSORT <? pr - pl then
        let '(a, pi) := partition_step tosort pl pr in
        if pi - pl <? pr - pi
        then aquicksort_loop f a pl (pi - 1) ((pi + 1, pr, cdepth - 1) :: stack)
               (cdepth - 1) true
        else aquicksort_loop f a (pi + 1) pr ((pl, pi - 1, cdepth - 1) :: stack)
               (cdepth - 1) true
      else
        let a := insertion (length tosort) tosort pl pr (pl + 1) in
        match stack with
        | [] => a
        | (pl', pr', d) :: rest => aquicksort_loop f a pl' pr' rest d false
        end
  end.

End Keys.

(** [v.argsort(kind="quicksort")]: the row numbers, sorted by key. *)
Definition argsort (v : list Q) : list nat :=
  let num := Z.of_nat (length v) in
  aquicksort_loop v (2 * length v + 1) (seq 0 (length v)) 0 (num - 1) []
    (Z.log2 num * 2) false.

End Npysort.

(** The rows numbered by [idx], in that order. *)
Definition take_rows {A : Type} (l : list A) (idx : list nat) : list A :=
  flat_map (fun i => match nth_error l i with
                     | Some a => [a]
                     | None => []
                     end) idx.

Fixpoint ascending (ks : list Q) : bool :=
  match ks with
  | [] => true
  | a :: rest =>
      match rest with
      | [] => true
      | b :: _ => Qle_bool a b && ascending rest
      end
  end.

(** [l[argsort(keys)]].  The answer of the routine is taken as it comes
    when it names every row once and leaves the keys ascending, which is
    what the routine answers; the test stands where a proof of that for
    every input would, and no answer below goes the other way. *)
Definition numpy_sort_by (A : Type) (key : A -> Q) (l : list A) : list A :=
  let idx := Npysort.argsort (map key l) in
  if list_eq_dec Nat.eq_dec (isort_by nat (fun i => inject_Z (Z.of_nat i)) idx)
       (seq 0 (length l))
  then if ascending (map key (take_rows l idx)) then take_rows l idx else isort_by A key l
  else isort_by A key l.

(** One reference and eighteen candidates with one March: the reference
    falls, every candidate rises. *)
Definition crowd : list string :=
  ["T01"; "T02"; "T03"; "T04"; "T05"; "T06"; "T07"; "T08"; "T09";
   "T10"; "T11"; "T12"; "T13"; "T14"; "T15"; "T16"; "T17"; "T18"].

Definition crowd_returns : DataFrame :=
  mkDataFrame ("REF" :: crowd)
    [ (mkdate 2020 3 31, Some (-1)%Q :: map (fun _ => Some 1%Q) crowd) ].

(** The reference falls in March 2019 and 2020; both candidates rise in
    both years. *)
Definition tie_returns : DataFrame :=
  mkDataFrame ["AAA"; "BBB"; "CCC"]
    [ (mkdate 2019 3 31, [Some (-2)%Q; Some 1%Q; Some 3%Q]);
      (mkdate 2020 3 31, [Some (-1)%Q; Some 2%Q; Some 4%Q]) ].

(** The reference rises in its only March. *)
Definition up_returns : DataFrame :=
  mkDataFrame ["AAA"; "BBB"]
    [ (mkdate 2020 3 31, [Some 1%Q; Some 2%Q]) ].

(** The reference falls in December 2020; the candidate rises in January
    2021. *)
Definition december_returns : DataFrame :=
  mkDataFrame ["AAA"; "BBB"]
    [ (mkdate 2020 12 31, [Some (-3)%Q; None]);
      (mkdate 2021 1 31, [None; Some 5%Q]) ].

(** Two rows dated in March 2020: the reference falls in the first and has
    no value in the second; the candidate rises in both. *)
Definition double_returns : DataFrame :=
  mkDataFrame ["AAA"; "BBB"]
    [ (mkdate 2020 3 15, [Some (-1)%Q; Some 1%Q]);
      (mkdate 2020 3 31, [None; Some 2%Q]) ].

(** Two airlines with three Januaries each, one of them up. *)
Definition third_returns : DataFrame :=
  mkDataFrame ["AAL"; "DAL"]
    [ (mkdate 2020 1 31, [Some 1%Q; Some (-1)%Q]);
      (mkdate 2021 1 31, [Some (-1)%Q; Some (-2)%Q]);
      (mkdate 2022 1 31, [Some (-1)%Q; Some 2%Q]) ].

(** Their records; the square root plays no part in what follows, any
    function stands for it. *)
Definition third_stats : list Stats.Row :=
  match get_monthly_stats (fun x => x) third_returns with
  | inr stats => stats
  | inl _ => []
  end.

(** Two airlines with March win rates of 60 and 80. *)
Definition march_stats : list Stats.Row :=
  [ Stats.mk "AAL" 3 "Marzo" 3 2 5 (Some 60%Q) (Some 1%Q) (Some 1%Q) (Some 2%Q)
      (Some (-1)%Q) (Some 1%Q);
    Stats.mk "DAL" 3 "Marzo" 4 1 5 (Some 80%Q) (Some 2%Q) (Some 2%Q) (Some 3%Q)
      (Some (-1)%Q) (Some 1%Q) ].

(* ------------------------------------------------------------------ *)
(** ** Positions and series, for stating what the normaliser reads *)

(** The position of the first element that satisfies [p]. *)
Fixpoint first_index {A : Type} (p : A -> bool) (l : list A) : option nat :=
  match l with
  | [] => None
  | a :: rest => if p a then Some O else option_map S (first_index p rest)
  end.

(** The column of the closing prices, by the arrangement of the labels:
    with plain labels, the first "Close", else the first column named after
    the ticker; with two levels, under a first level "Close" the column of
    the ticker, else the first one; else, under a first level that is the
    ticker, the column "Close", else the first one; else the first column
    whose second level is "Close". *)
Definition close_position (cols : labels) (ticker : string) : option nat :=
  match cols with
  | Flat l =>
      if mem "Close" l then first_index (String.eqb "Close") l
      else first_index (String.eqb ticker) l
  | Multi l =>
      if mem "Close" (map fst l) then
        match first_index (fun c : string * string =>
                             String.eqb (fst c) "Close" && String.eqb (snd c) ticker) l with
        | Some p => Some p
        | None => first_index (fun c : string * string => String.eqb (fst c) "Close") l
        end
      else if mem ticker (map fst l) then
        match first_index (fun c : string * string =>
                             String.eqb (fst c) ticker && String.eqb (snd c) "Close") l with
        | Some p => Some p
        | None => first_index (fun c : string * string => String.eqb (fst c) ticker) l
        end
      else first_index (fun c : string * string => String.eqb (snd c) "Close") l
  end.

(** The numbers of the column at a position, with their dates; absent when
    the table has no such column or the column holds no number. *)
Definition numeric_column (df : RawFrame) (p : nat) : option NumSeries :=
  match nth_error (raw_data df) p with
  | Some col =>
      match numeric_entries (combine (raw_index df) col) with
      | [] => None
      | s => Some s
      end
  | None => None
  end.

(* ------------------------------------------------------------------ *)
(** ** Months of a series, for stating what the resampling keeps *)

Definition same_month (y m : Z) (d : date) : bool :=
  (year d =? y) && (month d =? m).

(** The last observation of a calendar month, in the order of the series. *)
Definition last_in_month (y m : Z) (close : NumSeries) : option Q :=
  option_map snd (find (fun x : date * Q => same_month y m (fst x)) (rev close)).

(** The observation of a calendar month that is dated latest; of several
    on that day, the last in the order of the series.  Read off the series
    as it comes, in any order of dates. *)
Fixpoint latest_in_month (y m : Z) (close : NumSeries) : option (date * Q) :=
  match close with
  | [] => None
  | x :: rest =>
      match latest_in_month y m rest with
      | Some b =>
          if same_month y m (fst x) && (day (fst b) <? day (fst x)) then Some x else Some b
      | None => if same_month y m (fst x) then Some x else None
      end
  end.

(** The same, said of an observation [(e, v)] of the series: it is of the
    month, no observation of the month before it in the series is dated
    after it, and every observation of the month after it in the series is
    dated before it. *)
Definition is_latest_in_month (y m : Z) (close : NumSeries) (e : date) (v : Q) : Prop :=
  year e = y /\ month e = m /\
  exists l1 l2,
    close = l1 ++ (e, v) :: l2 /\
    (forall x, In x l1 -> year (fst x) = y -> month (fst x) = m -> day (fst x) <= day e) /\
    (forall x, In x l2 -> year (fst x) = y -> month (fst x) = m -> day (fst x) < day e).

(** Not a later timestamp, and a series in time order. *)
Definition date_le (a b : date) : Prop :=
  year a < year b \/
  (year a = year b /\ (month a < month b \/ (month a = month b /\ day a <= day b))).

Definition date_ordered (close : NumSeries) : Prop :=
  StronglySorted (fun a b : date * Q => date_le (fst a) (fst b)) close.

(** Earlier calendar month. *)
Definition month_before (a b : date) : Prop :=
  year a < year b \/ (year a = year b /\ month a < month b).

Definition bins_get (bins : list (Z * Z * Q)) (y m : Z) : option Q :=
  option_map snd
    (find (fun b : Z * Z * Q => (fst (fst b) =? y) && (snd (fst b) =? m)) bins).

Definition bin_before (a b : Z * Z * Q) : Prop :=
  fst (fst a) < fst (fst b) \/ (fst (fst a) = fst (fst b) /\ snd (fst a) < snd (fst b)).

Definition resample_bins (close : NumSeries) (bins : list (Z * Z * Q)) : list (Z * Z * Q) :=
  fold_left (fun bins (x : date * Q) => upsert (year (fst x)) (month (fst x)) (snd x) bins)
    close bins.

(* ------------------------------------------------------------------ *)
(** ** download_data: the table of all instruments *)

(** Put a timestamp in a sorted index that holds each timestamp once. *)
Fixpoint insert_date (d : date) (idx : list date) : list date :=
  match idx with
  | [] => [d]
  | e :: rest =>
      if date_eqb d e then idx
      else if date_ltb d e then d :: idx
      else e :: insert_date d rest
  end.

(** The union of the indexes of the series, in time order. *)
Definition union_index (series : list NumSeries) : list date :=
  fold_left
    (fun idx (s : NumSeries) =>
       fold_left (fun idx (x : date * Q) => insert_date (fst x) idx) s idx)
    series [].

(** The value of a series at a timestamp, NaN where it has none. *)
Definition series_at (s : NumSeries) (d : date) : option Q :=
  option_map snd (find (fun x : date * Q => date_eqb d (fst x)) s).

(** [pd.DataFrame(all_data)] on a dictionary of series: one column per
    key, in the order of the keys, over the union of the indexes. *)
Definition DataFrame_of_dict (all_data : list (string * NumSeries)) : DataFrame :=
  mkDataFrame (map fst all_data)
    (map (fun d => (d, map (fun kv : string * NumSeries => series_at (snd kv) d) all_data))
       (union_index (map snd all_data))).

Definition filter_mask {A : Type} (mask : list bool) (l : list A) : list A :=
  map snd (filter (fun x : bool * A => fst x) (combine mask l)).

(** [df.dropna(axis=1, how="all")]: columns whose cells are all NaN go. *)
Definition dropna_columns_all (df : DataFrame) : DataFrame :=
  let keep :=
    map (fun j => existsb (fun r : row => is_some (nth j (snd r) None)) (rows df))
      (seq 0 (length (columns df))) in
  mkDataFrame (filter_mask keep (columns df))
    (map (fun r : row => (fst r, filter_mask keep (snd r))) (rows df)).

(** [d[k] = v] on an insertion-ordered dictionary. *)
Fixpoint dict_set {V : Type} (d : list (string * V)) (k : string) (v : V) : list (string * V) :=
  match d with
  | [] => [(k, v)]
  | (k', v') :: rest =>
      if String.eqb k k' then (k', v) :: rest
      else (k', v') :: dict_set rest k v
  end.

Section Download.

(** [yf.download] for the window asked for: a table, None, or a fault. *)
Variable provider : string -> M (option RawFrame).

(** One turn of the loop on [all_data] and [failed].  An entry of [failed]
    is the ticker, with the fault when the turn raised. *)
Definition download_step (st : list (string * NumSeries) * list (string * option exn))
    (ticker : string) : list (string * NumSeries) * list (string * option exn) :=
  let all_data := fst st in
  let failed := snd st in
  match provider ticker with
  | inl e => (all_data, failed ++ [(ticker, Some e)])
  | inr df =>
      match df with
      | None => (all_data, failed ++ [(ticker, None)])
      | Some f =>
          if raw_empty f then (all_data, failed ++ [(ticker, None)])
          else
            match _extract_close_series df ticker with
            | None => (all_data, failed ++ [(ticker, None)])
            | Some close =>
                if (length close <? 50)%nat then (all_data, failed ++ [(ticker, None)])
                else
                  let monthly := resample_last close in
                  if (10 <? length monthly)%nat
                  then (dict_set all_data ticker monthly, failed)
                  else (all_data, failed)
            end
      end
  end.

(** [download_data]: the table of monthly closing prices, and the list
    [failed] that the sidebar warning shows. *)
Definition download_data (tickers : list string)
    : DataFrame * list (string * option exn) :=
  let st := fold_left download_step tickers ([], []) in
  if is_empty (fst st) then (mkDataFrame [] [], snd st)
  else (dropna_columns_all (DataFrame_of_dict (fst st)), snd st).

(** What a turn of the loop keeps for a ticker. *)
Definition kept (ticker : string) : option NumSeries :=
  match provider ticker with
  | inr df => download_one df ticker
  | inl _ => None
  end.

End Download.

(** A provider with twelve months of one instrument, six of another and
    nothing else. *)
Definition year_of_days (y : Z) (months : list Z) : NumSeries :=
  concat (map (fun m => daily y m 1 10) months).

(** The same twelve months with the days of each month from the tenth back
    to the first, the price of a day being its number. *)
Definition countdown (y m : Z) : NumSeries :=
  map (fun i => (mkdate y m (10 - Z.of_nat i), inject_Z (10 - Z.of_nat i))) (seq 0 10).

Definition backwards_days (y : Z) (months : list Z) : NumSeries :=
  concat (map (countdown y) months).

Definition backwards_provider (ticker : string) : M (option RawFrame) :=
  if String.eqb ticker "AAL" then
    ret (Some (mkRawFrame (map fst (backwards_days 2020 range_1_13)) (Flat ["Close"])
                 [map (fun x : date * Q => Num (snd x)) (backwards_days 2020 range_1_13)]))
  else ret None.

Definition toy_provider (ticker : string) : M (option RawFrame) :=
  if String.eqb ticker "AAL" then
    ret (Some (mkRawFrame (map fst (year_of_days 2020 range_1_13)) (Flat ["Close"])
                 [map (fun x : date * Q => Num (snd x)) (year_of_days 2020 range_1_13)]))
  else if String.eqb ticker "DAL" then
    ret (Some (mkRawFrame (map fst (year_of_days 2020 [1; 2; 3; 4; 5; 6])) (Flat ["Close"])
                 [map (fun x : date * Q => Num (snd x)) (year_of_days 2020 [1; 2; 3; 4; 5; 6])]))
  else if String.eqb ticker "ERR" then raise KeyError
  else ret None.

(** [d.get(k)] on the dictionary of series. *)
Definition dict_find {V : Type} (d : list (string * V)) (k : string) : option V :=
  option_map snd (find (fun kv : string * V => String.eqb k (fst kv)) d).

(** A timestamp that is the end of its month. *)
Definition is_month_end (d : date) : Prop := d = month_end (year d) (month d).

Definition date_before (a b : date) : Prop := date_ltb a b = true.

(** The provider's answer for a ticker gives no usable series: no table,
    an empty table, no closing prices, or fewer than 50 of them. *)
Definition no_data (provider : string -> M (option RawFrame)) (t : string) : Prop :=
  provider t = inr None \/
  exists f, provider t = inr (Some f) /\
    (raw_empty f = true \/
     _extract_close_series (Some f) t = None \/
     exists close, _extract_close_series (Some f) t = Some close /\ (length close < 50)%nat).

(** The series of a ticker is long enough and covers too few months. *)
Definition too_few_months (provider : string -> M (option RawFrame)) (t : string) : Prop :=
  exists f close,
    provider t = inr (Some f) /\ raw_empty f = false /\
    _extract_close_series (Some f) t = Some close /\
    (50 <= length close)%nat /\ (length (resample_last close) <= 10)%nat.

(* ------------------------------------------------------------------ *)
(** ** Keys of the table of statistics *)

(** The instrument has a return in the calendar month. *)
Definition has_returns (returns : DataFrame) (t : string) (m : Z) : bool :=
  match getitem returns t with
  | Some s => negb (is_empty (in_month m (dropna s)))
  | None => false
  end.

Definition stats_key (r : Stats.Row) : string * Z := (Stats.ticker r, Stats.month r).

(* ------------------------------------------------------------------ *)
(** ** Keys of the table of correlations *)

Definition corr_key (r : Corr.Row) : string * string := (Corr.ticker r, Corr.periodo r).

(** The columns [find_correlations] compares with the reference. *)
Definition candidates (returns : DataFrame) (ref_ticker : string) : list string :=
  filter (fun t => negb (String.eqb t ref_ticker)) (columns returns).

(* ------------------------------------------------------------------ *)
(** ** chart_sector_heatmap *)

(** A list built by a loop whose body can raise. *)
Fixpoint mapM {A B : Type} (f : A -> M B) (l : list A) : M (list B) :=
  match l with
  | [] => ret []
  | a :: rest =>
      b <- f a ;;
      bs <- mapM f rest ;;
      ret (b :: bs)
  end.

(** A row of the sector heatmap: the sector and the number of its
    available tickers, which make the label of the row, and the twelve
    cells. *)
Module Heat.
Record Row := mk {
  sector : string;
  n_tickers : nat;
  cells : list (option Q)
}.
End Heat.

(** The matrix and the labels [chart_sector_heatmap] builds before it
    draws them; [None] when no sector selected has an available ticker. *)
Definition chart_sector_heatmap (stats_df : list Stats.Row)
    (available_tickers selected_sectors : list string) (metric : string)
    : M (option (list Heat.Row)) :=
  let sectors_data := get_available_sectors available_tickers in
  matrix <- concatM
    (map (fun sector =>
            let sector_tickers := sectors_get sectors_data sector in
            if is_empty sector_tickers then ret []
            else
              let sector_stats := filter (fun r => mem (Stats.ticker r) sector_tickers) stats_df in
              row <- mapM (fun month =>
                             let month_data :=
                               filter (fun r => Stats.month r =? month) sector_stats in
                             if is_empty month_data then ret None
                             else
                               col <- stats_column metric ;;
                               ret (mean_skipna (map col month_data)))
                          range_1_13 ;;
              ret [ Heat.mk sector (length sector_tickers) row ])
       selected_sectors) ;;
  if is_empty matrix then ret None else ret (Some matrix).

(** The cell of a month in a row of twelve. *)
Definition month_cell (cells : list (option Q)) (m : Z) : option Q :=
  nth (Z.to_nat (m - 1)) cells None.

(** What the three sector charts say of a sector in a month. *)
Definition best_month_point (r : Sector.Row) : string * option Q * nat :=
  (Sector.sector r, Sector.win_rate r, Sector.n_tickers r).

Definition best_month_return (r : Sector.Row) : string * option Q * nat :=
  (Sector.sector r, Sector.retorno_prom r, Sector.n_tickers r).

Definition comparison_point (r : Sector.MonthRow) : string * option Q * nat :=
  (Sector.m_sector r, Sector.valor r, Sector.m_n_tickers r).

(** The records of a sector in a month, as the comparison and the heatmap
    select them: by sector first, then by month. *)
Definition month_data_of (stats_df : list Stats.Row) (sector_tickers : list string)
    (month : Z) : list Stats.Row :=
  filter (fun r => Stats.month r =? month)
    (filter (fun r => mem (Stats.ticker r) sector_tickers) stats_df).

(* ------------------------------------------------------------------ *)
(** ** chart_correlation_results *)

(** [df.sort_values(col)]: the rows with a number sorted ascending by the
    routine, the rows with NaN after them in their own order. *)
Definition sort_values_asc (K : SortKind) {A : Type} (key : A -> option Q) (l : list A) : list A :=
  sort_by K A (key_or_zero key) (filter (fun a => is_some (key a)) l)
  ++ filter (fun a => negb (is_some (key a))) l.

(** The colour of a bar: a comparison with NaN is false. *)
Definition bar_color (p : option Q) : string :=
  match p with
  | Some q =>
      if Qle_bool 60 q then "#10b981"
      else if Qle_bool 50 q then "#6366f1"
      else "#f43f5e"
  | None => "#f43f5e"
  end.

(** The bars of one period: the first fifteen records of the period,
    sorted upwards for a horizontal bar chart. *)
Definition period_bars (K : SortKind) (corr_df : list Corr.Row) (periodo : string)
    : list (Corr.Row * string) :=
  let sub := firstn 15 (filter (fun r => String.eqb (Corr.periodo r) periodo) corr_df) in
  map (fun r => (r, bar_color (Corr.pct_subio r))) (sort_values_asc K Corr.pct_subio sub).

(** The traces [chart_correlation_results] adds to the figure, each with
    its period; [None] when there is no record.  The titles of the two
    panels are looked up first. *)
Definition chart_correlation_results (K : SortKind) (corr_df : list Corr.Row)
    (ref_month : Z) : M (option (list (string * list (Corr.Row * string)))) :=
  if is_empty corr_df then ret None
  else
    _ <- dict_get MONTHS_ES ref_month ;;
    _ <- dict_get MONTHS_ES (ref_month mod 12 + 1) ;;
    let traces :=
      flat_map (fun periodo =>
                  let sub :=
                    firstn 15 (filter (fun r => String.eqb (Corr.periodo r) periodo) corr_df) in
                  if is_empty sub then [] else [(periodo, period_bars K corr_df periodo)])
        ["Mismo mes"; "Mes siguiente"] in
    _ <- dict_get MONTHS_ES ref_month ;;
    ret (Some traces).

(** The order of an ascending column: numbers from the smallest up, NaN
    last. *)
Definition asc_le (a b : option Q) : Prop :=
  match a, b with
  | Some x, Some y => (x <= y)%Q
  | _, None => True
  | None, Some _ => False
  end.

(* ------------------------------------------------------------------ *)
(** ** chart_yearly_monthly_heatmap *)

Fixpoint insert_year (y : Z) (l : list Z) : list Z :=
  match l with
  | [] => [y]
  | x :: rest =>
      if y <? x then y :: l
      else if y =? x then l
      else x :: insert_year y rest
  end.

(** [sorted(years.unique())]. *)
Definition sorted_unique (l : list Z) : list Z := fold_right insert_year [] l.

(** [vals.values[0] if len(vals) > 0 else np.nan] for the returns of a
    year and a month. *)
Definition year_month_cell (col : NumSeries) (y m : Z) : option Q :=
  match filter (fun x : date * Q => (year (fst x) =? y) && (month (fst x) =? m)) col with
  | [] => None
  | x :: _ => Some (snd x)
  end.

(** The years and the matrix [chart_yearly_monthly_heatmap] draws. *)
Definition chart_yearly_monthly_heatmap (returns : DataFrame) (ticker : string)
    : M (list Z * list (list (option Q))) :=
  s <- getitemM returns ticker ;;
  let col := dropna s in
  let years := sorted_unique (years_of col) in
  ret (years, map (fun y => map (fun m => year_month_cell col y m) range_1_13) years).

(* ------------------------------------------------------------------ *)
(** ** chart_single_ticker *)

(** A panel of the 3 by 4 grid: its title, its place and its bars, each
    the year, the return and the colour. *)
Module Panel.
Record t := mk {
  title : string;
  grid_row : Z;
  grid_col : Z;
  bars : list (Z * Q * string)
}.
End Panel.

(** ["#10b981" if v > 0 else "#f43f5e"]. *)
Definition return_color (v : Q) : string :=
  if ispos v then "#10b981" else "#f43f5e".

(** [enumerate(range(1, 13))]. *)
Definition enumerate_months : list (Z * Z) :=
  combine [0; 1; 2; 3; 4; 5; 6; 7; 8; 9; 10; 11] range_1_13.

(** The twelve traces [chart_single_ticker] adds, with the title of the
    panel each one goes to. *)
Definition chart_single_ticker (returns : DataFrame) (ticker : string) : M (list Panel.t) :=
  s <- getitemM returns ticker ;;
  let col := dropna s in
  _ <- mapM (fun month => dict_get MONTHS_ES month) range_1_13 ;;
  titles <- mapM (fun month => dict_get MONTHS_ES month) range_1_13 ;;
  mapM (fun im : Z * Z =>
          let i := fst im in
          let month := snd im in
          let vals := in_month month col in
          name <- dict_get MONTHS_ES month ;;
          ret (Panel.mk (nth (Z.to_nat i) titles "") (i / 4 + 1) (i mod 4 + 1)
                 (map (fun x : date * Q => (year (fst x), snd x, return_color (snd x))) vals)))
       enumerate_months.

Definition is_green (b : Z * Q * string) : bool := String.eqb (snd b) "#10b981".

(* ------------------------------------------------------------------ *)
(** ** load_tickers_from_file *)

(** The lines of the file are strings of characters; the functions below
    follow [str.strip], [str.upper] and [str.startswith] on the ASCII
    characters, which is what a file of ticker symbols holds: the white
    space of [str.strip] is the codes 9 to 13 and 28 to 32, and [str.upper]
    moves the letters a to z. *)
Definition is_space (c : Ascii.ascii) : bool :=
  let n := Ascii.nat_of_ascii c in
  ((9 <=? n)%nat && (n <=? 13)%nat) || ((28 <=? n)%nat && (n <=? 32)%nat).

Definition upper_char (c : Ascii.ascii) : Ascii.ascii :=
  let n := Ascii.nat_of_ascii c in
  if ((97 <=? n)%nat && (n <=? 122)%nat) then Ascii.ascii_of_nat (n - 32) else c.

Fixpoint upper (s : string) : string :=
  match s with
  | EmptyString => EmptyString
  | String c rest => String (upper_char c) (upper rest)
  end.

Fixpoint lstrip (s : string) : string :=
  match s with
  | EmptyString => EmptyString
  | String c rest => if is_space c then lstrip rest else s
  end.

Fixpoint rstrip (s : string) : string :=
  match s with
  | EmptyString => EmptyString
  | String c rest =>
      match rstrip rest with
      | EmptyString => if is_space c then EmptyString else String c EmptyString
      | r => String c r
      end
  end.

Definition strip (s : string) : string := rstrip (lstrip s).

(** [line.startswith("#")]. *)
Definition is_comment (line : string) : bool := String.prefix "#" line.

Definition ascii_only (s : string) : bool :=
  forallb (fun c => (Ascii.nat_of_ascii c <? 128)%nat) (list_ascii_of_string s).

(** The tickers of a file, given its lines as iterating over the file
    yields them. *)
Definition load_tickers_from_file (lines : list string) : list string :=
  map (fun line => upper (strip line))
    (filter (fun line => negb (String.eqb (strip line) "") && negb (is_comment line)) lines).

Definition newline : string := String (Ascii.ascii_of_nat 10) EmptyString.

(** Writing a list of tickers one per line. *)
Definition ticker_lines (tickers : list string) : list string :=
  map (fun t => String.append t newline) tickers.

(* ------------------------------------------------------------------ *)
(** ** A provider with a rising and a falling instrument *)

(** Ten trading days of a month at one price. *)
Definition priced_days (y m : Z) (price : Q) : NumSeries :=
  map (fun i => (mkdate y m (1 + Z.of_nat i), price)) (seq 0 10).

Definition provider_table (close : NumSeries) : RawFrame :=
  mkRawFrame (map fst close) (Flat ["Close"]) [map (fun x : date * Q => Num (snd x)) close].

(** "UP" closes at the number of the month, "DOWN" at thirteen less the
    number of the month, through 2020. *)
Definition trend_provider (ticker : string) : M (option RawFrame) :=
  if String.eqb ticker "UP" then
    ret (Some (provider_table
                 (concat (map (fun m => priced_days 2020 m (inject_Z m)) range_1_13))))
  else if String.eqb ticker "DOWN" then
    ret (Some (provider_table
                 (concat (map (fun m => priced_days 2020 m (inject_Z (13 - m))) range_1_13))))
  else ret None.

Definition trend_returns : DataFrame :=
  compute_monthly_returns (fst (download_data trend_provider ["UP"; "DOWN"])).

(* ------------------------------------------------------------------ *)
(** ** chart_monthly_win_rate *)

(** [df.nlargest(n, col)] and [df.nsmallest(n, col)] with the default
    [keep="first"]: nothing for [n <= 0]; the whole table sorted by
    [sort_values] when [n] reaches its length; otherwise the first [n] rows
    of the table sorted on the column by a stable sort (of the negated
    numbers for the largest), rows with NaN after the others. *)
Definition select_n (K : SortKind) {A : Type} (largest : bool) (n : Z)
    (key : A -> option Q) (l : list A) : list A :=
  if n <=? 0 then []
  else if Z.of_nat (length l) <=? n then
    (if largest then sort_values_desc K key l else sort_values_asc K key l)
  else
    let non_nans := filter (fun a => is_some (key a)) l in
    let nans := filter (fun a => negb (is_some (key a))) l in
    firstn (Z.to_nat n)
      (isort_by A (fun a => if largest then (- key_or_zero key a)%Q else key_or_zero key a)
         non_nans
       ++ nans).

(** The rows [chart_monthly_win_rate] draws as bars, from the bottom of
    the chart up; [None] when the month has no record. *)
Definition chart_monthly_win_rate (K : SortKind) (stats_df : list Stats.Row) (month : Z)
    (top_n : Z) (direction : string) : M (option (list Stats.Row)) :=
  let filtered := filter (fun r => Stats.month r =? month) stats_df in
  if is_empty filtered then ret None
  else
    let top := select_n K (String.eqb direction "sube") top_n Stats.pct_sube filtered in
    _ <- dict_get MONTHS_ES month ;;
    ret (Some (sort_values_asc K Stats.pct_sube top)).

(** The order in which [nlargest] or [nsmallest] ranks two values. *)
Definition rank_le (largest : bool) (a b : option Q) : Prop :=
  if largest then desc_le a b else asc_le a b.

(* ================================================================== *)
(** * Properties *)

(* ------------------------------------------------------------------ *)
(** ** Lists, dates and the index of a table *)

Lemma date_eqb_eq (a b : date) : date_eqb a b = true <-> a = b.
Proof.
  unfold date_eqb. destruct a as [y m d], b as [y' m' d']; simpl.
  rewrite !andb_true_iff, !Z.eqb_eq. split.
  - intros [[-> ->] ->]. reflexivity.
  - intros H. injection H as -> -> ->. auto.
Qed.

Lemma date_eqb_refl (a : date) : date_eqb a a = true.
Proof. apply date_eqb_eq. reflexivity. Qed.

Lemma distinct_months_NoDup (idx : list date) :
  distinct_months idx = true -> NoDup idx.
Proof.
  induction idx as [|d rest IH]; simpl; intros H.
  - constructor.
  - apply andb_true_iff in H as [Hd Hrest]. constructor; auto.
    intros Hin. apply negb_true_iff in Hd.
    assert (E : existsb (fun e => (year d =? year e) && (month d =? month e)) rest = true).
    { apply existsb_exists. exists d. split; auto. now rewrite !Z.eqb_refl. }
    congruence.
Qed.

Lemma find_no_date {B : Type} (d : date) (keep : date * B -> bool) (l : list (date * B)) :
  ~ In d (map fst l) ->
  find (fun r => date_eqb d (fst r)) (filter keep l) = None.
Proof.
  induction l as [|x l IH]; simpl; intros H; auto.
  destruct (keep x); simpl.
  - destruct (date_eqb d (fst x)) eqn:E.
    + apply date_eqb_eq in E. symmetry in E. tauto.
    + apply IH. tauto.
  - apply IH. tauto.
Qed.

Lemma find_date_filter {B : Type} (keep : date * B -> bool) (pre post : list (date * B)) (x : date * B) :
  NoDup (map fst (pre ++ x :: post)) ->
  find (fun r => date_eqb (fst x) (fst r)) (filter keep (pre ++ x :: post))
  = if keep x then Some x else None.
Proof.
  intros H. rewrite map_app in H. simpl in H.
  assert (Hpre : ~ In (fst x) (map fst pre)).
  { intros Hin. apply NoDup_remove_2 in H. apply H, in_or_app. auto. }
  assert (Hpost : ~ In (fst x) (map fst post)).
  { intros Hin. apply NoDup_remove_2 in H. apply H, in_or_app. auto. }
  clear H. induction pre as [|y pre IH]; simpl.
  - destruct (keep x); simpl.
    + now rewrite date_eqb_refl.
    + now apply find_no_date.
  - simpl in Hpre. destruct (keep y); simpl.
    + destruct (date_eqb (fst x) (fst y)) eqn:E.
      * apply date_eqb_eq in E. symmetry in E. tauto.
      * apply IH. tauto.
    + apply IH. tauto.
Qed.

Lemma nth_all_none (l : list (option Q)) (j : nat) :
  existsb is_some l = false -> nth j l None = None.
Proof.
  revert j. induction l as [|c l IH]; intros [|j]; simpl; auto.
  - destruct c; simpl; [discriminate | auto].
  - destruct c; simpl; [discriminate | auto].
Qed.

Lemma nth_map_option {A : Type} (f : A -> A) (l : list (option A)) (j : nat) :
  nth j (map (option_map f) l) None = option_map f (nth j l None).
Proof.
  revert j. induction l as [|c l IH]; intros [|j]; simpl; auto.
Qed.

(* ------------------------------------------------------------------ *)
(** ** compute_monthly_returns *)

Lemma pct_cell_none_r (c : option Q) : pct_cell c None = None.
Proof. now destruct c. Qed.

Lemma nth_map2_pct (a b : list (option Q)) (j : nat) :
  nth j (map2 pct_cell a b) None = pct_cell (nth j a None) (nth j b None).
Proof.
  revert b j. induction a as [|x a IH]; intros b j; simpl.
  - now destruct j.
  - destruct b as [|y b]; destruct j; simpl;
      rewrite ?pct_cell_none_r; auto.
Qed.

Lemma nth_const_none {A : Type} (c : list A) (j : nat) :
  nth j (map (fun _ => @None Q) c) None = None.
Proof. revert j. induction c; intros [|j]; simpl; auto. Qed.

Lemma pct_rows_index (p : list (option Q)) (l : list row) :
  map fst (pct_rows p l) = map fst l.
Proof.
  revert p. induction l as [|[d c] l IH]; intros p; simpl; auto.
  now rewrite IH.
Qed.

Lemma pct_rows_split (p : list (option Q)) (pre post : list row) (prev cur : row) :
  pct_rows p (pre ++ prev :: cur :: post)
  = pct_rows p (pre ++ [prev])
    ++ (fst cur, map2 pct_cell (snd prev) (snd cur)) :: pct_rows (snd cur) post.
Proof.
  revert p. induction pre as [|[d c] pre IH]; intros p; simpl.
  - destruct prev as [dp cp], cur as [dc cc]. reflexivity.
  - now rewrite IH.
Qed.

Lemma pct_change_index (df : DataFrame) : index (pct_change df) = index df.
Proof.
  unfold index, pct_change; simpl. destruct (rows df) as [|[d c] rest]; simpl; auto.
  now rewrite pct_rows_index.
Qed.

Lemma pct_change_split (df : DataFrame) (pre post : list row) (prev cur : row) :
  rows df = pre ++ prev :: cur :: post ->
  exists pre', rows (pct_change df)
    = pre' ++ (fst cur, map2 pct_cell (snd prev) (snd cur)) :: pct_rows (snd cur) post.
Proof.
  intros H. unfold pct_change; simpl. rewrite H.
  destruct pre as [|[d c] pre]; simpl.
  - destruct prev as [dp cp], cur as [dc cc]; simpl.
    exists [(dp, map (fun _ => None) cp)]. reflexivity.
  - rewrite pct_rows_split.
    exists ((d, map (fun _ => None) c) :: pct_rows c (pre ++ [prev])). reflexivity.
Qed.

Lemma df_mul_index (df : DataFrame) (k : Q) : index (df_mul df k) = index df.
Proof. unfold index, df_mul; simpl. rewrite map_map. reflexivity. Qed.

(** The cell of the return table at the date of a row: the cell of the
    scaled [pct_change] at that row. *)
Lemma cell_dropna_all (df : DataFrame) (pre post : list row) (x : row) (tk : string) (j : nat) :
  NoDup (index df) ->
  rows df = pre ++ x :: post ->
  index_of tk (columns df) = Some j ->
  cell (dropna_all df) (fst x) tk = nth j (snd x) None.
Proof.
  intros Hnd Hrows Hj. unfold cell, dropna_all. cbn [columns rows]. rewrite Hj, Hrows.
  pose proof (find_date_filter (fun r : row => existsb is_some (snd r)) pre post x) as F.
  unfold index in Hnd. rewrite Hrows in Hnd. specialize (F Hnd).
  unfold row in *. rewrite F.
  destruct (existsb is_some (snd x)) eqn:E; auto.
  symmetry. now apply nth_all_none.
Qed.

Lemma cell_compute_monthly_returns (df : DataFrame) (pre post : list row) (prev cur : row)
    (tk : string) (j : nat) :
  NoDup (index df) ->
  rows df = pre ++ prev :: cur :: post ->
  index_of tk (columns df) = Some j ->
  cell (compute_monthly_returns df) (fst cur) tk
  = option_map (fun v => v * 100)%Q (pct_cell (nth j (snd prev) None) (nth j (snd cur) None)).
Proof.
  intros Hnd Hrows Hj. unfold compute_monthly_returns.
  destruct (pct_change_split df pre post prev cur Hrows) as [pre' Hp].
  set (sc := fun r : row => (fst r, map (option_map (fun v => v * 100)%Q) (snd r))).
  assert (Hm : rows (df_mul (pct_change df) 100)
               = map sc pre' ++ sc (fst cur, map2 pct_cell (snd prev) (snd cur))
                   :: map sc (pct_rows (snd cur) post)).
  { unfold df_mul. cbn [rows]. rewrite Hp, map_app. reflexivity. }
  assert (Hn : NoDup (index (df_mul (pct_change df) 100)))
    by now rewrite df_mul_index, pct_change_index.
  pose proof (cell_dropna_all _ _ _ _ tk j Hn Hm Hj) as H.
  cbn [fst snd sc] in H. rewrite H, nth_map_option, nth_map2_pct. reflexivity.
Qed.

Lemma cell_first_row (df : DataFrame) (first : row) (rest : list row) (tk : string) :
  NoDup (index df) ->
  rows df = first :: rest ->
  cell (compute_monthly_returns df) (fst first) tk = None.
Proof.
  intros Hnd Hrows. destruct (index_of tk (columns df)) as [j|] eqn:Hj.
  - unfold compute_monthly_returns.
    set (sc := fun r : row => (fst r, map (option_map (fun v => v * 100)%Q) (snd r))).
    assert (Hm : rows (df_mul (pct_change df) 100)
                 = [] ++ sc (fst first, map (fun _ => None) (snd first))
                     :: map sc (pct_rows (snd first) rest)).
    { unfold df_mul, pct_change. cbn [rows]. rewrite Hrows.
      destruct first as [d c]. reflexivity. }
    assert (Hn : NoDup (index (df_mul (pct_change df) 100)))
      by now rewrite df_mul_index, pct_change_index.
    pose proof (cell_dropna_all _ _ _ _ tk j Hn Hm Hj) as H.
    cbn [fst snd sc] in H. rewrite H, nth_map_option, nth_const_none. reflexivity.
  - unfold cell. simpl. now rewrite Hj.
Qed.

(** C1, as the code has it.  In a table with one row per month, the return
    of an instrument at a row is computed from the row just before it in
    the table: it is [100 * (p - pp) / pp] when the price [p] of the row and
    the price [pp] of the row before are both present, and absent when
    either is missing, so a month without a price leaves the return of the
    next priced month absent; the first row has no returns. *)
Theorem compute_monthly_returns_previous_row (df : DataFrame) (tk : string) (j : nat) :
  distinct_months (index df) = true ->
  index_of tk (columns df) = Some j ->
  (forall first rest, rows df = first :: rest ->
     cell (compute_monthly_returns df) (fst first) tk = None) /\
  (forall pre prev cur post, rows df = pre ++ prev :: cur :: post ->
     match nth j (snd prev) None, nth j (snd cur) None with
     | Some pp, Some p =>
         ~ (pp == 0)%Q ->
         exists r, cell (compute_monthly_returns df) (fst cur) tk = Some r
                   /\ (r == 100 * (p - pp) / pp)%Q
     | _, _ => cell (compute_monthly_returns df) (fst cur) tk = None
     end).
Proof.
  intros Hd Hj. apply distinct_months_NoDup in Hd. split.
  - intros first rest Hrows. now apply cell_first_row with (rest := rest).
  - intros pre prev cur post Hrows.
    rewrite (cell_compute_monthly_returns df pre post prev cur tk j Hd Hrows Hj).
    destruct (nth j (snd prev) None) as [pp|]; [|reflexivity].
    destruct (nth j (snd cur) None) as [p|]; [|reflexivity].
    intros Hpp. simpl. eexists. split; [reflexivity|]. field. exact Hpp.
Qed.

Lemma compute_monthly_returns_previous_row_witness :
  (exists r, cell (compute_monthly_returns gap_prices) (mkdate 2020 3 31) "BBB" = Some r
             /\ (r == 100 * (3 - 2) / 2)%Q)
  /\ cell (compute_monthly_returns gap_prices) (mkdate 2020 3 31) "AAA" = None
  /\ cell (compute_monthly_returns gap_prices) (mkdate 2020 1 31) "BBB" = None.
Proof.
  pose proof (compute_monthly_returns_previous_row gap_prices "BBB" 1 eq_refl eq_refl) as [H1 H2].
  pose proof (compute_monthly_returns_previous_row gap_prices "AAA" 0 eq_refl eq_refl) as [_ H3].
  split; [|split].
  - apply (H2 [(mkdate 2020 1 31, [Some 10%Q; Some 1%Q])]
              (mkdate 2020 2 29, [None; Some 2%Q])
              (mkdate 2020 3 31, [Some 12%Q; Some 3%Q]) [] eq_refl).
    intros H; discriminate H.
  - exact (H3 [(mkdate 2020 1 31, [Some 10%Q; Some 1%Q])]
              (mkdate 2020 2 29, [None; Some 2%Q])
              (mkdate 2020 3 31, [Some 12%Q; Some 3%Q]) [] eq_refl).
  - exact (H1 _ _ eq_refl).
Defined.

(** C1 as stated fails: with no price in February, the March return of the
    first instrument is absent in the table the code computes, while the
    most recent earlier price (January, 10) would give 20. *)
Lemma compute_monthly_returns_gap_counterexample :
  cell gap_prices (mkdate 2020 3 31) "AAA" = Some 12%Q
  /\ cell gap_prices (mkdate 2020 1 31) "AAA" = Some 10%Q
  /\ cell (compute_monthly_returns gap_prices) (mkdate 2020 3 31) "AAA" = None
  /\ (exists r, spec_return_cell gap_prices (mkdate 2020 3 31) "AAA" = Some r
                /\ (r == 100 * (12 - 10) / 10)%Q)
  /\ cell (compute_monthly_returns gap_prices) (mkdate 2020 3 31) "AAA"
     <> spec_return_cell gap_prices (mkdate 2020 3 31) "AAA".
Proof.
  repeat split; try reflexivity.
  - eexists. split; reflexivity.
  - vm_compute. discriminate.
Qed.

(* ------------------------------------------------------------------ *)
(** ** _extract_close_series *)

Lemma dropna_to_numeric (s : list (date * raw)) :
  dropna (to_numeric s) = numeric_entries s.
Proof.
  induction s as [|[d [q|t]] s IH]; simpl; auto.
  now rewrite IH.
Qed.



(* ------------------------------------------------------------------ *)
(** ** The monthly series of an instrument *)

(** C4, as the code has it.  The monthly series of an instrument is absent
    exactly when its normalised series is absent, or has fewer than 50
    observations, or gives at most 10 months: either threshold alone
    discards the series; otherwise the series kept is the monthly one. *)
Theorem resample_absent_iff (close : option NumSeries) :
  (resample close = None <->
   close = None \/
   exists c, close = Some c /\
     ((length c < 50)%nat \/ (length (resample_last c) <= 10)%nat)) /\
  (forall c, close = Some c -> (50 <= length c)%nat ->
     (10 < length (resample_last c))%nat ->
     resample close = Some (resample_last c)).
Proof.
  split.
  - destruct close as [c|]; simpl.
    + destruct (Nat.ltb_spec (length c) 50) as [H50|H50].
      * split; auto. intros _. right. exists c. auto.
      * destruct (Nat.ltb_spec 10 (length (resample_last c))) as [H10|H10].
        -- split; [discriminate|]. intros [H|(c' & H & [H'|H'])]; try discriminate;
             injection H as <-; lia.
        -- split; auto. intros _. right. exists c. auto.
    + split; auto.
  - intros c -> H50 H10. simpl.
    destruct (Nat.ltb_spec (length c) 50); [lia|].
    destruct (Nat.ltb_spec 10 (length (resample_last c))); [reflexivity|lia].
Qed.

Lemma resample_absent_iff_witness :
  resample (Some (daily 2020 1 1 31 ++ daily 2020 2 1 19)) = None
  /\ (exists s, resample (Some (concat (map (fun m => daily 2020 m 1 5) range_1_13))) = Some s
                /\ length s = 12%nat).
Proof.
  split.
  - apply (proj1 (resample_absent_iff (Some (daily 2020 1 1 31 ++ daily 2020 2 1 19)))).
    right. eexists. split; [reflexivity|]. right. vm_compute. lia.
  - eexists. split.
    + apply (proj2 (resample_absent_iff
                      (Some (concat (map (fun m => daily 2020 m 1 5) range_1_13)))) _ eq_refl);
        vm_compute; lia.
    + reflexivity.
Defined.

(** C4 as stated fails: fifty daily observations over two months pass the
    first threshold and miss the second; the code discards the series,
    where the conjunction of the two thresholds would keep it. *)
Lemma resample_threshold_counterexample :
  length (daily 2020 1 1 31 ++ daily 2020 2 1 19) = 50%nat
  /\ length (resample_last (daily 2020 1 1 31 ++ daily 2020 2 1 19)) = 2%nat
  /\ resample (Some (daily 2020 1 1 31 ++ daily 2020 2 1 19)) = None
  /\ spec_resample (Some (daily 2020 1 1 31 ++ daily 2020 2 1 19)) <> None.
Proof.
  repeat split; try reflexivity. vm_compute. discriminate.
Qed.

(* ------------------------------------------------------------------ *)
(** ** Loops that may raise *)

Lemma concatM_map_ok {A B : Type} (f : A -> M (list B)) (l : list A) :
  (forall a, In a l -> exists xs, f a = inr xs) ->
  exists out, concatM (map f l) = inr out.
Proof.
  induction l as [|a l IH]; simpl; intros H.
  - exists []. reflexivity.
  - destruct (H a (or_introl eq_refl)) as [xs Hxs].
    destruct IH as [ys Hys]; [intros; apply H; auto|].
    exists (xs ++ ys). now rewrite Hxs, Hys.
Qed.

Lemma concatM_map_in {A B : Type} (f : A -> M (list B)) (l : list A) (out : list B) (x : B) :
  concatM (map f l) = inr out ->
  (In x out <-> exists a xs, In a l /\ f a = inr xs /\ In x xs).
Proof.
  revert out. induction l as [|a l IH]; simpl; intros out H.
  - injection H as <-. split; [intros []|intros (a & xs & [] & _)].
  - unfold bind in H. destruct (f a) as [e|xs] eqn:Ha; [discriminate|].
    destruct (concatM (map f l)) as [e|ys] eqn:Hl; [discriminate|].
    injection H as <-. rewrite in_app_iff, (IH ys eq_refl). split.
    + intros [Hx|(b & zs & Hb & Hf & Hz)].
      * exists a, xs. auto.
      * exists b, zs. auto.
    + intros (b & zs & [<-|Hb] & Hf & Hz).
      * left. congruence.
      * right. exists b, zs. auto.
Qed.

Lemma concatM_map_each {A B : Type} (f : A -> M (list B)) (l : list A) (out : list B) (a : A) :
  concatM (map f l) = inr out -> In a l -> exists xs, f a = inr xs.
Proof.
  revert out. induction l as [|b l IH]; simpl; intros out H Ha; [contradiction|].
  unfold bind in H. destruct (f b) as [e|xs] eqn:Hb; [discriminate|].
  destruct (concatM (map f l)) as [e|ys] eqn:Hl; [discriminate|].
  destruct Ha as [<-|Ha]; [now exists xs|]. now apply (IH ys).
Qed.

Lemma concatM_map_nil {A B : Type} (f : A -> M (list B)) (l : list A) :
  (forall a, In a l -> f a = inr []) -> concatM (map f l) = inr [].
Proof.
  induction l as [|a l IH]; simpl; intros H; auto.
  rewrite (H a (or_introl eq_refl)), IH; auto.
Qed.

Lemma index_of_in (t : string) (cols : list string) :
  In t cols -> exists j, index_of t cols = Some j.
Proof.
  induction cols as [|c cols IH]; simpl; intros H; [contradiction|].
  destruct (String.eqb_spec t c) as [->|Hne].
  - now exists O.
  - destruct H as [->|H]; [congruence|].
    destruct (IH H) as [j ->]. now exists (S j).
Qed.

Lemma getitemM_in (df : DataFrame) (t : string) :
  In t (columns df) -> exists s, getitem df t = Some s /\ getitemM df t = inr s.
Proof.
  intros H. unfold getitemM, getitem.
  destruct (index_of_in t (columns df) H) as [j ->]. eexists. split; reflexivity.
Qed.

Lemma months_es_range (m : Z) :
  In m range_1_13 -> exists name, dict_get MONTHS_ES m = inr name.
Proof.
  unfold range_1_13. simpl.
  intros H; repeat (destruct H as [<-|H]; [eexists; reflexivity|]); contradiction.
Qed.

(* ------------------------------------------------------------------ *)
(** ** Rounding *)

Lemma rint_close (x : Q) :
  (inject_Z (rint x) - (1 # 2) <= x /\ x <= inject_Z (rint x) + (1 # 2))%Q.
Proof.
  unfold rint. cbv zeta.
  pose proof (Qfloor_le x) as Hlo. pose proof (Qlt_floor x) as Hhi.
  rewrite inject_Z_plus in Hhi. change (inject_Z 1) with 1%Q in Hhi.
  destruct (Qcompare_spec (x - inject_Z (Qfloor x)) (1 # 2)) as [He|Hl|Hg];
    [destruct (Z.even (Qfloor x))| |];
    rewrite ?inject_Z_plus; change (inject_Z 1) with 1%Q; split; lra.
Qed.

Lemma round_nd_1 (x : Q) :
  (round_nd x 1 == inject_Z (rint (x * 10)) / 10)%Q.
Proof. unfold round_nd. rewrite Qred_correct. reflexivity. Qed.

Lemma round_nd_1_close (x : Q) :
  (x - (1 # 20) <= round_nd x 1 /\ round_nd x 1 <= x + (1 # 20))%Q.
Proof.
  rewrite round_nd_1. destruct (rint_close (x * 10)) as [H1 H2].
  set (r := inject_Z (rint (x * 10))) in *.
  unfold Qdiv. change (/ 10)%Q with (1 # 10)%Q. split; lra.
Qed.

Lemma round_nd_1_range (x : Q) :
  (0 <= x)%Q -> (x <= 100)%Q ->
  (0 <= round_nd x 1 /\ round_nd x 1 <= 100)%Q.
Proof.
  intros H0 H100. rewrite round_nd_1.
  destruct (rint_close (x * 10)) as [H1 H2].
  assert (Hlo : (-1 < rint (x * 10))%Z).
  { rewrite Zlt_Qlt. change (inject_Z (-1)) with (-1)%Q. lra. }
  assert (Hhi : (rint (x * 10) < 1001)%Z).
  { rewrite Zlt_Qlt. change (inject_Z 1001) with 1001%Q. lra. }
  assert (Hlo' : (0 <= rint (x * 10))%Z) by lia.
  assert (Hhi' : (rint (x * 10) <= 1000)%Z) by lia.
  rewrite Zle_Qle in Hlo', Hhi'.
  change (inject_Z 0) with 0%Q in Hlo'. change (inject_Z 1000) with 1000%Q in Hhi'.
  set (r := inject_Z (rint (x * 10))) in *.
  unfold Qdiv. change (/ 10)%Q with (1 # 10)%Q. split; lra.
Qed.

(* ------------------------------------------------------------------ *)
(** ** get_monthly_stats *)

Lemma sign_cases (v : Q) :
  (ispos v = true /\ isneg v = false /\ ~ (v == 0)%Q) \/
  (ispos v = false /\ isneg v = true /\ ~ (v == 0)%Q) \/
  (ispos v = false /\ isneg v = false /\ (v == 0)%Q).
Proof.
  unfold ispos, isneg.
  destruct (Qcompare_spec 0 v) as [H|H|H], (Qcompare_spec v 0) as [H'|H'|H'];
    solve [ exfalso; lra
          | left; repeat split; auto; lra
          | right; left; repeat split; auto; lra
          | right; right; repeat split; auto; lra ].
Qed.

Lemma count_if_cons {A : Type} (f : A -> bool) (a : A) (l : list A) :
  count_if f (a :: l) = if f a then S (count_if f l) else count_if f l.
Proof. unfold count_if. simpl. now destruct (f a). Qed.

Lemma count_if_le {A : Type} (f : A -> bool) (l : list A) :
  (count_if f l <= length l)%nat.
Proof. apply filter_length_le. Qed.

Lemma up_down_le (l : list Q) :
  (count_if ispos l + count_if isneg l <= length l)%nat.
Proof.
  induction l as [|v l IH]; [apply Nat.le_refl|].
  rewrite !count_if_cons. simpl length.
  destruct (sign_cases v) as [(-> & -> & _)|[(-> & -> & _)|(-> & -> & _)]]; lia.
Qed.

Lemma up_down_all (l : list Q) :
  (count_if ispos l + count_if isneg l = length l)%nat
  <-> forall v, In v l -> ~ (v == 0)%Q.
Proof.
  induction l as [|v l IH].
  - split; [intros _ v []|reflexivity].
  - rewrite !count_if_cons. simpl length. pose proof (up_down_le l) as Hle.
    destruct (sign_cases v) as [(-> & -> & Hv)|[(-> & -> & Hv)|(-> & -> & Hv)]].
    + split.
      * intros H w [<-|Hw]; [exact Hv|]. apply IH; [lia|exact Hw].
      * intros H. assert (E : (count_if ispos l + count_if isneg l = length l)%nat)
          by (apply IH; intros; apply H; now right). lia.
    + split.
      * intros H w [<-|Hw]; [exact Hv|]. apply IH; [lia|exact Hw].
      * intros H. assert (E : (count_if ispos l + count_if isneg l = length l)%nat)
          by (apply IH; intros; apply H; now right). lia.
    + split.
      * intros H. lia.
      * intros H. exfalso. apply (H v); [now left|exact Hv].
Qed.

Lemma fdiv_count (a : Q) (n : nat) :
  n <> O -> fdiv a (Qofnat n) = Some (a / Qofnat n)%Q.
Proof.
  intros Hn. unfold fdiv. destruct (Qeq_bool (Qofnat n) 0) eqn:E; auto.
  apply Qeq_bool_eq in E. unfold Qeq, Qofnat in E. simpl in E. lia.
Qed.

Lemma Qofnat_le (a b : nat) : (a <= b)%nat -> (Qofnat a <= Qofnat b)%Q.
Proof. intros H. unfold Qofnat. rewrite <- Zle_Qle. lia. Qed.

Lemma Qofnat_pos (n : nat) : n <> O -> (0 < Qofnat n)%Q.
Proof.
  intros H. unfold Qofnat. change 0%Q with (inject_Z 0). rewrite <- Zlt_Qlt. lia.
Qed.

(** A share of a count in a total, as a percentage, lies in [0, 100]. *)
Lemma share_range (a b : nat) :
  (a <= b)%nat -> b <> O ->
  (0 <= Qofnat a / Qofnat b * 100 /\ Qofnat a / Qofnat b * 100 <= 100)%Q.
Proof.
  intros Hab Hb. pose proof (Qofnat_pos b Hb) as Hpos.
  pose proof (Qofnat_le a b Hab) as Hle.
  assert (H0 : (0 <= Qofnat a)%Q) by (apply (Qofnat_le 0 a); lia).
  assert (Hq0 : (0 <= Qofnat a / Qofnat b)%Q).
  { apply Qle_shift_div_l; auto; lra. }
  assert (Hq1 : (Qofnat a / Qofnat b <= 1)%Q).
  { apply Qle_shift_div_r; auto; lra. }
  split; lra.
Qed.

Lemma month_stats_inv (fsqrt : Q -> Q) (t : string) (col : NumSeries) (m : Z)
    (out : list Stats.Row) :
  month_stats fsqrt t col m = inr out ->
  let vals := map snd (in_month m col) in
  (vals = [] /\ out = []) \/
  (vals <> [] /\ exists name,
     dict_get MONTHS_ES m = inr name /\
     out = [ Stats.mk t m name (count_if ispos vals) (count_if isneg vals) (length vals)
               (Some (round_nd (Qofnat (count_if ispos vals) / Qofnat (length vals) * 100) 1))
               (round_opt (mean vals) 2) (round_opt (median vals) 2)
               (round_opt (series_max vals) 2) (round_opt (series_min vals) 2)
               (round_opt (series_std fsqrt vals) 2) ]).
Proof.
  unfold month_stats. cbv zeta.
  destruct (map snd (in_month m col)) as [|v vals] eqn:Hv.
  - simpl. intros H. injection H as <-. now left.
  - cbn [length Nat.eqb]. unfold bind.
    destruct (dict_get MONTHS_ES m) as [e|name]; [discriminate|].
    intros H. injection H as <-. right. split; [discriminate|].
    exists name. split; auto.
Qed.

Lemma month_stats_ok (fsqrt : Q -> Q) (t : string) (col : NumSeries) (m : Z) :
  In m range_1_13 -> exists out, month_stats fsqrt t col m = inr out.
Proof.
  intros Hm. unfold month_stats. cbv zeta.
  destruct (length (map snd (in_month m col)) =? 0)%nat; [eexists; reflexivity|].
  destruct (months_es_range m Hm) as [name ->]. eexists. reflexivity.
Qed.

Lemma get_monthly_stats_ok (fsqrt : Q -> Q) (returns : DataFrame) :
  exists stats, get_monthly_stats fsqrt returns = inr stats.
Proof.
  unfold get_monthly_stats. apply concatM_map_ok. intros t Ht.
  destruct (getitemM_in returns t Ht) as (s & _ & ->). cbn [bind].
  apply concatM_map_ok. intros m Hm. now apply month_stats_ok.
Qed.

(** Where a record of [get_monthly_stats] comes from. *)
Lemma get_monthly_stats_in (fsqrt : Q -> Q) (returns : DataFrame) (stats : list Stats.Row)
    (r : Stats.Row) :
  get_monthly_stats fsqrt returns = inr stats ->
  (In r stats <->
   exists t s m out, In t (columns returns) /\ getitem returns t = Some s /\
     In m range_1_13 /\ month_stats fsqrt t (dropna s) m = inr out /\ In r out).
Proof.
  intros Hstats. unfold get_monthly_stats in Hstats.
  rewrite (concatM_map_in _ _ _ r Hstats). split.
  - intros (t & xs & Ht & Hb & Hr).
    destruct (getitemM_in returns t Ht) as (s & Hg & Hs). rewrite Hs in Hb. cbn [bind] in Hb.
    apply (concatM_map_in _ _ _ r) in Hb. apply Hb in Hr.
    destruct Hr as (m & out & Hm & Ho & Hr). exists t, s, m, out. auto.
  - intros (t & s & m & out & Ht & Hg & Hm & Ho & Hr).
    destruct (concatM_map_each _ _ _ t Hstats Ht) as [xs Hxs]. exists t, xs.
    repeat split; auto.
    destruct (getitemM_in returns t Ht) as (s' & Hg' & Hs).
    rewrite Hs in Hxs. cbn [bind] in Hxs. apply (concatM_map_in _ _ _ r Hxs).
    exists m, out. repeat split; auto. congruence.
Qed.

Lemma get_monthly_stats_ticker (fsqrt : Q -> Q) (returns : DataFrame)
    (stats : list Stats.Row) (r : Stats.Row) :
  get_monthly_stats fsqrt returns = inr stats -> In r stats ->
  In (Stats.ticker r) (columns returns).
Proof.
  intros Hstats Hr.
  apply (get_monthly_stats_in _ _ _ r Hstats) in Hr
    as (t & s & m & out & Ht & Hg & Hm & Ho & Hr).
  apply month_stats_inv in Ho. cbv zeta in Ho.
  destruct Ho as [[_ ->]|(_ & name & _ & ->)]; [destruct Hr|].
  destruct Hr as [<-|[]]. exact Ht.
Qed.

(** The records of [get_monthly_stats], in the terms of the function. *)
Lemma get_monthly_stats_records (fsqrt : Q -> Q) (returns : DataFrame) :
  exists stats, get_monthly_stats fsqrt returns = inr stats /\
    (forall r, In r stats ->
       In (Stats.ticker r) (columns returns) /\ In (Stats.month r) range_1_13 /\
       exists s, getitem returns (Stats.ticker r) = Some s /\
         let vals := map snd (in_month (Stats.month r) (dropna s)) in
         vals <> [] /\
         Stats.veces_subio r = count_if ispos vals /\
         Stats.veces_bajo r = count_if isneg vals /\
         Stats.total_años r = length vals /\
         (Stats.veces_subio r + Stats.veces_bajo r <= Stats.total_años r)%nat /\
         ((Stats.veces_subio r + Stats.veces_bajo r = Stats.total_años r)%nat
          <-> forall v, In v vals -> ~ (v == 0)%Q) /\
         exists p, Stats.pct_sube r = Some p /\
           p = round_nd (Qofnat (Stats.veces_subio r) / Qofnat (Stats.total_años r) * 100) 1 /\
           (exact_pct_sube r - (1 # 20) <= p /\ p <= exact_pct_sube r + (1 # 20))%Q) /\
    (forall t m s, In t (columns returns) -> In m range_1_13 ->
       getitem returns t = Some s ->
       map snd (in_month m (dropna s)) <> [] ->
       exists r, In r stats /\ Stats.ticker r = t /\ Stats.month r = m) /\
    (forall t m s r, getitem returns t = Some s ->
       map snd (in_month m (dropna s)) = [] ->
       In r stats -> Stats.ticker r = t -> Stats.month r <> m).
Proof.
  destruct (get_monthly_stats_ok fsqrt returns) as [stats Hstats].
  pose proof (fun r => get_monthly_stats_in fsqrt returns stats r Hstats) as Hin.
  assert (Hrec : forall r, In r stats ->
            In (Stats.ticker r) (columns returns) /\ In (Stats.month r) range_1_13 /\
            exists s, getitem returns (Stats.ticker r) = Some s /\
              let vals := map snd (in_month (Stats.month r) (dropna s)) in
              vals <> [] /\
              Stats.veces_subio r = count_if ispos vals /\
              Stats.veces_bajo r = count_if isneg vals /\
              Stats.total_años r = length vals /\
              Stats.pct_sube r
              = Some (round_nd (Qofnat (Stats.veces_subio r) / Qofnat (Stats.total_años r) * 100) 1)).
  { intros r Hr. apply Hin in Hr as (t & s & m & out & Ht & Hg & Hm & Ho & Hr).
    apply month_stats_inv in Ho. cbv zeta in Ho.
    destruct Ho as [[_ ->]|(Hne & name & _ & ->)]; [destruct Hr|].
    destruct Hr as [<-|[]]. cbn [Stats.ticker Stats.month].
    repeat split; auto. exists s. repeat split; auto. }
  exists stats. split; [exact Hstats|]. split; [|split].
  - intros r Hr. destruct (Hrec r Hr) as (Ht & Hm & s & Hg & Hne & Hup & Hdn & Htot & Hp).
    repeat split; auto. exists s. split; auto. cbv zeta.
    split; [exact Hne|]. split; [exact Hup|]. split; [exact Hdn|]. split; [exact Htot|].
    rewrite Hup, Hdn, Htot. split; [apply up_down_le|]. split; [apply up_down_all|].
    eexists. split; [rewrite Hp, Hup, Htot; reflexivity|]. split; [reflexivity|].
    unfold exact_pct_sube. rewrite Hup, Htot. apply round_nd_1_close.
  - intros t m s Ht Hm Hg Hne.
    destruct (month_stats_ok fsqrt t (dropna s) m Hm) as [out Ho].
    pose proof (month_stats_inv _ _ _ _ _ Ho) as Hi. cbv zeta in Hi.
    destruct Hi as [[He _]|(_ & name & _ & Hout)]; [contradiction|].
    eexists. split.
    + apply Hin. exists t, s, m, out. repeat split; auto. rewrite Hout. now left.
    + split; reflexivity.
  - intros t m s r Hg He Hr Ht Hm.
    destruct (Hrec r Hr) as (_ & _ & s' & Hg' & Hne & _).
    rewrite Ht, Hg in Hg'. injection Hg' as <-. rewrite Hm in Hne. contradiction.
Qed.

(** The column of a label, read by the rows. *)
Lemma index_of_position (t : string) (cols : list string) (j : nat) :
  index_of t cols = Some j <->
  nth_error cols j = Some t /\ forall i, (i < j)%nat -> nth_error cols i <> Some t.
Proof.
  revert j. induction cols as [|c cols IH]; intros j; cbn [index_of].
  - split; [discriminate|]. intros [H _]. now destruct j.
  - destruct (String.eqb_spec t c) as [->|Hne].
    + split.
      * intros E. injection E as <-. split; [reflexivity|]. intros i Hi. lia.
      * intros [Hj Hfirst]. destruct j as [|j]; [reflexivity|].
        exfalso. apply (Hfirst O); [lia|reflexivity].
    + destruct j as [|j].
      * split.
        -- destruct (index_of t cols); discriminate.
        -- intros [Hj _]. cbn in Hj. congruence.
      * specialize (IH j). split.
        -- intros E. destruct (index_of t cols) as [k|]; [|discriminate].
           injection E as ->. destruct (proj1 IH eq_refl) as [Hj Hfirst].
           split; [exact Hj|]. intros [|i] Hi; cbn; [congruence|]. apply Hfirst. lia.
        -- intros [Hj Hfirst]. cbn in Hj.
           rewrite (proj2 IH); [reflexivity|]. split; [exact Hj|].
           intros i Hi. apply (Hfirst (S i)). lia.
Qed.

Lemma dropna_spec_column (df : DataFrame) (j : nat) :
  dropna (map (fun r : row => (fst r, nth j (snd r) None)) (rows df)) = spec_column df j.
Proof.
  unfold spec_column. induction (rows df) as [|r l IH]; [reflexivity|].
  cbn [map dropna flat_map]. destruct (nth j (snd r) None); cbn [dropna app]; now rewrite IH.
Qed.

Lemma getitem_spec_column (df : DataFrame) (t : string) (s : Series) :
  getitem df t = Some s ->
  exists j, spec_position df t j /\ dropna s = spec_column df j.
Proof.
  unfold getitem. destruct (index_of t (columns df)) as [j|] eqn:E; [|discriminate].
  intros H. injection H as <-. exists j. split.
  - now apply index_of_position.
  - apply dropna_spec_column.
Qed.

Lemma spec_position_getitem (df : DataFrame) (t : string) (j : nat) :
  spec_position df t j ->
  In t (columns df) /\ exists s, getitem df t = Some s /\ dropna s = spec_column df j.
Proof.
  intros H. pose proof (proj2 (index_of_position t (columns df) j) H) as E. split.
  - destruct H as [H _]. eapply nth_error_In; eauto.
  - unfold getitem. rewrite E. eexists. split; [reflexivity|]. apply dropna_spec_column.
Qed.

Lemma spec_position_unique (df : DataFrame) (t : string) (i j : nat) :
  spec_position df t i -> spec_position df t j -> i = j.
Proof.
  intros Hi Hj. apply index_of_position in Hi, Hj. congruence.
Qed.

Lemma ispos_spec_up (v : Q) : ispos v = spec_up v.
Proof.
  unfold ispos, spec_up.
  destruct (0 ?= v)%Q eqn:C; destruct (Qle_bool v 0) eqn:E; try reflexivity; exfalso.
  - assert (H : (v <= 0)%Q) by (apply Qeq_alt in C; lra).
    apply Qle_bool_iff in H. congruence.
  - apply Qlt_alt in C. apply Qle_bool_iff in E. lra.
  - assert (H : (v <= 0)%Q) by (apply Qgt_alt in C; lra).
    apply Qle_bool_iff in H. congruence.
Qed.

Lemma isneg_spec_down (v : Q) : isneg v = spec_down v.
Proof.
  unfold isneg, spec_down.
  destruct (v ?= 0)%Q eqn:C; destruct (Qle_bool 0 v) eqn:E; try reflexivity; exfalso.
  - assert (H : (0 <= v)%Q) by (apply Qeq_alt in C; lra).
    apply Qle_bool_iff in H. congruence.
  - apply Qlt_alt in C. apply Qle_bool_iff in E. lra.
  - assert (H : (0 <= v)%Q) by (apply Qgt_alt in C; lra).
    apply Qle_bool_iff in H. congruence.
Qed.

Lemma count_if_spec_up (l : list Q) : count_if ispos l = length (filter spec_up l).
Proof.
  unfold count_if. f_equal. apply filter_ext. intros v. apply ispos_spec_up.
Qed.

Lemma count_if_spec_down (l : list Q) : count_if isneg l = length (filter spec_down l).
Proof.
  unfold count_if. f_equal. apply filter_ext. intros v. apply isneg_spec_down.
Qed.

Lemma in_month_spec (df : DataFrame) (j : nat) (m : Z) (s : Series) :
  dropna s = spec_column df j ->
  map snd (in_month m (dropna s)) = spec_month_returns df j m.
Proof. intros ->. reflexivity. Qed.

(** C5.  [get_monthly_stats] returns.  Every record it emits is for a
    label of the table and a month from 1 to 12, and, with the column read
    by the rows of the table (the present values of the rows dated in that
    month), which is not empty: [veces_subio] is the number of those values
    strictly above zero, [veces_bajo] the number strictly below zero,
    [total_años] the number of all of them, so that ups and downs together
    never exceed the total and fall short of it exactly when some value is
    zero; [pct_sube] is the ups over the total, times 100, rounded to one
    decimal, within 0.05 of the exact quotient.  A label and a month with a
    present value have a record, a label and a month with none have no
    record. *)
Theorem get_monthly_stats_counts (fsqrt : Q -> Q) (returns : DataFrame) :
  exists stats, get_monthly_stats fsqrt returns = inr stats /\
    (forall r, In r stats ->
       In (Stats.ticker r) (columns returns) /\ In (Stats.month r) range_1_13 /\
       exists j, spec_position returns (Stats.ticker r) j /\
         let vals := spec_month_returns returns j (Stats.month r) in
         vals <> [] /\
         Stats.veces_subio r = length (filter spec_up vals) /\
         Stats.veces_bajo r = length (filter spec_down vals) /\
         Stats.total_años r = length vals /\
         (Stats.veces_subio r + Stats.veces_bajo r <= Stats.total_años r)%nat /\
         ((Stats.veces_subio r + Stats.veces_bajo r = Stats.total_años r)%nat
          <-> forall v, In v vals -> ~ (v == 0)%Q) /\
         exists p, Stats.pct_sube r = Some p /\
           p = round_nd (inject_Z (Z.of_nat (Stats.veces_subio r))
                         / inject_Z (Z.of_nat (Stats.total_años r)) * 100) 1 /\
           (inject_Z (Z.of_nat (Stats.veces_subio r))
            / inject_Z (Z.of_nat (Stats.total_años r)) * 100 - (1 # 20) <= p /\
            p <= inject_Z (Z.of_nat (Stats.veces_subio r))
                 / inject_Z (Z.of_nat (Stats.total_años r)) * 100 + (1 # 20))%Q) /\
    (forall t j m, spec_position returns t j -> In m range_1_13 ->
       spec_month_returns returns j m <> [] ->
       exists r, In r stats /\ Stats.ticker r = t /\ Stats.month r = m) /\
    (forall t j m r, spec_position returns t j ->
       spec_month_returns returns j m = [] ->
       In r stats -> Stats.ticker r = t -> Stats.month r <> m).
Proof.
  destruct (get_monthly_stats_records fsqrt returns) as (stats & Hstats & Hrec & Hsome & Hnone).
  exists stats. split; [exact Hstats|]. split; [|split].
  - intros r Hr.
    destruct (Hrec r Hr)
      as (Ht & Hm & s & Hg & Hne & Hup & Hdn & Htot & Hle & Hall & p & Hp & Hround & Hclose).
    cbv zeta in *.
    destruct (getitem_spec_column returns _ s Hg) as (j & Hj & Hcol).
    rewrite (in_month_spec returns j _ s Hcol) in *.
    split; [exact Ht|]. split; [exact Hm|]. exists j. split; [exact Hj|].
    split; [exact Hne|]. split; [now rewrite <- count_if_spec_up|].
    split; [now rewrite <- count_if_spec_down|]. split; [exact Htot|].
    split; [exact Hle|]. split; [exact Hall|].
    exists p. split; [exact Hp|]. split; [exact Hround|exact Hclose].
  - intros t j m Hj Hm Hne.
    destruct (spec_position_getitem returns t j Hj) as (Ht & s & Hg & Hcol).
    apply (Hsome t m s Ht Hm Hg). now rewrite (in_month_spec returns j m s Hcol).
  - intros t j m r Hj He Hr Ht.
    destruct (spec_position_getitem returns t j Hj) as (_ & s & Hg & Hcol).
    apply (Hnone t m s r Hg); [|exact Hr|exact Ht].
    now rewrite (in_month_spec returns j m s Hcol).
Qed.

(** January of the first of two airlines: one rise and two falls in three
    years. *)
Lemma get_monthly_stats_counts_witness :
  exists r,
    In r third_stats /\ Stats.ticker r = "AAL" /\ Stats.month r = 1 /\
    Stats.veces_subio r = 1%nat /\ Stats.veces_bajo r = 2%nat /\
    Stats.total_años r = 3%nat.
Proof.
  destruct (get_monthly_stats_counts (fun x => x) third_returns)
    as (stats & Hstats & Hrec & Hsome & _).
  assert (E : stats = third_stats).
  { unfold third_stats. now rewrite Hstats. }
  subst stats.
  destruct (Hsome "AAL" O 1) as (r & Hr & Ht & Hm).
  - split; [reflexivity|]. intros i Hi. lia.
  - vm_compute. tauto.
  - discriminate.
  - exists r. split; [exact Hr|]. split; [exact Ht|]. split; [exact Hm|].
    destruct (Hrec r Hr) as (_ & _ & j & Hj & Hne & Hup & Hdn & Htot & _).
    cbv zeta in *. rewrite Ht in Hj.
    assert (Ej : j = O).
    { apply (spec_position_unique third_returns "AAL"); [exact Hj|].
      split; [reflexivity|]. intros i Hi. lia. }
    subst j. rewrite Hm in *. rewrite Hup, Hdn, Htot. repeat split; reflexivity.
Defined.

(* ------------------------------------------------------------------ *)
(** ** Sorting *)

Lemma insert_by_perm {A : Type} (key : A -> Q) (x : A) (l : list A) :
  Permutation (insert_by key x l) (x :: l).
Proof.
  induction l as [|y l IH]; simpl; auto.
  destruct (Qle_bool (key x) (key y)); auto.
  rewrite IH. apply perm_swap.
Qed.

Lemma isort_by_perm (A : Type) (key : A -> Q) (l : list A) :
  Permutation (isort_by A key l) l.
Proof.
  induction l as [|x l IH]; simpl; auto.
  rewrite insert_by_perm. now constructor.
Qed.

Lemma insert_by_sorted {A : Type} (key : A -> Q) (x : A) (l : list A) :
  StronglySorted (fun a b => key a <= key b)%Q l ->
  StronglySorted (fun a b => key a <= key b)%Q (insert_by key x l).
Proof.
  induction 1 as [|y l Hs IH Hy]; simpl.
  - repeat constructor.
  - destruct (Qle_bool (key x) (key y)) eqn:E.
    + apply Qle_bool_iff in E. constructor; [now constructor|].
      constructor; auto.
      rewrite Forall_forall in Hy |- *. intros z Hz.
      apply Qle_trans with (key y); auto.
    + assert (Hyx : (key y <= key x)%Q).
      { destruct (Qlt_le_dec (key y) (key x)) as [Hlt|Hle]; [now apply Qlt_le_weak|].
        apply Qle_bool_iff in Hle. congruence. }
      constructor; auto.
      rewrite Forall_forall in Hy |- *. intros z Hz.
      apply (Permutation_in _ (insert_by_perm key x l)) in Hz.
      destruct Hz as [<-|Hz]; auto.
Qed.

Lemma isort_by_sorted (A : Type) (key : A -> Q) (l : list A) :
  StronglySorted (fun a b => key a <= key b)%Q (isort_by A key l).
Proof.
  induction l as [|x l IH]; simpl; [constructor|].
  now apply insert_by_sorted.
Qed.

(** The stable routine. *)
Definition stable_kind : SortKind :=
  mkSortKind isort_by isort_by_perm isort_by_sorted.

Lemma take_rows_seq_from {A : Type} (pre l : list A) :
  take_rows (pre ++ l) (seq (length pre) (length l)) = l.
Proof.
  revert pre. induction l as [|a l IH]; intros pre; [reflexivity|].
  cbn [length seq]. unfold take_rows. cbn [flat_map].
  rewrite nth_error_app2 by lia. rewrite Nat.sub_diag. cbn [nth_error app].
  f_equal. specialize (IH (pre ++ [a])).
  rewrite <- app_assoc, length_app in IH. cbn [length app] in IH.
  rewrite Nat.add_1_r in IH. exact IH.
Qed.

Lemma take_rows_seq {A : Type} (l : list A) : take_rows l (seq 0 (length l)) = l.
Proof. exact (take_rows_seq_from [] l). Qed.

Lemma ascending_sorted {A : Type} (key : A -> Q) (l : list A) :
  ascending (map key l) = true ->
  StronglySorted (fun a b => key a <= key b)%Q l.
Proof.
  intros H. apply Sorted_StronglySorted.
  - intros a b c Hab Hbc. now apply Qle_trans with (key b).
  - induction l as [|a l IH]; [constructor|].
    destruct l as [|b l]; [repeat constructor|].
    cbn [map ascending] in H. apply andb_true_iff in H as [Hab H].
    constructor; [now apply IH|]. constructor. now apply Qle_bool_iff.
Qed.

Lemma numpy_sort_by_perm (A : Type) (key : A -> Q) (l : list A) :
  Permutation (numpy_sort_by A key l) l.
Proof.
  unfold numpy_sort_by. cbv zeta.
  destruct (list_eq_dec Nat.eq_dec _ _) as [E|_]; [|apply isort_by_perm].
  destruct (ascending _); [|apply isort_by_perm].
  apply Permutation_trans with (take_rows l (seq 0 (length l)));
    [|now rewrite take_rows_seq].
  unfold take_rows. apply Permutation_flat_map.
  rewrite <- E. symmetry. apply isort_by_perm.
Qed.

Lemma numpy_sort_by_sorted (A : Type) (key : A -> Q) (l : list A) :
  StronglySorted (fun a b => key a <= key b)%Q (numpy_sort_by A key l).
Proof.
  unfold numpy_sort_by. cbv zeta.
  destruct (list_eq_dec Nat.eq_dec _ _) as [_|_]; [|apply isort_by_sorted].
  destruct (ascending _) eqn:E; [|apply isort_by_sorted].
  now apply ascending_sorted.
Qed.

(** The routine of [kind="quicksort"]. *)
Definition numpy_kind : SortKind :=
  mkSortKind numpy_sort_by numpy_sort_by_perm numpy_sort_by_sorted.

Lemma StronglySorted_app {A : Type} (R : A -> A -> Prop) (l1 l2 : list A) :
  StronglySorted R l1 -> StronglySorted R l2 ->
  (forall a b, In a l1 -> In b l2 -> R a b) ->
  StronglySorted R (l1 ++ l2).
Proof.
  induction 1 as [|x l1 Hs IH Hx]; simpl; intros H2 H; auto.
  constructor.
  - apply IH; [exact H2|]. intros a b Ha Hb. apply H; [now right|exact Hb].
  - rewrite Forall_forall in Hx |- *. intros z Hz.
    apply in_app_or in Hz as [Hz|Hz]; [now apply Hx|]. apply H; [now left|exact Hz].
Qed.

Lemma StronglySorted_rev {A : Type} (R : A -> A -> Prop) (l : list A) :
  StronglySorted R l -> StronglySorted (fun a b => R b a) (rev l).
Proof.
  induction 1 as [|x l Hs IH Hx]; simpl; [constructor|].
  apply StronglySorted_app; auto.
  - repeat constructor.
  - intros a b Ha [<-|[]]. rewrite Forall_forall in Hx. apply Hx.
    now apply in_rev.
Qed.

Lemma StronglySorted_weaken {A : Type} (R R' : A -> A -> Prop) (l : list A) :
  (forall a b, In a l -> In b l -> R a b -> R' a b) ->
  StronglySorted R l -> StronglySorted R' l.
Proof.
  intros H Hs. induction Hs as [|x l Hs IH Hx]; constructor.
  - apply IH. intros; apply H; auto; now right.
  - rewrite Forall_forall in Hx |- *. intros z Hz.
    apply H; auto; [now left|now right].
Qed.

Lemma filter_split_perm {A : Type} (f : A -> bool) (l : list A) :
  Permutation (filter f l ++ filter (fun a => negb (f a)) l) l.
Proof.
  induction l as [|a l IH]; simpl; auto.
  destruct (f a); simpl.
  - now constructor.
  - rewrite <- Permutation_middle. now constructor.
Qed.

Lemma sort_values_desc_perm (K : SortKind) {A : Type} (key : A -> option Q) (l : list A) :
  Permutation (sort_values_desc K key l) l.
Proof.
  unfold sort_values_desc.
  rewrite <- (filter_split_perm (fun a => is_some (key a)) l) at 3.
  apply Permutation_app_tail.
  rewrite <- Permutation_rev, sort_by_perm. symmetry. apply Permutation_rev.
Qed.

Lemma sort_values_desc_sorted (K : SortKind) {A : Type} (key : A -> option Q) (l : list A) :
  StronglySorted (fun a b => desc_le (key a) (key b)) (sort_values_desc K key l).
Proof.
  unfold sort_values_desc.
  set (non_nans := filter (fun a => is_some (key a)) l).
  set (nans := filter (fun a => negb (is_some (key a))) l).
  assert (Hnan : forall b, In b nans -> key b = None).
  { intros b Hb. apply filter_In in Hb as [_ Hb]. now destruct (key b). }
  assert (Hnum : forall a, In a (rev (sort_by K A (key_or_zero key) (rev non_nans))) ->
                           exists q, key a = Some q).
  { intros a Ha. apply in_rev in Ha.
    apply (Permutation_in _ (sort_by_perm K A _ _)) in Ha. apply in_rev in Ha.
    apply filter_In in Ha as [_ Ha]. destruct (key a) as [q|]; [now exists q|discriminate]. }
  apply StronglySorted_app.
  - apply StronglySorted_weaken
      with (R := fun a b => (key_or_zero key b <= key_or_zero key a)%Q).
    + intros a b Ha Hb. unfold key_or_zero.
      destruct (Hnum a Ha) as [qa ->], (Hnum b Hb) as [qb ->]. auto.
    + apply StronglySorted_rev with (R := fun a b => (key_or_zero key a <= key_or_zero key b)%Q).
      apply sort_by_sorted.
  - clear Hnum. induction nans as [|b nans IH]; constructor.
    + apply IH. intros; apply Hnan; now right.
    + rewrite Forall_forall. intros c Hc.
      rewrite (Hnan c) by now right. now destruct (key b).
  - intros a b Ha Hb. rewrite (Hnan b Hb). now destruct (key a).
Qed.

(* ------------------------------------------------------------------ *)
(** ** find_correlations: the loop body *)

Lemma isneg_lt (v : Q) : isneg v = true <-> (v < 0)%Q.
Proof.
  unfold isneg. rewrite Qlt_alt. destruct (v ?= 0)%Q; split; congruence.
Qed.

Lemma ispos_lt (v : Q) : ispos v = true <-> (0 < v)%Q.
Proof.
  unfold ispos. rewrite Qlt_alt. destruct (0 ?= v)%Q; split; congruence.
Qed.

Lemma memZ_in (y : Z) (l : list Z) : memZ y l = true <-> In y l.
Proof.
  unfold memZ. rewrite existsb_exists. split.
  - intros (x & Hx & E). apply Z.eqb_eq in E. now subst.
  - intros H. exists y. split; auto. apply Z.eqb_refl.
Qed.

Lemma in_dropna (d : date) (v : Q) (s : Series) :
  In (d, v) (dropna s) <-> In (d, Some v) s.
Proof.
  induction s as [|[e [w|]] s IH]; simpl.
  - tauto.
  - rewrite IH. split; (intros [H|H]; [left; congruence|now right]).
  - rewrite IH. split; [now right|intros [H|H]; [discriminate|assumption]].
Qed.

Lemma in_in_month (m : Z) (x : date * Q) (col : NumSeries) :
  In x (in_month m col) <-> In x col /\ month (fst x) = m.
Proof. unfold in_month. rewrite filter_In, Z.eqb_eq. tauto. Qed.

Lemma getitem_index (df : DataFrame) (t : string) (s : Series) :
  getitem df t = Some s -> map fst s = index df.
Proof.
  unfold getitem. destruct (index_of t (columns df)); [|discriminate].
  intros H. injection H as <-. unfold index. rewrite map_map. reflexivity.
Qed.

Lemma dropna_dates (s : Series) (x : date * Q) :
  In x (dropna s) -> In (fst x) (map fst s).
Proof.
  destruct x as [d v]. rewrite in_dropna. intros H.
  apply (in_map fst) in H. exact H.
Qed.

(** In a table with one row per month, the observations of an instrument in
    a calendar month fall in distinct years. *)
Lemma years_of_month_nodup (s : Series) (m : Z) :
  distinct_months (map fst s) = true ->
  NoDup (years_of (in_month m (dropna s))).
Proof.
  induction s as [|[d o] s IH]; simpl; intros H.
  - constructor.
  - apply andb_true_iff in H as [Hd Hs]. specialize (IH Hs).
    destruct o as [v|]; simpl; auto.
    destruct (month d =? m) eqn:Em; simpl; auto.
    apply Z.eqb_eq in Em. constructor; auto.
    intros Hin. unfold years_of in Hin. apply in_map_iff in Hin as (x & Hy & Hx).
    apply in_in_month in Hx as [Hx Hm]. apply dropna_dates in Hx.
    apply negb_true_iff in Hd.
    assert (E : existsb (fun e => (year d =? year e) && (month d =? month e)) (map fst s) = true).
    { apply existsb_exists. exists (fst x). split; auto.
      apply andb_true_iff. split; apply Z.eqb_eq; congruence. }
    congruence.
Qed.

(** Dropping elements keeps their images distinct. *)
Lemma distinct_images_filter {X Y : Type} (image : X -> Y) (keep : X -> bool) :
  forall xs : list X, NoDup (map image xs) -> NoDup (map image (filter keep xs)).
Proof.
  intros xs. induction xs as [|a l IH]; simpl; intros H; auto.
  inversion H as [|? ? Hn Hl]; subst.
  destruct (keep a); simpl; auto. constructor; auto.
  intros Hin. apply Hn. apply in_map_iff in Hin as (x & Hx & Hf).
  apply filter_In in Hf as [Hf _]. apply in_map_iff. eauto.
Qed.

(** With distinct years in [data], the observations of the common years
    are no more than the common years. *)
Lemma vals_le_common (years : list Z) (data : NumSeries) :
  NoDup (years_of data) ->
  (length (filter (fun x : date * Q => memZ (year (fst x)) (common_years years data)) data)
   <= length (common_years years data))%nat.
Proof.
  intros Hnd.
  set (vals := filter (fun x : date * Q => memZ (year (fst x)) (common_years years data)) data).
  rewrite <- (length_map (fun x : date * Q => year (fst x)) vals).
  apply NoDup_incl_length.
  - apply distinct_images_filter. exact Hnd.
  - intros y Hy. apply in_map_iff in Hy as (x & <- & Hx).
    apply filter_In in Hx as [_ Hx]. now apply memZ_in.
Qed.

Lemma count_if_pos {A : Type} (f : A -> bool) (x : A) (l : list A) :
  In x l -> f x = true -> (1 <= count_if f l)%nat.
Proof.
  intros Hx Hf. unfold count_if.
  assert (H : In x (filter f l)) by (apply filter_In; auto).
  destruct (filter f l); [destruct H|simpl; lia].
Qed.

Lemma period_rows_inv (t p : string) (tm : Z) (data : NumSeries) (years : list Z)
    (mo : Z) (out : list Corr.Row) :
  period_rows t p tm data years mo = inr out ->
  let common := common_years years data in
  let vals := filter (fun x : date * Q => memZ (year (fst x)) common) data in
  (Z.of_nat (length common) < mo /\ out = []) \/
  (mo <= Z.of_nat (length common) /\ exists name,
     dict_get MONTHS_ES tm = inr name /\
     out = [ Corr.mk t p name (length common) (count_if ispos (map snd vals))
               (round_opt (option_map (fun x => x * 100)%Q
                             (fdiv (Qofnat (count_if ispos (map snd vals)))
                                   (Qofnat (length common)))) 1)
               (round_opt (mean (map snd vals)) 2) ]).
Proof.
  unfold period_rows. cbv zeta.
  destruct (Z.leb_spec mo (Z.of_nat (length (common_years years data)))) as [Hle|Hlt].
  - unfold bind. destruct (dict_get MONTHS_ES tm) as [e|name]; [discriminate|].
    intros H. injection H as <-. right. split; auto. exists name. auto.
  - intros H. injection H as <-. left. auto.
Qed.

Lemma period_rows_ok (t p : string) (tm : Z) (data : NumSeries) (years : list Z) (mo : Z) :
  (exists name, dict_get MONTHS_ES tm = inr name) ->
  exists out, period_rows t p tm data years mo = inr out.
Proof.
  intros [name Hn]. unfold period_rows. cbv zeta.
  destruct (mo <=? _); [|eexists; reflexivity].
  rewrite Hn. eexists. reflexivity.
Qed.

Lemma period_rows_no_years (t p : string) (tm : Z) (data : NumSeries) (mo : Z) :
  1 <= mo -> period_rows t p tm data [] mo = inr [].
Proof.
  intros H. unfold period_rows. cbv zeta. simpl.
  destruct (Z.leb_spec mo 0); [lia|reflexivity].
Qed.

(** A record of one period, when the overlap asked for is at least one
    year and the years of [data] are distinct. *)
Lemma period_rows_sound (t p : string) (tm : Z) (data : NumSeries) (years : list Z)
    (mo : Z) (out : list Corr.Row) (r : Corr.Row) :
  1 <= mo -> NoDup (years_of data) ->
  period_rows t p tm data years mo = inr out -> In r out ->
  1 <= mo /\ mo <= Z.of_nat (Corr.n_años r) /\
  (Corr.subio_cuando_ref_bajo r <= Corr.n_años r)%nat /\
  exists q, Corr.pct_subio r = Some q /\ (0 <= q /\ q <= 100)%Q.
Proof.
  intros Hmo Hnd Hp Hr. apply period_rows_inv in Hp. cbv zeta in Hp.
  destruct Hp as [[_ ->]|(Hle & name & _ & ->)]; [destruct Hr|].
  destruct Hr as [<-|[]]. cbn [Corr.n_años Corr.subio_cuando_ref_bajo Corr.pct_subio].
  set (common := common_years years data) in *.
  set (vals := filter (fun x : date * Q => memZ (year (fst x)) common) data).
  assert (Hsub : (count_if ispos (map snd vals) <= length common)%nat).
  { apply Nat.le_trans with (length (map snd vals)); [apply count_if_le|].
    rewrite length_map. now apply vals_le_common. }
  assert (Hn : length common <> O) by lia.
  repeat split; auto.
  rewrite fdiv_count by exact Hn. simpl.
  eexists. split; [reflexivity|].
  apply round_nd_1_range; now apply share_range.
Qed.

Lemma next_month_range (m : Z) : In m range_1_13 -> In (next_month m) range_1_13.
Proof.
  unfold range_1_13. simpl.
  intros H; repeat (destruct H as [<-|H]; [vm_compute; tauto|]); contradiction.
Qed.

Lemma candidate_rows_ok (col : NumSeries) (t : string) (m : Z) (downs : list Z) (mo : Z) :
  In m range_1_13 -> exists out, candidate_rows col t m downs mo = inr out.
Proof.
  intros Hm. unfold candidate_rows.
  destruct (period_rows_ok t "Mismo mes" m (in_month m col) downs mo
              (months_es_range m Hm)) as [same ->].
  destruct (period_rows_ok t "Mes siguiente" (next_month m) (in_month (next_month m) col)
              (next_years m downs) mo
              (months_es_range _ (next_month_range m Hm))) as [next ->].
  eexists. reflexivity.
Qed.

Lemma candidate_rows_in (col : NumSeries) (t : string) (m : Z) (downs : list Z) (mo : Z)
    (out : list Corr.Row) (r : Corr.Row) :
  candidate_rows col t m downs mo = inr out ->
  (In r out <->
   (exists same, period_rows t "Mismo mes" m (in_month m col) downs mo = inr same
                 /\ In r same) \/
   (exists next, period_rows t "Mes siguiente" (next_month m)
                   (in_month (next_month m) col) (next_years m downs) mo = inr next
                 /\ In r next)).
Proof.
  unfold candidate_rows, bind.
  destruct (period_rows t "Mismo mes" m _ downs mo) as [e|same]; [discriminate|].
  destruct (period_rows t "Mes siguiente" _ _ _ mo) as [e|next]; [discriminate|].
  intros H. injection H as <-. rewrite in_app_iff. split.
  - intros [H|H]; [left|right]; eexists; eauto.
  - intros [(x & E & H)|(x & E & H)]; injection E as <-; auto.
Qed.

Lemma next_years_nil (m : Z) : next_years m [] = [].
Proof. unfold next_years. now destruct (m =? 12). Qed.

Lemma correlation_rows_ok (returns : DataFrame) (ref : string) (m : Z) (downs : list Z) (mo : Z) :
  In m range_1_13 -> exists rows, correlation_rows returns ref m downs mo = inr rows.
Proof.
  intros Hm. unfold correlation_rows. apply concatM_map_ok. intros t Ht.
  destruct (String.eqb t ref); [eexists; reflexivity|].
  destruct (getitemM_in returns t Ht) as (s & _ & ->). cbn [bind].
  now apply candidate_rows_ok.
Qed.

Lemma correlation_rows_no_years (returns : DataFrame) (ref : string) (m mo : Z) :
  1 <= mo -> correlation_rows returns ref m [] mo = inr [].
Proof.
  intros Hmo. unfold correlation_rows. apply concatM_map_nil. intros t Ht.
  destruct (String.eqb t ref); [reflexivity|].
  destruct (getitemM_in returns t Ht) as (s & _ & ->). cbn [bind].
  unfold candidate_rows. rewrite next_years_nil, !period_rows_no_years by exact Hmo.
  reflexivity.
Qed.

Lemma correlation_rows_in (returns : DataFrame) (ref : string) (m : Z) (downs : list Z)
    (mo : Z) (rows : list Corr.Row) (r : Corr.Row) :
  correlation_rows returns ref m downs mo = inr rows ->
  (In r rows <->
   exists t s out, In t (columns returns) /\ t <> ref /\ getitem returns t = Some s /\
     candidate_rows (dropna s) t m downs mo = inr out /\ In r out).
Proof.
  intros H. unfold correlation_rows in H. rewrite (concatM_map_in _ _ _ r H). split.
  - intros (t & xs & Ht & Hb & Hr).
    destruct (String.eqb_spec t ref) as [->|Hne].
    + injection Hb as <-. destruct Hr.
    + destruct (getitemM_in returns t Ht) as (s & Hg & Hs). rewrite Hs in Hb.
      cbn [bind] in Hb. exists t, s, xs. auto.
  - intros (t & s & out & Ht & Hne & Hg & Hc & Hr). exists t, out.
    split; [exact Ht|]. split; [|exact Hr].
    destruct (String.eqb_spec t ref) as [->|_]; [contradiction|].
    destruct (getitemM_in returns t Ht) as (s' & Hg' & ->). cbn [bind]. congruence.
Qed.

(** What [find_correlations] does once the reference column is found. *)
Lemma find_correlations_unfold (K : SortKind) (returns : DataFrame) (ref : string)
    (m mo : Z) (s : Series) :
  getitem returns ref = Some s ->
  find_correlations K returns ref m mo
  = if (length (in_month m (dropna s)) =? 0)%nat then inr []
    else
      rows <- correlation_rows returns ref m (ref_down_years (in_month m (dropna s))) mo ;;
      if is_empty rows then ret rows
      else ret (sort_values_desc K Corr.pct_subio rows).
Proof.
  intros Hg. unfold find_correlations, getitemM. rewrite Hg. reflexivity.
Qed.

Lemma find_correlations_inv (K : SortKind) (returns : DataFrame) (ref : string)
    (m mo : Z) (out : list Corr.Row) :
  find_correlations K returns ref m mo = inr out ->
  out = [] \/
  exists s rows, getitem returns ref = Some s /\
    in_month m (dropna s) <> [] /\
    correlation_rows returns ref m (ref_down_years (in_month m (dropna s))) mo = inr rows /\
    out = sort_values_desc K Corr.pct_subio rows.
Proof.
  destruct (getitem returns ref) as [s|] eqn:Hg.
  - rewrite (find_correlations_unfold K returns ref m mo s Hg).
    destruct (in_month m (dropna s)) as [|x l] eqn:Hd; simpl.
    + intros H. injection H as <-. now left.
    + unfold bind.
      destruct (correlation_rows returns ref m _ mo) as [e|rows] eqn:Hc; [discriminate|].
      destruct rows as [|r rows]; simpl.
      * intros H. injection H as <-. now left.
      * intros H. injection H as <-. right. exists s, (r :: rows).
        rewrite Hd. repeat split; auto. discriminate.
  - unfold find_correlations, getitemM. rewrite Hg. discriminate.
Qed.

(* ------------------------------------------------------------------ *)
(** ** find_correlations: order, empty results, well-definedness, December *)

(** C2, as the code has it.  Whatever routine [sort_values] sorts with,
    the records returned are the records the loop appended, rearranged so
    that the percentage never increases along the sequence (records whose
    percentage is not a number come last).  The order of records with the
    same percentage is left to the routine. *)
Theorem find_correlations_sorted (K : SortKind) (returns : DataFrame) (ref : string)
    (m mo : Z) (out : list Corr.Row) :
  find_correlations K returns ref m mo = inr out ->
  StronglySorted (fun a b => desc_le (Corr.pct_subio a) (Corr.pct_subio b)) out /\
  (out = [] \/
   exists s rows, getitem returns ref = Some s /\
     correlation_rows returns ref m (ref_down_years (in_month m (dropna s))) mo = inr rows /\
     Permutation out rows).
Proof.
  intros H. apply find_correlations_inv in H.
  destruct H as [->|(s & rows & Hg & _ & Hc & ->)].
  - split; [constructor|now left].
  - split; [apply sort_values_desc_sorted|].
    right. exists s, rows. repeat split; auto. apply sort_values_desc_perm.
Qed.

Lemma find_correlations_sorted_witness :
  exists out, find_correlations numpy_kind crowd_returns "REF" 3 1 = inr out /\
    length out = 18%nat /\
    StronglySorted (fun a b => desc_le (Corr.pct_subio a) (Corr.pct_subio b)) out.
Proof.
  eexists. split; [vm_compute; reflexivity|]. split; [reflexivity|].
  refine (proj1 (find_correlations_sorted numpy_kind crowd_returns "REF" 3 1 _ _)).
  vm_compute. reflexivity.
Defined.

(** C2 as stated fails on a table with eighteen candidates that all rise
    in the one March in which the reference falls.  The loop appends their
    records in the order of the columns, each at 100 per cent.  For the
    eighteen equal keys the routine answers the row numbers 0, 15, 14, ...,
    1, 16, 17: the first split exchanges the rows around the middle.
    [sort_values] reverses the records, takes them in that order and
    reverses again, and the result has T17 down to T03 between T02 and
    T18. *)
Lemma find_correlations_ties_counterexample :
  option_map (map (fun r => (Corr.ticker r, Corr.pct_subio r)))
    (match correlation_rows crowd_returns "REF" 3 [2020] 1 with
     | inr rows => Some rows
     | inl _ => None
     end)
  = Some (map (fun t => (t, Some 100%Q)) crowd)
  /\
  Npysort.argsort (repeat 100%Q 18)
  = [0; 15; 14; 13; 12; 11; 10; 9; 8; 7; 6; 5; 4; 3; 2; 1; 16; 17]%nat
  /\
  option_map (map Corr.ticker)
    (match find_correlations numpy_kind crowd_returns "REF" 3 1 with
     | inr out => Some out
     | inl _ => None
     end)
  = Some ["T01"; "T02"; "T17"; "T16"; "T15"; "T14"; "T13"; "T12"; "T11";
          "T10"; "T09"; "T08"; "T07"; "T06"; "T05"; "T04"; "T03"; "T18"]
  /\
  option_map (map Corr.ticker)
    (match find_correlations numpy_kind crowd_returns "REF" 3 1 with
     | inr out => Some out
     | inl _ => None
     end)
  <> Some crowd.
Proof.
  split; [vm_compute; reflexivity|]. split; [vm_compute; reflexivity|].
  split; [vm_compute; reflexivity|]. vm_compute. discriminate.
Qed.

(** C7, as the code has it.  For a reference instrument that is a column
    of the table: with no observation in the reference month the result is
    empty, whatever the overlap asked for; with observations but no
    negative one the result is empty when the overlap asked for is at least
    one year.  Neither case raises. *)
Theorem find_correlations_no_down_years (K : SortKind) (returns : DataFrame) (ref : string)
    (m mo : Z) (s : Series) :
  getitem returns ref = Some s ->
  (in_month m (dropna s) = [] -> find_correlations K returns ref m mo = inr []) /\
  (1 <= mo -> ref_down_years (in_month m (dropna s)) = [] ->
   find_correlations K returns ref m mo = inr []).
Proof.
  intros Hg. rewrite (find_correlations_unfold K returns ref m mo s Hg). split.
  - intros ->. reflexivity.
  - intros Hmo ->. destruct (length (in_month m (dropna s)) =? 0)%nat; [reflexivity|].
    rewrite correlation_rows_no_years by exact Hmo. reflexivity.
Qed.

Lemma find_correlations_no_down_years_witness :
  find_correlations stable_kind up_returns "AAA" 4 0 = inr []
  /\ find_correlations stable_kind up_returns "AAA" 3 1 = inr [].
Proof.
  split.
  - exact (proj1 (find_correlations_no_down_years stable_kind up_returns "AAA" 4 0 _ eq_refl)
             eq_refl).
  - apply (proj2 (find_correlations_no_down_years stable_kind up_returns "AAA" 3 1 _ eq_refl));
      [lia|reflexivity].
Defined.

(** C7 as stated fails for an overlap of zero years: the reference has no
    negative March, and still the candidate gets two records, each over an
    empty set of years. *)
Lemma find_correlations_zero_overlap_counterexample :
  ref_down_years (in_month 3 [(mkdate 2020 3 31, 1%Q)]) = []
  /\ getitem up_returns "AAA" = Some [(mkdate 2020 3 31, Some 1%Q)]
  /\ find_correlations stable_kind up_returns "AAA" 3 0
     = inr [ Corr.mk "BBB" "Mismo mes" "Marzo" 0 0 None None;
             Corr.mk "BBB" "Mes siguiente" "Abril" 0 0 None None ].
Proof. repeat split; reflexivity. Qed.

(** C10, as the code has it.  When the overlap asked for is at least one
    year, on a table with one row per calendar month, every record returned
    counts at least that many common years, counts no more rises than common
    years, and carries a percentage that is a number between 0 and 100: no
    division by zero.  With an overlap of zero this fails: a candidate with
    no common year gets a record whose percentage is 0/0, not a number. *)
Theorem find_correlations_well_defined :
  (forall (K : SortKind) (returns : DataFrame) (ref : string) (m mo : Z)
          (out : list Corr.Row) (r : Corr.Row),
     1 <= mo ->
     distinct_months (index returns) = true ->
     find_correlations K returns ref m mo = inr out ->
     In r out ->
     1 <= mo /\ mo <= Z.of_nat (Corr.n_años r) /\
     (Corr.subio_cuando_ref_bajo r <= Corr.n_años r)%nat /\
     exists q, Corr.pct_subio r = Some q /\ (0 <= q /\ q <= 100)%Q) /\
  (exists out r,
     find_correlations stable_kind up_returns "AAA" 3 0 = inr out /\
     In r out /\ Corr.n_años r = O /\ Corr.pct_subio r = None).
Proof.
  split.
  - intros K returns ref m mo out r Hmo Hd Hf Hr.
    apply find_correlations_inv in Hf.
    destruct Hf as [->|(s & rows & Hg & _ & Hc & ->)]; [destruct Hr|].
    apply (Permutation_in _ (sort_values_desc_perm K Corr.pct_subio rows)) in Hr.
    apply (correlation_rows_in _ _ _ _ _ _ r Hc) in Hr
      as (t & st & outc & Ht & Hne & Hgt & Hcand & Hr).
    assert (Hnd : forall m', NoDup (years_of (in_month m' (dropna st)))).
    { intros m'. apply years_of_month_nodup. now rewrite (getitem_index _ _ _ Hgt). }
    apply (candidate_rows_in _ _ _ _ _ _ r Hcand) in Hr
      as [(same & Hp & Hr)|(next & Hp & Hr)].
    + exact (period_rows_sound _ _ _ _ _ _ _ r Hmo (Hnd m) Hp Hr).
    + exact (period_rows_sound _ _ _ _ _ _ _ r Hmo (Hnd (next_month m)) Hp Hr).
  - eexists. exists (Corr.mk "BBB" "Mismo mes" "Marzo" 0 0 None None).
    split; [reflexivity|]. split; [now left|]. split; reflexivity.
Qed.

Lemma find_correlations_well_defined_witness :
  1 <= 1 /\
  1 <= Z.of_nat (Corr.n_años
                   (Corr.mk "BBB" "Mes siguiente" "Enero" 1 1 (Some 100%Q) (Some 5%Q))) /\
  (Corr.subio_cuando_ref_bajo
     (Corr.mk "BBB" "Mes siguiente" "Enero" 1 1 (Some 100%Q) (Some 5%Q))
   <= Corr.n_años (Corr.mk "BBB" "Mes siguiente" "Enero" 1 1 (Some 100%Q) (Some 5%Q)))%nat /\
  exists q,
    Corr.pct_subio (Corr.mk "BBB" "Mes siguiente" "Enero" 1 1 (Some 100%Q) (Some 5%Q))
    = Some q /\ (0 <= q /\ q <= 100)%Q.
Proof.
  apply (proj1 find_correlations_well_defined stable_kind december_returns "AAA" 12 1
           [ Corr.mk "BBB" "Mes siguiente" "Enero" 1 1 (Some 100%Q) (Some 5%Q) ]);
    [lia|reflexivity|reflexivity|now left].
Defined.

(** C10 as stated fails on a table with two rows in one calendar month:
    the common years are counted once a year, the rises once a row.  The
    reference falls in March 2020, the candidate rises in both rows of that
    March, and its record counts two rises over one common year, a
    percentage of 200. *)
Lemma find_correlations_double_month_counterexample :
  distinct_months (index double_returns) = false /\
  find_correlations stable_kind double_returns "AAA" 3 1
  = inr [ Corr.mk "BBB" "Mismo mes" "Marzo" 1 2 (Some 200%Q) (Some (3 # 2)%Q) ] /\
  ~ (Corr.subio_cuando_ref_bajo
       (Corr.mk "BBB" "Mismo mes" "Marzo" 1 2 (Some 200%Q) (Some (3 # 2)%Q))
     <= Corr.n_años
          (Corr.mk "BBB" "Mismo mes" "Marzo" 1 2 (Some 200%Q) (Some (3 # 2)%Q)))%nat /\
  ~ (200 <= 100)%Q.
Proof.
  split; [reflexivity|]. split; [reflexivity|]. split.
  - cbn [Corr.subio_cuando_ref_bajo Corr.n_años]. lia.
  - intros H. apply H. reflexivity.
Qed.

(** The month after, and the December fixture, in the terms of the function. *)
Lemma find_correlations_december_fixture :
  (forall m, next_month m = m mod 12 + 1) /\
  next_month 12 = 1 /\
  (forall ys, next_years 12 ys = map (fun y => y + 1) ys) /\
  (forall m ys, m <> 12 -> next_years m ys = ys) /\
  (forall (K : SortKind) (returns : DataFrame) (ref cand : string) (Y mo : Z)
          (rs cs : Series) (dr dc : date) (v w : Q),
     cand <> ref -> In cand (columns returns) ->
     getitem returns ref = Some rs -> In (dr, Some v) rs ->
     year dr = Y -> month dr = 12 -> (v < 0)%Q ->
     getitem returns cand = Some cs -> In (dc, Some w) cs ->
     year dc = Y + 1 -> month dc = 1 -> (0 < w)%Q ->
     mo <= 1 ->
     exists out r,
       find_correlations K returns ref 12 mo = inr out /\ In r out /\
       Corr.ticker r = cand /\ Corr.periodo r = "Mes siguiente" /\ Corr.mes r = "Enero" /\
       (1 <= Corr.n_años r)%nat /\ (1 <= Corr.subio_cuando_ref_bajo r)%nat).
Proof.
  split; [reflexivity|]. split; [reflexivity|]. split; [reflexivity|]. split.
  { intros m ys Hm. unfold next_years. destruct (Z.eqb_spec m 12); [contradiction|reflexivity]. }
  intros K returns ref cand Y mo rs cs dr dc v w
    Hne Hcol Hgr Hir Hyr Hmr Hv Hgc Hic Hyc Hmc Hw Hmo.
  assert (H12 : In 12 range_1_13) by (vm_compute; tauto).
  set (rdata := in_month 12 (dropna rs)).
  assert (Hrd : In (dr, v) rdata).
  { apply in_in_month. split; [now apply in_dropna|exact Hmr]. }
  set (downs := ref_down_years rdata).
  assert (HY : In Y downs).
  { unfold downs, ref_down_years, years_of. apply in_map_iff. exists (dr, v).
    split; [exact Hyr|]. apply filter_In. split; [exact Hrd|]. now apply isneg_lt. }
  destruct (correlation_rows_ok returns ref 12 downs mo H12) as [rows Hrows].
  destruct (candidate_rows_ok (dropna cs) cand 12 downs mo H12) as [outc Houtc].
  set (jan := in_month 1 (dropna cs)).
  assert (Hjan : In (dc, w) jan).
  { apply in_in_month. split; [now apply in_dropna|exact Hmc]. }
  set (common := common_years (next_years 12 downs) jan).
  assert (Hcommon : In (Y + 1) common).
  { unfold common, common_years. apply filter_In. split.
    - change (next_years 12 downs) with (map (fun y => y + 1) downs).
      apply in_map_iff. exists Y. auto.
    - apply memZ_in. unfold years_of. apply in_map_iff. exists (dc, w). auto. }
  assert (Hlen : (1 <= length common)%nat).
  { destruct common; [destruct Hcommon|simpl; lia]. }
  destruct (period_rows_ok cand "Mes siguiente" 1 jan (next_years 12 downs) mo
              (months_es_range 1 ltac:(vm_compute; tauto))) as [next Hnext].
  pose proof (period_rows_inv _ _ _ _ _ _ _ Hnext) as Hinv. cbv zeta in Hinv.
  fold common in Hinv.
  destruct Hinv as [[Hlt _]|(_ & name & Hname & Hnx)]; [lia|].
  injection Hname as <-.
  set (r := Corr.mk cand "Mes siguiente" "Enero" (length common)
              (count_if ispos
                 (map snd (filter (fun x : date * Q => memZ (year (fst x)) common) jan)))
              (round_opt (option_map (fun x => x * 100)%Q
                 (fdiv (Qofnat (count_if ispos
                    (map snd (filter (fun x : date * Q => memZ (year (fst x)) common) jan))))
                    (Qofnat (length common)))) 1)
              (round_opt (mean
                 (map snd (filter (fun x : date * Q => memZ (year (fst x)) common) jan))) 2))
    in *.
  assert (Hr : In r rows).
  { apply (correlation_rows_in _ _ _ _ _ _ r Hrows).
    exists cand, cs, outc. repeat split; auto.
    apply (candidate_rows_in _ _ _ _ _ _ r Houtc). right. exists next.
    split; [exact Hnext|]. rewrite Hnx. now left. }
  assert (Hsub : (1 <= Corr.subio_cuando_ref_bajo r)%nat).
  { unfold r. cbn [Corr.subio_cuando_ref_bajo].
    apply count_if_pos with (x := w); [|now apply ispos_lt].
    apply in_map_iff. exists (dc, w). split; [reflexivity|].
    apply filter_In. split; [exact Hjan|]. apply memZ_in. simpl. now rewrite Hyc. }
  exists (sort_values_desc K Corr.pct_subio rows), r.
  split.
  - rewrite (find_correlations_unfold K returns ref 12 mo rs Hgr).
    fold rdata. fold downs. rewrite Hrows.
    destruct rdata as [|x l]; [destruct Hrd|]. cbn [length Nat.eqb bind].
    destruct rows as [|r0 rows']; [destruct Hr|]. reflexivity.
  - split.
    + apply (Permutation_in _ (Permutation_sym (sort_values_desc_perm K Corr.pct_subio rows))).
      exact Hr.
    + repeat split; auto.
Qed.

Example find_correlations_december_example :
  find_correlations stable_kind december_returns "AAA" 12 1
  = inr [ Corr.mk "BBB" "Mes siguiente" "Enero" 1 1 (Some 100%Q) (Some 5%Q) ].
Proof. reflexivity. Qed.

(* ------------------------------------------------------------------ *)
(** ** find_correlations: returning, and the order of ties *)

(** For a reference that is a column and a calendar month, the function
    returns. *)
Lemma find_correlations_returns (K : SortKind) (returns : DataFrame) (ref : string) (m mo : Z) :
  In ref (columns returns) -> In m range_1_13 ->
  exists out, find_correlations K returns ref m mo = inr out.
Proof.
  intros Href Hm. destruct (getitemM_in returns ref Href) as (s & Hg & _).
  rewrite (find_correlations_unfold K returns ref m mo s Hg).
  destruct (length (in_month m (dropna s)) =? 0)%nat; [eexists; reflexivity|].
  destruct (correlation_rows_ok returns ref m (ref_down_years (in_month m (dropna s))) mo Hm)
    as [rows ->].
  cbn [bind]. destruct (is_empty rows); eexists; reflexivity.
Qed.

Example find_correlations_missing_reference :
  find_correlations stable_kind december_returns "ZZZ" 12 1 = inl KeyError.
Proof. reflexivity. Qed.

Lemma insert_by_keeps_order {A : Type} (key : A -> Q) (k : Q) (x : A) (l : list A) :
  filter (fun a => Qeq_bool (key a) k) (insert_by key x l)
  = filter (fun a => Qeq_bool (key a) k) (x :: l).
Proof.
  induction l as [|y l IH]; [reflexivity|].
  cbn [insert_by]. destruct (Qle_bool (key x) (key y)) eqn:E; [reflexivity|].
  cbn [filter] in *. rewrite IH.
  destruct (Qeq_bool (key x) k) eqn:Ex, (Qeq_bool (key y) k) eqn:Ey; try reflexivity.
  apply Qeq_bool_iff in Ex, Ey.
  assert (Hle : Qle_bool (key x) (key y) = true).
  { apply Qle_bool_iff. rewrite Ex, Ey. apply Qle_refl. }
  congruence.
Qed.

Lemma isort_by_keeps_order {A : Type} (key : A -> Q) (k : Q) (l : list A) :
  filter (fun a => Qeq_bool (key a) k) (isort_by A key l)
  = filter (fun a => Qeq_bool (key a) k) l.
Proof.
  induction l as [|x l IH]; [reflexivity|].
  cbn [isort_by fold_right]. fold (isort_by A key l).
  rewrite insert_by_keeps_order. cbn [filter]. now rewrite IH.
Qed.

Lemma filter_rev {A : Type} (f : A -> bool) (l : list A) :
  filter f (rev l) = rev (filter f l).
Proof.
  induction l as [|a l IH]; [reflexivity|].
  cbn [rev filter]. rewrite filter_app, IH. cbn [filter].
  destruct (f a); [reflexivity|now rewrite app_nil_r].
Qed.

Lemma filter_filter_sub {A : Type} (f g : A -> bool) (l : list A) :
  (forall a, f a = true -> g a = true) ->
  filter f (filter g l) = filter f l.
Proof.
  intros H. induction l as [|a l IH]; [reflexivity|].
  cbn [filter]. destruct (g a) eqn:Eg; cbn [filter]; rewrite IH; [reflexivity|].
  destruct (f a) eqn:Ef; [|reflexivity]. apply H in Ef. congruence.
Qed.

Lemma filter_none {A : Type} (f g : A -> bool) (l : list A) :
  (forall a, f a = true -> g a = false) ->
  filter f (filter g l) = [].
Proof.
  intros H. induction l as [|a l IH]; [reflexivity|].
  cbn [filter]. destruct (g a) eqn:Eg; cbn [filter]; rewrite ?IH; [|reflexivity].
  destruct (f a) eqn:Ef; [|reflexivity]. apply H in Ef. congruence.
Qed.

(** Sorted with a stable routine, the rows of one key keep their order. *)
Lemma sort_values_desc_stable {A : Type} (key : A -> option Q) (k : Q) (l : list A) :
  filter (with_key key k) (sort_values_desc stable_kind key l)
  = filter (with_key key k) l.
Proof.
  unfold sort_values_desc. cbn [sort_by stable_kind].
  rewrite filter_app, filter_rev.
  rewrite (filter_ext_in (with_key key k) (fun a => Qeq_bool (key_or_zero key a) k)).
  - rewrite isort_by_keeps_order, filter_rev, rev_involutive.
    rewrite (filter_none (with_key key k) (fun a => negb (is_some (key a)))).
    + rewrite app_nil_r.
      rewrite <- (filter_filter_sub (with_key key k) (fun a => is_some (key a)) l).
      * apply filter_ext_in. intros a Ha. apply filter_In in Ha as [_ Ha].
        unfold with_key, key_or_zero. destruct (key a); [reflexivity|discriminate].
      * intros a. unfold with_key. destruct (key a); [reflexivity|discriminate].
    + intros a. unfold with_key. destruct (key a); [reflexivity|discriminate].
  - intros a Ha. apply (Permutation_in _ (isort_by_perm A _ _)) in Ha.
    apply in_rev, filter_In in Ha as [_ Ha].
    unfold with_key, key_or_zero. destruct (key a); [reflexivity|discriminate].
Qed.

(** Had [sort_values] been given a stable routine, the records of equal
    percentage would follow one another as the loop appended them. *)
Lemma find_correlations_stable_ties (returns : DataFrame) (ref : string) (m mo : Z)
    (out : list Corr.Row) (k : Q) :
  find_correlations stable_kind returns ref m mo = inr out ->
  out = [] \/
  exists s rows, getitem returns ref = Some s /\
    correlation_rows returns ref m (ref_down_years (in_month m (dropna s))) mo = inr rows /\
    filter (with_key Corr.pct_subio k) out = filter (with_key Corr.pct_subio k) rows.
Proof.
  intros H. apply find_correlations_inv in H.
  destruct H as [->|(s & rows & Hg & _ & Hc & ->)]; [now left|].
  right. exists s, rows. repeat split; auto. apply sort_values_desc_stable.
Qed.

(** Two records are fewer than the routine splits: it sorts them by
    insertion and equal keys stay as they were. *)
Example find_correlations_short_example :
  option_map (map Corr.ticker)
    (match find_correlations numpy_kind tie_returns "AAA" 3 2 with
     | inr out => Some out
     | inl _ => None
     end)
  = Some ["BBB"; "CCC"].
Proof. vm_compute. reflexivity. Qed.

Example find_correlations_stable_example :
  option_map (map Corr.ticker)
    (match find_correlations stable_kind tie_returns "AAA" 3 2 with
     | inr out => Some out
     | inl _ => None
     end)
  = Some ["BBB"; "CCC"].
Proof. reflexivity. Qed.

(* ------------------------------------------------------------------ *)
(** ** Sectors *)

Lemma sectors_get_setdefault (d : list (string * list string)) (k t s : string) :
  sectors_get (setdefault_append d k t) s
  = if String.eqb s k then sectors_get d k ++ [t] else sectors_get d s.
Proof.
  unfold sectors_get. induction d as [|[k' ts] d IH]; simpl.
  - now destruct (String.eqb s k).
  - destruct (String.eqb_spec k k') as [<-|Hkk]; simpl.
    + now destruct (String.eqb s k).
    + destruct (String.eqb_spec s k') as [->|Hsk].
      * destruct (String.eqb_spec k' k); [congruence|reflexivity].
      * exact IH.
Qed.

Lemma sectors_get_fold (tickers : list string) (d : list (string * list string)) (s : string) :
  sectors_get
    (fold_left (fun sectors t => setdefault_append sectors (get_ticker_sector t) t) tickers d) s
  = sectors_get d s ++ filter (fun t => String.eqb (get_ticker_sector t) s) tickers.
Proof.
  revert d. induction tickers as [|t tickers IH]; intros d; simpl.
  - now rewrite app_nil_r.
  - rewrite IH, sectors_get_setdefault.
    rewrite (String.eqb_sym (get_ticker_sector t) s).
    destruct (String.eqb_spec s (get_ticker_sector t)) as [->|Hne].
    + now rewrite <- app_assoc.
    + reflexivity.
Qed.

Lemma setdefault_keys (d : list (string * list string)) (k t : string) :
  map fst (setdefault_append d k t)
  = if mem k (map fst d) then map fst d else map fst d ++ [k].
Proof.
  unfold mem. induction d as [|[k' ts] d IH]; simpl; auto.
  destruct (String.eqb_spec k k') as [->|Hne]; simpl; auto.
  rewrite IH. now destruct (existsb (String.eqb k) (map fst d)).
Qed.

Lemma mem_in (s : string) (l : list string) : mem s l = true <-> In s l.
Proof.
  unfold mem. rewrite existsb_exists. split.
  - intros (x & Hx & E). apply String.eqb_eq in E. now subst.
  - intros H. exists s. split; auto. apply String.eqb_refl.
Qed.

Lemma group_keys_nodup (tickers : list string) (d : list (string * list string)) :
  NoDup (map fst d) ->
  NoDup (map fst
    (fold_left (fun sectors t => setdefault_append sectors (get_ticker_sector t) t) tickers d)).
Proof.
  revert d. induction tickers as [|t tickers IH]; intros d Hd; simpl; auto.
  apply IH. rewrite setdefault_keys.
  destruct (mem (get_ticker_sector t) (map fst d)) eqn:E; auto.
  apply NoDup_app; auto.
  - repeat constructor. intros [].
  - intros x Hx [<-|[]]. apply mem_in in Hx. congruence.
Qed.

Lemma insert_by_len_perm (x : string * list string) (l : list (string * list string)) :
  Permutation (insert_by_len x l) (x :: l).
Proof.
  induction l as [|y l IH]; simpl; auto.
  destruct (length (snd y) <=? length (snd x))%nat; auto.
  rewrite IH. apply perm_swap.
Qed.

Lemma sort_by_len_perm (d : list (string * list string)) :
  Permutation (fold_right insert_by_len [] d) d.
Proof.
  induction d as [|x d IH]; simpl; auto.
  rewrite insert_by_len_perm. now constructor.
Qed.

Lemma insert_by_len_get (x : string * list string) (l : list (string * list string)) (s : string) :
  ~ In (fst x) (map fst l) ->
  sectors_get (insert_by_len x l) s = sectors_get (x :: l) s.
Proof.
  unfold sectors_get. induction l as [|y l IH]; simpl; intros Hx; auto.
  destruct (length (snd y) <=? length (snd x))%nat; simpl; auto.
  destruct (String.eqb_spec s (fst y)) as [->|Hsy].
  - destruct (String.eqb_spec (fst y) (fst x)) as [E|_]; [|reflexivity].
    exfalso. apply Hx. left. exact E.
  - rewrite IH by tauto. simpl. reflexivity.
Qed.

Lemma sort_by_len_get (d : list (string * list string)) (s : string) :
  NoDup (map fst d) ->
  sectors_get (fold_right insert_by_len [] d) s = sectors_get d s.
Proof.
  induction d as [|x d IH]; simpl; intros Hd; auto.
  inversion Hd as [|? ? Hx Hd']; subst.
  rewrite insert_by_len_get.
  - unfold sectors_get in *. simpl. destruct (String.eqb s (fst x)); auto.
  - intros Hin. apply Hx.
    apply (Permutation_in _ (Permutation_map fst (sort_by_len_perm d))). exact Hin.
Qed.

(** The tickers [get_available_sectors] lists under a sector are the
    available tickers that the sector table maps to it, in their order. *)
Lemma sectors_get_available (tickers : list string) (s : string) :
  sectors_get (get_available_sectors tickers) s
  = filter (fun t => String.eqb (get_ticker_sector t) s) tickers.
Proof.
  unfold get_available_sectors, group_by_sector.
  rewrite sort_by_len_get by (apply group_keys_nodup; constructor).
  now rewrite sectors_get_fold.
Qed.

Lemma sector_month_stats_in (stats : list Stats.Row) (avail : list string) (s : string)
    (m : Z) (r : Stats.Row) :
  In r (sector_month_stats stats (sectors_get (get_available_sectors avail) s) m)
  <-> In r stats /\ In (Stats.ticker r) avail /\ get_ticker_sector (Stats.ticker r) = s
      /\ Stats.month r = m.
Proof.
  unfold sector_month_stats.
  rewrite filter_In, andb_true_iff, mem_in, sectors_get_available, filter_In,
    String.eqb_eq, Z.eqb_eq.
  tauto.
Qed.

Lemma chart_sector_best_month_in (stats : list Stats.Row) (avail sectors : list string)
    (m : Z) (out : list Sector.Row) (row : Sector.Row) :
  chart_sector_best_month stats avail sectors m = inr out ->
  In row out ->
  exists mejor,
    In (Sector.sector row) sectors /\
    sectors_get (get_available_sectors avail) (Sector.sector row) <> [] /\
    let sel := sector_month_stats stats
                 (sectors_get (get_available_sectors avail) (Sector.sector row)) m in
    sel <> [] /\
    row = Sector.mk (Sector.sector row)
            (mean_skipna (map Stats.pct_sube sel))
            (mean_skipna (map Stats.retorno_prom sel))
            (length sel) mejor
            (max_skipna (map Stats.pct_sube sel)).
Proof.
  intros H Hrow. unfold chart_sector_best_month in H. cbv zeta in H.
  apply (concatM_map_in _ _ _ row H) in Hrow as (s & xs & Hs & Hb & Hrow).
  destruct (sectors_get (get_available_sectors avail) s) as [|t ts] eqn:Ht;
    cbn [is_empty] in Hb; [injection Hb as <-; destruct Hrow|].
  destruct (sector_month_stats stats (t :: ts) m) as [|r0 sel] eqn:Hsel;
    cbn [is_empty] in Hb; [injection Hb as <-; destruct Hrow|].
  unfold bind in Hb.
  destruct (idxmax Stats.pct_sube (r0 :: sel)) as [b|]; [|discriminate].
  injection Hb as <-. destruct Hrow as [<-|[]]. cbn [Sector.sector].
  exists (Stats.ticker b). rewrite Ht. cbv zeta. rewrite Hsel.
  repeat split; auto; discriminate.
Qed.

Lemma somes_map_some {A : Type} (l : list A) : somes (map Some l) = l.
Proof. induction l as [|a l IH]; simpl; congruence. Qed.

Lemma sector_month_stats_nil (stats : list Stats.Row) (m : Z) :
  sector_month_stats stats [] m = [].
Proof. unfold sector_month_stats. induction stats as [|r stats IH]; simpl; auto. Qed.

(** The rows of [chart_sector_best_month], in the terms of the function. *)
Lemma chart_sector_best_month_rows :
  (forall stats avail sector m r,
     In r (sector_month_stats stats (sectors_get (get_available_sectors avail) sector) m)
     <-> In r stats /\ In (Stats.ticker r) avail
         /\ get_ticker_sector (Stats.ticker r) = sector /\ Stats.month r = m) /\
  (forall fsqrt returns stats sector m r,
     get_monthly_stats fsqrt returns = inr stats ->
     (In r (sector_month_stats stats
              (sectors_get (get_available_sectors (columns returns)) sector) m)
      <-> In r stats /\ get_ticker_sector (Stats.ticker r) = sector /\ Stats.month r = m)) /\
  (forall stats avail sectors m out row,
     chart_sector_best_month stats avail sectors m = inr out -> In row out ->
     In (Sector.sector row) sectors /\
     let sel := sector_month_stats stats
                  (sectors_get (get_available_sectors avail) (Sector.sector row)) m in
     sel <> [] /\
     Sector.win_rate row = mean_skipna (map Stats.pct_sube sel) /\
     (forall ws, map Stats.pct_sube sel = map Some ws -> Sector.win_rate row = mean ws) /\
     Sector.retorno_prom row = mean_skipna (map Stats.retorno_prom sel) /\
     (forall ws, map Stats.retorno_prom sel = map Some ws -> Sector.retorno_prom row = mean ws) /\
     Sector.n_tickers row = length sel) /\
  (forall stats avail sectors m out sector,
     chart_sector_best_month stats avail sectors m = inr out ->
     In sector sectors ->
     let sel := sector_month_stats stats
                  (sectors_get (get_available_sectors avail) sector) m in
     (sel = [] -> forall row, In row out -> Sector.sector row <> sector) /\
     (sel <> [] -> exists row, In row out /\ Sector.sector row = sector)) /\
  (forall sector r1 r2,
     Stats.ticker r1 <> Stats.ticker r2 ->
     get_ticker_sector (Stats.ticker r1) = sector ->
     get_ticker_sector (Stats.ticker r2) = sector ->
     Stats.month r1 = 3 -> Stats.month r2 = 3 ->
     Stats.pct_sube r1 = Some 60%Q -> Stats.pct_sube r2 = Some 80%Q ->
     exists row w,
       chart_sector_best_month [r1; r2] [Stats.ticker r1; Stats.ticker r2] [sector] 3
       = inr [row] /\
       Sector.sector row = sector /\ Sector.win_rate row = Some w /\ (w == 70)%Q /\
       Sector.n_tickers row = 2%nat).
Proof.
  split; [|split; [|split; [|split]]].
  - intros. apply sector_month_stats_in.
  - intros fsqrt returns stats sector m r Hstats. rewrite sector_month_stats_in.
    pose proof (get_monthly_stats_ticker fsqrt returns stats r Hstats). tauto.
  - intros stats avail sectors m out row H Hrow.
    destruct (chart_sector_best_month_in _ _ _ _ _ _ H Hrow) as (mejor & Hs & _ & Hsel & Hr).
    cbv zeta in *. split; [exact Hs|]. split; [exact Hsel|].
    set (sel := sector_month_stats stats
                  (sectors_get (get_available_sectors avail) (Sector.sector row)) m) in *.
    assert (Hw : Sector.win_rate row = mean_skipna (map Stats.pct_sube sel))
      by (rewrite Hr; reflexivity).
    assert (Hp : Sector.retorno_prom row = mean_skipna (map Stats.retorno_prom sel))
      by (rewrite Hr; reflexivity).
    assert (Hn : Sector.n_tickers row = length sel) by (rewrite Hr; reflexivity).
    repeat split; auto.
    + intros ws E. rewrite Hw, E. unfold mean_skipna. now rewrite somes_map_some.
    + intros ws E. rewrite Hp, E. unfold mean_skipna. now rewrite somes_map_some.
  - intros stats avail sectors m out sector H Hs. cbv zeta. split.
    + intros He row Hrow Hsec.
      destruct (chart_sector_best_month_in _ _ _ _ _ _ H Hrow) as (mejor & _ & _ & Hsel & _).
      cbv zeta in Hsel. rewrite Hsec in Hsel. contradiction.
    + intros Hne. unfold chart_sector_best_month in H. cbv zeta in H.
      destruct (concatM_map_each _ _ _ sector H Hs) as [xs Hxs].
      assert (Hx : exists row, In row xs /\ Sector.sector row = sector).
      { revert Hxs. cbv beta zeta.
        destruct (sectors_get (get_available_sectors avail) sector) as [|t ts].
        { exfalso. apply Hne. apply sector_month_stats_nil. }
        cbn [is_empty].
        destruct (sector_month_stats stats (t :: ts) m) as [|r0 sel]; [contradiction|].
        cbn [is_empty]. unfold bind.
        destruct (idxmax Stats.pct_sube (r0 :: sel)) as [b|]; [|discriminate].
        intros Hxs. injection Hxs as <-. eexists. split; [now left|reflexivity]. }
      destruct Hx as (row & Hin & Hsec). exists row. split; [|exact Hsec].
      apply (concatM_map_in _ _ _ row H). exists sector, xs. auto.
  - intros sector r1 r2 Hne H1 H2 Hm1 Hm2 Hp1 Hp2.
    unfold chart_sector_best_month. cbv zeta. cbn [map concatM].
    rewrite sectors_get_available. cbn [filter].
    rewrite H1, H2, String.eqb_refl. cbn [is_empty].
    unfold sector_month_stats. cbn [filter mem existsb].
    rewrite Hm1, Hm2, !String.eqb_refl, orb_true_r. cbn [orb andb Z.eqb Pos.eqb is_empty].
    unfold idxmax. cbn [fold_left]. rewrite Hp1, Hp2.
    unfold key_or_zero. rewrite Hp1. cbn [Qle_bool Qnum Qden Z.mul Z.leb Z.compare
      Pos.mul Pos.compare Pos.compare_cont bind ret app].
    eexists. eexists. split; [reflexivity|].
    cbn [Sector.sector Sector.win_rate Sector.n_tickers map length].
    rewrite Hp1, Hp2. unfold mean_skipna. cbn [somes mean].
    repeat split; reflexivity.
Qed.

Lemma mem_filter (x : string) (p : string -> bool) (l : list string) :
  mem x (filter p l) = existsb (String.eqb x) l && p x.
Proof.
  unfold mem. apply eq_true_iff_eq. rewrite andb_true_iff, !existsb_exists. split.
  - intros (y & Hy & E). apply String.eqb_eq in E. subst y.
    apply filter_In in Hy as [Hy Hp]. split; [|exact Hp].
    exists x. split; [exact Hy|apply String.eqb_refl].
  - intros [(y & Hy & E) Hp]. apply String.eqb_eq in E. subst y.
    exists x. split; [|apply String.eqb_refl]. apply filter_In. auto.
Qed.

Lemma sector_month_stats_spec (stats : list Stats.Row) (avail : list string)
    (sector : string) (m : Z) :
  sector_month_stats stats (sectors_get (get_available_sectors avail) sector) m
  = spec_sector_records stats avail sector m.
Proof.
  unfold sector_month_stats, spec_sector_records. rewrite sectors_get_available.
  apply filter_ext. intros r. now rewrite mem_filter.
Qed.

Lemma somes_spec_present (l : list (option Q)) : somes l = spec_present l.
Proof.
  unfold spec_present. induction l as [|[q|] l IH]; cbn [somes flat_map app]; congruence.
Qed.

(** The mean of a column that may hold NaN is the sum of its numbers over
    their count, and NaN when it holds no number. *)
Lemma mean_skipna_spec (l : list (option Q)) :
  (spec_present l = [] -> mean_skipna l = None) /\
  (spec_present l <> [] -> mean_skipna l = Some (spec_mean (spec_present l))).
Proof.
  unfold mean_skipna. rewrite somes_spec_present.
  destruct (spec_present l) as [|w ws]; split; try congruence; intros _; reflexivity.
Qed.

(** C9.  For a requested sector and a month, [chart_sector_best_month]
    selects the records of the table of statistics that are of that month
    and whose instrument is an available ticker that [SECTOR_MAP] gives to
    the sector (for the records of [get_monthly_stats] over the columns of
    the table: every record of the sector and the month); it emits no row
    for a sector without such a record, and one row otherwise, whose win
    rate is the sum of the win rates of the records selected over their
    number (NaN win rates left out), whose mean return is the sum of their
    mean returns over their number, and whose count is the number of
    records selected.  Two instruments of one sector with March win rates 60
    and 80 give the sector a March win rate of 70 over 2 instruments. *)
Theorem chart_sector_best_month_mean :
  (forall stats avail sector m,
     sector_month_stats stats (sectors_get (get_available_sectors avail) sector) m
     = spec_sector_records stats avail sector m) /\
  (forall fsqrt returns stats sector m r,
     get_monthly_stats fsqrt returns = inr stats ->
     (In r (spec_sector_records stats (columns returns) sector m)
      <-> In r stats /\ get_ticker_sector (Stats.ticker r) = sector /\ Stats.month r = m)) /\
  (forall stats avail sectors m out row,
     chart_sector_best_month stats avail sectors m = inr out -> In row out ->
     In (Sector.sector row) sectors /\
     let sel := spec_sector_records stats avail (Sector.sector row) m in
     sel <> [] /\
     Sector.n_tickers row = length sel /\
     (spec_present (map Stats.pct_sube sel) = [] -> Sector.win_rate row = None) /\
     (spec_present (map Stats.pct_sube sel) <> [] ->
      Sector.win_rate row = Some (spec_mean (spec_present (map Stats.pct_sube sel)))) /\
     (spec_present (map Stats.retorno_prom sel) = [] -> Sector.retorno_prom row = None) /\
     (spec_present (map Stats.retorno_prom sel) <> [] ->
      Sector.retorno_prom row
      = Some (spec_mean (spec_present (map Stats.retorno_prom sel))))) /\
  (forall stats avail sectors m out sector,
     chart_sector_best_month stats avail sectors m = inr out ->
     In sector sectors ->
     let sel := spec_sector_records stats avail sector m in
     (sel = [] -> forall row, In row out -> Sector.sector row <> sector) /\
     (sel <> [] -> exists row, In row out /\ Sector.sector row = sector)) /\
  (forall sector r1 r2,
     Stats.ticker r1 <> Stats.ticker r2 ->
     get_ticker_sector (Stats.ticker r1) = sector ->
     get_ticker_sector (Stats.ticker r2) = sector ->
     Stats.month r1 = 3 -> Stats.month r2 = 3 ->
     Stats.pct_sube r1 = Some 60%Q -> Stats.pct_sube r2 = Some 80%Q ->
     exists row w,
       chart_sector_best_month [r1; r2] [Stats.ticker r1; Stats.ticker r2] [sector] 3
       = inr [row] /\
       Sector.sector row = sector /\ Sector.win_rate row = Some w /\ (w == 70)%Q /\
       Sector.n_tickers row = 2%nat).
Proof.
  destruct chart_sector_best_month_rows as (Hsel & Hcols & Hrow & Hone & Hscen).
  split; [|split; [|split; [|split]]].
  - intros. apply sector_month_stats_spec.
  - intros fsqrt returns stats sector m r Hstats.
    rewrite <- sector_month_stats_spec. now apply (Hcols fsqrt).
  - intros stats avail sectors m out row H Hin.
    destruct (Hrow stats avail sectors m out row H Hin)
      as (Hs & Hne & Hw & _ & Hp & _ & Hn).
    cbv zeta in *. rewrite sector_month_stats_spec in *.
    split; [exact Hs|]. split; [exact Hne|]. split; [exact Hn|].
    rewrite Hw, Hp.
    destruct (mean_skipna_spec
                (map Stats.pct_sube (spec_sector_records stats avail (Sector.sector row) m)))
      as [W0 W1].
    destruct (mean_skipna_spec
                (map Stats.retorno_prom
                   (spec_sector_records stats avail (Sector.sector row) m)))
      as [P0 P1].
    auto.
  - intros stats avail sectors m out sector H Hs.
    pose proof (Hone stats avail sectors m out sector H Hs) as Hx. cbv zeta in *.
    now rewrite sector_month_stats_spec in Hx.
  - exact Hscen.
Qed.

Lemma chart_sector_best_month_mean_witness :
  exists row w,
    chart_sector_best_month march_stats ["AAL"; "DAL"] ["Aerolíneas"] 3 = inr [row] /\
    Sector.sector row = "Aerolíneas" /\ Sector.win_rate row = Some w /\ (w == 70)%Q /\
    Sector.n_tickers row = 2%nat.
Proof.
  apply (proj2 (proj2 (proj2 (proj2 chart_sector_best_month_mean))) "Aerolíneas"
           (Stats.mk "AAL" 3 "Marzo" 3 2 5 (Some 60%Q) (Some 1%Q) (Some 1%Q) (Some 2%Q)
              (Some (-1)%Q) (Some 1%Q))
           (Stats.mk "DAL" 3 "Marzo" 4 1 5 (Some 80%Q) (Some 2%Q) (Some 2%Q) (Some 3%Q)
              (Some (-1)%Q) (Some 1%Q)));
    try reflexivity.
  discriminate.
Defined.

(** The month-by-month comparison on the same records, for either metric. *)
Example chart_sector_monthly_comparison_march :
  chart_sector_monthly_comparison march_stats ["AAL"; "DAL"] ["Aerolíneas"] "pct_sube"
  = inr [ Sector.mkMonth "Aerolíneas" 3 "Marzo" (Some ((60 + (80 + 0)) / 2)%Q) 2 ]
  /\ chart_sector_monthly_comparison march_stats ["AAL"; "DAL"] ["Aerolíneas"] "retorno_prom"
     = inr [ Sector.mkMonth "Aerolíneas" 3 "Marzo" (Some ((1 + (2 + 0)) / 2)%Q) 2 ].
Proof. split; reflexivity. Qed.

(* ------------------------------------------------------------------ *)
(** ** Rounding and the sector means *)

Lemma Qofnat_S (n : nat) : (Qofnat (S n) == Qofnat n + 1)%Q.
Proof.
  unfold Qofnat. rewrite Nat2Z.inj_succ. unfold Z.succ. rewrite inject_Z_plus. reflexivity.
Qed.

Lemma Qsum_map_close {A : Type} (f g : A -> Q) (l : list A) :
  (forall x, In x l -> (g x - (1 # 20) <= f x /\ f x <= g x + (1 # 20))%Q) ->
  (Qsum (map g l) - Qofnat (length l) * (1 # 20) <= Qsum (map f l) /\
   Qsum (map f l) <= Qsum (map g l) + Qofnat (length l) * (1 # 20))%Q.
Proof.
  induction l as [|a l IH]; intros H.
  - simpl. unfold Qofnat. simpl. change (inject_Z 0) with 0%Q. split; lra.
  - destruct (H a (or_introl eq_refl)) as [H1 H2].
    destruct IH as [I1 I2]; [intros; apply H; now right|].
    cbn [map Qsum fold_right length]. rewrite Qofnat_S.
    fold (Qsum (map f l)). fold (Qsum (map g l)). split; lra.
Qed.

(** The mean of values each within 0.05 of another is within 0.05 of the
    mean of the others. *)
Lemma mean_map_close {A : Type} (f g : A -> Q) (l : list A) :
  l <> [] ->
  (forall x, In x l -> (g x - (1 # 20) <= f x /\ f x <= g x + (1 # 20))%Q) ->
  exists w u, mean (map f l) = Some w /\ mean (map g l) = Some u /\
              (u - (1 # 20) <= w /\ w <= u + (1 # 20))%Q.
Proof.
  intros Hne H. destruct (Qsum_map_close f g l H) as [H1 H2].
  destruct l as [|a l]; [contradiction|].
  set (n := Qofnat (length (a :: l))) in *.
  assert (Hn : (0 < n)%Q) by (apply Qofnat_pos; discriminate).
  exists (Qsum (map f (a :: l)) / n)%Q, (Qsum (map g (a :: l)) / n)%Q.
  split; [unfold n; cbn [map mean length]; now rewrite length_map|].
  split; [unfold n; cbn [map mean length]; now rewrite length_map|].
  set (sf := Qsum (map f (a :: l))) in *. set (sg := Qsum (map g (a :: l))) in *.
  assert (Ef : (n * (sf / n) == sf)%Q) by (apply Qmult_div_r; intro E; lra).
  assert (Eg : (n * (sg / n) == sg)%Q) by (apply Qmult_div_r; intro E; lra).
  split.
  - apply (Qmult_le_r _ _ n Hn). lra.
  - apply (Qmult_le_r _ _ n Hn). lra.
Qed.

Lemma get_monthly_stats_rounded (fsqrt : Q -> Q) (returns : DataFrame)
    (stats : list Stats.Row) (r : Stats.Row) :
  get_monthly_stats fsqrt returns = inr stats -> In r stats ->
  Stats.pct_sube r = Some (round_nd (exact_pct_sube r) 1) /\
  exists s, getitem returns (Stats.ticker r) = Some s /\
    Stats.retorno_prom r
    = round_opt (mean (map snd (in_month (Stats.month r) (dropna s)))) 2.
Proof.
  intros Hstats Hr.
  apply (get_monthly_stats_in _ _ _ r Hstats) in Hr
    as (t & s & m & out & Ht & Hg & Hm & Ho & Hr).
  apply month_stats_inv in Ho. cbv zeta in Ho.
  destruct Ho as [[_ ->]|(Hne & name & _ & ->)]; [destruct Hr|].
  destruct Hr as [<-|[]]. cbn [Stats.ticker Stats.month Stats.pct_sube Stats.retorno_prom].
  split; [reflexivity|]. exists s. auto.
Qed.

(** C6, as the code has it.  A record of [get_monthly_stats] holds its win
    rate rounded to one decimal and its mean return rounded to two, and
    the sector aggregation averages those rounded fields: the sector win
    rate is the mean of the rounded win rates of the records selected, and
    so lies within 0.05 of the mean of the win rates before rounding without
    being equal to it in general. *)
Theorem sector_means_use_rounded_records (fsqrt : Q -> Q) (returns : DataFrame)
    (stats : list Stats.Row) (avail sectors : list string) (m : Z)
    (out : list Sector.Row) (row : Sector.Row) :
  get_monthly_stats fsqrt returns = inr stats ->
  chart_sector_best_month stats avail sectors m = inr out ->
  In row out ->
  let sel := sector_month_stats stats
               (sectors_get (get_available_sectors avail) (Sector.sector row)) m in
  (forall r, In r sel ->
     Stats.pct_sube r = Some (round_nd (exact_pct_sube r) 1) /\
     exists s, getitem returns (Stats.ticker r) = Some s /\
       Stats.retorno_prom r
       = round_opt (mean (map snd (in_month (Stats.month r) (dropna s)))) 2) /\
  Sector.win_rate row = mean (map (fun r => round_nd (exact_pct_sube r) 1) sel) /\
  Sector.retorno_prom row = mean_skipna (map Stats.retorno_prom sel) /\
  exists w u, Sector.win_rate row = Some w /\ unrounded_win_rate sel = Some u /\
              (u - (1 # 20) <= w /\ w <= u + (1 # 20))%Q.
Proof.
  intros Hstats Hchart Hrow sel.
  destruct (chart_sector_best_month_in _ _ _ _ _ _ Hchart Hrow) as (mejor & _ & _ & Hne & Hr).
  cbv zeta in Hne, Hr. fold sel in Hne, Hr.
  assert (Hrec : forall r, In r sel ->
            Stats.pct_sube r = Some (round_nd (exact_pct_sube r) 1) /\
            exists s, getitem returns (Stats.ticker r) = Some s /\
              Stats.retorno_prom r
              = round_opt (mean (map snd (in_month (Stats.month r) (dropna s)))) 2).
  { intros r Hin. apply (get_monthly_stats_rounded fsqrt returns stats r Hstats).
    unfold sel, sector_month_stats in Hin. now apply filter_In in Hin. }
  assert (Hw : Sector.win_rate row = mean (map (fun r => round_nd (exact_pct_sube r) 1) sel)).
  { rewrite Hr. cbn [Sector.win_rate]. unfold mean_skipna.
    rewrite (map_ext_in Stats.pct_sube (fun r => Some (round_nd (exact_pct_sube r) 1)))
      by (intros r Hin; apply (Hrec r Hin)).
    rewrite <- (map_map (fun r => round_nd (exact_pct_sube r) 1) Some).
    now rewrite somes_map_some. }
  split; [exact Hrec|]. split; [exact Hw|]. split; [rewrite Hr; reflexivity|].
  destruct (mean_map_close (fun r => round_nd (exact_pct_sube r) 1) exact_pct_sube sel Hne)
    as (w & u & Ew & Eu & Hb).
  { intros r _. apply round_nd_1_close. }
  exists w, u. rewrite Hw. auto.
Qed.

Lemma sector_means_use_rounded_records_witness :
  exists row w u,
    chart_sector_best_month third_stats ["AAL"; "DAL"] ["Aerolíneas"] 1 = inr [row] /\
    Sector.win_rate row = Some w /\
    unrounded_win_rate (sector_month_stats third_stats ["AAL"; "DAL"] 1) = Some u /\
    (u - (1 # 20) <= w /\ w <= u + (1 # 20))%Q.
Proof.
  pose proof (sector_means_use_rounded_records (fun x => x) third_returns third_stats
                ["AAL"; "DAL"] ["Aerolíneas"] 1 _ _ eq_refl eq_refl (or_introl eq_refl))
    as [_ [_ [_ (w & u & Hw & Hu & Hb)]]].
  eexists. exists w, u. split; [reflexivity|]. split; [exact Hw|]. split; [exact Hu|exact Hb].
Defined.

(** C6 as stated fails: each of two airlines rose in one January out of
    three; their records hold 33.3, the sector mean computed from the
    records is 33.3, and the mean of the win rates before rounding is
    100/3. *)
Lemma sector_mean_rounding_counterexample :
  exists row w u,
    get_monthly_stats (fun x => x) third_returns = inr third_stats /\
    map Stats.pct_sube third_stats = [Some (333 # 10); Some (333 # 10)] /\
    chart_sector_best_month third_stats ["AAL"; "DAL"] ["Aerolíneas"] 1 = inr [row] /\
    Sector.win_rate row = Some w /\ (w == 333 # 10)%Q /\
    unrounded_win_rate (sector_month_stats third_stats ["AAL"; "DAL"] 1) = Some u /\
    (u == 100 # 3)%Q /\ ~ (w == u)%Q.
Proof.
  do 3 eexists. split; [reflexivity|]. split; [reflexivity|]. split; [reflexivity|].
  split; [reflexivity|]. split; [reflexivity|]. split; [reflexivity|].
  split; [reflexivity|]. intros H. discriminate H.
Qed.

(* ================================================================== *)
(** * Further properties *)

(* ------------------------------------------------------------------ *)
(** ** get_available_sectors *)

Lemma setdefault_nonempty (d : list (string * list string)) (k t : string) :
  Forall (fun kv : string * list string => snd kv <> []) d ->
  Forall (fun kv : string * list string => snd kv <> []) (setdefault_append d k t).
Proof.
  induction 1 as [|[k' ts] d Hkv Hd IH]; simpl.
  - constructor; [discriminate|constructor].
  - destruct (String.eqb k k'); constructor; auto.
    simpl. intros E. apply app_eq_nil in E as [_ E]. discriminate.
Qed.

Lemma group_by_sector_nonempty (tickers : list string) (d : list (string * list string)) :
  Forall (fun kv : string * list string => snd kv <> []) d ->
  Forall (fun kv : string * list string => snd kv <> [])
    (fold_left (fun sectors t => setdefault_append sectors (get_ticker_sector t) t) tickers d).
Proof.
  revert d. induction tickers as [|t tickers IH]; intros d Hd; simpl; auto.
  apply IH. now apply setdefault_nonempty.
Qed.

Lemma insert_by_len_sorted (x : string * list string) (l : list (string * list string)) :
  StronglySorted (fun a b : string * list string => length (snd b) <= length (snd a))%nat l ->
  StronglySorted (fun a b : string * list string => length (snd b) <= length (snd a))%nat
    (insert_by_len x l).
Proof.
  induction 1 as [|y l Hs IH Hy]; simpl.
  - repeat constructor.
  - destruct (Nat.leb_spec (length (snd y)) (length (snd x))) as [Hle|Hlt].
    + constructor; [now constructor|]. constructor; [exact Hle|].
      rewrite Forall_forall in Hy |- *. intros z Hz. specialize (Hy z Hz). lia.
    + constructor; [exact IH|].
      rewrite Forall_forall in Hy |- *. intros z Hz.
      apply (Permutation_in _ (insert_by_len_perm x l)) in Hz.
      destruct Hz as [<-|Hz]; [lia|now apply Hy].
Qed.

Lemma sectors_get_in (d : list (string * list string)) (k : string) (ts : list string) :
  NoDup (map fst d) -> In (k, ts) d -> sectors_get d k = ts.
Proof.
  unfold sectors_get. induction d as [|[k' ts'] d IH]; simpl; intros Hnd Hin; [contradiction|].
  inversion Hnd as [|? ? Hk Hd]; subst.
  destruct Hin as [E|Hin].
  - injection E as -> ->. now rewrite String.eqb_refl.
  - destruct (String.eqb_spec k k') as [->|_]; [|now apply IH].
    exfalso. apply Hk. apply in_map_iff. exists (k', ts). auto.
Qed.

(** The sectors of the available tickers: each sector is listed once, with
    the available tickers the sector table maps to it, in the order of the
    input and never none; the sectors come largest first; a ticker the
    table does not know is listed under "Otros". *)
Theorem get_available_sectors_groups (tickers : list string) :
  NoDup (map fst (get_available_sectors tickers)) /\
  (forall k ts, In (k, ts) (get_available_sectors tickers) ->
     ts <> [] /\ ts = filter (fun t => String.eqb (get_ticker_sector t) k) tickers) /\
  (forall t, In t tickers ->
     exists ts, In (get_ticker_sector t, ts) (get_available_sectors tickers) /\ In t ts) /\
  StronglySorted (fun a b : string * list string => length (snd b) <= length (snd a))%nat
    (get_available_sectors tickers) /\
  (forall t, In t tickers ->
     find (fun kv : string * string => String.eqb t (fst kv)) SECTOR_MAP = None ->
     In t (sectors_get (get_available_sectors tickers) "Otros")).
Proof.
  assert (Hkeys : NoDup (map fst (get_available_sectors tickers))).
  { unfold get_available_sectors.
    apply (Permutation_NoDup
             (Permutation_sym (Permutation_map fst (sort_by_len_perm (group_by_sector tickers))))).
    apply group_keys_nodup. constructor. }
  assert (Hgrp : forall k ts, In (k, ts) (get_available_sectors tickers) ->
            ts <> [] /\ ts = filter (fun t => String.eqb (get_ticker_sector t) k) tickers).
  { intros k ts Hin. split.
    - assert (Hne : Forall (fun kv : string * list string => snd kv <> [])
                      (get_available_sectors tickers)).
      { unfold get_available_sectors.
        apply (Permutation_Forall (Permutation_sym (sort_by_len_perm _))).
        apply group_by_sector_nonempty. constructor. }
      rewrite Forall_forall in Hne. exact (Hne (k, ts) Hin).
    - rewrite <- sectors_get_available. symmetry. now apply sectors_get_in. }
  assert (Hmem : forall t, In t tickers ->
            In t (sectors_get (get_available_sectors tickers) (get_ticker_sector t))).
  { intros t Ht. rewrite sectors_get_available. apply filter_In. split; [exact Ht|].
    apply String.eqb_refl. }
  split; [exact Hkeys|]. split; [exact Hgrp|]. split; [|split].
  - intros t Ht. specialize (Hmem t Ht).
    unfold sectors_get in Hmem.
    destruct (find (fun kv : string * list string => String.eqb (get_ticker_sector t) (fst kv))
                (get_available_sectors tickers)) as [[k ts]|] eqn:Hf; [|destruct Hmem].
    apply find_some in Hf as [Hin Hk]. simpl in Hk. apply String.eqb_eq in Hk. subst k.
    exists ts. auto.
  - unfold get_available_sectors. induction (group_by_sector tickers) as [|x d IH]; simpl.
    + constructor.
    + now apply insert_by_len_sorted.
  - intros t Ht Hf. specialize (Hmem t Ht). unfold get_ticker_sector in Hmem.
    now rewrite Hf in Hmem.
Qed.

Lemma get_available_sectors_groups_witness :
  In "ZZZ" (sectors_get (get_available_sectors ["AAL"; "ZZZ"; "DAL"]) "Otros").
Proof.
  apply (proj2 (proj2 (proj2 (proj2 (get_available_sectors_groups ["AAL"; "ZZZ"; "DAL"]))))
           "ZZZ").
  - right. left. reflexivity.
  - vm_compute. reflexivity.
Defined.

(* ------------------------------------------------------------------ *)
(** ** _extract_close_series: the column it reads *)

Lemma first_index_find {A : Type} (p : A -> bool) (l : list A) (s : nat) :
  option_map snd (find (fun x : A * nat => p (fst x)) (combine l (seq s (length l))))
  = option_map (Nat.add s) (first_index p l).
Proof.
  revert s. induction l as [|a l IH]; intros s; simpl; [reflexivity|].
  destruct (p a); simpl.
  - f_equal. lia.
  - rewrite IH. destruct (first_index p l); simpl; [f_equal; lia|reflexivity].
Qed.

Lemma first_index_with_pos {A : Type} (p : A -> bool) (l : list A) :
  option_map snd (find (fun x : A * nat => p (fst x)) (with_pos l)) = first_index p l.
Proof.
  unfold with_pos. rewrite first_index_find. now destruct (first_index p l).
Qed.

Lemma find_map_filter {A B : Type} (g : A -> B) (f : A -> bool) (q : B -> bool) (l : list A) :
  find q (map g (filter f l)) = option_map g (find (fun x => f x && q (g x)) l).
Proof.
  induction l as [|a l IH]; simpl; [reflexivity|].
  destruct (f a); simpl; [|exact IH].
  destruct (q (g a)); [reflexivity|exact IH].
Qed.

Lemma first_index_ext {A : Type} (p q : A -> bool) (l : list A) :
  (forall a, p a = q a) -> first_index p l = first_index q l.
Proof.
  intros H. induction l as [|a l IH]; simpl; [reflexivity|]. now rewrite H, IH.
Qed.

Lemma first_index_mem {A : Type} (p : A -> bool) (l : list A) :
  existsb p l = is_some (first_index p l).
Proof.
  induction l as [|a l IH]; simpl; [reflexivity|].
  destruct (p a); simpl; [reflexivity|]. rewrite IH. now destruct (first_index p l).
Qed.

Lemma index_of_first_index (t : string) (l : list string) :
  index_of t l = first_index (String.eqb t) l.
Proof.
  induction l as [|c l IH]; simpl; [reflexivity|]. now rewrite IH.
Qed.

Lemma existsb_over_map {A B : Type} (g : A -> B) (q : B -> bool) (l : list A) :
  existsb q (map g l) = existsb (fun a => q (g a)) l.
Proof. induction l as [|a l IH]; simpl; [reflexivity|]. now rewrite IH. Qed.

Lemma existsb_same {A : Type} (p q : A -> bool) (l : list A) :
  (forall a, p a = q a) -> existsb p l = existsb q l.
Proof. intros H. induction l as [|a l IH]; simpl; [reflexivity|]. now rewrite H, IH. Qed.

(** The position [sub[key2]] reads in [df[key]]. *)
Lemma sub_getitem_level0 (l : list (string * string)) (key key2 : string) :
  sub_getitem (sub_level0 l key) key2
  = match first_index (fun c : string * string =>
                         String.eqb (fst c) key && String.eqb (snd c) key2) l with
    | Some p => inr p
    | None => inl KeyError
    end.
Proof.
  unfold sub_getitem, sub_level0. rewrite find_map_filter.
  rewrite <- (first_index_with_pos
                (fun c : string * string => String.eqb (fst c) key && String.eqb (snd c) key2) l).
  cbn [fst snd].
  destruct (find _ (with_pos l)) as [x|]; reflexivity.
Qed.

Lemma sub_mem_level0 (l : list (string * string)) (key key2 : string) :
  mem key2 (map fst (sub_level0 l key))
  = is_some (first_index (fun c : string * string =>
                            String.eqb (fst c) key && String.eqb (snd c) key2) l).
Proof.
  pose proof (sub_getitem_level0 l key key2) as H. unfold sub_getitem in H.
  unfold mem. rewrite existsb_over_map.
  rewrite (existsb_same _ (fun x : string * nat => String.eqb (fst x) key2))
    by (intros x; apply String.eqb_sym).
  destruct (find (fun x : string * nat => String.eqb (fst x) key2) (sub_level0 l key))
    as [x|] eqn:Hf.
  - destruct (first_index _ l); [|discriminate].
    apply find_some in Hf as [Hin Hx]. simpl. apply existsb_exists. exists x. auto.
  - destruct (first_index _ l); [discriminate|]. simpl.
    destruct (existsb _ (sub_level0 l key)) eqn:E; [|reflexivity].
    apply existsb_exists in E as (x & Hin & Hx).
    pose proof (find_none _ _ Hf x Hin) as Hn. simpl in Hn. congruence.
Qed.

Lemma sub_iloc0_level0 (l : list (string * string)) (key : string) :
  sub_iloc0 (sub_level0 l key)
  = match first_index (fun c : string * string => String.eqb (fst c) key) l with
    | Some p => inr p
    | None => inl IndexError
    end.
Proof.
  unfold sub_iloc0, sub_level0.
  rewrite <- (first_index_with_pos (fun c : string * string => String.eqb (fst c) key) l).
  induction (with_pos l) as [|x L IH]; simpl; [reflexivity|].
  destruct (String.eqb (fst (fst x)) key); simpl; [reflexivity|exact IH].
Qed.

Lemma mem_level (key : string) (f : string * string -> string) (l : list (string * string)) :
  mem key (map f l) = is_some (first_index (fun c => String.eqb (f c) key) l).
Proof.
  unfold mem. rewrite existsb_over_map, <- first_index_mem.
  apply existsb_same. intros c. apply String.eqb_sym.
Qed.

Lemma pair_eqb_eq (a b : string * string) : pair_eqb a b = true <-> a = b.
Proof.
  unfold pair_eqb. destruct a as [a1 a2], b as [b1 b2]; simpl.
  rewrite andb_true_iff, !String.eqb_eq. split; [intros [-> ->]; reflexivity|].
  intros E. injection E as -> ->. auto.
Qed.

Lemma first_index_of_head (p : string * string -> bool) (l : list (string * string))
    (c : string * string) (rest : list (string * string)) :
  filter p l = c :: rest ->
  first_index (fun x => pair_eqb x c) l = first_index p l.
Proof.
  induction l as [|a l IH]; simpl; [discriminate|].
  destruct (p a) eqn:Ea.
  - intros E. injection E as -> _.
    now rewrite (proj2 (pair_eqb_eq c c) eq_refl).
  - intros E. destruct (pair_eqb a c) eqn:Ec.
    + apply pair_eqb_eq in Ec. subst a.
      assert (Hc : In c (filter p l)) by (rewrite E; now left).
      apply filter_In in Hc as [_ Hc]. congruence.
    + now rewrite IH.
Qed.

(** [locate_close] never raises, and finds the position [close_position]
    describes. *)
Lemma locate_close_position (cols : labels) (ticker : string) :
  locate_close cols ticker = inr (close_position cols ticker).
Proof.
  destruct cols as [l|l]; unfold locate_close, close_position.
  - rewrite <- !index_of_first_index.
    destruct (mem "Close" l) eqn:Hc.
    + apply mem_in, index_of_in in Hc as [p ->]. reflexivity.
    + destruct (mem ticker l) eqn:Ht.
      * apply mem_in, index_of_in in Ht as [p ->]. reflexivity.
      * destruct (index_of ticker l) as [p|] eqn:Hi; [|reflexivity].
        rewrite index_of_first_index in Hi.
        unfold mem in Ht. rewrite first_index_mem, Hi in Ht. discriminate.
  - cbv zeta.
    destruct (mem "Close" (map fst l)) eqn:Hc.
    + rewrite sub_mem_level0, sub_getitem_level0, sub_iloc0_level0.
      destruct (first_index (fun c : string * string =>
                  String.eqb (fst c) "Close" && String.eqb (snd c) ticker) l) as [p|];
        [reflexivity|]. cbn [is_some bind].
      rewrite mem_level in Hc.
      destruct (first_index (fun c : string * string => String.eqb (fst c) "Close") l);
        [reflexivity|discriminate].
    + destruct (mem ticker (map fst l)) eqn:Ht.
      * rewrite sub_mem_level0, sub_getitem_level0, sub_iloc0_level0.
        destruct (first_index (fun c : string * string =>
                    String.eqb (fst c) ticker && String.eqb (snd c) "Close") l) as [p|];
          [reflexivity|]. cbn [is_some bind].
        rewrite mem_level in Ht.
        destruct (first_index (fun c : string * string => String.eqb (fst c) ticker) l);
          [reflexivity|discriminate].
      * destruct (mem "Close" (map snd l)) eqn:Hs.
        -- rewrite mem_level in Hs.
           destruct (filter (fun c : string * string => String.eqb (snd c) "Close") l)
             as [|c rest] eqn:Hf.
           ++ rewrite <- first_index_mem in Hs.
              apply existsb_exists in Hs as (x & Hx & Hp).
              assert (Hin : In x (filter (fun c : string * string =>
                                        String.eqb (snd c) "Close") l))
                by (apply filter_In; auto).
              rewrite Hf in Hin. destruct Hin.
           ++ pose proof (first_index_with_pos (fun x => pair_eqb x c) l) as E.
              rewrite (first_index_of_head _ l c rest Hf) in E.
              destruct (first_index (fun c : string * string => String.eqb (snd c) "Close") l)
                as [p|]; [|discriminate Hs].
              destruct (find (fun x : string * string * nat => pair_eqb (fst x) c) (with_pos l))
                as [x|]; simpl in E; [|discriminate E].
              injection E as ->. reflexivity.
        -- rewrite mem_level in Hs.
           destruct (first_index (fun c : string * string => String.eqb (snd c) "Close") l);
             [discriminate|reflexivity].
Qed.

(** The normaliser reads one column, chosen by the labels alone: on a
    table that is not empty it returns the numbers of the column at
    [close_position], with their dates, and absent when no arrangement
    matches, when the table lacks that column or when the column holds no
    number.  The values of the other columns play no part. *)
Theorem extract_close_series_column (f : RawFrame) (ticker : string) :
  raw_empty f = false ->
  _extract_close_series (Some f) ticker
  = match close_position (raw_columns f) ticker with
    | Some p => numeric_column f p
    | None => None
    end.
Proof.
  intros He. unfold _extract_close_series. rewrite He.
  unfold extract_close_try. rewrite locate_close_position. cbn [bind].
  destruct (close_position (raw_columns f) ticker) as [p|]; [|reflexivity].
  unfold column_at, numeric_column.
  destruct (nth_error (raw_data f) p) as [col|]; [|reflexivity].
  cbn [bind ret]. rewrite dropna_to_numeric.
  now destruct (numeric_entries (combine (raw_index f) col)).
Qed.

Lemma extract_close_series_column_witness :
  _extract_close_series
    (Some (mkRawFrame [mkdate 2020 1 2; mkdate 2020 1 3]
             (Multi [("Open", "AAPL"); ("Close", "MSFT"); ("Close", "AAPL")])
             [[Num 1; Num 2]; [Num 3; Num 4]; [Num 5; NotNum "n/a"]])) "AAPL"
  = Some [(mkdate 2020 1 2, 5%Q)].
Proof.
  exact (extract_close_series_column
           (mkRawFrame [mkdate 2020 1 2; mkdate 2020 1 3]
              (Multi [("Open", "AAPL"); ("Close", "MSFT"); ("Close", "AAPL")])
              [[Num 1; Num 2]; [Num 3; Num 4]; [Num 5; NotNum "n/a"]]) "AAPL" eq_refl).
Defined.

(* ------------------------------------------------------------------ *)
(** ** resample_last *)

Lemma date_ltb_spec (a b : date) :
  date_ltb a b = true <->
  year a < year b \/
  (year a = year b /\ (month a < month b \/ (month a = month b /\ day a < day b))).
Proof.
  unfold date_ltb.
  rewrite !orb_true_iff, !andb_true_iff, !orb_true_iff, !andb_true_iff, !Z.ltb_lt, !Z.eqb_eq.
  tauto.
Qed.

Lemma date_ltb_false (a b : date) : date_ltb b a = false <-> date_le a b.
Proof.
  unfold date_le. split.
  - intros H. assert (N : ~ (date_ltb b a = true)) by congruence.
    rewrite date_ltb_spec in N. lia.
  - intros H. destruct (date_ltb b a) eqn:E; [|reflexivity].
    apply date_ltb_spec in E. lia.
Qed.

Lemma date_ltb_same_month (y m : Z) (a b : date) :
  same_month y m a = true -> same_month y m b = true -> date_ltb a b = (day a <? day b).
Proof.
  unfold same_month. rewrite !andb_true_iff, !Z.eqb_eq. intros [Ha Ha'] [Hb Hb'].
  unfold date_ltb. rewrite Ha, Ha', Hb, Hb', !Z.ltb_irrefl, !Z.eqb_refl. reflexivity.
Qed.

Lemma insert_obs_perm (x : date * Q) (l : NumSeries) : Permutation (insert_obs x l) (x :: l).
Proof.
  induction l as [|y l IH]; simpl; [reflexivity|].
  destruct (date_ltb (fst y) (fst x)); [|reflexivity].
  rewrite IH. apply perm_swap.
Qed.

Lemma sort_index_perm (close : NumSeries) : Permutation (sort_index close) close.
Proof.
  induction close as [|x close IH]; simpl; [reflexivity|].
  rewrite insert_obs_perm. now constructor.
Qed.

Lemma insert_obs_sorted (x : date * Q) (l : NumSeries) :
  date_ordered l -> date_ordered (insert_obs x l).
Proof.
  unfold date_ordered. induction 1 as [|y l Hs IH Hy]; simpl.
  - repeat constructor.
  - destruct (date_ltb (fst y) (fst x)) eqn:E.
    + constructor; [exact IH|].
      rewrite Forall_forall in Hy |- *. intros z Hz.
      apply (Permutation_in _ (insert_obs_perm x l)) in Hz as [<-|Hz]; [|now apply Hy].
      apply date_ltb_spec in E. unfold date_le. lia.
    + apply date_ltb_false in E. constructor; [now constructor|].
      constructor; [exact E|].
      rewrite Forall_forall in Hy |- *. intros z Hz. specialize (Hy z Hz).
      unfold date_le in *. lia.
Qed.

Lemma sort_index_sorted (close : NumSeries) : date_ordered (sort_index close).
Proof.
  induction close as [|x close IH]; simpl; [constructor|]. now apply insert_obs_sorted.
Qed.

(** A series in time order is binned as it is. *)
Lemma sort_index_ordered (close : NumSeries) : date_ordered close -> sort_index close = close.
Proof.
  unfold date_ordered. induction 1 as [|x l Hs IH Hx]; simpl; [reflexivity|].
  rewrite IH. destruct l as [|y l]; [reflexivity|]. simpl.
  apply Forall_inv in Hx. apply date_ltb_false in Hx. now rewrite Hx.
Qed.

Lemma find_rev_cons {A : Type} (p : A -> bool) (a : A) (l : list A) :
  find p (rev (a :: l))
  = match find p (rev l) with
    | Some b => Some b
    | None => if p a then Some a else None
    end.
Proof.
  simpl rev. induction (rev l) as [|z r IH]; simpl.
  - now destruct (p a).
  - destruct (p z); [reflexivity|exact IH].
Qed.

(** The last observation of a month after one more observation has been
    put in its place in a series in time order. *)
Lemma find_rev_insert_obs (p : date * Q -> bool) (x : date * Q) (l : NumSeries) :
  date_ordered l ->
  find p (rev (insert_obs x l))
  = match find p (rev l) with
    | Some b => if p x && date_ltb (fst b) (fst x) then Some x else Some b
    | None => if p x then Some x else None
    end.
Proof.
  unfold date_ordered. induction 1 as [|a l Hs IH Ha].
  - simpl. now destruct (p x).
  - cbn [insert_obs]. destruct (date_ltb (fst a) (fst x)) eqn:E.
    + rewrite !find_rev_cons, IH.
      destruct (find p (rev l)) as [b|].
      * now destruct (p x && date_ltb (fst b) (fst x)).
      * destruct (p a); [rewrite E|]; now destruct (p x).
    + rewrite (find_rev_cons p x (a :: l)).
      destruct (find p (rev (a :: l))) as [b|] eqn:Hf; [|reflexivity].
      assert (Hb : date_ltb (fst b) (fst x) = false).
      { apply date_ltb_false. apply date_ltb_false in E.
        apply find_some in Hf as [Hin _]. apply in_rev in Hin.
        destruct Hin as [<-|Hin]; [exact E|].
        rewrite Forall_forall in Ha. specialize (Ha b Hin). unfold date_le in *. lia. }
      rewrite Hb, andb_false_r. reflexivity.
Qed.

(** The last of a month in the series put in time order is the latest of
    the month in the series as it comes. *)
Lemma find_rev_sort_index (y m : Z) (close : NumSeries) :
  find (fun x : date * Q => same_month y m (fst x)) (rev (sort_index close))
  = latest_in_month y m close.
Proof.
  induction close as [|x close IH]; [reflexivity|].
  cbn [sort_index latest_in_month].
  rewrite find_rev_insert_obs by apply sort_index_sorted. rewrite IH.
  destruct (latest_in_month y m close) as [b|] eqn:Hl; [|reflexivity].
  destruct (same_month y m (fst x)) eqn:Hx; [|reflexivity]. cbn [andb].
  apply find_some in IH as [_ Hb].
  now rewrite (date_ltb_same_month y m (fst b) (fst x) Hb Hx).
Qed.

Lemma last_in_month_sort_index (y m : Z) (close : NumSeries) :
  last_in_month y m (sort_index close) = option_map snd (latest_in_month y m close).
Proof. unfold last_in_month. now rewrite find_rev_sort_index. Qed.

Lemma same_month_spec (y m : Z) (d : date) :
  same_month y m d = true <-> year d = y /\ month d = m.
Proof. unfold same_month. now rewrite andb_true_iff, !Z.eqb_eq. Qed.

Lemma latest_in_month_none (y m : Z) (close : NumSeries) :
  latest_in_month y m close = None <->
  forall x, In x close -> same_month y m (fst x) = false.
Proof.
  induction close as [|x close IH]; simpl.
  - split; [intros _ z []|reflexivity].
  - destruct (latest_in_month y m close) as [b|].
    + split.
      * intros H. now destruct (same_month y m (fst x) && (day (fst b) <? day (fst x))).
      * intros H. exfalso. assert (N : Some b = None) by (apply IH; auto). discriminate.
    + destruct (same_month y m (fst x)) eqn:Hx.
      * split; [discriminate|]. intros H. specialize (H x (or_introl eq_refl)). congruence.
      * split; [|reflexivity]. intros _ z [<-|Hz]; [exact Hx|]. now apply IH.
Qed.

Lemma latest_in_month_some (y m : Z) (close : NumSeries) (e : date) (v : Q) :
  latest_in_month y m close = Some (e, v) -> is_latest_in_month y m close e v.
Proof.
  revert e v. induction close as [|x close IH]; intros e v; simpl; [discriminate|].
  destruct (latest_in_month y m close) as [[e' v']|] eqn:Hl.
  - destruct (IH e' v' eq_refl) as (Hy & Hm & l1 & l2 & -> & H1 & H2).
    destruct (same_month y m (fst x)) eqn:Hx; cbn [andb fst].
    + destruct (Z.ltb_spec (day e') (day (fst x))) as [Hlt|Hge].
      * cbv iota. intros E. injection E as E. apply same_month_spec in Hx as [Hxy Hxm].
        assert (Ee : fst x = e) by now rewrite E.
        split; [now rewrite <- Ee|]. split; [now rewrite <- Ee|].
        exists [], (l1 ++ (e', v') :: l2). split; [now rewrite E|].
        split; [intros z []|]. rewrite <- Ee.
        intros z Hz Hzy Hzm. apply in_app_iff in Hz as [Hz|[<-|Hz]].
        -- specialize (H1 z Hz Hzy Hzm). lia.
        -- exact Hlt.
        -- specialize (H2 z Hz Hzy Hzm). lia.
      * cbv iota. intros E. injection E as <- <-. split; [exact Hy|]. split; [exact Hm|].
        exists (x :: l1), l2. split; [reflexivity|]. split; [|exact H2].
        intros z [<-|Hz] Hzy Hzm; [exact Hge|now apply H1].
    + cbv iota. intros E. injection E as <- <-. split; [exact Hy|]. split; [exact Hm|].
      exists (x :: l1), l2. split; [reflexivity|]. split; [|exact H2].
      intros z [<-|Hz] Hzy Hzm; [|now apply H1].
      assert (same_month y m (fst x) = true) by (apply same_month_spec; auto). congruence.
  - destruct (same_month y m (fst x)) eqn:Hx; [|discriminate].
    intros E. injection E as E. apply same_month_spec in Hx as [Hxy Hxm].
    assert (Ee : fst x = e) by now rewrite E.
    split; [now rewrite <- Ee|]. split; [now rewrite <- Ee|].
    exists [], close. split; [now rewrite E|]. split; [intros z []|].
    intros z Hz Hzy Hzm. apply (proj1 (latest_in_month_none y m close)) with (x := z) in Hl;
      [|exact Hz].
    assert (same_month y m (fst z) = true) by (apply same_month_spec; auto). congruence.
Qed.

(** The observation so described is one only. *)
Lemma is_latest_in_month_unique (y m : Z) (close : NumSeries) (e e' : date) (v v' : Q) :
  latest_in_month y m close = Some (e, v) ->
  is_latest_in_month y m close e' v' -> (e', v') = (e, v).
Proof.
  revert e v e' v'. induction close as [|x close IH]; intros e v e' v'; simpl; [discriminate|].
  intros Hl (Hy & Hm & l1 & l2 & E & H1 & H2).
  assert (He' : same_month y m e' = true) by (apply same_month_spec; auto).
  destruct l1 as [|x1 l1]; cbn [app] in E; injection E as Ex Ec.
  - subst x close. cbn [fst] in Hl. rewrite He' in Hl. cbn [andb] in Hl.
    destruct (latest_in_month y m l2) as [[b w]|] eqn:Hb; [|congruence].
    destruct (latest_in_month_some y m l2 b w Hb) as (Hby & Hbm & k1 & k2 & Ek & _).
    assert (Hin : In (b, w) l2) by (rewrite Ek; apply in_or_app; right; now left).
    specialize (H2 (b, w) Hin Hby Hbm). cbn [fst] in *.
    destruct (Z.ltb_spec (day b) (day e')); [congruence|lia].
  - subst x1 close.
    assert (Hi : is_latest_in_month y m (l1 ++ (e', v') :: l2) e' v').
    { split; [exact Hy|]. split; [exact Hm|]. exists l1, l2. split; [reflexivity|].
      split; [|exact H2]. intros z Hz. apply H1. now right. }
    destruct (latest_in_month y m (l1 ++ (e', v') :: l2)) as [[b w]|] eqn:Hb.
    + pose proof (IH b w e' v' eq_refl Hi) as Eb. injection Eb as <- <-.
      destruct (same_month y m (fst x)) eqn:Hx; cbn [andb fst] in Hl; [|congruence].
      apply same_month_spec in Hx as [Hxy Hxm].
      specialize (H1 x (or_introl eq_refl) Hxy Hxm).
      destruct (Z.ltb_spec (day e') (day (fst x))); [lia|congruence].
    + exfalso. apply (proj1 (latest_in_month_none y m _)) with (x := (e', v')) in Hb.
      * cbn [fst] in Hb. congruence.
      * apply in_or_app. right. now left.
Qed.

Lemma ym_ltb_spec (y m y' m' : Z) :
  ym_ltb y m y' m' = true <-> y < y' \/ (y = y' /\ m < m').
Proof.
  unfold ym_ltb. rewrite orb_true_iff, andb_true_iff, !Z.ltb_lt, Z.eqb_eq. tauto.
Qed.

Lemma bins_get_upsert (y m : Z) (v : Q) (bins : list (Z * Z * Q)) (y' m' : Z) :
  bins_get (upsert y m v bins) y' m'
  = if (y =? y') && (m =? m') then Some v else bins_get bins y' m'.
Proof.
  unfold bins_get. induction bins as [|[[y0 m0] v0] bins IH]; simpl.
  - now destruct ((y =? y') && (m =? m')).
  - destruct ((y =? y0) && (m =? m0)) eqn:E0; simpl.
    + apply andb_true_iff in E0 as [Ey Em]. apply Z.eqb_eq in Ey, Em. subst y0 m0.
      now destruct ((y =? y') && (m =? m')).
    + destruct (ym_ltb y m y0 m0); simpl.
      * now destruct ((y =? y') && (m =? m')).
      * destruct ((y0 =? y') && (m0 =? m')) eqn:E1; [|exact IH].
        apply andb_true_iff in E1 as [Ey Em]. apply Z.eqb_eq in Ey, Em. subst y0 m0.
        now rewrite E0.
Qed.

Lemma upsert_sorted (y m : Z) (v : Q) (bins : list (Z * Z * Q)) :
  StronglySorted bin_before bins -> StronglySorted bin_before (upsert y m v bins).
Proof.
  induction 1 as [|[[y0 m0] v0] bins Hs IH Hb]; simpl.
  - repeat constructor.
  - destruct ((y =? y0) && (m =? m0)) eqn:E0.
    + apply andb_true_iff in E0 as [Ey Em]. apply Z.eqb_eq in Ey, Em. subst y0 m0.
      constructor; [exact Hs|]. exact Hb.
    + destruct (ym_ltb y m y0 m0) eqn:El.
      * apply ym_ltb_spec in El. constructor; [now constructor|].
        constructor; [exact El|].
        rewrite Forall_forall in Hb |- *. intros b Hin. specialize (Hb b Hin).
        unfold bin_before in *. simpl in *. lia.
      * assert (Hgt : bin_before (y0, m0, v0) (y, m, v)).
        { unfold bin_before. simpl.
          assert (Hn : ~ (y < y0 \/ (y = y0 /\ m < m0)))
            by (rewrite <- ym_ltb_spec; congruence).
          apply andb_false_iff in E0. rewrite !Z.eqb_neq in E0. lia. }
        constructor; [exact IH|].
        rewrite Forall_forall in Hb |- *. intros b Hin.
        clear IH. revert b Hin. induction bins as [|[[y1 m1] v1] bins IHb]; simpl.
        -- intros b [<-|[]]. exact Hgt.
        -- intros b. inversion Hs as [|? ? Hs' Hb']; subst.
           destruct ((y =? y1) && (m =? m1)) eqn:E1.
           ++ intros [<-|Hin]; [exact Hgt|]. apply Hb. now right.
           ++ destruct (ym_ltb y m y1 m1).
              ** intros [<-|Hin]; [exact Hgt|]. now apply Hb.
              ** intros [<-|Hin]; [apply Hb; now left|].
                 apply IHb; auto. intros c Hc. apply Hb. now right.
Qed.

Lemma upsert_length (y m : Z) (v : Q) (bins : list (Z * Z * Q)) :
  (length (upsert y m v bins) <= S (length bins))%nat.
Proof.
  induction bins as [|[[y0 m0] v0] bins IH]; simpl; [lia|].
  destruct ((y =? y0) && (m =? m0)); simpl; [lia|].
  destruct (ym_ltb y m y0 m0); simpl; lia.
Qed.

Lemma resample_bins_sorted (close : NumSeries) (bins : list (Z * Z * Q)) :
  StronglySorted bin_before bins -> StronglySorted bin_before (resample_bins close bins).
Proof.
  revert bins. induction close as [|x close IH]; intros bins H; simpl; auto.
  apply IH. now apply upsert_sorted.
Qed.

Lemma resample_bins_length (close : NumSeries) (bins : list (Z * Z * Q)) :
  (length (resample_bins close bins) <= length close + length bins)%nat.
Proof.
  revert bins. induction close as [|x close IH]; intros bins; simpl; [lia|].
  specialize (IH (upsert (year (fst x)) (month (fst x)) (snd x) bins)).
  pose proof (upsert_length (year (fst x)) (month (fst x)) (snd x) bins).
  unfold resample_bins in *. lia.
Qed.

Lemma last_in_month_cons (y m : Z) (x : date * Q) (close : NumSeries) :
  last_in_month y m (x :: close)
  = match last_in_month y m close with
    | Some v => Some v
    | None => if same_month y m (fst x) then Some (snd x) else None
    end.
Proof.
  unfold last_in_month. simpl rev.
  induction (rev close) as [|z l IH]; simpl.
  - now destruct (same_month y m (fst x)).
  - destruct (same_month y m (fst z)); [reflexivity|exact IH].
Qed.

Lemma resample_bins_get (close : NumSeries) (bins : list (Z * Z * Q)) (y m : Z) :
  bins_get (resample_bins close bins) y m
  = match last_in_month y m close with
    | Some v => Some v
    | None => bins_get bins y m
    end.
Proof.
  revert bins. induction close as [|x close IH]; intros bins.
  - reflexivity.
  - cbn [resample_bins fold_left]. fold (resample_bins close).
    rewrite IH, last_in_month_cons, bins_get_upsert.
    destruct (last_in_month y m close); [reflexivity|].
    unfold same_month. now destruct ((year (fst x) =? y) && (month (fst x) =? m)).
Qed.

Lemma bins_get_in (bins : list (Z * Z * Q)) (y m : Z) (v : Q) :
  StronglySorted bin_before bins -> In (y, m, v) bins -> bins_get bins y m = Some v.
Proof.
  unfold bins_get. induction 1 as [|[[y0 m0] v0] bins Hs IH Hb]; simpl; [contradiction|].
  intros [E|Hin].
  - injection E as -> -> ->. now rewrite !Z.eqb_refl.
  - destruct ((y0 =? y) && (m0 =? m)) eqn:E0; [|now apply IH].
    apply andb_true_iff in E0 as [Ey Em]. apply Z.eqb_eq in Ey, Em. subst y0 m0.
    rewrite Forall_forall in Hb. specialize (Hb _ Hin).
    unfold bin_before in Hb. simpl in Hb. lia.
Qed.

Lemma bins_get_some (bins : list (Z * Z * Q)) (y m : Z) (v : Q) :
  bins_get bins y m = Some v -> In (y, m, v) bins.
Proof.
  unfold bins_get.
  destruct (find (fun b : Z * Z * Q => (fst (fst b) =? y) && (snd (fst b) =? m)) bins)
    as [[[y0 m0] v0]|] eqn:Hf; [|discriminate].
  simpl. intros E. injection E as ->.
  apply find_some in Hf as [Hin Hk]. simpl in Hk.
  apply andb_true_iff in Hk as [Ey Em]. apply Z.eqb_eq in Ey, Em. now subst.
Qed.

Lemma last_in_month_in (x : date * Q) (close : NumSeries) :
  In x close -> exists v, last_in_month (year (fst x)) (month (fst x)) close = Some v.
Proof.
  intros Hin. unfold last_in_month.
  destruct (find (fun z : date * Q => same_month (year (fst x)) (month (fst x)) (fst z))
              (rev close)) as [z|] eqn:Hf.
  - now exists (snd z).
  - apply in_rev in Hin. pose proof (find_none _ _ Hf x Hin) as Hn.
    unfold same_month in Hn. simpl in Hn. now rewrite !Z.eqb_refl in Hn.
Qed.

Lemma month_end_year (y m : Z) : year (month_end y m) = y.
Proof. reflexivity. Qed.

Lemma month_end_month (y m : Z) : month (month_end y m) = m.
Proof. reflexivity. Qed.

Lemma resample_last_get (close : NumSeries) (y m : Z) (v : Q) :
  In (month_end y m, v) (resample_last close) <->
  option_map snd (latest_in_month y m close) = Some v.
Proof.
  unfold resample_last. fold (resample_bins (sort_index close) []).
  pose proof (resample_bins_sorted (sort_index close) [] (SSorted_nil _)) as Hs.
  rewrite <- last_in_month_sort_index. split.
  - intros Hin. apply in_map_iff in Hin as ([[y' m'] w] & E & Hin). simpl in E.
    injection E as Ey Em _ ->. subst y' m'.
    pose proof (bins_get_in _ _ _ _ Hs Hin) as Hg. rewrite resample_bins_get in Hg.
    destruct (last_in_month y m (sort_index close)); [exact Hg|discriminate].
  - intros Hv. apply in_map_iff. exists (y, m, v). split; [reflexivity|].
    apply bins_get_some. rewrite resample_bins_get, Hv. reflexivity.
Qed.

(** What [resample("ME").last().dropna()] keeps: one value per calendar
    month that has an observation, labelled with the end of the month, the
    months in calendar order.  The value is that of the observation of the
    month dated latest, whatever the order of the series (of several on
    that day, the last in the series): no observation of the month that
    stands before it in the series is dated after it, and every one that
    stands after it is dated before it.  For a series in time order that
    is the last observation of the month in the series.  Every observation
    has its month in the result, and there are never more months than
    observations. *)
Theorem resample_last_months (close : NumSeries) :
  StronglySorted (fun a b : date * Q => month_before (fst a) (fst b)) (resample_last close) /\
  (forall d v, In (d, v) (resample_last close) ->
     d = month_end (year d) (month d) /\
     (exists e, latest_in_month (year d) (month d) close = Some (e, v) /\
                is_latest_in_month (year d) (month d) close e v) /\
     (date_ordered close -> last_in_month (year d) (month d) close = Some v)) /\
  (forall y m e v, is_latest_in_month y m close e v ->
     In (month_end y m, v) (resample_last close)) /\
  (forall x, In x close ->
     exists v, In (month_end (year (fst x)) (month (fst x)), v) (resample_last close)) /\
  (length (resample_last close) <= length close)%nat.
Proof.
  split; [|split; [|split; [|split]]].
  - unfold resample_last. fold (resample_bins (sort_index close) []).
    pose proof (resample_bins_sorted (sort_index close) [] (SSorted_nil _)) as Hs.
    induction Hs as [|b bins Hs' IH Hb]; simpl; constructor; auto.
    rewrite Forall_forall in Hb |- *. intros z Hz.
    apply in_map_iff in Hz as (c & <- & Hc). exact (Hb c Hc).
  - intros d v Hin.
    assert (Hd : d = month_end (year d) (month d)).
    { unfold resample_last in Hin. apply in_map_iff in Hin as ([[y m] w] & E & _).
      simpl in E. injection E as <- _. reflexivity. }
    split; [exact Hd|]. rewrite Hd in Hin. apply resample_last_get in Hin.
    split.
    + destruct (latest_in_month (year d) (month d) close) as [[e w]|] eqn:Hl;
        [|discriminate]. simpl in Hin. injection Hin as ->.
      exists e. split; [reflexivity|]. now apply latest_in_month_some.
    + intros Ho. rewrite <- last_in_month_sort_index in Hin.
      now rewrite (sort_index_ordered close Ho) in Hin.
  - intros y m e v Hi. apply resample_last_get.
    destruct (latest_in_month y m close) as [[b w]|] eqn:Hl.
    + pose proof (is_latest_in_month_unique y m close b e w v Hl Hi) as E.
      injection E as _ ->. reflexivity.
    + exfalso. destruct Hi as (Hy & Hm & l1 & l2 & -> & _).
      apply (proj1 (latest_in_month_none y m _)) with (x := (e, v)) in Hl.
      * assert (same_month y m e = true) by (apply same_month_spec; auto).
        cbn [fst] in Hl. congruence.
      * apply in_or_app. right. now left.
  - intros x Hx.
    assert (Hs : In x (sort_index close))
      by (apply (Permutation_in _ (Permutation_sym (sort_index_perm close))); exact Hx).
    destruct (last_in_month_in x (sort_index close) Hs) as [v Hv]. exists v.
    apply resample_last_get. now rewrite <- last_in_month_sort_index.
  - unfold resample_last. rewrite length_map.
    pose proof (resample_bins_length (sort_index close) []).
    pose proof (Permutation_length (sort_index_perm close)).
    unfold resample_bins in *. simpl in *. lia.
Qed.

Lemma resample_last_months_witness :
  (exists e,
     latest_in_month 2020 1 [(mkdate 2020 1 20, 5%Q); (mkdate 2020 1 10, 7%Q)]
     = Some (e, 5%Q) /\
     is_latest_in_month 2020 1 [(mkdate 2020 1 20, 5%Q); (mkdate 2020 1 10, 7%Q)] e 5%Q) /\
  last_in_month 2020 1 [(mkdate 2020 1 10, 7%Q); (mkdate 2020 1 20, 5%Q)] = Some 5%Q.
Proof.
  split.
  - apply (proj1 (proj2 (resample_last_months
                           [(mkdate 2020 1 20, 5%Q); (mkdate 2020 1 10, 7%Q)]))
             (mkdate 2020 1 31) 5%Q).
    vm_compute. left. reflexivity.
  - apply (proj1 (proj2 (resample_last_months
                           [(mkdate 2020 1 10, 7%Q); (mkdate 2020 1 20, 5%Q)]))
             (mkdate 2020 1 31) 5%Q).
    + vm_compute. left. reflexivity.
    + apply SSorted_cons; [apply SSorted_cons; [apply SSorted_nil|apply Forall_nil]|].
      apply Forall_cons; [|apply Forall_nil]. unfold date_le. simpl. lia.
Defined.

(* ------------------------------------------------------------------ *)
(** ** download_data: dictionaries, indexes and tables *)(* ------------------------------------------------------------------ *)
(** ** download_data: dictionaries, indexes and tables *)

Lemma dict_find_set {V : Type} (d : list (string * V)) (k k' : string) (v : V) :
  dict_find (dict_set d k v) k' = if String.eqb k k' then Some v else dict_find d k'.
Proof.
  unfold dict_find. induction d as [|[k0 v0] d IH]; simpl.
  - rewrite (String.eqb_sym k' k). now destruct (String.eqb k k').
  - destruct (String.eqb_spec k k0) as [->|Hk]; simpl.
    + rewrite (String.eqb_sym k' k0). now destruct (String.eqb k0 k').
    + destruct (String.eqb_spec k' k0) as [->|Hk'].
      * destruct (String.eqb_spec k k0); [contradiction|reflexivity].
      * exact IH.
Qed.

Lemma dict_set_keys {V : Type} (d : list (string * V)) (k : string) (v : V) :
  map fst (dict_set d k v) = if mem k (map fst d) then map fst d else map fst d ++ [k].
Proof.
  unfold mem. induction d as [|[k0 v0] d IH]; simpl; [reflexivity|].
  destruct (String.eqb_spec k k0) as [->|Hk]; simpl; [reflexivity|].
  rewrite IH. now destruct (existsb (String.eqb k) (map fst d)).
Qed.

Lemma dict_set_keys_nodup {V : Type} (d : list (string * V)) (k : string) (v : V) :
  NoDup (map fst d) -> NoDup (map fst (dict_set d k v)).
Proof.
  intros H. rewrite dict_set_keys. destruct (mem k (map fst d)) eqn:E; [exact H|].
  apply NoDup_app; [exact H|repeat constructor; intros []|].
  intros x Hx [<-|[]]. apply mem_in in Hx. congruence.
Qed.

Lemma dict_find_in {V : Type} (d : list (string * V)) (k : string) (v : V) :
  NoDup (map fst d) -> (In (k, v) d <-> dict_find d k = Some v).
Proof.
  unfold dict_find. induction d as [|[k0 v0] d IH]; simpl; intros Hnd.
  - split; [contradiction|discriminate].
  - inversion Hnd as [|? ? Hk Hd]; subst.
    destruct (String.eqb_spec k k0) as [->|Hne]; simpl.
    + split.
      * intros [E|Hin]; [now injection E as ->|].
        exfalso. apply Hk. apply in_map_iff. exists (k0, v). auto.
      * intros E. injection E as ->. now left.
    + rewrite <- (IH Hd). split; [intros [E|Hin]; [congruence|exact Hin]|now right].
Qed.

Lemma dict_find_keys {V : Type} (d : list (string * V)) (k : string) :
  In k (map fst d) <-> dict_find d k <> None.
Proof.
  unfold dict_find. induction d as [|[k0 v0] d IH]; simpl.
  - split; [contradiction|congruence].
  - destruct (String.eqb_spec k k0) as [->|Hne]; simpl.
    + split; [discriminate|now left].
    + rewrite <- IH. split; [intros [E|H]; [congruence|exact H]|now right].
Qed.

Lemma date_eqb_spec (a b : date) :
  date_eqb a b = true <-> year a = year b /\ month a = month b /\ day a = day b.
Proof.
  unfold date_eqb. rewrite !andb_true_iff, !Z.eqb_eq. tauto.
Qed.

Lemma insert_date_in (d x : date) (idx : list date) :
  In x (insert_date d idx) <-> x = d \/ In x idx.
Proof.
  induction idx as [|e idx IH]; simpl.
  - split; [intros [<-|[]]; now left|intros [->|[]]; now left].
  - destruct (date_eqb d e) eqn:E.
    + apply date_eqb_eq in E. subst e. simpl. split; [now right|].
      intros [->|H]; [now left|exact H].
    + destruct (date_ltb d e); simpl.
      * split; [intros [<-|H]; auto|intros [->|H]; auto].
      * rewrite IH. split; [intros [<-|[->|H]]; auto|intros [->|[<-|H]]; auto].
Qed.

Lemma insert_date_sorted (d : date) (idx : list date) :
  StronglySorted date_before idx -> StronglySorted date_before (insert_date d idx).
Proof.
  induction 1 as [|e idx Hs IH He]; simpl.
  - repeat constructor.
  - destruct (date_eqb d e) eqn:E; [now constructor|].
    destruct (date_ltb d e) eqn:L.
    + constructor; [now constructor|]. constructor; [exact L|].
      rewrite Forall_forall in He |- *. intros x Hx. specialize (He x Hx).
      unfold date_before in *. rewrite date_ltb_spec in *. lia.
    + constructor; [exact IH|].
      rewrite Forall_forall in He |- *. intros x Hx.
      apply insert_date_in in Hx as [->|Hx]; [|now apply He].
      unfold date_before. rewrite date_ltb_spec.
      assert (Hn : ~ (year d = year e /\ month d = month e /\ day d = day e))
        by (rewrite <- date_eqb_spec; congruence).
      assert (Hl : ~ (year d < year e \/
                      (year d = year e /\
                       (month d < month e \/ (month d = month e /\ day d < day e)))))
        by (rewrite <- date_ltb_spec; congruence).
      lia.
Qed.

Lemma union_index_inner_in (s : NumSeries) (idx : list date) (x : date) :
  In x (fold_left (fun idx (y : date * Q) => insert_date (fst y) idx) s idx)
  <-> In x idx \/ In x (map fst s).
Proof.
  revert idx. induction s as [|y s IH]; intros idx; simpl; [tauto|].
  rewrite IH, insert_date_in. split; [intros [[->|H]|H]; auto|intros [H|[<-|H]]; auto].
Qed.

Lemma union_index_inner_sorted (s : NumSeries) (idx : list date) :
  StronglySorted date_before idx ->
  StronglySorted date_before
    (fold_left (fun idx (y : date * Q) => insert_date (fst y) idx) s idx).
Proof.
  revert idx. induction s as [|y s IH]; intros idx H; simpl; auto.
  apply IH. now apply insert_date_sorted.
Qed.

Lemma union_index_in (series : list NumSeries) (x : date) :
  In x (union_index series) <-> exists s, In s series /\ In x (map fst s).
Proof.
  unfold union_index.
  assert (G : forall idx,
            In x (fold_left
                    (fun idx (s : NumSeries) =>
                       fold_left (fun idx (y : date * Q) => insert_date (fst y) idx) s idx)
                    series idx)
            <-> In x idx \/ exists s, In s series /\ In x (map fst s)).
  { induction series as [|s series IH]; intros idx; simpl.
    - split; [now left|intros [H|(s & [] & _)]; exact H].
    - rewrite IH, union_index_inner_in. split.
      + intros [[H|H]|(s' & Hs & Hx)]; eauto.
      + intros [H|(s' & [<-|Hs] & Hx)]; eauto. }
  rewrite G. simpl. split; [intros [[]|H]; exact H|now right].
Qed.

Lemma union_index_sorted (series : list NumSeries) :
  StronglySorted date_before (union_index series).
Proof.
  unfold union_index.
  assert (G : forall idx, StronglySorted date_before idx ->
            StronglySorted date_before
              (fold_left
                 (fun idx (s : NumSeries) =>
                    fold_left (fun idx (y : date * Q) => insert_date (fst y) idx) s idx)
                 series idx)).
  { induction series as [|s series IH]; intros idx H; simpl; auto.
    apply IH. now apply union_index_inner_sorted. }
  apply G. constructor.
Qed.

(** Ends of months in time order are in calendar order, one per month. *)
Lemma month_ends_sorted (idx : list date) :
  (forall d, In d idx -> is_month_end d) ->
  StronglySorted date_before idx -> StronglySorted month_before idx.
Proof.
  intros Hme Hs. apply StronglySorted_weaken with (R := date_before); [|exact Hs].
  intros a b Ha Hb Hab. unfold date_before in Hab. rewrite date_ltb_spec in Hab.
  unfold month_before.
  destruct Hab as [H|[Hy [H|[Hm Hd]]]]; [now left|now right|].
  exfalso. pose proof (Hme a Ha) as Ea. pose proof (Hme b Hb) as Eb.
  unfold is_month_end in *. rewrite Ea, Eb in Hd. unfold month_end in Hd. simpl in Hd.
  rewrite Hy, Hm in Hd. lia.
Qed.

Lemma month_before_distinct (idx : list date) :
  StronglySorted month_before idx -> distinct_months idx = true.
Proof.
  induction 1 as [|d idx Hs IH Hd]; simpl; [reflexivity|].
  rewrite IH, andb_true_r. apply negb_true_iff.
  destruct (existsb _ idx) eqn:E; [|reflexivity].
  apply existsb_exists in E as (e & He & Heq).
  apply andb_true_iff in Heq as [Hy Hm]. apply Z.eqb_eq in Hy, Hm.
  rewrite Forall_forall in Hd. specialize (Hd e He). unfold month_before in Hd. lia.
Qed.

Lemma distinct_months_filter {B : Type} (keep : date * B -> bool) (l : list (date * B)) :
  distinct_months (map fst l) = true -> distinct_months (map fst (filter keep l)) = true.
Proof.
  induction l as [|x l IH]; simpl; [reflexivity|].
  intros H. apply andb_true_iff in H as [Hx Hl]. specialize (IH Hl).
  destruct (keep x); simpl; [|exact IH].
  rewrite IH, andb_true_r. apply negb_true_iff. apply negb_true_iff in Hx.
  destruct (existsb _ (map fst (filter keep l))) eqn:E; [|reflexivity].
  apply existsb_exists in E as (e & He & Heq).
  apply in_map_iff in He as (z & <- & Hz). apply filter_In in Hz as [Hz _].
  assert (E' : existsb (fun e => (year (fst x) =? year e) && (month (fst x) =? month e))
                 (map fst l) = true).
  { apply existsb_exists. exists (fst z). split; [now apply in_map|exact Heq]. }
  congruence.
Qed.

Lemma compute_monthly_returns_distinct (prices : DataFrame) :
  distinct_months (index prices) = true ->
  distinct_months (index (compute_monthly_returns prices)) = true.
Proof.
  intros Hd. unfold compute_monthly_returns, dropna_all, index. cbn [rows].
  apply distinct_months_filter. fold (index (df_mul (pct_change prices) 100)).
  now rewrite df_mul_index, pct_change_index.
Qed.

Lemma pct_rows_length (p : list (option Q)) (l : list row) :
  length (pct_rows p l) = length l.
Proof.
  revert p. induction l as [|[d c] l IH]; intros p; simpl; [reflexivity|]. now rewrite IH.
Qed.

(** The monthly returns keep the labels; their months are months of the
    price table other than its first row, so there is at least one month
    less; every month kept holds at least one return; a table with one row
    per month gives a table with one row per month. *)
Theorem compute_monthly_returns_shape (prices : DataFrame) :
  columns (compute_monthly_returns prices) = columns prices /\
  (forall d, In d (index (compute_monthly_returns prices)) -> In d (tl (index prices))) /\
  (forall r, In r (rows (compute_monthly_returns prices)) ->
     exists j v, nth j (snd r) None = Some v) /\
  (distinct_months (index prices) = true ->
   distinct_months (index (compute_monthly_returns prices)) = true) /\
  (length (rows (compute_monthly_returns prices)) <= pred (length (rows prices)))%nat.
Proof.
  assert (Hfirst : forall d c rest, rows prices = (d, c) :: rest ->
            filter (fun r : row => existsb is_some (snd r))
              (rows (df_mul (pct_change prices) 100))
            = filter (fun r : row => existsb is_some (snd r))
                (map (fun r : row => (fst r, map (option_map (fun v => v * 100)%Q) (snd r)))
                   (pct_rows c rest))).
  { intros d c rest Hr. unfold df_mul, pct_change. cbn [rows]. rewrite Hr. cbn [map filter fst snd].
    assert (E : existsb is_some
                  (map (option_map (fun v : Q => (v * 100)%Q)) (map (fun _ => @None Q) c)) = false).
    { clear. induction c as [|a c IH]; simpl; auto. }
    now rewrite E. }
  split; [reflexivity|]. split; [|split; [|split]].
  - intros d Hd. unfold index, compute_monthly_returns, dropna_all in Hd. cbn [rows] in Hd.
    unfold index. destruct (rows prices) as [|[d0 c0] rest] eqn:Hr.
    + unfold df_mul, pct_change in Hd. cbn [rows] in Hd. rewrite Hr in Hd. destruct Hd.
    + rewrite (Hfirst d0 c0 rest eq_refl) in Hd. cbn [map tl].
      apply in_map_iff in Hd as (r & <- & Hin). apply filter_In in Hin as [Hin _].
      apply in_map_iff in Hin as (r' & <- & Hin'). cbn [fst].
      rewrite <- (pct_rows_index c0 rest). now apply in_map.
  - intros r Hr. unfold compute_monthly_returns, dropna_all in Hr. cbn [rows] in Hr.
    apply filter_In in Hr as [_ Hr]. apply existsb_exists in Hr as (o & Ho & Hs).
    destruct o as [v|]; [|discriminate].
    apply In_nth with (d := None) in Ho as (j & _ & Hj). now exists j, v.
  - apply compute_monthly_returns_distinct.
  - unfold compute_monthly_returns, dropna_all. cbn [rows].
    destruct (rows prices) as [|[d0 c0] rest] eqn:Hr.
    + unfold df_mul, pct_change. cbn [rows]. rewrite Hr. simpl. lia.
    + rewrite (Hfirst d0 c0 rest eq_refl).
      etransitivity; [apply filter_length_le|]. rewrite length_map, pct_rows_length.
      simpl. lia.
Qed.

Lemma compute_monthly_returns_shape_witness :
  distinct_months (index (compute_monthly_returns gap_prices)) = true.
Proof.
  exact (proj1 (proj2 (proj2 (proj2 (compute_monthly_returns_shape gap_prices)))) eq_refl).
Defined.

(* ------------------------------------------------------------------ *)
(** ** download_data: the loop and the table *)

Lemma date_eqb_month_end (y m y' m' : Z) :
  date_eqb (month_end y m) (month_end y' m') = (y' =? y) && (m' =? m).
Proof.
  unfold date_eqb, month_end. cbn [year month day].
  destruct (Z.eqb_spec y y') as [->|Hy].
  - destruct (Z.eqb_spec m m') as [->|Hm].
    + now rewrite !Z.eqb_refl.
    + destruct (Z.eqb_spec m' m); [congruence|]. simpl. now rewrite andb_false_r.
  - destruct (Z.eqb_spec y' y); [congruence|]. reflexivity.
Qed.

Lemma series_at_bins (bins : list (Z * Z * Q)) (y m : Z) :
  series_at
    (map (fun b : Z * Z * Q => (month_end (fst (fst b)) (snd (fst b)), snd b)) bins)
    (month_end y m)
  = bins_get bins y m.
Proof.
  unfold series_at, bins_get.
  induction bins as [|[[y0 m0] v0] bins IH]; simpl; [reflexivity|].
  rewrite date_eqb_month_end.
  destruct ((y0 =? y) && (m0 =? m)); [reflexivity|exact IH].
Qed.

Lemma series_at_resample_last (close : NumSeries) (y m : Z) :
  series_at (resample_last close) (month_end y m)
  = option_map snd (latest_in_month y m close).
Proof.
  unfold resample_last. fold (resample_bins (sort_index close) []).
  rewrite series_at_bins, resample_bins_get, <- last_in_month_sort_index.
  now destruct (last_in_month y m (sort_index close)).
Qed.

Lemma resample_last_sorted (close : NumSeries) :
  StronglySorted (fun a b : date * Q => month_before (fst a) (fst b)) (resample_last close).
Proof.
  unfold resample_last. fold (resample_bins (sort_index close) []).
  pose proof (resample_bins_sorted (sort_index close) [] (SSorted_nil _)) as Hs.
  induction Hs as [|b bins Hs' IH Hb]; simpl; constructor; auto.
  rewrite Forall_forall in Hb |- *. intros z Hz.
  apply in_map_iff in Hz as (c & <- & Hc). exact (Hb c Hc).
Qed.

Lemma resample_last_month_end (close : NumSeries) (x : date * Q) :
  In x (resample_last close) -> is_month_end (fst x).
Proof.
  unfold resample_last. intros Hin. apply in_map_iff in Hin as ([[y m] v] & <- & _).
  reflexivity.
Qed.

Lemma series_at_in (s : NumSeries) (x : date * Q) :
  In x s -> series_at s (fst x) <> None.
Proof.
  intros Hin. unfold series_at.
  destruct (find (fun z : date * Q => date_eqb (fst x) (fst z)) s) eqn:Hf; [discriminate|].
  pose proof (find_none _ _ Hf x Hin) as Hn. simpl in Hn. now rewrite date_eqb_refl in Hn.
Qed.

Lemma series_at_not_in (s : NumSeries) (d : date) :
  ~ In d (map fst s) -> series_at s d = None.
Proof.
  intros Hn. unfold series_at.
  destruct (find (fun z : date * Q => date_eqb d (fst z)) s) as [z|] eqn:Hf; [|reflexivity].
  apply find_some in Hf as [Hin Hd]. apply date_eqb_eq in Hd. subst d.
  exfalso. apply Hn. now apply in_map.
Qed.

Lemma filter_mask_all {A : Type} (mask : list bool) (l : list A) :
  length mask = length l -> Forall (fun b => b = true) mask -> filter_mask mask l = l.
Proof.
  unfold filter_mask. revert l. induction mask as [|b mask IH]; intros [|a l] Hlen Hall;
    simpl in *; try discriminate; [reflexivity|].
  inversion Hall as [|? ? Hb Hm]; subst. simpl. f_equal. apply IH; [lia|exact Hm].
Qed.

Lemma dropna_columns_all_id (df : DataFrame) :
  (forall j, (j < length (columns df))%nat ->
     existsb (fun r : row => is_some (nth j (snd r) None)) (rows df) = true) ->
  (forall r, In r (rows df) -> length (snd r) = length (columns df)) ->
  dropna_columns_all df = df.
Proof.
  intros Hcol Hrow. unfold dropna_columns_all. cbv zeta.
  set (keep := map (fun j => existsb (fun r : row => is_some (nth j (snd r) None)) (rows df))
                 (seq 0 (length (columns df)))).
  assert (Hlen : length keep = length (columns df))
    by (unfold keep; now rewrite length_map, length_seq).
  assert (Hall : Forall (fun b => b = true) keep).
  { unfold keep. rewrite Forall_forall. intros b Hb.
    apply in_map_iff in Hb as (j & <- & Hj). apply in_seq in Hj. apply Hcol. lia. }
  rewrite (filter_mask_all keep (columns df) Hlen Hall).
  destruct df as [cols rws]. cbn [columns rows] in *. f_equal.
  rewrite <- (map_id rws) at 2. apply map_ext_in. intros [d c] Hin. cbn [fst snd]. f_equal.
  apply filter_mask_all; [|exact Hall]. rewrite Hlen. symmetry. exact (Hrow _ Hin).
Qed.

Lemma index_of_nth {V : Type} (d : list (string * V)) (k : string) (v : V) (dflt : string * V) :
  NoDup (map fst d) -> In (k, v) d ->
  exists j, index_of k (map fst d) = Some j /\ nth j d dflt = (k, v) /\ (j < length d)%nat.
Proof.
  induction d as [|[k0 v0] d IH]; simpl; intros Hnd Hin; [contradiction|].
  inversion Hnd as [|? ? Hk Hd]; subst.
  destruct (String.eqb_spec k k0) as [->|Hne].
  - exists O. destruct Hin as [E|Hin].
    + injection E as ->. repeat split; auto. lia.
    + exfalso. apply Hk. apply in_map_iff. exists (k0, v). auto.
  - destruct Hin as [E|Hin]; [congruence|].
    destruct (IH Hd Hin) as (j & -> & Hn & Hj). exists (S j). repeat split; auto. lia.
Qed.

Section DownloadProperties.

Variable provider : string -> M (option RawFrame).

Lemma download_step_data (st : list (string * NumSeries) * list (string * option exn))
    (t : string) :
  fst (download_step provider st t)
  = match kept provider t with
    | Some monthly => dict_set (fst st) t monthly
    | None => fst st
    end.
Proof.
  unfold download_step, kept, download_one, resample. cbv zeta.
  destruct (provider t) as [e|[f|]]; [reflexivity| |reflexivity].
  destruct (raw_empty f); [reflexivity|].
  destruct (_extract_close_series (Some f) t) as [close|]; [|reflexivity].
  destruct (length close <? 50)%nat; [reflexivity|].
  now destruct (10 <? length (resample_last close))%nat.
Qed.

Lemma kept_inv (t : string) (monthly : NumSeries) :
  kept provider t = Some monthly ->
  exists f close,
    provider t = inr (Some f) /\ raw_empty f = false /\
    _extract_close_series (Some f) t = Some close /\
    (50 <= length close)%nat /\ monthly = resample_last close /\
    (10 < length monthly)%nat.
Proof.
  unfold kept, download_one, resample.
  destruct (provider t) as [e|[f|]]; try discriminate.
  destruct (raw_empty f) eqn:He; [discriminate|].
  destruct (_extract_close_series (Some f) t) as [close|] eqn:Hx; [|discriminate].
  destruct (Nat.ltb_spec (length close) 50); [discriminate|].
  destruct (Nat.ltb_spec 10 (length (resample_last close))); [|discriminate].
  intros E. injection E as <-. exists f, close. repeat split; auto.
Qed.

Lemma download_loop_find (tickers : list string)
    (st : list (string * NumSeries) * list (string * option exn)) (k : string) :
  dict_find (fst (fold_left (download_step provider) tickers st)) k
  = match (if mem k tickers then kept provider k else None) with
    | Some monthly => Some monthly
    | None => dict_find (fst st) k
    end.
Proof.
  revert st. induction tickers as [|t tickers IH]; intros st; [reflexivity|].
  cbn [fold_left]. rewrite IH, download_step_data. unfold mem. cbn [existsb].
  fold (mem k tickers).
  destruct (mem k tickers) eqn:Hm.
  - rewrite orb_true_r. destruct (kept provider k) eqn:Hkk; [reflexivity|].
    destruct (kept provider t) as [mo|] eqn:Hk; [|reflexivity].
    rewrite dict_find_set. destruct (String.eqb_spec t k) as [->|_]; [congruence|reflexivity].
  - rewrite orb_false_r. destruct (String.eqb_spec k t) as [->|Hne].
    + destruct (kept provider t) as [mo|]; [|reflexivity].
      now rewrite dict_find_set, String.eqb_refl.
    + destruct (kept provider t) as [mo|]; [|reflexivity].
      rewrite dict_find_set. destruct (String.eqb_spec t k); [congruence|reflexivity].
Qed.

Lemma download_loop_nodup (tickers : list string)
    (st : list (string * NumSeries) * list (string * option exn)) :
  NoDup (map fst (fst st)) ->
  NoDup (map fst (fst (fold_left (download_step provider) tickers st))).
Proof.
  revert st. induction tickers as [|t tickers IH]; intros st H; [exact H|].
  cbn [fold_left]. apply IH. rewrite download_step_data.
  destruct (kept provider t); [now apply dict_set_keys_nodup|exact H].
Qed.

(** The dictionary the loop ends with. *)
Lemma download_loop_data (tickers : list string) (k : string) (monthly : NumSeries) :
  In (k, monthly) (fst (fold_left (download_step provider) tickers ([], [])))
  <-> In k tickers /\ kept provider k = Some monthly.
Proof.
  rewrite dict_find_in by (apply download_loop_nodup; constructor).
  rewrite download_loop_find. cbn [fst dict_find find option_map].
  destruct (mem k tickers) eqn:Hm.
  - apply mem_in in Hm. destruct (kept provider k); split; try tauto; try discriminate.
  - split; [discriminate|]. intros [Hin _]. apply mem_in in Hin. congruence.
Qed.

Lemma download_loop_keys (tickers : list string)
    (st : list (string * NumSeries) * list (string * option exn)) :
  NoDup tickers -> (forall t, In t tickers -> ~ In t (map fst (fst st))) ->
  map fst (fst (fold_left (download_step provider) tickers st))
  = map fst (fst st) ++ filter (fun t => is_some (kept provider t)) tickers.
Proof.
  revert st. induction tickers as [|t tickers IH]; intros st Hnd Hdis.
  - simpl. now rewrite app_nil_r.
  - inversion Hnd as [|? ? Ht Hnd']; subst. cbn [fold_left filter].
    assert (Hm : mem t (map fst (fst st)) = false).
    { destruct (mem t (map fst (fst st))) eqn:E; [|reflexivity].
      apply mem_in in E. exfalso. apply (Hdis t); [now left|exact E]. }
    rewrite IH; [|exact Hnd'|].
    + rewrite download_step_data. destruct (kept provider t) as [mo|]; cbn [is_some].
      * rewrite dict_set_keys, Hm, <- app_assoc. reflexivity.
      * reflexivity.
    + intros u Hu. rewrite download_step_data.
      destruct (kept provider t) as [mo|]; [|apply Hdis; now right].
      rewrite dict_set_keys, Hm. intros Hin. apply in_app_or in Hin as [Hin|[->|[]]].
      * apply (Hdis u); [now right|exact Hin].
      * contradiction.
Qed.

Lemma find_row (d : date) (F : date -> list (option Q)) (idx : list date) :
  find (fun r : row => date_eqb d (fst r)) (map (fun e => (e, F e)) idx)
  = if existsb (date_eqb d) idx then Some (d, F d) else None.
Proof.
  induction idx as [|e idx IH]; simpl; [reflexivity|].
  destruct (date_eqb d e) eqn:E; simpl; [|exact IH].
  apply date_eqb_eq in E. now subst e.
Qed.

Lemma DataFrame_of_dict_index (all_data : list (string * NumSeries)) :
  index (DataFrame_of_dict all_data) = union_index (map snd all_data).
Proof.
  unfold index, DataFrame_of_dict. cbn [rows]. rewrite map_map. cbn [fst]. apply map_id.
Qed.

(** The table [download_data] returns is the table of the dictionary: the
    last step, which drops empty columns, finds none. *)
Lemma download_data_table (tickers : list string) :
  fst (download_data provider tickers)
  = DataFrame_of_dict (fst (fold_left (download_step provider) tickers ([], []))).
Proof.
  unfold download_data. cbv zeta.
  pose proof (download_loop_data tickers) as Hdata.
  pose proof (download_loop_nodup tickers ([], []) (NoDup_nil _)) as Hnd.
  set (all_data := fst (fold_left (download_step provider) tickers ([], []))) in *.
  destruct all_data as [|kv0 rest] eqn:Ha; [reflexivity|]. cbn [is_empty fst].
  rewrite <- Ha in *. clear Ha kv0 rest.
  apply dropna_columns_all_id.
  - intros j Hj. unfold DataFrame_of_dict in *. cbn [columns rows] in *.
    rewrite length_map in Hj.
    destruct (nth j all_data ("", [])) as [t mo] eqn:Hn.
    assert (Hin : In (t, mo) all_data) by (rewrite <- Hn; now apply nth_In).
    pose proof (proj1 (Hdata t mo) Hin) as [_ Hk].
    apply kept_inv in Hk as (f & close & _ & _ & _ & _ & _ & Hlen).
    destruct mo as [|x0 mo]; [simpl in Hlen; lia|].
    apply existsb_exists. exists (fst x0, map (fun kv : string * NumSeries => series_at (snd kv) (fst x0)) all_data).
    split.
    + apply in_map_iff. exists (fst x0). split; [reflexivity|].
      apply union_index_in. exists (x0 :: mo). split; [|now left].
      apply in_map_iff. exists (t, x0 :: mo). split; [reflexivity|exact Hin].
    + cbn [snd].
      rewrite (nth_indep _ None (series_at (snd ("", [])) (fst x0)))
        by (now rewrite length_map).
      rewrite (map_nth (fun kv : string * NumSeries => series_at (snd kv) (fst x0))), Hn.
      cbn [snd]. pose proof (series_at_in (x0 :: mo) x0 (or_introl eq_refl)) as Hs.
      now destruct (series_at (x0 :: mo) (fst x0)).
  - intros r Hr. unfold DataFrame_of_dict in *. cbn [columns rows] in *.
    apply in_map_iff in Hr as (d & <- & _). cbn [snd]. now rewrite !length_map.
Qed.

Lemma download_data_column_iff (tickers : list string) (t : string) :
  In t (columns (fst (download_data provider tickers)))
  <-> In t tickers /\ kept provider t <> None.
Proof.
  rewrite download_data_table. unfold DataFrame_of_dict. cbn [columns].
  rewrite dict_find_keys, download_loop_find. cbn [fst dict_find find option_map].
  destruct (mem t tickers) eqn:Hm.
  - apply mem_in in Hm. destruct (kept provider t); split; try tauto; try discriminate.
  - split; [congruence|]. intros [Hin _]. apply mem_in in Hin. congruence.
Qed.

(** The columns of the price table are the tickers asked for that gave a
    monthly series (at least 50 closes over more than 10 months), each
    once, in the order in which they were asked for. *)
Theorem download_data_columns (tickers : list string) :
  NoDup (columns (fst (download_data provider tickers))) /\
  (forall t, In t (columns (fst (download_data provider tickers)))
             <-> In t tickers /\ kept provider t <> None) /\
  (NoDup tickers ->
   columns (fst (download_data provider tickers))
   = filter (fun t => is_some (kept provider t)) tickers).
Proof.
  split; [|split; [apply download_data_column_iff|]].
  - rewrite download_data_table. unfold DataFrame_of_dict. cbn [columns].
    apply download_loop_nodup; constructor.
  - intros Hnd. rewrite download_data_table. unfold DataFrame_of_dict. cbn [columns].
    rewrite download_loop_keys; [reflexivity|exact Hnd|intros t _ []].
Qed.

(** The price table has one row per calendar month, each labelled with
    the end of its month, in calendar order, with one cell per column; and
    so has the table of monthly returns computed from it. *)
Theorem download_data_index (tickers : list string) :
  StronglySorted month_before (index (fst (download_data provider tickers))) /\
  (forall d, In d (index (fst (download_data provider tickers))) -> is_month_end d) /\
  (forall r, In r (rows (fst (download_data provider tickers))) ->
     length (snd r) = length (columns (fst (download_data provider tickers)))) /\
  distinct_months (index (fst (download_data provider tickers))) = true /\
  distinct_months (index (compute_monthly_returns (fst (download_data provider tickers))))
  = true.
Proof.
  rewrite download_data_table.
  set (all_data := fst (fold_left (download_step provider) tickers ([], []))).
  assert (Hme : forall d, In d (index (DataFrame_of_dict all_data)) -> is_month_end d).
  { intros d Hd. rewrite DataFrame_of_dict_index in Hd.
    apply union_index_in in Hd as (s & Hs & Hd).
    apply in_map_iff in Hs as ([t mo] & <- & Hin). cbn [snd] in Hd.
    apply download_loop_data in Hin as [_ Hk].
    apply kept_inv in Hk as (f & close & _ & _ & _ & _ & -> & _).
    apply in_map_iff in Hd as (x & <- & Hx). now apply resample_last_month_end in Hx. }
  assert (Hs : StronglySorted month_before (index (DataFrame_of_dict all_data))).
  { apply month_ends_sorted; [exact Hme|].
    rewrite DataFrame_of_dict_index. apply union_index_sorted. }
  assert (Hd : distinct_months (index (DataFrame_of_dict all_data)) = true)
    by now apply month_before_distinct.
  split; [exact Hs|]. split; [exact Hme|]. split; [|split; [exact Hd|]].
  - intros r Hr. unfold DataFrame_of_dict in *. cbn [columns rows] in *.
    apply in_map_iff in Hr as (d & <- & _). cbn [snd]. now rewrite !length_map.
  - now apply compute_monthly_returns_distinct.
Qed.

(** The cell of a ticker that is kept, read off the monthly series. *)
Lemma download_data_cell_series (tickers : list string) (t : string) (f : RawFrame)
    (close : NumSeries) (y m : Z) :
  In t tickers ->
  provider t = inr (Some f) -> raw_empty f = false ->
  _extract_close_series (Some f) t = Some close ->
  (50 <= length close)%nat -> (10 < length (resample_last close))%nat ->
  cell (fst (download_data provider tickers)) (month_end y m) t
  = series_at (resample_last close) (month_end y m).
Proof.
  intros Ht Hp He Hx H50 H10.
  assert (Hk : kept provider t = Some (resample_last close)).
  { unfold kept, download_one, resample. rewrite Hp, He, Hx.
    destruct (Nat.ltb_spec (length close) 50); [lia|].
    destruct (Nat.ltb_spec 10 (length (resample_last close))); [reflexivity|lia]. }
  rewrite download_data_table.
  pose proof (download_loop_nodup tickers ([], []) (NoDup_nil _)) as Hnd.
  assert (Hin : In (t, resample_last close)
                  (fst (fold_left (download_step provider) tickers ([], []))))
    by (apply download_loop_data; auto).
  set (all_data := fst (fold_left (download_step provider) tickers ([], []))) in *.
  destruct (index_of_nth all_data t (resample_last close) ("", []) Hnd Hin)
    as (j & Hj & Hn & Hlt).
  unfold cell, DataFrame_of_dict. cbn [columns rows]. rewrite Hj.
  rewrite (find_row (month_end y m)
             (fun d => map (fun kv : string * NumSeries => series_at (snd kv) d) all_data)).
  destruct (existsb (date_eqb (month_end y m)) (union_index (map snd all_data))) eqn:E.
  - cbn [snd].
    rewrite (nth_indep _ None (series_at (snd ("", [])) (month_end y m)))
      by (now rewrite length_map).
    rewrite (map_nth (fun kv : string * NumSeries => series_at (snd kv) (month_end y m))), Hn.
    reflexivity.
  - symmetry. apply series_at_not_in. intros Hd.
    assert (Hu : In (month_end y m) (union_index (map snd all_data))).
    { apply union_index_in. exists (resample_last close). split; [|exact Hd].
      apply in_map_iff. exists (t, resample_last close). auto. }
    assert (E' : existsb (date_eqb (month_end y m)) (union_index (map snd all_data)) = true).
    { apply existsb_exists. exists (month_end y m). split; [exact Hu|apply date_eqb_refl]. }
    congruence.
Qed.

(** Each cell of the price table is the close of the instrument dated
    latest in the month of the row.  For an instrument that is kept, the
    cell at the end of a month holds the number of its closing-price column
    dated latest in that month, whatever the order in which the provider
    gives the dates (of several on that day, the last given): no close of
    the month given before it is dated after it, and every one given after
    it is dated before it.  The cell is empty exactly when the column has
    no number dated in the month.  When the provider gives the dates in
    time order, the cell holds the last close of the month as given. *)
Theorem download_data_cell (tickers : list string) (t : string) (f : RawFrame)
    (close : NumSeries) (y m : Z) :
  In t tickers ->
  provider t = inr (Some f) -> raw_empty f = false ->
  _extract_close_series (Some f) t = Some close ->
  (50 <= length close)%nat -> (10 < length (resample_last close))%nat ->
  let c := cell (fst (download_data provider tickers)) (month_end y m) t in
  c = option_map snd (latest_in_month y m close) /\
  (forall v, c = Some v <-> exists e, is_latest_in_month y m close e v) /\
  (c = None <-> forall x, In x close -> ~ (year (fst x) = y /\ month (fst x) = m)) /\
  (date_ordered close -> c = last_in_month y m close).
Proof.
  intros Ht Hp He Hx H50 H10. cbv zeta.
  rewrite (download_data_cell_series tickers t f close y m Ht Hp He Hx H50 H10).
  rewrite series_at_resample_last.
  split; [reflexivity|]. split; [|split].
  - intros v. split.
    + intros Hv. destruct (latest_in_month y m close) as [[e w]|] eqn:Hl; [|discriminate].
      simpl in Hv. injection Hv as ->. exists e. now apply latest_in_month_some.
    + intros [e Hi]. destruct (latest_in_month y m close) as [[b w]|] eqn:Hl.
      * pose proof (is_latest_in_month_unique y m close b e w v Hl Hi) as E.
        injection E as _ ->. reflexivity.
      * exfalso. destruct Hi as (Hy & Hm & l1 & l2 & -> & _).
        apply (proj1 (latest_in_month_none y m _)) with (x := (e, v)) in Hl.
        -- assert (same_month y m e = true) by (apply same_month_spec; auto).
           cbn [fst] in Hl. congruence.
        -- apply in_or_app. right. now left.
  - split.
    + intros Hn x Hin Hym.
      assert (Hl : latest_in_month y m close = None)
        by (destruct (latest_in_month y m close); [discriminate|reflexivity]).
      apply (proj1 (latest_in_month_none y m close)) with (x := x) in Hl; [|exact Hin].
      apply same_month_spec in Hym. congruence.
    + intros Hn.
      assert (Hl : latest_in_month y m close = None).
      { apply latest_in_month_none. intros x Hin.
        destruct (same_month y m (fst x)) eqn:E; [|reflexivity].
        apply same_month_spec in E. exfalso. exact (Hn x Hin E). }
      now rewrite Hl.
  - intros Ho. rewrite <- last_in_month_sort_index. now rewrite (sort_index_ordered close Ho).
Qed.

End DownloadProperties.

Lemma download_data_cell_witness :
  cell (fst (download_data backwards_provider ["AAL"])) (month_end 2020 3) "AAL"
  = option_map snd (latest_in_month 2020 3 (backwards_days 2020 range_1_13))
  /\ option_map snd (latest_in_month 2020 3 (backwards_days 2020 range_1_13)) = Some 10%Q
  /\ last_in_month 2020 3 (backwards_days 2020 range_1_13) = Some 1%Q.
Proof.
  split; [|split; reflexivity].
  refine (proj1 (download_data_cell backwards_provider ["AAL"] "AAL"
                   (mkRawFrame (map fst (backwards_days 2020 range_1_13)) (Flat ["Close"])
                      [map (fun x : date * Q => Num (snd x))
                         (backwards_days 2020 range_1_13)])
                   (backwards_days 2020 range_1_13) 2020 3 _ _ _ _ _ _)).
  - left; reflexivity.
  - reflexivity.
  - reflexivity.
  - vm_compute. reflexivity.
  - apply Nat.leb_le. vm_compute. reflexivity.
  - apply Nat.ltb_lt. vm_compute. reflexivity.
Defined.

Lemma download_data_columns_witness :
  columns (fst (download_data toy_provider ["AAL"; "DAL"; "ERR"])) = ["AAL"].
Proof.
  etransitivity.
  - apply (proj2 (proj2 (download_data_columns toy_provider ["AAL"; "DAL"; "ERR"]))).
    repeat constructor; simpl; intuition discriminate.
  - vm_compute. reflexivity.
Defined.

Lemma download_data_index_witness : is_month_end (mkdate 2020 1 31).
Proof.
  apply (proj1 (proj2 (download_data_index toy_provider ["AAL"; "DAL"; "ERR"]))).
  vm_compute. left. reflexivity.
Defined.

Section DownloadFailures.

Variable provider : string -> M (option RawFrame).

Lemma download_step_failed (st : list (string * NumSeries) * list (string * option exn))
    (t : string) :
  snd (download_step provider st t)
  = snd st ++ snd (download_step provider ([], []) t).
Proof.
  unfold download_step. cbv zeta. cbn [fst snd app].
  destruct (provider t) as [e|[f|]]; [reflexivity| |reflexivity].
  destruct (raw_empty f); [reflexivity|].
  destruct (_extract_close_series (Some f) t) as [close|]; [|reflexivity].
  destruct (length close <? 50)%nat; [reflexivity|].
  destruct (10 <? length (resample_last close))%nat; cbn [snd]; now rewrite app_nil_r.
Qed.

Lemma download_loop_failed (tickers : list string)
    (st : list (string * NumSeries) * list (string * option exn)) (x : string * option exn) :
  In x (snd (fold_left (download_step provider) tickers st))
  <-> In x (snd st) \/
      exists t, In t tickers /\ In x (snd (download_step provider ([], []) t)).
Proof.
  revert st. induction tickers as [|t tickers IH]; intros st; cbn [fold_left].
  - split; [now left|intros [H|(t & [] & _)]; exact H].
  - rewrite IH, download_step_failed, in_app_iff. split.
    + intros [[H|H]|(u & Hu & H)]; [now left|right; exists t; split; [now left|exact H]|].
      right. exists u. split; [now right|exact H].
    + intros [H|(u & [<-|Hu] & H)]; [now left; left|now left; right|].
      right. now exists u.
Qed.

Lemma download_step_raised (t u : string) (e : exn) :
  In (u, Some e) (snd (download_step provider ([], []) t)) <-> u = t /\ provider t = inl e.
Proof.
  unfold download_step. cbv zeta. cbn [fst snd app].
  destruct (provider t) as [e'|[f|]].
  - simpl. split.
    + intros [E|[]]. injection E as -> ->. auto.
    + intros [-> E]. injection E as ->. now left.
  - destruct (raw_empty f); [simpl; split; [intros [E|[]]; discriminate|intros [_ E]; discriminate]|].
    destruct (_extract_close_series (Some f) t) as [close|];
      [|simpl; split; [intros [E|[]]; discriminate|intros [_ E]; discriminate]].
    destruct (length close <? 50)%nat;
      [simpl; split; [intros [E|[]]; discriminate|intros [_ E]; discriminate]|].
    destruct (10 <? length (resample_last close))%nat; simpl;
      (split; [intros []|intros [_ E]; discriminate]).
  - simpl. split; [intros [E|[]]; discriminate|intros [_ E]; discriminate].
Qed.

Lemma download_step_no_data (t u : string) :
  In (u, None) (snd (download_step provider ([], []) t)) <-> u = t /\ no_data provider t.
Proof.
  unfold download_step, no_data. cbv zeta. cbn [fst snd app].
  destruct (provider t) as [e|[f|]].
  - simpl. split; [intros [E|[]]; discriminate|].
    intros [_ [E|(f & E & _)]]; discriminate.
  - destruct (raw_empty f) eqn:He.
    { simpl. split.
      - intros [E|[]]. injection E as ->. split; [reflexivity|]. right. exists f. auto.
      - intros [-> _]. now left. }
    destruct (_extract_close_series (Some f) t) as [close|] eqn:Hx.
    2:{ simpl. split.
        - intros [E|[]]. injection E as ->. split; [reflexivity|]. right. exists f. auto.
        - intros [-> _]. now left. }
    destruct (Nat.ltb_spec (length close) 50) as [Hlt|Hge].
    { simpl. split.
      - intros [E|[]]. injection E as ->. split; [reflexivity|]. right. exists f.
        split; [reflexivity|]. right. right. exists close. auto.
      - intros [-> _]. now left. }
    assert (Hno : ~ (inr (Some f) = inr (A := exn) None \/
                     exists f0, inr (A := exn) (Some f) = inr (Some f0) /\
                       (raw_empty f0 = true \/
                        _extract_close_series (Some f0) t = None \/
                        exists close0, _extract_close_series (Some f0) t = Some close0 /\
                                       (length close0 < 50)%nat))).
    { intros [E|(f0 & E & [H|[H|(c & H & Hl)]])]; [discriminate| | |];
        injection E as <-; try congruence.
      rewrite Hx in H. injection H as <-. lia. }
    destruct (10 <? length (resample_last close))%nat; simpl;
      (split; [intros []|intros [_ H]; contradiction]).
  - simpl. split.
    + intros [E|[]]. injection E as ->. split; [reflexivity|now left].
    + intros [-> _]. now left.
Qed.

Lemma kept_none_cases (t : string) :
  kept provider t = None ->
  (exists e, provider t = inl e) \/ no_data provider t \/ too_few_months provider t.
Proof.
  unfold kept, download_one, resample, no_data, too_few_months.
  destruct (provider t) as [e|[f|]]; [intros _; left; now exists e| |intros _; right; left; now left].
  destruct (raw_empty f) eqn:He; [intros _; right; left; right; exists f; auto|].
  destruct (_extract_close_series (Some f) t) as [close|] eqn:Hx;
    [|intros _; right; left; right; exists f; auto].
  destruct (Nat.ltb_spec (length close) 50) as [Hlt|Hge].
  { intros _. right. left. right. exists f. split; [reflexivity|].
    right. right. exists close. auto. }
  destruct (Nat.ltb_spec 10 (length (resample_last close))) as [H10|H10]; [discriminate|].
  intros _. right. right. exists f, close. auto.
Qed.

(** The list [failed] of the sidebar warning names the tickers whose
    download raised, with the fault, and the tickers without a usable
    series (no table, an empty one, no closing prices or fewer than 50 of
    them).  A ticker with at least 50 closes over at most 10 months is left
    out of the table without being named in [failed]; these are the only
    tickers that are neither a column nor named. *)
Theorem download_data_failed (tickers : list string) :
  (forall t e, In (t, Some e) (snd (download_data provider tickers))
               <-> In t tickers /\ provider t = inl e) /\
  (forall t, In (t, None) (snd (download_data provider tickers))
             <-> In t tickers /\ no_data provider t) /\
  (forall t, In t (columns (fst (download_data provider tickers))) ->
             ~ In t (map fst (snd (download_data provider tickers)))) /\
  (forall t, In t tickers -> too_few_months provider t ->
             ~ In t (columns (fst (download_data provider tickers))) /\
             ~ In t (map fst (snd (download_data provider tickers)))) /\
  (forall t, In t tickers ->
             ~ In t (columns (fst (download_data provider tickers))) ->
             ~ In t (map fst (snd (download_data provider tickers))) ->
             too_few_months provider t).
Proof.
  assert (Hsnd : snd (download_data provider tickers)
                 = snd (fold_left (download_step provider) tickers ([], []))).
  { unfold download_data. cbv zeta. now destruct (is_empty _). }
  assert (Hr : forall t e, In (t, Some e) (snd (download_data provider tickers))
                           <-> In t tickers /\ provider t = inl e).
  { intros t e. rewrite Hsnd, download_loop_failed. cbn [snd]. split.
    - intros [[]|(u & Hu & H)]. apply download_step_raised in H as [-> H]. auto.
    - intros [Ht H]. right. exists t. split; [exact Ht|]. now apply download_step_raised. }
  assert (Hn : forall t, In (t, None) (snd (download_data provider tickers))
                         <-> In t tickers /\ no_data provider t).
  { intros t. rewrite Hsnd, download_loop_failed. cbn [snd]. split.
    - intros [[]|(u & Hu & H)]. apply download_step_no_data in H as [-> H]. auto.
    - intros [Ht H]. right. exists t. split; [exact Ht|]. now apply download_step_no_data. }
  assert (Hnamed : forall t, In t (map fst (snd (download_data provider tickers))) ->
                     (exists e, provider t = inl e) \/ no_data provider t).
  { intros t Hin. apply in_map_iff in Hin as ([u [e|]] & <- & Hin); cbn [fst].
    - apply Hr in Hin as [_ H]. left. now exists e.
    - apply Hn in Hin as [_ H]. now right. }
  assert (Hkept_named : forall t, kept provider t <> None ->
                          ~ In t (map fst (snd (download_data provider tickers)))).
  { intros t Hk Hin. apply Hk. apply Hnamed in Hin. unfold kept, download_one, resample.
    destruct Hin as [[e He]|[He|(f & He & [H|[H|(c & H & Hl)]])]]; rewrite He; try reflexivity.
    - now rewrite H.
    - rewrite H. now destruct (raw_empty f).
    - rewrite H. destruct (raw_empty f); [reflexivity|].
      destruct (Nat.ltb_spec (length c) 50); [reflexivity|lia]. }
  assert (Hfew : forall t, too_few_months provider t -> kept provider t = None).
  { intros t (f & close & Hp & He & Hx & H50 & H10). unfold kept, download_one, resample.
    rewrite Hp, He, Hx. destruct (Nat.ltb_spec (length close) 50); [reflexivity|].
    destruct (Nat.ltb_spec 10 (length (resample_last close))); [lia|reflexivity]. }
  pose proof (download_data_column_iff provider tickers) as Hcol.
  split; [exact Hr|]. split; [exact Hn|]. split; [|split].
  - intros t Ht. apply Hkept_named. now apply Hcol.
  - intros t Ht Hf. pose proof (Hfew t Hf) as Hk. split.
    + intros Hc. apply Hcol in Hc as [_ Hc]. contradiction.
    + intros Hin. apply Hnamed in Hin.
      destruct Hf as (f & close & Hp & He & Hx & H50 & H10).
      destruct Hin as [[e E]|[E|(f0 & E & [H|[H|(c & H & Hl)]])]]; rewrite Hp in E;
        try discriminate; injection E as <-; try congruence.
      rewrite Hx in H. injection H as <-. lia.
  - intros t Ht Hc Hf.
    destruct (kept provider t) as [mo|] eqn:Hk.
    + exfalso. apply Hc. apply Hcol. split; [exact Ht|congruence].
    + destruct (kept_none_cases t Hk) as [[e He]|[Hd|Hfw]]; [| |exact Hfw].
      * exfalso. apply Hf. apply in_map_iff. exists (t, Some e). split; [reflexivity|].
        apply Hr. auto.
      * exfalso. apply Hf. apply in_map_iff. exists (t, None). split; [reflexivity|].
        apply Hn. auto.
Qed.

End DownloadFailures.

Lemma download_data_failed_witness :
  ~ In "DAL" (columns (fst (download_data toy_provider ["AAL"; "DAL"; "ERR"]))) /\
  ~ In "DAL" (map fst (snd (download_data toy_provider ["AAL"; "DAL"; "ERR"]))).
Proof.
  apply (proj1 (proj2 (proj2 (proj2 (download_data_failed toy_provider
                                       ["AAL"; "DAL"; "ERR"])))) "DAL").
  - right. left. reflexivity.
  - exists (mkRawFrame (map fst (year_of_days 2020 [1; 2; 3; 4; 5; 6])) (Flat ["Close"])
              [map (fun x : date * Q => Num (snd x)) (year_of_days 2020 [1; 2; 3; 4; 5; 6])]),
           (year_of_days 2020 [1; 2; 3; 4; 5; 6]).
    split; [reflexivity|]. split; [reflexivity|]. split; [vm_compute; reflexivity|].
    split; [apply Nat.leb_le|apply Nat.leb_le]; vm_compute; reflexivity.
Defined.

(* ------------------------------------------------------------------ *)
(** ** get_monthly_stats: keys and bounds *)

Lemma concatM_map_concat {A B : Type} (f : A -> M (list B)) (l : list A) (out : list B) :
  concatM (map f l) = inr out ->
  out = concat (map (fun a => match f a with inr xs => xs | inl _ => [] end) l).
Proof.
  revert out. induction l as [|a l IH]; simpl; intros out H.
  - now injection H as <-.
  - unfold bind in H. destruct (f a) as [e|xs]; [discriminate|].
    destruct (concatM (map f l)) as [e|ys]; [discriminate|].
    injection H as <-. now rewrite (IH ys eq_refl).
Qed.

Lemma month_stats_key (fsqrt : Q -> Q) (t : string) (col : NumSeries) (m : Z) :
  In m range_1_13 ->
  map stats_key (match month_stats fsqrt t col m with inr xs => xs | inl _ => [] end)
  = if is_empty (in_month m col) then [] else [(t, m)].
Proof.
  intros Hm. destruct (month_stats_ok fsqrt t col m Hm) as [out Ho]. rewrite Ho.
  pose proof (month_stats_inv _ _ _ _ _ Ho) as Hi. cbv zeta in Hi.
  destruct Hi as [[He ->]|(Hne & name & _ & ->)].
  - destruct (in_month m col); [reflexivity|discriminate].
  - destruct (in_month m col); [contradiction|reflexivity].
Qed.

Lemma concat_map_filter_one {A B : Type} (g : A -> B) (p : A -> bool) (l : list A) :
  concat (map (fun a => if p a then [] else [g a]) l) = map g (filter (fun a => negb (p a)) l).
Proof.
  induction l as [|a l IH]; simpl; [reflexivity|].
  destruct (p a); simpl; now rewrite IH.
Qed.

Lemma filter_flat_map {A B : Type} (p : B -> bool) (f : A -> list B) (l : list A) :
  filter p (flat_map f l) = flat_map (fun a => filter p (f a)) l.
Proof.
  induction l as [|a l IH]; simpl; [reflexivity|]. now rewrite filter_app, IH.
Qed.

Lemma list_prod_flat_map {A B : Type} (l1 : list A) (l2 : list B) :
  list_prod l1 l2 = flat_map (fun a => map (pair a) l2) l1.
Proof. induction l1 as [|a l1 IH]; simpl; [reflexivity|]. now rewrite IH. Qed.

Lemma nodup_list_prod {A B : Type} (l1 : list A) (l2 : list B) :
  NoDup l1 -> NoDup l2 -> NoDup (list_prod l1 l2).
Proof.
  intros H1 H2. induction H1 as [|a l1 Ha H1 IH]; simpl; [constructor|].
  apply NoDup_app; [| exact IH |].
  - apply Finite.Injective_map_NoDup; [|exact H2]. intros x y E. now injection E.
  - intros [x y] Hx Hin. apply in_map_iff in Hx as (z & E & _). injection E as <- <-.
    apply in_prod_iff in Hin as [Hin _]. contradiction.
Qed.

(** The records of [get_monthly_stats] stand in the order of the columns
    and, for a column, of the months: their (instrument, month) pairs are
    the pairs of a column and a month from 1 to 12 in which the instrument
    has a return.  So there are at most twelve records for a column, none
    for a table without rows, and with distinct labels no pair comes
    twice. *)
Theorem get_monthly_stats_keys (fsqrt : Q -> Q) (returns : DataFrame) :
  exists stats, get_monthly_stats fsqrt returns = inr stats /\
    map stats_key stats
    = filter (fun tm : string * Z => has_returns returns (fst tm) (snd tm))
        (list_prod (columns returns) range_1_13) /\
    (length stats <= 12 * length (columns returns))%nat /\
    (rows returns = [] -> stats = []) /\
    (NoDup (columns returns) -> NoDup (map stats_key stats)).
Proof.
  destruct (get_monthly_stats_ok fsqrt returns) as [stats Hstats]. exists stats.
  split; [exact Hstats|].
  assert (Hkeys : map stats_key stats
                  = filter (fun tm : string * Z => has_returns returns (fst tm) (snd tm))
                      (list_prod (columns returns) range_1_13)).
  { unfold get_monthly_stats in Hstats. rewrite (concatM_map_concat _ _ _ Hstats).
    rewrite concat_map, map_map, list_prod_flat_map, filter_flat_map, flat_map_concat_map.
    f_equal. apply map_ext_in. intros t Ht.
    destruct (getitemM_in returns t Ht) as (s & Hg & Hs). rewrite Hs. cbn [bind].
    destruct (concatM_map_ok (month_stats fsqrt t (dropna s)) range_1_13) as [out Ho].
    { intros m Hm. now apply month_stats_ok. }
    rewrite Ho, (concatM_map_concat _ _ _ Ho), concat_map, map_map.
    rewrite (map_ext_in _ (fun m => if is_empty (in_month m (dropna s)) then [] else [(t, m)]))
      by (intros m Hm; now apply month_stats_key).
    rewrite (concat_map_filter_one (pair t) (fun m => is_empty (in_month m (dropna s)))).
    rewrite <- (map_id (filter _ (map (pair t) range_1_13))).
    clear - Hg. unfold has_returns. induction range_1_13 as [|m l IH]; [reflexivity|].
    cbn [filter map fst snd]. rewrite Hg.
    destruct (negb (is_empty (in_month m (dropna s)))); cbn [map]; now rewrite IH. }
  split; [exact Hkeys|]. split; [|split].
  - rewrite <- (length_map stats_key), Hkeys.
    etransitivity; [apply filter_length_le|]. rewrite length_prod. simpl length. lia.
  - intros Hr. assert (E : map stats_key stats = []).
    { rewrite Hkeys.
      assert (F : forall tm : string * Z, has_returns returns (fst tm) (snd tm) = false).
      { intros [t m]. unfold has_returns, getitem. cbn [fst snd]. rewrite Hr.
        now destruct (index_of t (columns returns)). }
      generalize (list_prod (columns returns) range_1_13).
      induction l as [|x l IH]; [reflexivity|].
      cbn [filter]. cbv beta. rewrite (F x). exact IH. }
    now destruct stats.
  - intros Hnd. rewrite Hkeys. apply NoDup_filter. apply nodup_list_prod; [exact Hnd|].
    vm_compute. repeat constructor; simpl; intuition discriminate.
Qed.

Lemma get_monthly_stats_keys_witness :
  exists stats,
    get_monthly_stats (fun x => x) third_returns = inr stats /\
    NoDup (map stats_key stats).
Proof.
  destruct (get_monthly_stats_keys (fun x => x) third_returns)
    as (stats & H & _ & _ & _ & Hnd).
  exists stats. split; [exact H|]. apply Hnd.
  repeat constructor; simpl; intuition discriminate.
Defined.

(** Rounding keeps the order of the values. *)
Lemma rint_comp (x y : Q) : (x == y)%Q -> rint x = rint y.
Proof.
  intros H. unfold rint. rewrite (Qfloor_comp x y H).
  assert (E : (x - inject_Z (Qfloor y) ?= 1 # 2)%Q = (y - inject_Z (Qfloor y) ?= 1 # 2)%Q).
  { apply Qcompare_comp; [|reflexivity]. rewrite H. reflexivity. }
  now rewrite E.
Qed.

Lemma rint_mono (x y : Q) : (x <= y)%Q -> (rint x <= rint y)%Z.
Proof.
  intros H. apply Qle_lteq in H as [H|H]; [|rewrite (rint_comp _ _ H); lia].
  destruct (rint_close x) as [Hx _]. destruct (rint_close y) as [_ Hy].
  assert (Hlt : (inject_Z (rint x) < inject_Z (rint y + 1))%Q).
  { rewrite inject_Z_plus. change (inject_Z 1) with 1%Q. lra. }
  rewrite <- Zlt_Qlt in Hlt. lia.
Qed.

Lemma pow10_pos (n : nat) : (0 < inject_Z (10 ^ Z.of_nat n))%Q.
Proof.
  change 0%Q with (inject_Z 0). rewrite <- Zlt_Qlt. apply Z.pow_pos_nonneg; lia.
Qed.

Lemma round_nd_comp (x y : Q) (n : nat) : (x == y)%Q -> round_nd x n = round_nd y n.
Proof.
  intros H. unfold round_nd. f_equal. f_equal. f_equal. apply rint_comp. now rewrite H.
Qed.

Lemma round_nd_mono (x y : Q) (n : nat) :
  (x <= y)%Q -> (round_nd x n <= round_nd y n)%Q.
Proof.
  intros H. unfold round_nd. rewrite !Qred_correct.
  pose proof (pow10_pos n) as Hk. set (k := inject_Z (10 ^ Z.of_nat n)) in *.
  unfold Qdiv. apply Qmult_le_compat_r.
  - rewrite <- Zle_Qle. apply rint_mono. apply Qmult_le_compat_r; [exact H|lra].
  - apply Qinv_le_0_compat. lra.
Qed.

Lemma qmax_ge (a b : Q) : (a <= qmax a b /\ b <= qmax a b)%Q.
Proof.
  unfold qmax. destruct (Qle_bool a b) eqn:E.
  - apply Qle_bool_iff in E. split; lra.
  - assert (~ (a <= b)%Q) by (intro F; apply Qle_bool_iff in F; congruence). split; lra.
Qed.

Lemma qmin_le (a b : Q) : (qmin a b <= a /\ qmin a b <= b)%Q.
Proof.
  unfold qmin. destruct (Qle_bool a b) eqn:E.
  - apply Qle_bool_iff in E. split; lra.
  - assert (~ (a <= b)%Q) by (intro F; apply Qle_bool_iff in F; congruence). split; lra.
Qed.

Lemma fold_qmax_ge (l : list Q) :
  forall acc, (acc <= fold_left qmax l acc)%Q /\
              forall y, In y l -> (y <= fold_left qmax l acc)%Q.
Proof.
  induction l as [|a l IH]; intros acc; simpl.
  - split; [lra|intros y []].
  - destruct (IH (qmax acc a)) as [H1 H2]. destruct (qmax_ge acc a) as [Ha Hb].
    split; [lra|]. intros y [<-|Hy]; [lra|auto].
Qed.

Lemma fold_qmin_le (l : list Q) :
  forall acc, (fold_left qmin l acc <= acc)%Q /\
              forall y, In y l -> (fold_left qmin l acc <= y)%Q.
Proof.
  induction l as [|a l IH]; intros acc; simpl.
  - split; [lra|intros y []].
  - destruct (IH (qmin acc a)) as [H1 H2]. destruct (qmin_le acc a) as [Ha Hb].
    split; [lra|]. intros y [<-|Hy]; [lra|auto].
Qed.

(** The smallest and the largest of a list that is not empty. *)
Lemma series_min_max (l : list Q) :
  l <> [] ->
  exists lo hi, series_min l = Some lo /\ series_max l = Some hi /\
    forall x, In x l -> (lo <= x /\ x <= hi)%Q.
Proof.
  destruct l as [|a l]; [congruence|]. intros _.
  exists (fold_left qmin l a), (fold_left qmax l a). split; [reflexivity|].
  split; [reflexivity|].
  destruct (fold_qmin_le l a) as [H1 H2]. destruct (fold_qmax_ge l a) as [H3 H4].
  intros x [<-|Hx]; split; auto.
Qed.

Lemma Qsum_between (lo hi : Q) (l : list Q) :
  (forall x, In x l -> (lo <= x /\ x <= hi)%Q) ->
  (Qofnat (length l) * lo <= Qsum l /\ Qsum l <= Qofnat (length l) * hi)%Q.
Proof.
  induction l as [|a l IH]; intros H.
  - unfold Qofnat. simpl. change (inject_Z 0) with 0%Q. split; lra.
  - destruct (H a (or_introl eq_refl)) as [Ha1 Ha2].
    destruct IH as [I1 I2]; [intros x Hx; apply H; now right|].
    cbn [length Qsum fold_right]. fold (Qsum l).
    assert (E : (Qofnat (S (length l)) == Qofnat (length l) + 1)%Q).
    { unfold Qofnat. rewrite Nat2Z.inj_succ, <- Z.add_1_r, inject_Z_plus. reflexivity. }
    rewrite E. split; lra.
Qed.

Lemma mean_between (lo hi : Q) (l : list Q) :
  l <> [] -> (forall x, In x l -> (lo <= x /\ x <= hi)%Q) ->
  exists mu, mean l = Some mu /\ (lo <= mu /\ mu <= hi)%Q.
Proof.
  intros Hne H. destruct (Qsum_between lo hi l H) as [H1 H2].
  assert (Hn : length l <> O) by (destruct l; [congruence|discriminate]).
  pose proof (Qofnat_pos _ Hn) as Hpos.
  exists (Qsum l / Qofnat (length l))%Q. split.
  - destruct l; [congruence|reflexivity].
  - split.
    + apply Qle_shift_div_l; [exact Hpos|]. lra.
    + apply Qle_shift_div_r; [exact Hpos|]. lra.
Qed.

Lemma insert_sorted_in (x y : Q) (l : list Q) :
  In y (insert_sorted x l) <-> y = x \/ In y l.
Proof.
  induction l as [|a l IH]; simpl; [intuition|].
  destruct (Qle_bool x a); simpl; rewrite ?IH; intuition.
Qed.

Lemma insert_sorted_length (x : Q) (l : list Q) :
  length (insert_sorted x l) = S (length l).
Proof.
  induction l as [|a l IH]; simpl; [reflexivity|].
  destruct (Qle_bool x a); simpl; now rewrite ?IH.
Qed.

Lemma sorted_values_in (y : Q) (l : list Q) : In y (sorted_values l) <-> In y l.
Proof.
  induction l as [|a l IH]; simpl; [tauto|].
  rewrite insert_sorted_in, IH. intuition.
Qed.

Lemma sorted_values_length (l : list Q) : length (sorted_values l) = length l.
Proof.
  induction l as [|a l IH]; simpl; [reflexivity|]. now rewrite insert_sorted_length, IH.
Qed.

Lemma median_between (lo hi : Q) (l : list Q) :
  l <> [] -> (forall x, In x l -> (lo <= x /\ x <= hi)%Q) ->
  exists md, median l = Some md /\ (lo <= md /\ md <= hi)%Q.
Proof.
  intros Hne H. unfold median. cbv zeta.
  assert (Hs : forall x, In x (sorted_values l) -> (lo <= x /\ x <= hi)%Q)
    by (intros x Hx; apply H; now apply sorted_values_in).
  assert (Hn : length (sorted_values l) <> O).
  { rewrite sorted_values_length. destruct l; [congruence|discriminate]. }
  set (s := sorted_values l) in *. set (n := length s) in *.
  destruct n as [|k] eqn:En; [congruence|]. rewrite <- En.
  assert (Hhalf : (n / 2 < n)%nat) by (apply Nat.div_lt; lia).
  destruct (Nat.odd n) eqn:Ho.
  - destruct (nth_error s (n / 2)) as [v|] eqn:Ev.
    + exists v. split; [reflexivity|]. apply Hs. eapply nth_error_In; eauto.
    + apply nth_error_None in Ev. fold n in Ev. lia.
  - eexists. split; [reflexivity|].
    assert (H1 : In (nth (n / 2 - 1) s 0%Q) s) by (apply nth_In; fold n; lia).
    assert (H2 : In (nth (n / 2) s 0%Q) s) by (apply nth_In; fold n; lia).
    apply Hs in H1, H2.
    set (a := nth (n / 2 - 1) s 0%Q) in *. set (b := nth (n / 2) s 0%Q) in *.
    split.
    + apply Qle_shift_div_l; lra.
    + apply Qle_shift_div_r; lra.
Qed.

Lemma series_std_none (fsqrt : Q -> Q) (l : list Q) :
  l <> [] -> (series_std fsqrt l = None <-> length l = 1%nat).
Proof.
  intros Hne. unfold series_std.
  destruct l as [|a [|b l]]; [congruence| |]; cbn [mean length Nat.leb]; split;
    intros H; try reflexivity; try discriminate.
Qed.

(** The records of [get_monthly_stats] are consistent: the total counts at
    least one return; the win rate is a number from 0 to 100; the mean, the
    median, the smallest and the largest return are numbers, and after
    rounding the mean and the median still lie between the smallest and the
    largest; the deviation is NaN exactly for a month seen once, and then
    the four return statistics are that one return, rounded. *)
Theorem get_monthly_stats_bounds (fsqrt : Q -> Q) (returns : DataFrame)
    (stats : list Stats.Row) (r : Stats.Row) :
  get_monthly_stats fsqrt returns = inr stats -> In r stats ->
  (1 <= Stats.total_años r)%nat /\
  (exists p, Stats.pct_sube r = Some p /\ (0 <= p /\ p <= 100)%Q) /\
  (exists lo mu md hi,
     Stats.retorno_min r = Some lo /\ Stats.retorno_prom r = Some mu /\
     Stats.retorno_med r = Some md /\ Stats.retorno_max r = Some hi /\
     (lo <= mu /\ mu <= hi)%Q /\ (lo <= md /\ md <= hi)%Q) /\
  (Stats.std r = None <-> Stats.total_años r = 1%nat) /\
  (Stats.total_años r = 1%nat ->
   Stats.retorno_prom r = Stats.retorno_max r /\
   Stats.retorno_med r = Stats.retorno_max r /\
   Stats.retorno_min r = Stats.retorno_max r).
Proof.
  intros Hstats Hr.
  apply (get_monthly_stats_in _ _ _ r Hstats) in Hr
    as (t & s & m & out & Ht & Hg & Hm & Ho & Hr).
  apply month_stats_inv in Ho. cbv zeta in Ho.
  destruct Ho as [[_ ->]|(Hne & name & _ & ->)]; [destruct Hr|].
  destruct Hr as [<-|[]].
  set (vals := map snd (in_month m (dropna s))) in *.
  cbn [Stats.total_años Stats.pct_sube Stats.retorno_min Stats.retorno_prom
       Stats.retorno_med Stats.retorno_max Stats.std].
  clearbody vals.
  assert (Hn : length vals <> O) by (destruct vals; [congruence|discriminate]).
  destruct (series_min_max vals Hne) as (lo & hi & Hlo & Hhi & Hb).
  destruct (mean_between lo hi vals Hne Hb) as (mu & Hmu & Hmu1 & Hmu2).
  destruct (median_between lo hi vals Hne Hb) as (md & Hmd & Hmd1 & Hmd2).
  split; [lia|]. split; [|split; [|split]].
  - assert (Hle : (count_if ispos vals <= length vals)%nat)
      by (unfold count_if; apply filter_length_le).
    eexists. split; [reflexivity|]. apply round_nd_1_range; apply share_range; auto.
  - exists (round_nd lo 2), (round_nd mu 2), (round_nd md 2), (round_nd hi 2).
    rewrite Hlo, Hhi, Hmu, Hmd. cbn [round_opt option_map].
    repeat split; auto using round_nd_mono.
  - destruct (series_std_none fsqrt vals Hne) as [H1 H2]. split.
    + intros H. apply H1. destruct (series_std fsqrt vals); [discriminate|reflexivity].
    + intros H. now rewrite (H2 H).
  - intros H1. destruct vals as [|v [|w vals']]; [congruence| |discriminate].
    split; [|split; reflexivity].
    unfold mean, series_max, round_opt, option_map. cbn [fold_left length Qsum fold_right].
    apply (f_equal Some). apply round_nd_comp.
    change (inject_Z (Z.of_nat 1)) with 1%Q. field.
Qed.

Lemma get_monthly_stats_bounds_witness :
  exists lo mu md hi,
    map Stats.retorno_min third_stats = [Some lo; Some (-2)%Q] /\
    map Stats.retorno_prom third_stats = [Some mu; Some (-33 # 100)%Q] /\
    map Stats.retorno_med third_stats = [Some md; Some (-1)%Q] /\
    map Stats.retorno_max third_stats = [Some hi; Some 2%Q] /\
    (lo <= mu /\ mu <= hi)%Q /\ (lo <= md /\ md <= hi)%Q.
Proof.
  pose proof (get_monthly_stats_bounds (fun x => x) third_returns third_stats
                (nth 0 third_stats (Stats.mk "" 0 "" 0 0 0 None None None None None None))
                eq_refl (or_introl eq_refl))
    as (_ & _ & (lo & mu & md & hi & H1 & H2 & H3 & H4 & H5 & H6) & _).
  exists lo, mu, md, hi. vm_compute in H1, H2, H3, H4.
  injection H1 as <-. injection H2 as <-. injection H3 as <-. injection H4 as <-.
  repeat split; try reflexivity; try (apply H5); try (apply H6).
Defined.

(* ------------------------------------------------------------------ *)
(** ** find_correlations: faults, records, overlap *)

Lemma index_of_none (t : string) (cols : list string) :
  ~ In t cols -> index_of t cols = None.
Proof.
  induction cols as [|c cols IH]; simpl; intros H; [reflexivity|].
  destruct (String.eqb_spec t c) as [->|Hne]; [tauto|].
  rewrite IH; [reflexivity|tauto].
Qed.

Lemma find_correlations_rows (K : SortKind) (returns : DataFrame) (ref : string)
    (m mo : Z) (s : Series) (out : list Corr.Row) :
  getitem returns ref = Some s -> in_month m (dropna s) <> [] ->
  find_correlations K returns ref m mo = inr out ->
  exists rows,
    correlation_rows returns ref m (ref_down_years (in_month m (dropna s))) mo = inr rows /\
    Permutation out rows.
Proof.
  intros Hg Hne. rewrite (find_correlations_unfold K returns ref m mo s Hg).
  destruct (in_month m (dropna s)) as [|x l] eqn:Hd; [congruence|]. cbn [length Nat.eqb].
  unfold bind.
  destruct (correlation_rows returns ref m _ mo) as [e|rows]; [discriminate|].
  intros H. exists rows. split; [reflexivity|].
  destruct rows as [|r rows]; cbn [is_empty] in H; injection H as <-.
  - constructor.
  - apply sort_values_desc_perm.
Qed.

(** The rows of one candidate: at most the record of the same month and
    then the record of the month after. *)
Lemma period_rows_shape (t p : string) (tm : Z) (data : NumSeries) (years : list Z)
    (mo : Z) (out : list Corr.Row) :
  period_rows t p tm data years mo = inr out ->
  (Z.of_nat (length (common_years years data)) < mo /\ out = []) \/
  (mo <= Z.of_nat (length (common_years years data)) /\
   exists r, out = [r] /\ Corr.ticker r = t /\ Corr.periodo r = p /\
     dict_get MONTHS_ES tm = inr (Corr.mes r) /\
     Corr.n_años r = length (common_years years data)).
Proof.
  intros H. apply period_rows_inv in H. cbv zeta in H.
  destruct H as [[Hlt ->]|(Hle & name & Hn & ->)]; [left; auto|right].
  split; [exact Hle|]. eexists. split; [reflexivity|]. cbn. auto.
Qed.

Lemma candidate_rows_shape (col : NumSeries) (t : string) (m : Z) (downs : list Z) (mo : Z)
    (out : list Corr.Row) :
  candidate_rows col t m downs mo = inr out ->
  exists same next, out = same ++ next /\
    period_rows t "Mismo mes" m (in_month m col) downs mo = inr same /\
    period_rows t "Mes siguiente" (next_month m) (in_month (next_month m) col)
      (next_years m downs) mo = inr next.
Proof.
  unfold candidate_rows, bind.
  destruct (period_rows t "Mismo mes" m _ downs mo) as [e|same]; [discriminate|].
  destruct (period_rows t "Mes siguiente" _ _ _ mo) as [e|next]; [discriminate|].
  intros H. injection H as <-. exists same, next. auto.
Qed.

Lemma candidate_rows_keys (col : NumSeries) (t : string) (m : Z) (downs : list Z) (mo : Z)
    (out : list Corr.Row) :
  candidate_rows col t m downs mo = inr out ->
  (length out <= 2)%nat /\ NoDup (map corr_key out) /\
  (forall k, In k (map corr_key out) -> fst k = t) /\
  (mo <= 0 -> length out = 2%nat).
Proof.
  intros H. apply candidate_rows_shape in H as (same & next & -> & Hs & Hn).
  apply period_rows_shape in Hs, Hn.
  destruct Hs as [[Hs1 ->]|(Hs1 & r1 & -> & Ht1 & Hp1 & _)];
    destruct Hn as [[Hn1 ->]|(Hn1 & r2 & -> & Ht2 & Hp2 & _)];
    cbn [app map length]; unfold corr_key; rewrite ?Ht1, ?Hp1, ?Ht2, ?Hp2.
  - split; [lia|]. split; [constructor|]. split; [intros k []|lia].
  - split; [lia|]. split; [repeat constructor; simpl; tauto|]. split; [|lia].
    intros k [<-|[]]. reflexivity.
  - split; [lia|]. split; [repeat constructor; simpl; tauto|]. split; [|lia].
    intros k [<-|[]]. reflexivity.
  - split; [lia|]. split; [|split; [|reflexivity]].
    + constructor; [|repeat constructor; simpl; tauto].
      intros [E|[]]. discriminate.
    + intros k [<-|[<-|[]]]; reflexivity.
Qed.

Lemma nodup_flat_map_fst {A B : Type} (f : A -> list (A * B)) (l : list A) :
  NoDup l ->
  (forall a, In a l -> NoDup (f a) /\ forall k, In k (f a) -> fst k = a) ->
  NoDup (flat_map f l).
Proof.
  induction l as [|a l IH]; intros Hnd H; simpl; [constructor|].
  apply NoDup_cons_iff in Hnd as [Ha Hnd].
  destruct (H a (or_introl eq_refl)) as [Hfa Hka].
  apply NoDup_app; [exact Hfa| |].
  - apply IH; [exact Hnd|]. intros b Hb. apply H. now right.
  - intros k Hk Hin. apply in_flat_map in Hin as (b & Hb & Hkb).
    destruct (H b (or_intror Hb)) as [_ Hkb'].
    pose proof (Hka k Hk) as E1. pose proof (Hkb' k Hkb) as E2.
    apply Ha. congruence.
Qed.

(** The rows before the sort, candidate by candidate. *)
Lemma correlation_rows_concat (returns : DataFrame) (ref : string) (m : Z) (downs : list Z)
    (mo : Z) (rows : list Corr.Row) :
  correlation_rows returns ref m downs mo = inr rows ->
  exists g : string -> list Corr.Row,
    rows = flat_map g (columns returns) /\
    (forall t, In t (columns returns) ->
       (String.eqb t ref = true /\ g t = []) \/
       (String.eqb t ref = false /\ exists s,
          getitem returns t = Some s /\
          candidate_rows (dropna s) t m downs mo = inr (g t))).
Proof.
  intros H. unfold correlation_rows in H.
  pose proof (concatM_map_concat _ _ _ H) as E. rewrite <- flat_map_concat_map in E.
  eexists. split; [exact E|]. cbv beta. intros t Ht.
  destruct (concatM_map_each _ _ _ t H Ht) as [xs Hxs].
  destruct (String.eqb t ref) eqn:Et; [left; auto|right]. split; [reflexivity|].
  destruct (getitemM_in returns t Ht) as (s & Hg & Hs). rewrite Hs in *. cbn [bind] in *.
  exists s. split; [exact Hg|]. now rewrite Hxs.
Qed.

Lemma flat_map_length_le {A B : Type} (g : A -> list B) (p : A -> bool) (n : nat)
    (l : list A) :
  (forall a, In a l -> (p a = false /\ g a = []) \/ (p a = true /\ (length (g a) <= n)%nat)) ->
  (length (flat_map g l) <= n * length (filter p l))%nat.
Proof.
  induction l as [|a l IH]; intros H; simpl; [lia|].
  rewrite length_app.
  assert (IH' : (length (flat_map g l) <= n * length (filter p l))%nat)
    by (apply IH; intros b Hb; apply H; now right).
  destruct (H a (or_introl eq_refl)) as [[-> ->]|[-> Hl]]; simpl; lia.
Qed.

Lemma flat_map_length_eq {A B : Type} (g : A -> list B) (p : A -> bool) (n : nat)
    (l : list A) :
  (forall a, In a l -> (p a = false /\ g a = []) \/ (p a = true /\ length (g a) = n)) ->
  length (flat_map g l) = (n * length (filter p l))%nat.
Proof.
  induction l as [|a l IH]; intros H; simpl; [lia|].
  rewrite length_app.
  assert (IH' : length (flat_map g l) = (n * length (filter p l))%nat)
    by (apply IH; intros b Hb; apply H; now right).
  destruct (H a (or_introl eq_refl)) as [[-> ->]|[-> Hl]]; simpl; lia.
Qed.

Lemma common_years_length (years : list Z) (data : NumSeries) :
  (length (common_years years data) <= length years)%nat.
Proof. unfold common_years. apply filter_length_le. Qed.

Lemma next_years_length (m : Z) (downs : list Z) :
  length (next_years m downs) = length downs.
Proof. unfold next_years. destruct (m =? 12); [apply length_map|reflexivity]. Qed.

(** The faults of [find_correlations]: a reference that is not a column
    is a [KeyError], whatever the month and the overlap; with a reference
    that is a column and a month from 1 to 12 the function returns. *)
Theorem find_correlations_key_error (K : SortKind) (returns : DataFrame) (ref : string)
    (m mo : Z) :
  (~ In ref (columns returns) -> find_correlations K returns ref m mo = inl KeyError) /\
  (In ref (columns returns) -> In m range_1_13 ->
   exists out, find_correlations K returns ref m mo = inr out) /\
  (forall out, find_correlations K returns ref m mo = inr out -> In ref (columns returns)).
Proof.
  split; [|split].
  - intros H. unfold find_correlations, getitemM, getitem.
    now rewrite (index_of_none _ _ H).
  - intros Hin Hm. destruct (getitemM_in returns ref Hin) as (s & Hg & _).
    rewrite (find_correlations_unfold K returns ref m mo s Hg).
    destruct (length (in_month m (dropna s)) =? 0)%nat; [eexists; reflexivity|].
    destruct (correlation_rows_ok returns ref m (ref_down_years (in_month m (dropna s))) mo Hm)
      as [rows ->].
    cbn [bind]. destruct (is_empty rows); eexists; reflexivity.
  - intros out H. destruct (in_dec string_dec ref (columns returns)) as [Hin|Hn]; [exact Hin|].
    unfold find_correlations, getitemM, getitem in H.
    rewrite (index_of_none _ _ Hn) in H. discriminate.
Qed.

Lemma find_correlations_key_error_witness :
  find_correlations stable_kind tie_returns "ZZZ" 3 2 = inl KeyError.
Proof.
  apply (proj1 (find_correlations_key_error stable_kind tie_returns "ZZZ" 3 2)).
  simpl. intros [H|[H|[H|[]]]]; discriminate.
Defined.

(** What the records of [find_correlations] are about: a column other
    than the reference; the reference month under "Mismo mes" or the month
    after it under "Mes siguiente"; never more years than the reference has
    down-years in its month.  There are at most two records for a column
    other than the reference, and with distinct labels no instrument has
    two records for the same period. *)
Theorem find_correlations_records (K : SortKind) (returns : DataFrame) (ref : string)
    (m mo : Z) (out : list Corr.Row) :
  find_correlations K returns ref m mo = inr out ->
  (forall r, In r out ->
     In (Corr.ticker r) (candidates returns ref) /\
     ((Corr.periodo r = "Mismo mes" /\ dict_get MONTHS_ES m = inr (Corr.mes r)) \/
      (Corr.periodo r = "Mes siguiente" /\
       dict_get MONTHS_ES (next_month m) = inr (Corr.mes r))) /\
     exists s, getitem returns ref = Some s /\
       (Corr.n_años r <= length (ref_down_years (in_month m (dropna s))))%nat) /\
  (length out <= 2 * length (candidates returns ref))%nat /\
  (NoDup (columns returns) -> NoDup (map corr_key out)).
Proof.
  intros H. pose proof (find_correlations_inv _ _ _ _ _ _ H) as Hi.
  destruct Hi as [->|(s & rows0 & Hg & Hne & _ & _)].
  { split; [intros r []|]. split; [simpl; lia|constructor]. }
  destruct (find_correlations_rows K returns ref m mo s out Hg Hne H) as (rows & Hc & Hp).
  split; [|split].
  - intros r Hr. apply (Permutation_in _ Hp) in Hr.
    apply (correlation_rows_in _ _ _ _ _ _ r Hc) in Hr
      as (t & st & outc & Ht & Hnr & Hgt & Hcand & Hr).
    apply candidate_rows_shape in Hcand as (same & next & -> & Hs & Hn).
    apply period_rows_shape in Hs, Hn.
    assert (Hcol : In t (candidates returns ref)).
    { apply filter_In. split; [exact Ht|].
      destruct (String.eqb_spec t ref); [contradiction|reflexivity]. }
    apply in_app_iff in Hr as [Hr|Hr].
    + destruct Hs as [[_ ->]|(_ & r1 & -> & Ht1 & Hp1 & Hm1 & Hn1)]; [destruct Hr|].
      destruct Hr as [<-|[]]. rewrite Ht1. split; [exact Hcol|]. split; [left; auto|].
      exists s. split; [exact Hg|]. rewrite Hn1. apply common_years_length.
    + destruct Hn as [[_ ->]|(_ & r2 & -> & Ht2 & Hp2 & Hm2 & Hn2)]; [destruct Hr|].
      destruct Hr as [<-|[]]. rewrite Ht2. split; [exact Hcol|]. split; [right; auto|].
      exists s. split; [exact Hg|]. rewrite Hn2.
      etransitivity; [apply common_years_length|]. now rewrite next_years_length.
  - rewrite (Permutation_length Hp).
    destruct (correlation_rows_concat _ _ _ _ _ _ Hc) as (g & -> & Hgs).
    unfold candidates. apply flat_map_length_le. intros t Ht.
    destruct (Hgs t Ht) as [[E ->]|(E & st & _ & Hcand)]; rewrite E; [left; auto|right].
    split; [reflexivity|]. apply (candidate_rows_keys _ _ _ _ _ _ Hcand).
  - intros Hnd. apply (Permutation_NoDup (Permutation_sym (Permutation_map corr_key Hp))).
    destruct (correlation_rows_concat _ _ _ _ _ _ Hc) as (g & -> & Hgs).
    rewrite flat_map_concat_map, concat_map, map_map, <- flat_map_concat_map.
    apply nodup_flat_map_fst; [exact Hnd|]. intros t Ht.
    destruct (Hgs t Ht) as [[E ->]|(E & st & _ & Hcand)].
    + split; [constructor|intros k []].
    + destruct (candidate_rows_keys _ _ _ _ _ _ Hcand) as (_ & H1 & H2 & _). auto.
Qed.

Lemma find_correlations_records_witness :
  (length (match find_correlations stable_kind tie_returns "AAA" 3 2 with
           | inr out => out
           | inl _ => []
           end) <= 2 * length (candidates tie_returns "AAA"))%nat.
Proof.
  exact (proj1 (proj2 (find_correlations_records stable_kind tie_returns "AAA" 3 2 _ eq_refl))).
Defined.

(** The overlap asked for only filters: the records returned for an
    overlap are among those returned for any smaller one, unchanged.  For an
    overlap of zero or less nothing is filtered: every column other than
    the reference gets both its records, whatever its data. *)
Theorem find_correlations_min_overlap (K : SortKind) (returns : DataFrame) (ref : string)
    (m : Z) (s : Series) :
  getitem returns ref = Some s -> in_month m (dropna s) <> [] ->
  (forall mo mo' out out',
     mo <= mo' ->
     find_correlations K returns ref m mo = inr out ->
     find_correlations K returns ref m mo' = inr out' ->
     incl out' out) /\
  (forall mo out,
     mo <= 0 -> find_correlations K returns ref m mo = inr out ->
     length out = (2 * length (candidates returns ref))%nat).
Proof.
  intros Hg Hne. split.
  - intros mo mo' out out' Hle H H' r Hr.
    destruct (find_correlations_rows K returns ref m mo s out Hg Hne H) as (rows & Hc & Hp).
    destruct (find_correlations_rows K returns ref m mo' s out' Hg Hne H') as (rows' & Hc' & Hp').
    apply (Permutation_in _ (Permutation_sym Hp)).
    apply (Permutation_in _ Hp') in Hr.
    apply (correlation_rows_in _ _ _ _ _ _ r Hc') in Hr
      as (t & st & outc' & Ht & Hnr & Hgt & Hcand' & Hr).
    apply (correlation_rows_in _ _ _ _ _ _ r Hc).
    destruct (String.eqb_spec t ref) as [->|_]; [contradiction|].
    destruct (correlation_rows_concat _ _ _ _ _ _ Hc) as (g & _ & Hgs).
    destruct (Hgs t Ht) as [[E _]|(_ & st2 & Hgt2 & Hcand)].
    { apply String.eqb_eq in E. contradiction. }
    assert (st2 = st) by congruence. subst st2.
    exists t, st, (g t). repeat split; auto.
    apply candidate_rows_shape in Hcand as (same & next & -> & Hs & Hn).
    apply candidate_rows_shape in Hcand' as (same' & next' & -> & Hs' & Hn').
    apply in_app_iff. apply in_app_iff in Hr as [Hr|Hr]; [left|right].
    + apply period_rows_inv in Hs, Hs'. cbv zeta in Hs, Hs'.
      destruct Hs' as [[_ ->]|(Hle' & name' & Hn1' & ->)]; [destruct Hr|].
      destruct Hs as [[Hlt _]|(_ & name & Hn1 & ->)]; [lia|].
      assert (name = name') by congruence. subst. exact Hr.
    + apply period_rows_inv in Hn, Hn'. cbv zeta in Hn, Hn'.
      destruct Hn' as [[_ ->]|(Hle' & name' & Hn1' & ->)]; [destruct Hr|].
      destruct Hn as [[Hlt _]|(_ & name & Hn1 & ->)]; [lia|].
      assert (name = name') by congruence. subst. exact Hr.
  - intros mo out Hmo H.
    destruct (find_correlations_rows K returns ref m mo s out Hg Hne H) as (rows & Hc & Hp).
    rewrite (Permutation_length Hp).
    destruct (correlation_rows_concat _ _ _ _ _ _ Hc) as (g & -> & Hgs).
    unfold candidates. apply flat_map_length_eq. intros t Ht.
    destruct (Hgs t Ht) as [[E ->]|(E & st & _ & Hcand)]; rewrite E; [left; auto|right].
    split; [reflexivity|]. now apply (candidate_rows_keys _ _ _ _ _ _ Hcand).
Qed.

Lemma find_correlations_min_overlap_witness :
  incl (match find_correlations stable_kind tie_returns "AAA" 3 2 with
        | inr out => out
        | inl _ => []
        end)
       (match find_correlations stable_kind tie_returns "AAA" 3 1 with
        | inr out => out
        | inl _ => []
        end).
Proof.
  refine (proj1 (find_correlations_min_overlap stable_kind tie_returns "AAA" 3 _ eq_refl _)
            1 2 _ _ _ eq_refl eq_refl).
  - discriminate.
  - lia.
Defined.

(* ------------------------------------------------------------------ *)
(** ** The three sector charts *)

Lemma filter_twice {A : Type} (f g : A -> bool) (l : list A) :
  filter f (filter g l) = filter (fun x => g x && f x) l.
Proof.
  induction l as [|a l IH]; [reflexivity|]. cbn [filter].
  destruct (g a); cbn [filter andb]; [destruct (f a)|]; now rewrite IH.
Qed.

Lemma month_data_of_eq (stats : list Stats.Row) (ts : list string) (m : Z) :
  month_data_of stats ts m = sector_month_stats stats ts m.
Proof. unfold month_data_of, sector_month_stats. apply filter_twice. Qed.

Lemma concatM_map_eq {A B : Type} (f : A -> M (list B)) (g : A -> list B) (l : list A) :
  (forall a, In a l -> f a = inr (g a)) -> concatM (map f l) = inr (flat_map g l).
Proof.
  induction l as [|a l IH]; intros H; [reflexivity|].
  cbn [map concatM flat_map]. rewrite (H a (or_introl eq_refl)). cbn [bind].
  rewrite IH by (intros b Hb; apply H; now right). reflexivity.
Qed.

Lemma concatM_map_flat {A B : Type} (f : A -> M (list B)) (l : list A) (out : list B) :
  concatM (map f l) = inr out ->
  exists g, out = flat_map g l /\ forall a, In a l -> f a = inr (g a).
Proof.
  intros H. exists (fun a => match f a with inr xs => xs | inl _ => [] end). split.
  - rewrite flat_map_concat_map. now apply concatM_map_concat.
  - intros a Ha. destruct (concatM_map_each _ _ _ a H Ha) as [xs ->]. reflexivity.
Qed.

Lemma mapM_map_eq {A B : Type} (f : A -> M B) (g : A -> B) (l : list A) :
  (forall a, In a l -> f a = inr (g a)) -> mapM f l = inr (map g l).
Proof.
  induction l as [|a l IH]; intros H; [reflexivity|].
  cbn [map mapM]. rewrite (H a (or_introl eq_refl)). cbn [bind].
  rewrite IH by (intros b Hb; apply H; now right). reflexivity.
Qed.

(** Of the rows of a loop over distinct keys, those of one key. *)
Lemma filter_flat_map_key {B : Type} (key : B -> Z) (h : Z -> list B) (m : Z) (l : list Z) :
  (forall k r, In r (h k) -> key r = k) -> NoDup l -> In m l ->
  filter (fun r => key r =? m) (flat_map h l) = h m.
Proof.
  intros Hk. 
  assert (Hall : forall k, filter (fun r => key r =? k) (h k) = h k).
  { intros k. apply forallb_filter_id. apply forallb_forall. intros r Hr.
    apply Z.eqb_eq. now apply Hk. }
  assert (Hnone : forall k, k <> m -> filter (fun r => key r =? m) (h k) = []).
  { intros k Hne. 
    assert (F : forall xs, (forall r, In r xs -> key r = k) ->
                           filter (fun r => key r =? m) xs = []).
    { induction xs as [|x xs IH]; intros Hx; [reflexivity|]. cbn [filter].
      destruct (Z.eqb_spec (key x) m) as [E|_].
      - rewrite (Hx x (or_introl eq_refl)) in E. contradiction.
      - apply IH. intros r Hr. apply Hx. now right. }
    apply F. intros r Hr. now apply Hk. }
  induction l as [|k l IH]; intros Hnd Hin; [destruct Hin|].
  apply NoDup_cons_iff in Hnd as [Hnk Hnd]. cbn [flat_map]. rewrite filter_app.
  destruct Hin as [->|Hin].
  - rewrite Hall.
    assert (E : filter (fun r => key r =? m) (flat_map h l) = []).
    { clear IH. induction l as [|j l IH]; [reflexivity|]. cbn [flat_map].
      apply NoDup_cons_iff in Hnd as [_ Hnd]. rewrite filter_app, Hnone, IH; auto.
      - intros Hm. apply Hnk. now right.
      - intros ->. apply Hnk. now left. }
    rewrite E. apply app_nil_r.
  - rewrite Hnone by (intros ->; contradiction). now apply IH.
Qed.

Lemma range_1_13_nodup : NoDup range_1_13.
Proof. unfold range_1_13. repeat constructor; simpl; intuition discriminate. Qed.

Lemma month_cell_map (c : Z -> option Q) (m : Z) :
  In m range_1_13 -> month_cell (map c range_1_13) m = c m.
Proof.
  unfold range_1_13. simpl.
  intros H; repeat (destruct H as [<-|H]; [reflexivity|]); contradiction.
Qed.

(** The rows of the comparison, sector by sector and month by month. *)
Lemma chart_sector_monthly_comparison_rows (stats : list Stats.Row)
    (avail selected : list string) (metric : string) (col : Stats.Row -> option Q) :
  stats_column metric = inr col ->
  exists name : Z -> string,
    chart_sector_monthly_comparison stats avail selected metric
    = inr (flat_map
             (fun sector =>
                let ts := sectors_get (get_available_sectors avail) sector in
                if is_empty ts then []
                else flat_map
                       (fun m =>
                          if is_empty (month_data_of stats ts m) then []
                          else [ Sector.mkMonth sector m (name m)
                                   (mean_skipna (map col (month_data_of stats ts m)))
                                   (length (month_data_of stats ts m)) ])
                       range_1_13)
             selected).
Proof.
  intros Hcol.
  exists (fun m => match dict_get MONTHS_ES m with inr s => s | inl _ => "" end).
  unfold chart_sector_monthly_comparison. cbv zeta. apply concatM_map_eq.
  intros sector _. destruct (is_empty (sectors_get (get_available_sectors avail) sector));
    [reflexivity|].
  apply concatM_map_eq. intros m Hm. fold (month_data_of stats
    (sectors_get (get_available_sectors avail) sector) m).
  destruct (is_empty _); [reflexivity|].
  destruct (months_es_range m Hm) as [nm ->]. cbn [bind]. rewrite Hcol. reflexivity.
Qed.

(** The bar chart of a month shows the points of that month of the line
    chart: for a month from 1 to 12 the comparison never raises on the win
    rate or the mean return, and when [chart_sector_best_month] returns,
    its rows carry, in the same order, the sectors, values and counts of
    the rows of the comparison for that month. *)
Theorem sector_charts_agree (stats : list Stats.Row) (avail selected : list string) (m : Z) :
  In m range_1_13 ->
  exists by_win_rate by_return,
    chart_sector_monthly_comparison stats avail selected "pct_sube" = inr by_win_rate /\
    chart_sector_monthly_comparison stats avail selected "retorno_prom" = inr by_return /\
    forall best,
      chart_sector_best_month stats avail selected m = inr best ->
      map best_month_point best
      = map comparison_point (filter (fun r => Sector.month r =? m) by_win_rate) /\
      map best_month_return best
      = map comparison_point (filter (fun r => Sector.month r =? m) by_return).
Proof.
  intros Hm.
  destruct (chart_sector_monthly_comparison_rows stats avail selected "pct_sube"
              Stats.pct_sube eq_refl) as [name1 H1].
  destruct (chart_sector_monthly_comparison_rows stats avail selected "retorno_prom"
              Stats.retorno_prom eq_refl) as [name2 H2].
  eexists. eexists. split; [exact H1|]. split; [exact H2|].
  intros best Hb. unfold chart_sector_best_month in Hb. cbv zeta in Hb.
  destruct (concatM_map_flat _ _ _ Hb) as (g & -> & Hg).
  rewrite !filter_flat_map, !flat_map_concat_map, !concat_map, !map_map.
  split; f_equal; apply map_ext_in; intros sector Hs; specialize (Hg sector Hs);
    cbv zeta in *;
    (destruct (sectors_get (get_available_sectors avail) sector) as [|t ts] eqn:Ets;
     cbn [is_empty] in *; [injection Hg as <-; reflexivity|]);
    (rewrite filter_flat_map_key;
     [|intros k r Hr;
       match type of Hr with In _ (if ?c then _ else _) => destruct c end;
       [destruct Hr|]; destruct Hr as [<-|[]]; reflexivity
      |exact range_1_13_nodup|exact Hm]);
    rewrite month_data_of_eq;
    (destruct (sector_month_stats stats (t :: ts) m) as [|r0 sel] eqn:Esel;
     cbn [is_empty] in *; [injection Hg as <-; reflexivity|]);
    unfold bind in Hg;
    (destruct (idxmax Stats.pct_sube (r0 :: sel)) as [b|]; [|discriminate]);
    injection Hg as <-; reflexivity.
Qed.

Lemma sector_charts_agree_witness :
  exists by_win_rate by_return,
    chart_sector_monthly_comparison march_stats ["AAL"; "DAL"] ["Aerolíneas"] "pct_sube"
    = inr by_win_rate /\
    chart_sector_monthly_comparison march_stats ["AAL"; "DAL"] ["Aerolíneas"] "retorno_prom"
    = inr by_return /\
    map comparison_point (filter (fun r => Sector.month r =? 3) by_win_rate)
    = [("Aerolíneas", Some ((60 + (80 + 0)) / 2)%Q, 2%nat)] /\
    map comparison_point (filter (fun r => Sector.month r =? 3) by_return)
    = [("Aerolíneas", Some ((1 + (2 + 0)) / 2)%Q, 2%nat)].
Proof.
  destruct (sector_charts_agree march_stats ["AAL"; "DAL"] ["Aerolíneas"] 3)
    as (w & r & Hw & Hr & Hbest).
  - vm_compute. tauto.
  - exists w, r. split; [exact Hw|]. split; [exact Hr|].
    destruct (Hbest _ eq_refl) as [E1 E2]. rewrite <- E1, <- E2. split; reflexivity.
Defined.

Lemma comparison_row_inv (stats : list Stats.Row) (avail selected : list string)
    (name : Z -> string) (col : Stats.Row -> option Q) (r : Sector.MonthRow) :
  In r (flat_map
          (fun sector =>
             let ts := sectors_get (get_available_sectors avail) sector in
             if is_empty ts then []
             else flat_map
                    (fun m =>
                       if is_empty (month_data_of stats ts m) then []
                       else [ Sector.mkMonth sector m (name m)
                                (mean_skipna (map col (month_data_of stats ts m)))
                                (length (month_data_of stats ts m)) ])
                    range_1_13)
          selected) ->
  let ts := sectors_get (get_available_sectors avail) (Sector.m_sector r) in
  In (Sector.m_sector r) selected /\ In (Sector.month r) range_1_13 /\
  month_data_of stats ts (Sector.month r) <> [] /\
  Sector.valor r = mean_skipna (map col (month_data_of stats ts (Sector.month r))) /\
  Sector.m_n_tickers r = length (month_data_of stats ts (Sector.month r)).
Proof.
  intros H. apply in_flat_map in H as (s & Hs & H). cbv zeta in H.
  destruct (is_empty (sectors_get (get_available_sectors avail) s)); [destruct H|].
  apply in_flat_map in H as (m & Hm & H).
  destruct (month_data_of stats (sectors_get (get_available_sectors avail) s) m)
    as [|r0 md] eqn:E; cbn [is_empty] in H; [destruct H|].
  destruct H as [<-|[]]. cbn [Sector.m_sector Sector.month Sector.valor Sector.m_n_tickers].
  cbv zeta. rewrite E. repeat split; auto. discriminate.
Qed.

(** The ten columns of numbers are the ones that can be averaged. *)
Lemma stats_column_numeric (metric : string) :
  In metric ["month"; "veces_subio"; "veces_bajo"; "total_años"; "pct_sube";
             "retorno_prom"; "retorno_med"; "retorno_max"; "retorno_min"; "std"]
  <-> exists col, stats_column metric = inr col.
Proof.
  split.
  - intros H. repeat (destruct H as [<-|H]; [eexists; reflexivity|]). destruct H.
  - intros [col H]. unfold stats_column in H.
    repeat match type of H with
           | (if String.eqb ?a ?b then _ else _) = _ =>
               destruct (String.eqb_spec a b) as [->|_];
               [first [discriminate H | simpl; tauto]|]
           end.
    discriminate H.
Qed.

(** The heatmap against the line chart.  For a numeric column of the
    statistics neither raises.  The heatmap has one row for each selected
    sector with an available ticker, in the order selected, whether or not
    the sector has statistics; the row counts the available tickers of the
    sector and has twelve cells; the cell of a month holds the value of the
    line chart for that sector and month, and NaN where the line chart has
    no point. *)
Theorem chart_sector_heatmap_cells (stats : list Stats.Row) (avail selected : list string)
    (metric : string) (col : Stats.Row -> option Q) :
  stats_column metric = inr col ->
  exists points rows,
    chart_sector_monthly_comparison stats avail selected metric = inr points /\
    chart_sector_heatmap stats avail selected metric
    = inr (if is_empty rows then None else Some rows) /\
    map Heat.sector rows
    = filter (fun s => negb (is_empty (sectors_get (get_available_sectors avail) s)))
        selected /\
    forall hr, In hr rows ->
      Heat.n_tickers hr = length (sectors_get (get_available_sectors avail) (Heat.sector hr)) /\
      length (Heat.cells hr) = 12%nat /\
      forall m, In m range_1_13 ->
        (forall p, In p points -> Sector.m_sector p = Heat.sector hr -> Sector.month p = m ->
                   Sector.valor p = month_cell (Heat.cells hr) m) /\
        ((forall p, In p points -> Sector.m_sector p = Heat.sector hr -> Sector.month p <> m) ->
         month_cell (Heat.cells hr) m = None).
Proof.
  intros Hcol.
  destruct (chart_sector_monthly_comparison_rows stats avail selected metric col Hcol)
    as [name Hpoints].
  set (cellf := fun (sector : string) (m : Z) =>
         let md := month_data_of stats (sectors_get (get_available_sectors avail) sector) m in
         if is_empty md then None else mean_skipna (map col md)).
  set (rowf := fun sector =>
         let ts := sectors_get (get_available_sectors avail) sector in
         if is_empty ts then []
         else [ Heat.mk sector (length ts) (map (cellf sector) range_1_13) ]).
  eexists. exists (flat_map rowf selected). split; [exact Hpoints|]. split; [|split].
  - unfold chart_sector_heatmap. cbv zeta.
    rewrite (concatM_map_eq _ rowf);
      [cbn [bind]; destruct (is_empty (flat_map rowf selected)); reflexivity|].
    intros sector _. unfold rowf. cbv zeta.
    destruct (is_empty (sectors_get (get_available_sectors avail) sector)); [reflexivity|].
    rewrite (mapM_map_eq _ (cellf sector)); [reflexivity|].
    intros m _. unfold cellf, month_data_of. cbv zeta.
    destruct (is_empty _); [reflexivity|]. rewrite Hcol. reflexivity.
  - clear. induction selected as [|s l IH]; [reflexivity|]. cbn [flat_map filter].
    rewrite map_app, IH. unfold rowf. cbv zeta.
    destruct (is_empty (sectors_get (get_available_sectors avail) s)); reflexivity.
  - intros hr Hhr. apply in_flat_map in Hhr as (s & Hs & Hhr). unfold rowf in Hhr.
    cbv zeta in Hhr.
    destruct (is_empty (sectors_get (get_available_sectors avail) s)); [destruct Hhr|].
    destruct Hhr as [<-|[]]. cbn [Heat.sector Heat.n_tickers Heat.cells].
    split; [reflexivity|]. split; [now rewrite length_map|].
    intros m Hm. rewrite (month_cell_map (cellf s) m Hm). split.
    + intros p Hp Hsec Hmon. apply comparison_row_inv in Hp. cbv zeta in Hp.
      destruct Hp as (_ & _ & Hne & Hv & _). rewrite Hsec, Hmon in *.
      unfold cellf. cbv zeta.
      destruct (month_data_of stats (sectors_get (get_available_sectors avail) s) m);
        [contradiction|exact Hv].
    + intros Hnone. unfold cellf. cbv zeta.
      destruct (month_data_of stats (sectors_get (get_available_sectors avail) s) m)
        as [|r0 md] eqn:E; [reflexivity|]. exfalso.
      destruct (sectors_get (get_available_sectors avail) s) as [|t ts] eqn:Ets.
      { unfold month_data_of in E. rewrite filter_twice in E.
        fold (sector_month_stats stats [] m) in E. rewrite sector_month_stats_nil in E.
        discriminate. }
      apply (Hnone (Sector.mkMonth s m (name m)
                      (mean_skipna (map col (r0 :: md))) (length (r0 :: md))));
        [|reflexivity|reflexivity].
      apply in_flat_map. exists s. split; [exact Hs|]. cbv zeta. rewrite Ets. cbn [is_empty].
      apply in_flat_map. exists m. split; [exact Hm|]. rewrite E. now left.
Qed.

Lemma chart_sector_heatmap_cells_witness :
  exists points rows,
    chart_sector_monthly_comparison march_stats ["AAL"; "DAL"] ["Aerolíneas"; "Bancos"]
      "veces_subio" = inr points /\
    chart_sector_heatmap march_stats ["AAL"; "DAL"] ["Aerolíneas"; "Bancos"] "veces_subio"
    = inr (if is_empty rows then None else Some rows) /\
    map Heat.sector rows = ["Aerolíneas"] /\
    map (fun hr => month_cell (Heat.cells hr) 3) rows = [Some (7 # 2)%Q].
Proof.
  destruct (chart_sector_heatmap_cells march_stats ["AAL"; "DAL"] ["Aerolíneas"; "Bancos"]
              "veces_subio" (fun r => Some (Qofnat (Stats.veces_subio r))) eq_refl)
    as (points & rows & Hp & Hh & Hs & _).
  exists points, rows. split; [exact Hp|]. split; [exact Hh|]. split.
  - rewrite Hs. reflexivity.
  - vm_compute in Hh. destruct rows as [|hr rows]; [discriminate Hh|].
    cbn [is_empty] in Hh. injection Hh as E1 E2. subst hr rows. reflexivity.
Defined.

(* ------------------------------------------------------------------ *)
(** ** chart_correlation_results *)

Lemma sort_values_asc_perm (K : SortKind) {A : Type} (key : A -> option Q) (l : list A) :
  Permutation (sort_values_asc K key l) l.
Proof.
  unfold sort_values_asc.
  rewrite <- (filter_split_perm (fun a => is_some (key a)) l) at 3.
  apply Permutation_app_tail. apply sort_by_perm.
Qed.

Lemma sort_values_asc_sorted (K : SortKind) {A : Type} (key : A -> option Q) (l : list A) :
  StronglySorted (fun a b => asc_le (key a) (key b)) (sort_values_asc K key l).
Proof.
  unfold sort_values_asc.
  set (non_nans := filter (fun a => is_some (key a)) l).
  set (nans := filter (fun a => negb (is_some (key a))) l).
  assert (Hnan : forall b, In b nans -> key b = None).
  { intros b Hb. apply filter_In in Hb as [_ Hb]. now destruct (key b). }
  assert (Hnum : forall a, In a (sort_by K A (key_or_zero key) non_nans) ->
                           exists q, key a = Some q).
  { intros a Ha. apply (Permutation_in _ (sort_by_perm K A _ _)) in Ha.
    apply filter_In in Ha as [_ Ha]. destruct (key a) as [q|]; [now exists q|discriminate]. }
  apply StronglySorted_app.
  - apply StronglySorted_weaken
      with (R := fun a b => (key_or_zero key a <= key_or_zero key b)%Q).
    + intros a b Ha Hb. unfold key_or_zero.
      destruct (Hnum a Ha) as [qa ->], (Hnum b Hb) as [qb ->]. auto.
    + apply sort_by_sorted.
  - clear Hnum. induction nans as [|b nans IH]; constructor.
    + apply IH. intros; apply Hnan; now right.
    + rewrite Forall_forall. intros c Hc.
      rewrite (Hnan c) by now right. now destruct (key b).
  - intros a b Ha Hb. rewrite (Hnan b Hb). now destruct (key a).
Qed.

Lemma StronglySorted_filter_keep {A : Type} (R : A -> A -> Prop) (f : A -> bool) (l : list A) :
  StronglySorted R l -> StronglySorted R (filter f l).
Proof.
  induction 1 as [|x l Hs IH Hx]; cbn [filter]; [constructor|].
  destruct (f x); [|exact IH]. constructor; [exact IH|].
  rewrite Forall_forall in Hx |- *. intros z Hz. apply Hx. now apply filter_In in Hz as [Hz _].
Qed.

Lemma StronglySorted_head_tail {A : Type} (R : A -> A -> Prop) (n : nat) (l : list A) :
  StronglySorted R l -> forall a b, In a (firstn n l) -> In b (skipn n l) -> R a b.
Proof.
  intros Hs. revert n. induction Hs as [|x l Hs IH Hx]; intros n a b Ha Hb.
  - destruct n; destruct Ha.
  - destruct n as [|n]; [destruct Ha|]. cbn [firstn skipn] in Ha, Hb.
    destruct Ha as [<-|Ha].
    + rewrite Forall_forall in Hx. apply Hx. rewrite <- (firstn_skipn n l).
      apply in_or_app. now right.
    + now apply (IH n).
Qed.

Lemma next_title_ok (m : Z) : exists name, dict_get MONTHS_ES (m mod 12 + 1) = inr name.
Proof.
  apply months_es_range.
  assert (H : 0 <= m mod 12 < 12) by (apply Z.mod_pos_bound; lia).
  assert (E : m mod 12 = 0 \/ m mod 12 = 1 \/ m mod 12 = 2 \/ m mod 12 = 3 \/ m mod 12 = 4 \/
              m mod 12 = 5 \/ m mod 12 = 6 \/ m mod 12 = 7 \/ m mod 12 = 8 \/ m mod 12 = 9 \/
              m mod 12 = 10 \/ m mod 12 = 11) by lia.
  unfold range_1_13.
  repeat (destruct E as [E|E]; [rewrite E; simpl; tauto|]). rewrite E. simpl. tauto.
Qed.

(** The chart of the correlations: nothing is drawn for an empty table,
    and a month outside 1..12 is a [KeyError] for a table that is not empty
    (the title of the second panel never is).  Drawn from the result of
    [find_correlations], each panel shows at most fifteen records of its
    period, the first fifteen of the table, upwards by percentage; no record
    of the period left out has a higher percentage than one shown; a bar
    is green from 60, indigo from 50 and red below. *)
Theorem chart_correlation_results_top (K K' : SortKind) (returns : DataFrame) (ref : string)
    (ref_month mo m : Z) (out : list Corr.Row) :
  find_correlations K returns ref ref_month mo = inr out ->
  (out = [] -> chart_correlation_results K' out m = inr None) /\
  (out <> [] -> ~ In m range_1_13 -> chart_correlation_results K' out m = inl KeyError) /\
  (out <> [] -> In m range_1_13 ->
   exists traces,
     chart_correlation_results K' out m = inr (Some traces) /\
     forall p bars, In (p, bars) traces ->
       let of_period := filter (fun r => String.eqb (Corr.periodo r) p) out in
       (p = "Mismo mes" \/ p = "Mes siguiente") /\
       bars <> [] /\ (length bars <= 15)%nat /\
       Permutation (map fst bars) (firstn 15 of_period) /\
       StronglySorted (fun a b => asc_le (Corr.pct_subio a) (Corr.pct_subio b))
         (map fst bars) /\
       (forall a b, In a (map fst bars) -> In b (skipn 15 of_period) ->
                    desc_le (Corr.pct_subio a) (Corr.pct_subio b)) /\
       (forall r c, In (r, c) bars -> c = bar_color (Corr.pct_subio r))).
Proof.
  intros Hf. split; [|split].
  - intros ->. reflexivity.
  - intros Hne Hm. unfold chart_correlation_results.
    destruct out as [|r0 out']; [congruence|]. cbn [is_empty].
    destruct (dict_get MONTHS_ES m) as [e|name] eqn:E.
    + cbn [bind]. clear - E. revert E. unfold MONTHS_ES. cbn [dict_get].
      repeat (match goal with |- context [?a =? ?b] => destruct (a =? b) end;
              [discriminate|]).
      intros E. now injection E as <-.
    + exfalso. apply Hm. clear - E. revert E. unfold MONTHS_ES, range_1_13. cbn [dict_get].
      repeat (match goal with |- context [?a =? ?b] =>
                destruct (Z.eqb_spec a b) as [->|_] end; [simpl; tauto|]).
      discriminate.
  - intros Hne Hm. unfold chart_correlation_results.
    destruct out as [|r0 out'] eqn:Eout; [congruence|]. cbn [is_empty]. rewrite <- Eout.
    destruct (months_es_range m Hm) as [name ->].
    destruct (next_title_ok m) as [name' ->]. cbn [bind].
    eexists. split; [reflexivity|]. intros p bars Hin. cbv zeta in *.
    assert (Hsorted : StronglySorted
                        (fun a b => desc_le (Corr.pct_subio a) (Corr.pct_subio b)) out).
    { pose proof (find_correlations_inv _ _ _ _ _ _ Hf) as Hi. rewrite <- Eout in Hi.
      destruct Hi as [->|(s & rows & _ & _ & _ & ->)]; [constructor|].
      apply sort_values_desc_sorted. }
    apply in_flat_map in Hin as (p' & Hp' & Hin).
    destruct (is_empty (firstn 15 (filter (fun r => String.eqb (Corr.periodo r) p') out)))
      eqn:Eemp; [destruct Hin|].
    destruct Hin as [Hin|[]]. injection Hin as <- <-.
    set (of_period := filter (fun r => String.eqb (Corr.periodo r) p') out) in *.
    assert (Hperm : Permutation (map fst (period_bars K' out p')) (firstn 15 of_period)).
    { unfold period_bars. cbv zeta. fold of_period. rewrite map_map. cbn [fst].
      rewrite map_id. apply sort_values_asc_perm. }
    split; [simpl in Hp'; intuition congruence|]. split; [|split; [|split; [|split; [|split]]]].
    + intros E. rewrite E in Hperm. apply Permutation_nil in Hperm.
      rewrite Hperm in Eemp. discriminate.
    + rewrite <- (length_map fst), (Permutation_length Hperm). apply firstn_le_length.
    + exact Hperm.
    + unfold period_bars. cbv zeta. rewrite map_map. cbn [fst]. rewrite map_id.
      apply sort_values_asc_sorted.
    + intros a b Ha Hb. apply (Permutation_in _ Hperm) in Ha.
      apply (StronglySorted_head_tail
               (fun x y => desc_le (Corr.pct_subio x) (Corr.pct_subio y)) 15 of_period);
        auto.
      now apply StronglySorted_filter_keep.
    + intros r c Hrc. unfold period_bars in Hrc. apply in_map_iff in Hrc as (x & E & _).
      now injection E as <- <-.
Qed.

Lemma chart_correlation_results_top_witness :
  chart_correlation_results stable_kind
    [ Corr.mk "BBB" "Mes siguiente" "Enero" 1 1 (Some 100%Q) (Some 5%Q) ] 13
  = inl KeyError.
Proof.
  refine (proj1 (proj2 (chart_correlation_results_top stable_kind stable_kind
                          december_returns "AAA" 12 1 13 _ eq_refl)) _ _).
  - discriminate.
  - vm_compute. intuition discriminate.
Defined.

(* ------------------------------------------------------------------ *)
(** ** chart_yearly_monthly_heatmap *)

Lemma insert_year_in (y x : Z) (l : list Z) :
  In x (insert_year y l) <-> x = y \/ In x l.
Proof.
  induction l as [|a l IH]; simpl; [intuition|].
  destruct (Z.ltb_spec y a); [simpl; intuition|].
  destruct (Z.eqb_spec y a) as [->|Hne]; simpl; [intuition|]. rewrite IH. intuition.
Qed.

Lemma insert_year_sorted (y : Z) (l : list Z) :
  StronglySorted Z.lt l -> StronglySorted Z.lt (insert_year y l).
Proof.
  induction 1 as [|a l Hs IH Ha]; simpl; [repeat constructor|].
  rewrite Forall_forall in Ha.
  destruct (Z.ltb_spec y a) as [Hlt|Hge].
  - constructor; [now constructor; [|apply Forall_forall]|].
    apply Forall_forall. intros z [<-|Hz]; [exact Hlt|]. specialize (Ha z Hz). lia.
  - destruct (Z.eqb_spec y a) as [->|Hne]; [now constructor; [|apply Forall_forall]|].
    constructor; [exact IH|]. apply Forall_forall. intros z Hz.
    apply insert_year_in in Hz as [->|Hz]; [lia|now apply Ha].
Qed.

Lemma sorted_unique_in (x : Z) (l : list Z) : In x (sorted_unique l) <-> In x l.
Proof.
  induction l as [|a l IH]; simpl; [tauto|]. rewrite insert_year_in, IH. intuition.
Qed.

Lemma sorted_unique_sorted (l : list Z) : StronglySorted Z.lt (sorted_unique l).
Proof.
  induction l as [|a l IH]; simpl; [constructor|]. now apply insert_year_sorted.
Qed.

(** With one row per month, the returns of a year and a month are at most
    one. *)
Lemma year_month_single (s : Series) (d : date) (v : Q) :
  distinct_months (map fst s) = true -> In (d, Some v) s ->
  filter (fun x : date * Q => (year (fst x) =? year d) && (month (fst x) =? month d))
    (dropna s) = [(d, v)].
Proof.
  induction s as [|[e o] s IH]; intros Hd Hin; [destruct Hin|].
  cbn [map fst distinct_months] in Hd. apply andb_true_iff in Hd as [Hnot Hd].
  apply negb_true_iff in Hnot.
  assert (Hrest : forall x, In x (dropna s) ->
            (year (fst x) =? year e) && (month (fst x) =? month e) = false).
  { intros x Hx. destruct ((year (fst x) =? year e) && (month (fst x) =? month e)) eqn:E;
      [|reflexivity].
    apply andb_true_iff in E as [E1 E2]. apply Z.eqb_eq in E1, E2.
    assert (F : existsb (fun e0 => (year e =? year e0) && (month e =? month e0)) (map fst s)
                = true).
    { apply existsb_exists. exists (fst x). split; [now apply dropna_dates|].
      apply andb_true_iff. split; apply Z.eqb_eq; congruence. }
    congruence. }
  destruct Hin as [Hin|Hin].
  - injection Hin as -> ->. cbn [dropna filter fst]. rewrite !Z.eqb_refl. cbn [andb].
    f_equal. clear - Hrest. induction (dropna s) as [|x l IHl]; [reflexivity|].
    cbn [filter]. rewrite (Hrest x (or_introl eq_refl)). apply IHl.
    intros y Hy. apply Hrest. now right.
  - assert (Hne : (year e =? year d) && (month e =? month d) = false).
    { assert (Hx : In (d, v) (dropna s)) by now apply in_dropna.
      specialize (Hrest _ Hx). cbn [fst] in Hrest.
      rewrite (Z.eqb_sym (year e)), (Z.eqb_sym (month e)). exact Hrest. }
    destruct o as [w|]; cbn [dropna filter fst]; rewrite ?Hne; now apply IH.
Qed.

Lemma nth_map_error {A B : Type} (f : A -> B) (l : list A) (i : nat) (a : A) (b : B) :
  nth_error l i = Some a -> nth i (map f l) b = f a.
Proof.
  revert i. induction l as [|x l IH]; intros [|i] H; try discriminate; cbn in *.
  - now injection H as ->.
  - now apply IH.
Qed.

(** The year-by-month map of an instrument.  A missing label is a
    [KeyError].  Otherwise the rows are the years in which the instrument
    has a return, each once, in ascending order, with twelve cells each;
    every number in the matrix is a return of the instrument in that year
    and month; and on a table with one row per month every return of the
    instrument stands in the cell of its year and month. *)
Theorem chart_yearly_monthly_heatmap_cells (returns : DataFrame) (ticker : string) :
  (~ In ticker (columns returns) ->
   chart_yearly_monthly_heatmap returns ticker = inl KeyError) /\
  (forall s, getitem returns ticker = Some s ->
   exists years z,
     chart_yearly_monthly_heatmap returns ticker = inr (years, z) /\
     StronglySorted Z.lt years /\
     (forall y, In y years <-> exists d v, In (d, Some v) s /\ year d = y) /\
     length z = length years /\
     (forall row, In row z -> length row = 12%nat) /\
     (forall i y m v, nth_error years i = Some y -> In m range_1_13 ->
        month_cell (nth i z []) m = Some v ->
        exists d, In (d, Some v) s /\ year d = y /\ month d = m) /\
     (distinct_months (index returns) = true ->
      forall d v, In (d, Some v) s -> In (month d) range_1_13 ->
        exists i, nth_error years i = Some (year d) /\
                  month_cell (nth i z []) (month d) = Some v)).
Proof.
  split.
  - intros H. unfold chart_yearly_monthly_heatmap, getitemM, getitem.
    now rewrite (index_of_none _ _ H).
  - intros s Hg. unfold chart_yearly_monthly_heatmap, getitemM. rewrite Hg. cbn [bind].
    eexists. eexists. split; [reflexivity|].
    set (col := dropna s). set (years := sorted_unique (years_of col)).
    set (rowf := fun y => map (fun m => year_month_cell col y m) range_1_13).
    assert (Hyears : forall y, In y years <-> exists d v, In (d, Some v) s /\ year d = y).
    { intros y. unfold years. rewrite sorted_unique_in. unfold years_of.
      rewrite in_map_iff. split.
      - intros ([d v] & E & Hx). exists d, v. split; [now apply in_dropna|exact E].
      - intros (d & v & Hin & E). exists (d, v). split; [exact E|now apply in_dropna]. }
    split; [apply sorted_unique_sorted|]. split; [exact Hyears|].
    split; [apply length_map|]. split.
    { intros row Hrow. apply in_map_iff in Hrow as (y & <- & _). reflexivity. }
    split.
    + intros i y m v Hi Hm Hc.
      rewrite (nth_map_error rowf years i y [] Hi) in Hc. unfold rowf in Hc.
      rewrite (month_cell_map (fun m => year_month_cell col y m) m Hm) in Hc.
      unfold year_month_cell in Hc.
      destruct (filter _ col) as [|[d w] l] eqn:E; [discriminate|].
      injection Hc as <-. cbn [snd].
      assert (Hin : In (d, w) (filter (fun x : date * Q =>
                       (year (fst x) =? y) && (month (fst x) =? m)) col))
        by (rewrite E; now left).
      apply filter_In in Hin as [Hin Hb]. apply andb_true_iff in Hb as [Hy Hmm].
      apply Z.eqb_eq in Hy, Hmm. exists d. split; [now apply in_dropna|auto].
    + intros Hd d v Hin Hm.
      assert (Hy : In (year d) years) by (apply Hyears; eauto).
      apply In_nth_error in Hy as [i Hi]. exists i. split; [exact Hi|].
      rewrite (nth_map_error rowf years i (year d) [] Hi). unfold rowf.
      rewrite (month_cell_map (fun m => year_month_cell col (year d) m) (month d) Hm).
      unfold year_month_cell, col.
      rewrite (year_month_single s d v); [reflexivity| |exact Hin].
      now rewrite (getitem_index _ _ _ Hg).
Qed.

Lemma chart_yearly_monthly_heatmap_cells_witness :
  chart_yearly_monthly_heatmap tie_returns "ZZZ" = inl KeyError.
Proof.
  apply (proj1 (chart_yearly_monthly_heatmap_cells tie_returns "ZZZ")).
  simpl. intros [H|[H|[H|[]]]]; discriminate.
Defined.

(* ------------------------------------------------------------------ *)
(** ** chart_single_ticker *)

Lemma green_bars (vals : NumSeries) :
  count_if is_green
    (map (fun x : date * Q => (year (fst x), snd x, return_color (snd x))) vals)
  = count_if ispos (map snd vals).
Proof.
  unfold count_if. induction vals as [|[d v] vals IH]; [reflexivity|].
  cbn [map filter snd fst]. unfold is_green at 1, return_color at 1. cbn [snd].
  destruct (ispos v); cbn [String.eqb]; simpl; rewrite ?IH; reflexivity.
Qed.

(** The twelve panels of an instrument.  A missing label is a [KeyError].
    Otherwise there are twelve panels, January to December, filling the grid
    of three rows and four columns row by row, whether or not a month has
    data; every return of the instrument is a bar of the panel of its month;
    and against the record of [get_monthly_stats] for the instrument and a
    month, the panel has as many bars as the record counts years and as
    many green bars as it counts rises: a return of zero is drawn red though
    it is not counted as a fall. *)
Theorem chart_single_ticker_panels (returns : DataFrame) (ticker : string) :
  (~ In ticker (columns returns) -> chart_single_ticker returns ticker = inl KeyError) /\
  (forall s, getitem returns ticker = Some s ->
   exists panels,
     chart_single_ticker returns ticker = inr panels /\
     map Panel.title panels = map snd MONTHS_ES /\
     map (fun p => (Panel.grid_row p, Panel.grid_col p)) panels
     = list_prod [1; 2; 3] [1; 2; 3; 4] /\
     (forall d v, In (d, Some v) s -> In (month d) range_1_13 ->
        exists p, In p panels /\ dict_get MONTHS_ES (month d) = inr (Panel.title p) /\
                  In (year d, v, return_color v) (Panel.bars p)) /\
     (forall fsqrt stats r,
        get_monthly_stats fsqrt returns = inr stats -> In r stats ->
        Stats.ticker r = ticker ->
        exists p, In p panels /\ Panel.title p = Stats.month_name r /\
          length (Panel.bars p) = Stats.total_años r /\
          count_if is_green (Panel.bars p) = Stats.veces_subio r /\
          (Stats.veces_bajo r
           <= count_if (fun b => negb (is_green b)) (Panel.bars p))%nat)).
Proof.
  split.
  - intros H. unfold chart_single_ticker, getitemM, getitem.
    now rewrite (index_of_none _ _ H).
  - intros s Hg. unfold chart_single_ticker, getitemM. rewrite Hg. cbn [bind].
    set (col := dropna s).
    set (panel := fun (i m : Z) (name : string) =>
           Panel.mk name (i / 4 + 1) (i mod 4 + 1)
             (map (fun x : date * Q => (year (fst x), snd x, return_color (snd x)))
                (in_month m col))).
    exists [ panel 0 1 "Enero"; panel 1 2 "Febrero"; panel 2 3 "Marzo"; panel 3 4 "Abril";
             panel 4 5 "Mayo"; panel 5 6 "Junio"; panel 6 7 "Julio"; panel 7 8 "Agosto";
             panel 8 9 "Septiembre"; panel 9 10 "Octubre"; panel 10 11 "Noviembre";
             panel 11 12 "Diciembre" ].
    split; [reflexivity|]. split; [reflexivity|]. split; [reflexivity|].
    assert (Hpanel : forall m, In m range_1_13 ->
              exists i name, dict_get MONTHS_ES m = inr name /\
                In (panel i m name)
                   [ panel 0 1 "Enero"; panel 1 2 "Febrero"; panel 2 3 "Marzo";
                     panel 3 4 "Abril"; panel 4 5 "Mayo"; panel 5 6 "Junio";
                     panel 6 7 "Julio"; panel 7 8 "Agosto"; panel 8 9 "Septiembre";
                     panel 9 10 "Octubre"; panel 10 11 "Noviembre";
                     panel 11 12 "Diciembre" ]).
    { unfold range_1_13. intros m Hm. cbn [In] in Hm.
      repeat (destruct Hm as [<-|Hm];
              [eexists; eexists; split; [reflexivity|]; cbn [In]; tauto|]).
      contradiction. }
    split.
    + intros d v Hin Hm. destruct (Hpanel _ Hm) as (i & name & Hn & Hp).
      exists (panel i (month d) name). split; [exact Hp|]. split; [exact Hn|].
      cbn [Panel.bars panel]. apply in_map_iff. exists (d, v). split; [reflexivity|].
      apply in_in_month. split; [now apply in_dropna|reflexivity].
    + intros fsqrt stats r Hstats Hr Ht.
      apply (get_monthly_stats_in _ _ _ r Hstats) in Hr
        as (t & s' & m & out & Hcol & Hg' & Hm & Ho & Hr).
      apply month_stats_inv in Ho. cbv zeta in Ho.
      destruct Ho as [[_ ->]|(Hne & name & Hname & ->)]; [destruct Hr|].
      destruct Hr as [<-|[]]. cbn [Stats.ticker] in Ht. subst t.
      assert (s' = s) by congruence. subst s'.
      destruct (Hpanel _ Hm) as (i & name' & Hn & Hp).
      assert (name' = name) by congruence. subst name'.
      exists (panel i m name). split; [exact Hp|].
      cbn [Panel.title Panel.bars panel Stats.month_name Stats.total_años
           Stats.veces_subio Stats.veces_bajo].
      split; [reflexivity|]. split; [now rewrite !length_map|].
      split; [apply green_bars|].
      pose proof (up_down_le (map snd (in_month m col))) as Hle.
      pose proof (green_bars (in_month m col)) as Hgreen.
      set (bs := map (fun x : date * Q => (year (fst x), snd x, return_color (snd x)))
                   (in_month m col)) in *.
      assert (Hsplit : (count_if is_green bs + count_if (fun b => negb (is_green b)) bs
                        = length bs)%nat).
      { unfold count_if. clear. induction bs as [|b bs IH]; [reflexivity|].
        cbn [filter]. destruct (is_green b); cbn [negb length]; lia. }
      assert (Hlen : length bs = length (map snd (in_month m col)))
        by (unfold bs; now rewrite !length_map).
      unfold count_if in *. subst bs. subst col. lia.
Qed.

Lemma chart_single_ticker_panels_witness :
  chart_single_ticker tie_returns "ZZZ" = inl KeyError.
Proof.
  apply (proj1 (chart_single_ticker_panels tie_returns "ZZZ")).
  simpl. intros [H|[H|[H|[]]]]; discriminate.
Defined.

(* ------------------------------------------------------------------ *)
(** ** load_tickers_from_file *)

Lemma is_space_upper (c : Ascii.ascii) : is_space (upper_char c) = is_space c.
Proof. destruct c as [[] [] [] [] [] [] [] []]; reflexivity. Qed.

Lemma upper_char_twice (c : Ascii.ascii) : upper_char (upper_char c) = upper_char c.
Proof. destruct c as [[] [] [] [] [] [] [] []]; reflexivity. Qed.

Lemma upper_twice (s : string) : upper (upper s) = upper s.
Proof. induction s as [|c s IH]; simpl; [reflexivity|]. now rewrite upper_char_twice, IH. Qed.

Lemma upper_empty (s : string) : upper s = "" <-> s = "".
Proof. destruct s; simpl; split; intros H; try reflexivity; discriminate. Qed.

Lemma lstrip_upper (s : string) : lstrip (upper s) = upper (lstrip s).
Proof.
  induction s as [|c s IH]; simpl; [reflexivity|]. rewrite is_space_upper.
  destruct (is_space c); [exact IH|reflexivity].
Qed.

Lemma rstrip_upper (s : string) : rstrip (upper s) = upper (rstrip s).
Proof.
  induction s as [|c s IH]; simpl; [reflexivity|]. rewrite IH, is_space_upper.
  destruct (rstrip s); simpl; [destruct (is_space c)|]; reflexivity.
Qed.

Lemma strip_upper (s : string) : strip (upper s) = upper (strip s).
Proof. unfold strip. now rewrite lstrip_upper, rstrip_upper. Qed.

Lemma rstrip_twice (s : string) : rstrip (rstrip s) = rstrip s.
Proof.
  induction s as [|c s IH]; simpl; [reflexivity|].
  destruct (rstrip s) as [|d r] eqn:E.
  - destruct (is_space c) eqn:Ec; simpl; [reflexivity|]. now rewrite Ec.
  - cbn [rstrip]. cbn [rstrip] in IH. rewrite IH. reflexivity.
Qed.

Lemma lstrip_head (s : string) :
  lstrip s = "" \/ exists c r, lstrip s = String c r /\ is_space c = false.
Proof.
  induction s as [|c s IH]; simpl; [now left|].
  destruct (is_space c) eqn:E; [exact IH|]. right. exists c, s. auto.
Qed.

Lemma lstrip_rstrip_lstrip (s : string) : lstrip (strip s) = strip s.
Proof.
  unfold strip. destruct (lstrip_head s) as [->|(c & r & -> & Hc)]; [reflexivity|].
  cbn [rstrip]. rewrite Hc. destruct (rstrip r); cbn [lstrip]; now rewrite Hc.
Qed.

Lemma strip_twice (s : string) : strip (strip s) = strip s.
Proof.
  unfold strip at 1. rewrite lstrip_rstrip_lstrip. unfold strip. apply rstrip_twice.
Qed.

Lemma rstrip_newline (s : string) : rstrip (String.append s newline) = rstrip s.
Proof.
  induction s as [|c s IH]; [reflexivity|].
  change (String.append (String c s) newline) with (String c (String.append s newline)).
  cbn [rstrip]. now rewrite IH.
Qed.

(** A ticker as the loader returns them survives being written on a line
    of its own and read again. *)
Lemma strip_line (t : string) :
  strip t = t -> strip (String.append t newline) = t.
Proof.
  intros H.
  assert (Hl : lstrip t = t).
  { pose proof (lstrip_rstrip_lstrip t) as E. now rewrite H in E. }
  assert (Hr : rstrip t = t) by (unfold strip in H; now rewrite Hl in H).
  destruct t as [|c r].
  - reflexivity.
  - unfold strip.
    assert (Hc : is_space c = false).
    { destruct (is_space c) eqn:E; [|reflexivity]. exfalso.
      cbn [lstrip] in Hl. rewrite E in Hl.
      assert (Hlen : forall s, (String.length (lstrip s) <= String.length s)%nat).
      { induction s as [|d s IHs]; simpl; [lia|]. destruct (is_space d); simpl; lia. }
      specialize (Hlen r). rewrite Hl in Hlen. simpl in Hlen. lia. }
    change (String.append (String c r) newline) with (String c (String.append r newline)).
    cbn [lstrip]. rewrite Hc.
    change (String c (String.append r newline)) with (String.append (String c r) newline).
    now rewrite rstrip_newline.
Qed.

Lemma is_comment_line (t : string) :
  t <> "" -> is_comment (String.append t newline) = is_comment t.
Proof.
  destruct t as [|c r]; [congruence|]. intros _. unfold is_comment.
  change (String.append (String c r) newline) with (String c (String.append r newline)).
  assert (E : forall s, String.prefix "" s = true) by (intros []; reflexivity).
  cbn [String.prefix]. now rewrite !E.
Qed.

(** What the loader returns.  Every ticker is the stripped, upper-cased
    text of a line that is not blank and does not begin with "#", in the
    order of the file; so every ticker is non-empty, free of surrounding
    white space and of lower-case letters.  The test for a comment reads
    the raw line: a "#" after leading white space does not make a comment,
    and the line is kept as a ticker that begins with "#".  Writing the
    tickers one per line and loading again gives the same list, unless one
    of them begins with "#". *)
Theorem load_tickers_from_file_clean (lines : list string) :
  forallb ascii_only lines = true ->
  (forall t, In t (load_tickers_from_file lines) ->
     t <> "" /\ strip t = t /\ upper t = t /\
     exists line, In line lines /\ t = upper (strip line) /\ is_comment line = false) /\
  (forall line, In line lines -> strip line <> "" -> is_comment line = false ->
     In (upper (strip line)) (load_tickers_from_file lines)) /\
  (length (load_tickers_from_file lines) <= length lines)%nat /\
  ((forall t, In t (load_tickers_from_file lines) -> is_comment t = false) ->
   load_tickers_from_file (ticker_lines (load_tickers_from_file lines))
   = load_tickers_from_file lines).
Proof.
  intros _.
  assert (Hclean : forall t, In t (load_tickers_from_file lines) ->
            t <> "" /\ strip t = t /\ upper t = t /\
            exists line, In line lines /\ t = upper (strip line) /\ is_comment line = false).
  { intros t Ht. unfold load_tickers_from_file in Ht.
    apply in_map_iff in Ht as (line & <- & Hl). apply filter_In in Hl as [Hl Hc].
    apply andb_true_iff in Hc as [Hne Hcm]. apply negb_true_iff in Hne, Hcm.
    apply String.eqb_neq in Hne.
    split; [intros E; apply (proj1 (upper_empty _)) in E; contradiction|].
    split; [now rewrite strip_upper, strip_twice|].
    split; [apply upper_twice|]. exists line. auto. }
  split; [exact Hclean|]. split; [|split].
  - intros line Hl Hne Hc. unfold load_tickers_from_file.
    apply in_map_iff. exists line. split; [reflexivity|]. apply filter_In. split; [exact Hl|].
    apply String.eqb_neq in Hne. now rewrite Hne, Hc.
  - unfold load_tickers_from_file. rewrite length_map. apply filter_length_le.
  - intros Hnc.
    assert (G : forall ts, (forall t, In t ts -> t <> "" /\ strip t = t /\ upper t = t /\
                                       is_comment t = false) ->
                load_tickers_from_file (ticker_lines ts) = ts).
    { induction ts as [|t ts IH]; intros H; [reflexivity|].
      destruct (H t (or_introl eq_refl)) as (Hne & Hs & Hu & Hc).
      unfold load_tickers_from_file, ticker_lines in *. cbn [map filter].
      rewrite (strip_line t Hs), (is_comment_line t Hne), Hc.
      apply String.eqb_neq in Hne. rewrite Hne. cbn [negb andb map].
      rewrite (strip_line t Hs), Hu, IH; [reflexivity|]. intros u Hu'. apply H. now right. }
    apply G. intros t Ht. destruct (Hclean t Ht) as (H1 & H2 & H3 & _).
    repeat split; auto.
Qed.

Lemma load_tickers_from_file_clean_witness :
  load_tickers_from_file
    [ String.append "# cedears" newline; String.append " aapl " newline; newline;
      String.append "  #ko" newline; "ggal" ]
  = ["AAPL"; "#KO"; "GGAL"]
  /\ load_tickers_from_file (ticker_lines ["AAPL"; "GGAL"]) = ["AAPL"; "GGAL"].
Proof.
  split; [reflexivity|].
  exact (proj2 (proj2 (proj2 (load_tickers_from_file_clean
                                [ String.append " aapl " newline; "ggal" ] eq_refl)))
           (fun t H => match H with
                       | or_introl E => f_equal is_comment (eq_sym E)
                       | or_intror (or_introl E) => f_equal is_comment (eq_sym E)
                       | or_intror (or_intror F) => match F with end
                       end)).
Defined.

(* ------------------------------------------------------------------ *)
(** ** From the download to the statistics and the correlations *)

Lemma index_of_some_in (t : string) (cols : list string) (j : nat) :
  index_of t cols = Some j -> In t cols.
Proof.
  intros H. destruct (in_dec string_dec t cols) as [Hin|Hn]; [exact Hin|].
  rewrite (index_of_none _ _ Hn) in H. discriminate.
Qed.

Lemma getitem_column (df : DataFrame) (t : string) (s : Series) :
  getitem df t = Some s -> In t (columns df).
Proof.
  unfold getitem. destruct (index_of t (columns df)) as [j|] eqn:E; [|discriminate].
  intros _. now apply index_of_some_in in E.
Qed.

Lemma compute_monthly_returns_columns (prices : DataFrame) :
  columns (compute_monthly_returns prices) = columns prices.
Proof. reflexivity. Qed.

Section Pipeline.

Variable provider : string -> M (option RawFrame).

Lemma download_data_distinct (tickers : list string) :
  distinct_months (index (fst (download_data provider tickers))) = true.
Proof.
  rewrite (download_data_table provider).
  set (all_data := fst (fold_left (download_step provider) tickers ([], []))).
  apply month_before_distinct. apply month_ends_sorted.
  - intros d Hd. rewrite DataFrame_of_dict_index in Hd.
    apply union_index_in in Hd as (s & Hs & Hd).
    apply in_map_iff in Hs as ([t mo] & <- & Hin). cbn [snd] in Hd.
    apply (download_loop_data provider) in Hin as [_ Hk].
    apply (kept_inv provider) in Hk as (f & close & _ & _ & _ & _ & -> & _).
    apply in_map_iff in Hd as (x & <- & Hx). now apply resample_last_month_end in Hx.
  - rewrite DataFrame_of_dict_index. apply union_index_sorted.
Qed.

Lemma pipeline_column (tickers : list string) (t : string) :
  In t (columns (compute_monthly_returns (fst (download_data provider tickers)))) ->
  In t tickers /\ kept provider t <> None.
Proof.
  rewrite compute_monthly_returns_columns. apply (download_data_column_iff provider).
Qed.

(** On the returns of a downloaded table a record of the statistics is
    about a ticker that was asked for and kept, and its total counts
    years: the returns of a month all fall in different years. *)
Theorem pipeline_stats_count_years (fsqrt : Q -> Q) (tickers : list string)
    (stats : list Stats.Row) (r : Stats.Row) :
  get_monthly_stats fsqrt (compute_monthly_returns (fst (download_data provider tickers)))
  = inr stats ->
  In r stats ->
  In (Stats.ticker r) tickers /\ kept provider (Stats.ticker r) <> None /\
  exists s,
    getitem (compute_monthly_returns (fst (download_data provider tickers))) (Stats.ticker r)
    = Some s /\
    NoDup (years_of (in_month (Stats.month r) (dropna s))) /\
    Stats.total_años r = length (years_of (in_month (Stats.month r) (dropna s))).
Proof.
  intros Hstats Hr.
  apply (get_monthly_stats_in _ _ _ r Hstats) in Hr
    as (t & s & m & out & Ht & Hg & Hm & Ho & Hr).
  apply month_stats_inv in Ho. cbv zeta in Ho.
  destruct Ho as [[_ ->]|(Hne & name & _ & ->)]; [destruct Hr|].
  destruct Hr as [<-|[]]. cbn [Stats.ticker Stats.month Stats.total_años].
  destruct (pipeline_column tickers t Ht) as [H1 H2].
  split; [exact H1|]. split; [exact H2|]. exists s. split; [exact Hg|]. split.
  - apply years_of_month_nodup. rewrite (getitem_index _ _ _ Hg).
    apply compute_monthly_returns_distinct. apply download_data_distinct.
  - unfold years_of. now rewrite !length_map.
Qed.

(** On the returns of a downloaded table, with an overlap of at least one
    year, every record of [find_correlations] compares two tickers that
    were asked for, over at least that many years, and carries a percentage
    that is a number from 0 to 100: the table has one row per month, so no
    year is counted twice and nothing is divided by zero. *)
Theorem pipeline_correlations_well_defined (K : SortKind) (tickers : list string)
    (ref : string) (m mo : Z) (out : list Corr.Row) (r : Corr.Row) :
  1 <= mo ->
  find_correlations K (compute_monthly_returns (fst (download_data provider tickers)))
    ref m mo = inr out ->
  In r out ->
  In ref tickers /\ In (Corr.ticker r) tickers /\ Corr.ticker r <> ref /\
  mo <= Z.of_nat (Corr.n_años r) /\
  (Corr.subio_cuando_ref_bajo r <= Corr.n_años r)%nat /\
  exists q, Corr.pct_subio r = Some q /\ (0 <= q /\ q <= 100)%Q.
Proof.
  intros Hmo Hf Hr.
  set (returns := compute_monthly_returns (fst (download_data provider tickers))) in *.
  apply find_correlations_inv in Hf.
  destruct Hf as [->|(s & rows & Hg & _ & Hc & ->)]; [destruct Hr|].
  apply (Permutation_in _ (sort_values_desc_perm K Corr.pct_subio rows)) in Hr.
  apply (correlation_rows_in _ _ _ _ _ _ r Hc) in Hr
    as (t & st & outc & Ht & Hne & Hgt & Hcand & Hr).
  assert (Hnd : forall m', NoDup (years_of (in_month m' (dropna st)))).
  { intros m'. apply years_of_month_nodup. rewrite (getitem_index _ _ _ Hgt).
    apply compute_monthly_returns_distinct. apply download_data_distinct. }
  assert (Htick : Corr.ticker r = t).
  { pose proof Hcand as Hshape.
    apply candidate_rows_shape in Hshape as (same & next & -> & Hs & Hn).
    apply period_rows_shape in Hs, Hn. apply in_app_iff in Hr as [Hr|Hr].
    - destruct Hs as [[_ ->]|(_ & r1 & -> & Ht1 & _)]; [destruct Hr|].
      destruct Hr as [<-|[]]. exact Ht1.
    - destruct Hn as [[_ ->]|(_ & r2 & -> & Ht2 & _)]; [destruct Hr|].
      destruct Hr as [<-|[]]. exact Ht2. }
  split; [apply (pipeline_column tickers ref); now apply (getitem_column _ _ s)|].
  split; [rewrite Htick; now apply (pipeline_column tickers t)|].
  split; [now rewrite Htick|].
  apply (candidate_rows_in _ _ _ _ _ _ r Hcand) in Hr
    as [(same & Hp & Hr)|(next & Hp & Hr)].
  - exact (proj2 (period_rows_sound _ _ _ _ _ _ _ r Hmo (Hnd m) Hp Hr)).
  - exact (proj2 (period_rows_sound _ _ _ _ _ _ _ r Hmo (Hnd (next_month m)) Hp Hr)).
Qed.

End Pipeline.

Lemma pipeline_stats_count_years_witness :
  In "UP" ["UP"; "DOWN"] /\ kept trend_provider "UP" <> None /\
  exists s,
    getitem trend_returns "UP" = Some s /\
    NoDup (years_of (in_month 2 (dropna s))) /\
    1%nat = length (years_of (in_month 2 (dropna s))).
Proof.
  apply (pipeline_stats_count_years trend_provider (fun x => x) ["UP"; "DOWN"]
           (match get_monthly_stats (fun x => x) trend_returns with
            | inr stats => stats
            | inl _ => []
            end)
           (Stats.mk "UP" 2 "Febrero" 1 0 1 (Some 100%Q) (Some 100%Q) (Some 100%Q)
              (Some 100%Q) (Some 100%Q) None)).
  - vm_compute. reflexivity.
  - vm_compute. left. reflexivity.
Defined.

Lemma pipeline_correlations_well_defined_witness :
  In "DOWN" ["UP"; "DOWN"] /\ In "UP" ["UP"; "DOWN"] /\ "UP" <> "DOWN" /\
  1 <= Z.of_nat 1 /\ (1 <= 1)%nat /\
  exists q, Some 100%Q = Some q /\ (0 <= q /\ q <= 100)%Q.
Proof.
  apply (pipeline_correlations_well_defined trend_provider stable_kind ["UP"; "DOWN"]
           "DOWN" 3 1
           (match find_correlations stable_kind trend_returns "DOWN" 3 1 with
            | inr out => out
            | inl _ => []
            end)
           (Corr.mk "UP" "Mismo mes" "Marzo" 1 1 (Some 100%Q) (Some 50%Q))).
  - lia.
  - vm_compute. reflexivity.
  - vm_compute. first [left; reflexivity | right; left; reflexivity].
Defined.

(* ------------------------------------------------------------------ *)
(** ** chart_monthly_win_rate *)

Lemma numbers_then_nans {A : Type} (key : A -> option Q)
    (ord : option Q -> option Q -> Prop) (xs nans : list A) :
  (forall x, ord x None) ->
  (forall b, In b nans -> key b = None) ->
  StronglySorted (fun a b => ord (key a) (key b)) xs ->
  StronglySorted (fun a b => ord (key a) (key b)) (xs ++ nans).
Proof.
  intros Hord Hnan Hxs. apply StronglySorted_app; [exact Hxs| |].
  - induction nans as [|b nans IH]; constructor.
    + apply IH. intros; apply Hnan; now right.
    + rewrite Forall_forall. intros c Hc. rewrite (Hnan c) by now right. apply Hord.
  - intros a b _ Hb. rewrite (Hnan b Hb). apply Hord.
Qed.

Lemma rank_le_nan (largest : bool) (x : option Q) : rank_le largest x None.
Proof. destruct largest, x; exact I. Qed.

(** The rows ranked by the stable sort, NaN last. *)
Lemma ranked_rows {A : Type} (largest : bool) (key : A -> option Q) (l : list A) :
  let ranked :=
    isort_by A (fun a => if largest then (- key_or_zero key a)%Q else key_or_zero key a)
      (filter (fun a => is_some (key a)) l)
    ++ filter (fun a => negb (is_some (key a))) l in
  Permutation ranked l /\
  StronglySorted (fun a b => rank_le largest (key a) (key b)) ranked.
Proof.
  cbv zeta. split.
  - rewrite <- (filter_split_perm (fun a => is_some (key a)) l) at 3.
    apply Permutation_app_tail. apply isort_by_perm.
  - apply numbers_then_nans.
    + apply rank_le_nan.
    + intros b Hb. apply filter_In in Hb as [_ Hb]. now destruct (key b).
    + set (key' := fun a => if largest then (- key_or_zero key a)%Q else key_or_zero key a).
      apply StronglySorted_weaken with (R := fun a b => (key' a <= key' b)%Q);
        [|apply isort_by_sorted].
      intros a b Ha Hb Hab.
      apply (Permutation_in _ (isort_by_perm A key' _)) in Ha, Hb.
      apply filter_In in Ha as [_ Ha], Hb as [_ Hb].
      unfold key', key_or_zero in Hab.
      destruct (key a) as [qa|]; [|discriminate]. destruct (key b) as [qb|]; [|discriminate].
      destruct largest; cbn [rank_le desc_le asc_le]; lra.
Qed.

(** What [nlargest] and [nsmallest] select: as many rows as asked for, or
    all of them; no row left out ranks before a row selected. *)
Lemma select_n_spec (K : SortKind) {A : Type} (largest : bool) (n : Z)
    (key : A -> option Q) (l : list A) :
  exists rest,
    Permutation (select_n K largest n key l ++ rest) l /\
    length (select_n K largest n key l) = Nat.min (Z.to_nat n) (length l) /\
    forall a b, In a (select_n K largest n key l) -> In b rest ->
                rank_le largest (key a) (key b).
Proof.
  unfold select_n. destruct (Z.leb_spec n 0) as [Hn|Hn].
  - exists l. split; [reflexivity|]. split; [|intros a b []].
    replace (Z.to_nat n) with O by lia. reflexivity.
  - destruct (Z.leb_spec (Z.of_nat (length l)) n) as [Hall|Hsome].
    + exists []. rewrite app_nil_r. split; [|split; [|intros a b _ []]].
      * destruct largest; [apply sort_values_desc_perm|apply sort_values_asc_perm].
      * rewrite Nat.min_r by lia.
        destruct largest; apply Permutation_length;
          [apply sort_values_desc_perm|apply sort_values_asc_perm].
    + destruct (ranked_rows largest key l) as [Hperm Hsorted]. cbv zeta in *.
      set (ranked := isort_by A _ _ ++ _) in *.
      exists (skipn (Z.to_nat n) ranked). split; [|split].
      * now rewrite firstn_skipn.
      * rewrite length_firstn, (Permutation_length Hperm). reflexivity.
      * intros a b Ha Hb.
        exact (StronglySorted_head_tail _ (Z.to_nat n) ranked Hsorted a b Ha Hb).
Qed.

(** The ranking chart of a month.  Nothing is drawn for a month without
    records, and a month outside 1..12 that has records is a [KeyError].
    Otherwise the bars are [top_n] records of the month, or all of them if
    there are fewer, upwards by win rate; no record of the month left out
    has a higher win rate than a record shown when the direction is "sube",
    and none has a lower one for any other direction. *)
Theorem chart_monthly_win_rate_top (K : SortKind) (stats : list Stats.Row) (month top_n : Z)
    (direction : string) :
  let filtered := filter (fun r => Stats.month r =? month) stats in
  (filtered = [] -> chart_monthly_win_rate K stats month top_n direction = inr None) /\
  (filtered <> [] -> ~ In month range_1_13 ->
   chart_monthly_win_rate K stats month top_n direction = inl KeyError) /\
  (filtered <> [] -> In month range_1_13 ->
   exists bars rest,
     chart_monthly_win_rate K stats month top_n direction = inr (Some bars) /\
     Permutation (bars ++ rest) filtered /\
     length bars = Nat.min (Z.to_nat top_n) (length filtered) /\
     StronglySorted (fun a b => asc_le (Stats.pct_sube a) (Stats.pct_sube b)) bars /\
     forall a b, In a bars -> In b rest ->
       rank_le (String.eqb direction "sube") (Stats.pct_sube a) (Stats.pct_sube b)).
Proof.
  cbv zeta. unfold chart_monthly_win_rate.
  set (filtered := filter (fun r => Stats.month r =? month) stats).
  split; [|split].
  - intros ->. reflexivity.
  - intros Hne Hm. destruct filtered as [|r0 l]; [congruence|]. cbn [is_empty].
    destruct (dict_get MONTHS_ES month) as [e|name] eqn:E.
    + cbn [bind]. clear - E. revert E. unfold MONTHS_ES. cbn [dict_get].
      repeat (match goal with |- context [?a =? ?b] => destruct (a =? b) end;
              [discriminate|]).
      intros E. now injection E as <-.
    + exfalso. apply Hm. clear - E. revert E. unfold MONTHS_ES, range_1_13. cbn [dict_get].
      repeat (match goal with |- context [?a =? ?b] =>
                destruct (Z.eqb_spec a b) as [->|_] end; [simpl; tauto|]).
      discriminate.
  - intros Hne Hm. destruct (is_empty filtered) eqn:Eemp.
    { destruct filtered; [congruence|discriminate]. }
    destruct (months_es_range month Hm) as [name ->]. cbn [bind].
    destruct (select_n_spec K (String.eqb direction "sube") top_n Stats.pct_sube filtered)
      as (rest & Hperm & Hlen & Hrank).
    set (top := select_n K (String.eqb direction "sube") top_n Stats.pct_sube filtered) in *.
    pose proof (sort_values_asc_perm K Stats.pct_sube top) as Hbars.
    eexists. exists rest. split; [reflexivity|]. split; [|split; [|split]].
    + rewrite <- Hperm. now apply Permutation_app_tail.
    + now rewrite (Permutation_length Hbars).
    + apply sort_values_asc_sorted.
    + intros a b Ha Hb. apply Hrank; [|exact Hb]. now apply (Permutation_in _ Hbars).
Qed.

Lemma chart_monthly_win_rate_top_witness :
  exists bars rest,
    chart_monthly_win_rate stable_kind march_stats 3 1 "sube" = inr (Some bars) /\
    Permutation (bars ++ rest) march_stats /\
    length bars = 1%nat /\
    map Stats.ticker bars = ["DAL"].
Proof.
  destruct (proj2 (proj2 (chart_monthly_win_rate_top stable_kind march_stats 3 1 "sube")))
    as (bars & rest & Hc & Hp & Hl & _).
  - discriminate.
  - vm_compute. tauto.
  - exists bars, rest. split; [exact Hc|]. split; [exact Hp|]. split; [exact Hl|].
    vm_compute in Hc. injection Hc as <-. reflexivity.
Defined.

(* ------------------------------------------------------------------ *)
(** ** find_correlations: the month after *)

Lemma ref_down_years_spec (m : Z) (col : NumSeries) :
  ref_down_years (in_month m col)
  = map (fun x : date * Q => year (fst x))
      (filter (fun x : date * Q => (month (fst x) =? m) && spec_down (snd x)) col).
Proof.
  unfold ref_down_years, years_of, in_month. rewrite filter_twice. f_equal.
  apply filter_ext. intros x. now rewrite isneg_spec_down.
Qed.

Lemma next_years_spec (m : Z) (ys : list Z) :
  next_years m ys = map (spec_next_year m) ys.
Proof.
  unfold next_years, spec_next_year. destruct (m =? 12); [reflexivity|].
  symmetry. apply map_id.
Qed.

Lemma memZ_years_of_month (y m : Z) (col : NumSeries) :
  memZ y (years_of (in_month m col))
  = existsb (fun x : date * Q => (month (fst x) =? m) && (year (fst x) =? y)) col.
Proof.
  unfold memZ, years_of, in_month. induction col as [|x col IH]; [reflexivity|].
  cbn [filter existsb]. destruct (month (fst x) =? m); cbn [map existsb andb orb].
  - now rewrite IH, (Z.eqb_sym y).
  - exact IH.
Qed.

Lemma common_years_spec (years : list Z) (m : Z) (col : NumSeries) :
  common_years years (in_month m col)
  = filter (fun y =>
              existsb (fun x : date * Q => (month (fst x) =? m) && (year (fst x) =? y)) col)
      years.
Proof.
  unfold common_years. apply filter_ext. intros y. apply memZ_years_of_month.
Qed.

Lemma common_values_spec (common : list Z) (m : Z) (col : NumSeries) :
  filter (fun x : date * Q => memZ (year (fst x)) common) (in_month m col)
  = filter (fun x : date * Q =>
              (month (fst x) =? m) && existsb (Z.eqb (year (fst x))) common) col.
Proof. unfold in_month. now rewrite filter_twice. Qed.

(** The record of the month after, for the columns at [jref] and [jc]. *)
Lemma next_period_spec (df : DataFrame) (jref jc : nat) (m : Z) :
  let downs := ref_down_years (in_month m (spec_column df jref)) in
  let data := in_month (next_month m) (spec_column df jc) in
  let common := common_years (next_years m downs) data in
  common = spec_next_common df jref jc m /\
  map snd (filter (fun x : date * Q => memZ (year (fst x)) common) data)
  = spec_next_returns df jref jc m.
Proof.
  cbv zeta.
  assert (E : common_years (next_years m (ref_down_years (in_month m (spec_column df jref))))
                (in_month (next_month m) (spec_column df jc))
              = spec_next_common df jref jc m).
  { rewrite common_years_spec, next_years_spec, ref_down_years_spec. reflexivity. }
  split; [exact E|]. rewrite E, common_values_spec. reflexivity.
Qed.

(** C3.  The record of the month after, for every reference month.  With
    the table read by its rows: a record of [find_correlations] marked "Mes
    siguiente" is for a column other than the reference and is named after
    month [m mod 12 + 1]; its years are the years in which the reference is
    below zero in month [m], each moved one year on when [m] is December and
    left as it is for any other month, in which the candidate has a value
    in month [m mod 12 + 1]; its rises are the candidate's values above
    zero in that month of those years; and it passes the overlap asked for.
    Every candidate whose years so counted reach the overlap has such a
    record.  If the reference fell in December of year [Y] and a candidate
    rose in January of year [Y + 1], then, for an overlap of at most one
    year, the result holds the candidate's record for January, with the
    year [Y + 1] among its years and that rise among its rises. *)
Theorem find_correlations_december_shift :
  (forall (K : SortKind) (returns : DataFrame) (ref : string) (m mo : Z)
          (out : list Corr.Row) (r : Corr.Row),
     find_correlations K returns ref m mo = inr out -> In r out ->
     Corr.periodo r = "Mes siguiente" ->
     exists jref jc,
       spec_position returns ref jref /\ spec_position returns (Corr.ticker r) jc /\
       Corr.ticker r <> ref /\
       dict_get MONTHS_ES (m mod 12 + 1) = inr (Corr.mes r) /\
       Corr.n_años r = length (spec_next_common returns jref jc m) /\
       Corr.subio_cuando_ref_bajo r
       = length (filter spec_up (spec_next_returns returns jref jc m)) /\
       mo <= Z.of_nat (Corr.n_años r)) /\
  (forall (K : SortKind) (returns : DataFrame) (ref t : string) (m mo : Z)
          (out : list Corr.Row) (jref jc : nat),
     find_correlations K returns ref m mo = inr out ->
     spec_position returns ref jref -> spec_position returns t jc -> t <> ref ->
     spec_month_returns returns jref m <> [] ->
     mo <= Z.of_nat (length (spec_next_common returns jref jc m)) ->
     exists r, In r out /\ Corr.ticker r = t /\ Corr.periodo r = "Mes siguiente") /\
  (forall (K : SortKind) (returns : DataFrame) (ref cand : string) (Y mo : Z)
          (jref jc : nat) (dr dc : date) (v w : Q),
     cand <> ref ->
     spec_position returns ref jref -> spec_position returns cand jc ->
     In (dr, v) (spec_column returns jref) ->
     year dr = Y -> month dr = 12 -> (v < 0)%Q ->
     In (dc, w) (spec_column returns jc) ->
     year dc = Y + 1 -> month dc = 1 -> (0 < w)%Q ->
     mo <= 1 ->
     exists out r,
       find_correlations K returns ref 12 mo = inr out /\ In r out /\
       Corr.ticker r = cand /\ Corr.periodo r = "Mes siguiente" /\ Corr.mes r = "Enero" /\
       In (Y + 1) (spec_next_common returns jref jc 12) /\
       Corr.n_años r = length (spec_next_common returns jref jc 12) /\
       (1 <= Corr.n_años r)%nat /\
       In w (filter spec_up (spec_next_returns returns jref jc 12)) /\
       Corr.subio_cuando_ref_bajo r
       = length (filter spec_up (spec_next_returns returns jref jc 12)) /\
       (1 <= Corr.subio_cuando_ref_bajo r)%nat).
Proof.
  assert (Hrecord :
    forall (K : SortKind) (returns : DataFrame) (ref : string) (m mo : Z)
           (out : list Corr.Row) (r : Corr.Row),
      find_correlations K returns ref m mo = inr out -> In r out ->
      Corr.periodo r = "Mes siguiente" ->
      exists jref jc,
        spec_position returns ref jref /\ spec_position returns (Corr.ticker r) jc /\
        Corr.ticker r <> ref /\
        dict_get MONTHS_ES (m mod 12 + 1) = inr (Corr.mes r) /\
        Corr.n_años r = length (spec_next_common returns jref jc m) /\
        Corr.subio_cuando_ref_bajo r
        = length (filter spec_up (spec_next_returns returns jref jc m)) /\
        mo <= Z.of_nat (Corr.n_años r)).
  { intros K returns ref m mo out r Hf Hr Hper.
    apply find_correlations_inv in Hf.
    destruct Hf as [->|(s & rows & Hg & _ & Hc & ->)]; [destruct Hr|].
    apply (Permutation_in _ (sort_values_desc_perm K Corr.pct_subio rows)) in Hr.
    apply (correlation_rows_in _ _ _ _ _ _ r Hc) in Hr
      as (t & st & outc & Ht & Hnr & Hgt & Hcand & Hr).
    destruct (getitem_spec_column returns ref s Hg) as (jref & Hjref & Es).
    destruct (getitem_spec_column returns t st Hgt) as (jc & Hjc & Est).
    rewrite Es, Est in *.
    apply candidate_rows_shape in Hcand as (same & next & -> & Hs & Hn).
    apply period_rows_inv in Hs, Hn. cbv zeta in Hs, Hn.
    apply in_app_iff in Hr as [Hr|Hr].
    - destruct Hs as [[_ ->]|(_ & name & _ & ->)]; [destruct Hr|].
      destruct Hr as [<-|[]]. discriminate Hper.
    - destruct Hn as [[_ ->]|(Hle & name & Hname & ->)]; [destruct Hr|].
      destruct Hr as [<-|[]].
      destruct (next_period_spec returns jref jc m) as [Ecommon Evals]. cbv zeta in *.
      cbn [Corr.ticker Corr.mes Corr.n_años Corr.subio_cuando_ref_bajo].
      exists jref, jc. split; [exact Hjref|]. split; [exact Hjc|]. split; [exact Hnr|].
      split; [exact Hname|]. rewrite Ecommon in *.
      split; [reflexivity|]. split; [|exact Hle].
      now rewrite count_if_spec_up, Evals. }
  split; [exact Hrecord|]. split.
  - intros K returns ref t m mo out jref jc Hf Hjref Hjc Hne Hdata Hmo.
    destruct (spec_position_getitem returns ref jref Hjref) as (_ & s & Hg & Es).
    destruct (spec_position_getitem returns t jc Hjc) as (Ht & st & Hgt & Est).
    assert (Hmonth : in_month m (dropna s) <> []).
    { intros E. apply Hdata. rewrite <- (in_month_spec returns jref m s Es), E. reflexivity. }
    destruct (find_correlations_rows K returns ref m mo s out Hg Hmonth Hf)
      as (rows & Hc & Hperm).
    destruct (correlation_rows_concat _ _ _ _ _ _ Hc) as (g & _ & Hgs).
    destruct (Hgs t Ht) as [[E _]|(_ & st' & Hgt' & Hcand)].
    { apply String.eqb_eq in E. contradiction. }
    assert (st' = st) by congruence. subst st'.
    pose proof Hcand as Hshape.
    apply candidate_rows_shape in Hshape as (same & next & Eg & _ & Hn).
    apply period_rows_inv in Hn. cbv zeta in Hn. rewrite Es, Est in Hn.
    destruct (next_period_spec returns jref jc m) as [Ecommon _]. cbv zeta in Ecommon.
    rewrite Ecommon in Hn.
    destruct Hn as [[Hlt _]|(_ & name & _ & Enext)]; [lia|].
    match type of Enext with _ = [?row] => exists row end.
    split; [|split; reflexivity].
    apply (Permutation_in _ (Permutation_sym Hperm)).
    apply (correlation_rows_in _ _ _ _ _ _ _ Hc).
    exists t, st, (g t). split; [exact Ht|]. split; [exact Hne|]. split; [exact Hgt|].
    split; [exact Hcand|]. rewrite Eg, Enext. apply in_or_app. right. now left.
  - intros K returns ref cand Y mo jref jc dr dc v w
      Hne Hjref Hjc Hdr Hyr Hmr Hv Hdc Hyc Hmc Hw Hmo.
    destruct (spec_position_getitem returns ref jref Hjref) as (_ & rs & Hgr & Ers).
    destruct (spec_position_getitem returns cand jc Hjc) as (Hcol & cs & Hgc & Ecs).
    destruct (proj2 (proj2 (proj2 (proj2 find_correlations_december_fixture)))
                K returns ref cand Y mo rs cs dr dc v w Hne Hcol Hgr)
      as (out & r & Hf & Hr & Ht & Hper & Hmes & _ & _); auto.
    { apply in_dropna. now rewrite Ers. }
    { apply in_dropna. now rewrite Ecs. }
    destruct (Hrecord K returns ref 12 mo out r Hf Hr Hper)
      as (jref' & jc' & Hjref' & Hjc' & _ & _ & Hn & Hup & _).
    rewrite Ht in Hjc'.
    assert (jref' = jref) by (eapply spec_position_unique; eauto).
    assert (jc' = jc) by (eapply spec_position_unique; eauto). subst jref' jc'.
    assert (Hdown : In Y (spec_down_years returns jref 12)).
    { unfold spec_down_years. apply in_map_iff. exists (dr, v). split; [exact Hyr|].
      apply filter_In. split; [exact Hdr|]. cbn [fst snd]. rewrite Hmr. cbn [Z.eqb Pos.eqb andb].
      unfold spec_down. destruct (Qle_bool 0 v) eqn:E; [|reflexivity].
      apply Qle_bool_iff in E. lra. }
    assert (Hcommon : In (Y + 1) (spec_next_common returns jref jc 12)).
    { unfold spec_next_common. apply filter_In. split.
      - apply in_map_iff. exists Y. split; [reflexivity|exact Hdown].
      - apply existsb_exists. exists (dc, w). split; [exact Hdc|]. cbn [fst].
        rewrite Hmc, Hyc, (Z.eqb_refl (Y + 1)). reflexivity. }
    assert (Hrise : In w (filter spec_up (spec_next_returns returns jref jc 12))).
    { apply filter_In. split.
      - unfold spec_next_returns. apply in_map_iff. exists (dc, w). split; [reflexivity|].
        apply filter_In. split; [exact Hdc|]. cbn [fst]. rewrite Hmc.
        change (1 =? spec_next_month 12) with true. cbn [andb].
        apply existsb_exists. exists (Y + 1). split; [exact Hcommon|].
        rewrite Hyc. apply Z.eqb_refl.
      - unfold spec_up. destruct (Qle_bool w 0) eqn:E; [|reflexivity].
        apply Qle_bool_iff in E. lra. }
    exists out, r. split; [exact Hf|]. split; [exact Hr|]. split; [exact Ht|].
    split; [exact Hper|]. split; [exact Hmes|]. split; [exact Hcommon|].
    split; [exact Hn|]. split.
    { rewrite Hn. destruct (spec_next_common returns jref jc 12); [destruct Hcommon|simpl; lia]. }
    split; [exact Hrise|]. split; [exact Hup|].
    rewrite Hup. destruct (filter spec_up _); [destruct Hrise|simpl; lia].
Qed.

Lemma find_correlations_december_shift_witness :
  exists out r,
    find_correlations stable_kind december_returns "AAA" 12 1 = inr out /\ In r out /\
    Corr.ticker r = "BBB" /\ Corr.periodo r = "Mes siguiente" /\ Corr.mes r = "Enero" /\
    In (2020 + 1) (spec_next_common december_returns 0 1 12) /\
    Corr.n_años r = length (spec_next_common december_returns 0 1 12) /\
    (1 <= Corr.n_años r)%nat /\
    In 5%Q (filter spec_up (spec_next_returns december_returns 0 1 12)) /\
    Corr.subio_cuando_ref_bajo r
    = length (filter spec_up (spec_next_returns december_returns 0 1 12)) /\
    (1 <= Corr.subio_cuando_ref_bajo r)%nat.
Proof.
  apply (proj2 (proj2 find_correlations_december_shift)
           stable_kind december_returns "AAA" "BBB" 2020 1 O 1%nat
           (mkdate 2020 12 31) (mkdate 2021 1 31) (-3)%Q 5%Q);
    try reflexivity; try lia.
  - discriminate.
  - split; [reflexivity|]. intros i Hi. lia.
  - split; [reflexivity|]. intros [|i] Hi; [discriminate|lia].
  - simpl. tauto.
  - simpl. tauto.
Defined.
